(* ===== verification/_CoqProject ===== *)
-Q . S2P
Prelude.v
Floats.v
Contracts.v
TaskIndexes.v
TaskIndexSpec.v
TaskPool.v
TaskClaiming.v
TaskMerge.v
TaskPoolInv.v
TaskHistory.v
TaskStates.v
TaskPoolSafety.v
TaskPoolSweep.v
TaskCandidates.v
TaskSelection.v
TaskLeasing.v
TaskCounts.v
TaskPoolOps.v
TaskPoolSamples.v
TaskPoolTheorems.v
TaskTransitionTheorems.v
TaskDispatchTheorems.v
StateStore.v
StateTimeline.v
StateTheorems.v
Resources.v
ResourceManager.v
ResourceInv.v
ResourceHistory.v
ResourceTheorems.v
Logs.v
LogTheorems.v
ExecutionPolicy.v
PolicyTheorems.v
Plugins.v
Batches.v
WorkBatches.v
BatchTheorems.v
Registry.v
PlanChecks.v
RegistryTheorems.v
SurfaceTheorems.v
Runtime.v
ResultRouting.v
RunnerLoop.v
Reload.v
TaskPoolCalm.v
RuntimeInv.v
RuntimeCancel.v
RuntimeOps.v
RuntimeSamples.v
CompletionTheorems.v
ClaimTheorems.v
ReloadTheorems.v
CancelTargets.v
RuntimeTheorems.v
