(* ===== verification/Prelude.v ===== *)
(** * Mutsuki runtime core: a verification library

    Mutsuki is a plugin runtime.  Its core ([crates/mutsuki-runtime-core]) is a
    single-threaded actor, [CoreRuntime].  It owns the task pool (what is to be done,
    who does it under which lease), the state store (versioned values with a bounded
    history), the resource manager (descriptors of external resources, leases on
    them, packed values), the registry of runners (with the registries of earlier
    generations while they drain) and two bounded logs.  A scheduling pass claims
    ready tasks for each runner, groups them into batches and hands these out as
    dispatches; the completion of a dispatch is routed back onto the pool under the
    leases the dispatch was given; a reload swaps the registry for that of a new plan.
    Hosts, plugins and transports talk to the actor through the records of
    [crates/mutsuki-runtime-contracts].  This library models the whole core crate,
    the contract records it works on, and the execution policy crate.

    ** Program parts and files

    - [Prelude]: machine integers (saturating, wrapping, casts), results and panics,
      hash and B-tree containers, sorting, the hint database [mutsuki], and the list,
      map and integer lemmas the components share.  [Floats]: binary64 arithmetic.
    - Contracts, contracts/src.  [Contracts] has tasks, leases, runner descriptors,
      errors and dispatch budgets ([task.rs], [runner.rs], [batch/entry.rs],
      [error.rs], [common.rs]); [Plugins] manifests, provided surfaces and load plans
      ([plugin.rs], [extension.rs]); [Batches] work batches, payloads, results and
      completions ([batch/*.rs], [runner.rs]); [Resources] the resource records.
    - Task pool, core/src/task_pool.rs and task_pool/*.rs.
      [TaskIndexes] models indexes.rs: the eight incremental indexes and
      [update_record].  [TaskPool] models task_pool.rs, awaits.rs and
      transitions.rs: the record [TaskPool] has the fields of the struct, one
      definition per method.  [TaskClaiming] models claiming.rs and occupancy.rs:
      the merge of the ready queues ([visit_queues]), the selection under budgets
      and lanes, the claim, the load and occupancy reports.
      [TaskIndexSpec], [TaskMerge], [TaskPoolInv], [TaskHistory], [TaskStates],
      [TaskPoolSafety], [TaskPoolSweep], [TaskCandidates], [TaskSelection],
      [TaskLeasing] and [TaskCounts] hold the proofs: what each index holds, the
      merge as a walk over a sorted list, the invariant, history compaction, the
      state machine, each operation in turn, and the reference definition of the
      candidates of a runner.  [TaskPoolOps] closes the pool under its operations
      ([reachable]); [TaskPoolSamples] is a concrete history.
    - State store, core/src/state_store.rs.  [StateStore] models it; [StateTimeline]
      states the abstract store (a log of committed values per reference) and the
      relation between the two; [StateTheorems] proves the refinement.
    - Resource manager, core/src/resource_manager.rs and resource_manager/*.rs, with
      core/src/id.rs and contracts/src/resource/core.rs.  [Resources] has the
      records, the trait of id sources as the classes [IdSource] and [FreshIds] with
      their instance, [ResourceManager] the operations, [ResourceInv] the invariant,
      [ResourceHistory] the closure under the operations ([rm_reachable]).
    - Logs, core/src/logs.rs and trace.rs: [Logs], [LogTheorems].
    - Execution policy, crates/mutsuki-runtime-execution-policy: [ExecutionPolicy],
      [PolicyTheorems].
    - Registry, core/src/registry.rs.  [Registry] models the registry of runners and
      the handler bindings, [PlanChecks] the validation of a load plan and
      [compare_surfaces].  The traits [Runner] and [AsyncBatchHandler] are the class
      [RunnerTrait]: an instance may answer every call as it likes.
    - Runtime, core/src/runtime.rs and runtime/*.rs.  [WorkBatches] models
      runner_loop/batch.rs (dispatch groups, resource plans, batches).  [Runtime] has
      the record [CoreRuntime], the monad [M] of its operations (state, error and
      panic), boot, lifecycle, and the task and resource API (runtime.rs,
      task_api.rs, resource_api.rs, scheduler.rs).  [ResultRouting] models
      failure_reporting.rs, result_router.rs, completion_router.rs and kernel.rs;
      [RunnerLoop] the scheduling pass (runner_loop.rs, dispatch_selection.rs,
      dispatch_build.rs, executor.rs, trace_metadata.rs); [Reload] reload.rs and
      reload/*.rs.  [TaskPoolCalm] strengthens the pool's invariant with what the
      runtime adds (a pending cancellation belongs to a running task), [RuntimeInv]
      states the invariant of the runtime and the rules for its monad,
      [RuntimeCancel] treats the cancellation cascade, [RuntimeOps] every operation
      ([runtime_op], [rt_reachable]), [RuntimeSamples] a concrete run.

    ** Correspondence

    A struct is a record whose fields carry the source's names behind a short prefix
    ([tp_] for [TaskPool], [rec_] for [TaskRecord], [ss_] for [StateStore], [rm_] for
    [ResourceManager], [reg_] for [RunnerRegistry], [cr_] for [CoreRuntime]); an enum
    is an inductive type.  A method that takes [&mut self] takes the store and returns
    the one it leaves beside its answer, also when it fails, since some failing
    operations have changed something; in [M], an error keeps the changes made before
    it, as [?] does.  [Result] is [RuntimeResult]; a method that can reach an [expect]
    or runs a loop under fuel returns an [outcome], whose [Panic] stands for the abort
    (and for exhausted fuel).  [u64] and [usize] are [N], with saturating and wrapping
    arithmetic written out where the source asks for it; a plain [+] on a counter
    wraps, as in a release build.  Hash maps and B-trees are [gmap]s, B-tree iteration
    sorts the keys; the iteration over a hash map, whose order the language leaves
    open, is [map_to_list].  [Arc]s and clones are values.  A callback that keeps state
    of its own (the schedule decision) is a function of that state.

    Parameters: [Serde] ([serde_json]: the size of an encoding, the JSON of a local
    payload), [Decode] (typed readings of a payload) and [RunnerTrait]; they carry no
    laws, and the samples instantiate them with concrete functions.  [Layout] is the size
    of an event and of a span in memory, which the compiler chooses.

    [Vec::with_capacity] panics when the buffer would exceed [isize::MAX] bytes
    ([vec_with_capacity]): the selection of a claim and the two logs ask for a buffer of a
    size that comes from outside.  A buffer for as many elements as an existing collection
    has is taken to fit, and an allocator that runs out of memory is not modelled.

    ** Theorems

    - The runtime as a whole.  [RuntimeTheorems] (C1, C6, C12, C13, C14, C30): no
      sequence of calls corrupts it; cancelling ends on every wait graph; drain and
      abort are one way; completions write no state; batches are refused untouched
      or stored whole; [is_drained] is exact.  [CompletionTheorems] (C3): a completed
      dispatch lets go of its leases.  [ClaimTheorems] (C4): what a claim takes is in
      a dispatch within its bounds or ready again.  [ReloadTheorems] (C7): a
      reload switches everything or is refused untouched; and the runs behind five defects of
      the code (a targeted reload that loses the registry, and others).
      [CancelTargets] (C29): the targets of a cancellation.
    - [TaskPoolTheorems] (C2, C5, C9-C11), of every reachable pool: the task state
      machine; a lease that is no longer active is refused for ever; the invariant;
      the incremental indexes equal the rebuilt ones; an operation panics exactly when
      its selection buffer is too large.
    - [TaskTransitionTheorems] (C15-C17, C31-C33): which transitions a lease permits;
      what completion, reclaiming, waking, admission, retention, wait links, aborting
      and cancellation do, with both directions where a set of tasks is selected.
    - [TaskDispatchTheorems] (C18-C20): the walk of a runner visits exactly the
      eligible records; the heap merge is the sorted walk; budgets and lane budgets
      hold; claimed leases, counts and the next wake-up step are exact.
    - [StateTheorems] (C8, C34): the store refines the commit log over every sequence
      of operations; a commit can be rolled back; pruning and expectations are exact.
    - [ResourceTheorems] (C21, C22): cells are reader-writer locks; revoked leases and
      tokens are refused for ever; leases and packed values round-trip; descriptors
      never move back; invalidation is all or nothing.
    - [RegistryTheorems] (C23-C25, C35), [SurfaceTheorems] (C26): validated plans
      confine privilege; returned instances are fenced by generation; splitting and
      absorbing registries round-trips; binding lookup by binary search is complete;
      the comparison of contract surfaces is exact.
    - [BatchTheorems] (C27, C28): conflicting writes of a batch are serialised; its
      plan is a partition that keeps every demanded order.
    - [LogTheorems] (C36-C38), [PolicyTheorems] (C39, C40): logs account for every
      record, following pages ends and misses nothing, the closure check of spans is
      exact; variant selection is optimal and profiles are exact.

    Theorems about reachable stores carry witnesses: a concrete history, evaluated.

    ** Bounds and fuel

    [visit_queues] has the number of queued keys as fuel, [compact_loop] the square
    of the history length plus one (each examined entry either leaves or is counted
    as protected), the trimming of the eviction window its length, the QoS loop the
    number of candidates left plus one; C11 shows that no fuel runs out.  [bisect_loop]
    has the length of the slice, which each turn halves.
    [cancel_cascade] has the number of stored tasks plus one: the recursion enters a
    task only while it is open and closes it, or requests its cancellation, before it
    descends; [targets_loop] has the number of wait links plus one, since each link is
    pushed at most once; C6 and C29 show that both suffice.  [chunks] has the length
    of the list.  The histories assume what callers guarantee: a runner descriptor
    lists a protocol once (the registry sorts and dedups them), fewer than 2^64
    records, commits and minted ids, and lease expiries within 64 bits.  The panics C1
    admits are a hash map at its capacity limit (the model lets it grow to 2^64 records,
    the real one gives up earlier), a local payload whose serialization fails, and a
    selection buffer that is too large.

    ** Not modelled

    Portability checkpoints, wire formats, link transport, plugin loader and host
    (threads, processes, dynamic loading), SDK, kits, plugins and products.  Of the
    modelled files: plain accessors, [Debug], [serde] and conversion implementations,
    the future an async handler returns (the core never polls it), and the kernel's
    placeholder runner.  Planned next: portability
    records and the wire codecs, then the host's scheduling and scope bookkeeping. *)
From stdpp Require Export base tactics numbers strings list gmap fin_maps sorting pretty.
From Stdlib Require Export Lia.

(** ** Scope and notations of the development *)

Declare Scope mutsuki_scope.
Delimit Scope mutsuki_scope with mutsuki.
#[global] Open Scope mutsuki_scope.

(** ** Machine integers

    [u64] and [usize] values are [N]; the target has 64-bit words.  The three
    arithmetic modes of the source are written out. *)

Definition u64_max : N := 18446744073709551615.
Definition u64_modulus : N := 18446744073709551616.
Definition sat_add (a b : N) : N := N.min (a + b) u64_max.
Definition sat_sub (a b : N) : N := a - b.
Definition sat_mul (a b : N) : N := N.min (a * b) u64_max.
Definition wrap_add (a b : N) : N := (a + b) mod u64_modulus.

(** Cast of a [u64] to [i64]: the top half of the range becomes negative. *)
Definition u64_as_i64 (n : N) : Z :=
  if decide (n < 9223372036854775808)%N then Z.of_N n
  else (Z.of_N n - Z.of_N u64_modulus)%Z.

(** ** Results and panics

    A fallible Rust function returns [Result<T, RuntimeFailure>]; [expect],
    [unreachable!] and slice indexing may abort the thread.  The two are kept
    apart: [result] is the value of a function that returned, [outcome] is what
    the call did. *)

Inductive result (A E : Type) : Type :=
| Ok (a : A)
| Err (e : E).
Arguments Ok {_ _} _.
Arguments Err {_ _} _.

Inductive outcome (A : Type) : Type :=
| Done (a : A)
| Panic (message : string).
Arguments Done {_} _.
Arguments Panic {_} _.

#[global] Instance outcome_ret : MRet outcome := λ A a, Done a.
#[global] Instance outcome_bind : MBind outcome := λ A B f m,
  match m with Done a => f a | Panic s => Panic s end.

(** [Option::expect]. *)
Definition expect {A} (o : option A) (message : string) : outcome A :=
  match o with Some a => Done a | None => Panic message end.

(** [Vec::with_capacity] and [VecDeque::with_capacity] for elements of [size_of] bytes: an
    allocation of more than [isize::MAX] bytes is refused with a panic.  The buffers they
    return are empty lists. *)
Definition isize_max : N := 9223372036854775807.
Definition VEC_CAPACITY_OVERFLOW : string := "capacity overflow".
Definition vec_with_capacity (size_of capacity : N) : outcome () :=
  if decide (isize_max < size_of * capacity)%N then Panic VEC_CAPACITY_OVERFLOW else Done tt.

Lemma vec_with_capacity_fits size_of capacity :
  (size_of * capacity ≤ isize_max)%N → vec_with_capacity size_of capacity = Done tt.
Proof. intros ?. unfold vec_with_capacity. by rewrite decide_False by lia. Qed.

Definition is_ok {A E} (r : result A E) : bool :=
  match r with Ok _ => true | Err _ => false end.

(** ** Ordered and hashed containers

    [HashMap]/[BTreeMap] are [gmap], [HashSet]/[BTreeSet] are [gset]; the
    ordered iteration of the B-tree containers sorts the elements by the key
    order, and the unordered iteration of a [HashMap] is [map_to_list]. *)

Definition btree_iter {A} (R : relation A) `{!RelDecision R, Countable A}
    (X : gset A) : list A := merge_sort R (elements X).

(** [sort_by_key]: a stable sort on a key. *)
Definition key_le {A} (key : A → N) (x y : A) : Prop := (key x ≤ key y)%N.
#[global] Instance key_le_dec {A} (key : A → N) : RelDecision (key_le key).
Proof. intros x y. unfold key_le. apply _. Defined.

Fixpoint insert_by_key {A} (key : A → N) (x : A) (l : list A) : list A :=
  match l with
  | [] => [x]
  | y :: l' => if decide (key x < key y)%N then x :: l else y :: insert_by_key key x l'
  end.
Definition sort_by_key {A} (key : A → N) (l : list A) : list A :=
  foldl (λ acc x, insert_by_key key x acc) [] l.

(** [sort_by]: a stable sort by a comparison. *)
Fixpoint insert_by {A} (cmp : A → A → comparison) (x : A) (l : list A) : list A :=
  match l with
  | [] => [x]
  | y :: l' => match cmp x y with Lt => x :: l | _ => y :: insert_by cmp x l' end
  end.
Definition sort_by {A} (cmp : A → A → comparison) (l : list A) : list A :=
  foldl (λ acc x, insert_by cmp x acc) [] l.

(** [Ordering::then_with]. *)
Definition then_with (c d : comparison) : comparison := match c with Eq => d | _ => c end.

(** What [Ord] promises of a comparison. *)
Definition cmp_le {A} (cmp : A → A → comparison) (x y : A) : Prop := cmp x y ≠ Gt.
Class TotalCmp {A} (cmp : A → A → comparison) : Prop := {
  cmp_opp : ∀ x y, cmp y x = CompOpp (cmp x y);
  cmp_le_trans : ∀ x y z, cmp_le cmp x y → cmp_le cmp y z → cmp_le cmp x z;
}.

(** [map.entry(k).or_default()] followed by an in-place update [f]. *)
Definition or_default {K V} `{Countable K} (d : V) (k : K) (f : V → V) (m : gmap K V) : gmap K V :=
  <[k := f (default d (m !! k))]> m.

(** The idiom [if m.get_mut(k).is_some_and(|v| { f(v); v.is_empty() }) { m.remove(k) }]. *)
Definition prune_entry {K V} `{Countable K} (is_empty : V → bool) (k : K) (f : V → V)
    (m : gmap K V) : gmap K V :=
  match m !! k with
  | None => m
  | Some v => if is_empty (f v) then delete k m else <[k := f v]> m
  end.

Definition set_is_empty {A} `{Countable A} (X : gset A) : bool := bool_decide (X = ∅).
Definition map_is_empty {K V} `{Countable K} (m : gmap K V) : bool := bool_decide (size m = 0%nat).

(** Zero-padded decimal rendering, [format!("{:0w$}", n)]. *)
Definition pad_left (w : nat) (s : string) : string :=
  Nat.iter (w - String.length s) (String.append "0") s.

(** ** Proof automation *)

Create HintDb mutsuki.

Ltac inv_outcome H :=
  match type of H with
  | Done _ = Done _ => injection H as H
  | Panic _ = Done _ => discriminate H
  | Done _ = Panic _ => discriminate H
  end.

(** Runs through the [match]es of a hypothesis that equates an executed
    operation with a value. *)
Ltac step_in H :=
  repeat (first
    [ progress simplify_eq/=
    | match type of H with
      | context [match ?x with _ => _ end] => destruct x eqn:?
      end ]).

(** ** Machine-integer lemmas *)

Lemma sat_add_exact a b : (a + b ≤ u64_max)%N → sat_add a b = (a + b)%N.
Proof. unfold sat_add. lia. Qed.

Lemma sat_add_le a b : (sat_add a b ≤ u64_max)%N.
Proof. unfold sat_add. lia. Qed.

Lemma sat_add_mono a b : (a ≤ u64_max → a ≤ sat_add a b)%N.
Proof. unfold sat_add. lia. Qed.

Lemma wrap_add_1 n : (n < u64_max)%N → wrap_add n 1 = (n + 1)%N.
Proof. intros Hn. unfold wrap_add. rewrite N.mod_small; [done|]. unfold u64_max, u64_modulus in *. lia. Qed.

(** ** Container lemmas *)

Section containers.
Context {K V : Type} `{Countable K}.
Implicit Types (m : gmap K V) (k : K).

Lemma lookup_or_default d k f m k' :
  or_default d k f m !! k' = if decide (k = k') then Some (f (default d (m !! k))) else m !! k'.
Proof. unfold or_default. rewrite lookup_insert. by repeat case_decide. Qed.

Lemma default_or_default d k f m k' :
  default d (or_default d k f m !! k')
  = if decide (k = k') then f (default d (m !! k)) else default d (m !! k').
Proof. rewrite lookup_or_default. by case_decide. Qed.

Lemma default_prune_entry d is_empty k f m k' :
  (∀ v, is_empty v = true → v = d) → f d = d →
  default d (prune_entry is_empty k f m !! k')
  = if decide (k = k') then f (default d (m !! k)) else default d (m !! k').
Proof.
  intros He Hf. unfold prune_entry.
  destruct (m !! k) as [v|] eqn:Hk; simpl.
  - destruct (is_empty (f v)) eqn:Hfv.
    + rewrite lookup_delete. case_decide; subst; simpl; [symmetry; auto | done].
    + rewrite lookup_insert. by case_decide; subst.
  - case_decide; subst; [by rewrite Hk, Hf | done].
Qed.

(** Every stored value satisfies [P]; used for the invariant that no empty
    inner container is left behind. *)
Definition all_values (P : V → Prop) (m : gmap K V) : Prop := ∀ k v, m !! k = Some v → P v.

Lemma all_values_empty P : all_values P ∅.
Proof. intros k v. by rewrite lookup_empty. Qed.

Lemma all_values_or_default P d k f m :
  all_values P m → (∀ v, m !! k = Some v ∨ (m !! k = None ∧ v = d) → P (f v)) →
  all_values P (or_default d k f m).
Proof.
  intros Hm Hf k' v. rewrite lookup_or_default. case_decide; [|apply Hm].
  intros [= <-]. apply Hf. destruct (m !! k); simpl; auto.
Qed.

Lemma all_values_prune_entry P is_empty k f m :
  all_values P m → (∀ v, m !! k = Some v → is_empty (f v) = false → P (f v)) →
  all_values P (prune_entry is_empty k f m).
Proof.
  intros Hm Hf. unfold prune_entry. destruct (m !! k) as [v|] eqn:Hk; [|done].
  destruct (is_empty (f v)) eqn:Hfv; intros k' v'.
  - rewrite lookup_delete. case_decide; [done|apply Hm].
  - rewrite lookup_insert. case_decide; [|apply Hm]. intros [= <-]. auto.
Qed.

(** A map whose values are never the default is determined by its total lookup. *)
Lemma map_eq_default d (m1 m2 : gmap K V) :
  all_values (.≠ d) m1 → all_values (.≠ d) m2 →
  (∀ k, default d (m1 !! k) = default d (m2 !! k)) → m1 = m2.
Proof.
  intros H1 H2 Heq. apply map_eq. intros k. specialize (Heq k).
  destruct (m1 !! k) as [v1|] eqn:E1, (m2 !! k) as [v2|] eqn:E2; simpl in Heq.
  - congruence.
  - by destruct (H1 k v1 E1).
  - by destruct (H2 k v2 E2).
  - done.
Qed.

End containers.

Lemma set_is_empty_true {A} `{Countable A} (X : gset A) : set_is_empty X = true ↔ X = ∅.
Proof. unfold set_is_empty. by rewrite bool_decide_eq_true. Qed.

Lemma set_is_empty_false {A} `{Countable A} (X : gset A) : set_is_empty X = false ↔ X ≠ ∅.
Proof. unfold set_is_empty. by rewrite bool_decide_eq_false. Qed.

Lemma map_is_empty_true {K V} `{Countable K} (m : gmap K V) : map_is_empty m = true ↔ m = ∅.
Proof. unfold map_is_empty. by rewrite bool_decide_eq_true, map_size_empty_iff. Qed.

Lemma map_is_empty_false {K V} `{Countable K} (m : gmap K V) : map_is_empty m = false ↔ m ≠ ∅.
Proof. unfold map_is_empty. by rewrite bool_decide_eq_false, map_size_empty_iff. Qed.

Lemma elem_of_btree_iter {A} (R : relation A) `{!RelDecision R, Countable A} (X : gset A) x :
  x ∈ btree_iter R X ↔ x ∈ X.
Proof. unfold btree_iter. by rewrite merge_sort_Permutation, elem_of_elements. Qed.

Lemma NoDup_btree_iter {A} (R : relation A) `{!RelDecision R, Countable A} (X : gset A) :
  NoDup (btree_iter R X).
Proof. unfold btree_iter. rewrite merge_sort_Permutation. apply NoDup_elements. Qed.

(** ** List lemmas *)

Lemma list_filter_all {A} (P : A → Prop) `{!∀ x, Decision (P x)} (l : list A) :
  (∀ x, x ∈ l → P x) → filter P l = l.
Proof.
  induction l as [|x l IH]; intros Hl; [done|].
  rewrite filter_cons_True by (apply Hl; set_solver). f_equal. set_solver.
Qed.

Lemma StronglySorted_filter {A} (R : relation A) (P : A → Prop) `{!∀ x, Decision (P x)} (l : list A) :
  StronglySorted R l → StronglySorted R (filter P l).
Proof.
  induction 1 as [|x l Hl IH Hx]; [constructor|]. rewrite filter_cons. case_decide; [|done].
  constructor; [done|]. rewrite Forall_forall in *. intros y [_ Hy]%list_elem_of_filter. auto.
Qed.

Lemma submseteq_NoDup {A} (l k : list A) : l ⊆+ k → NoDup k → NoDup l.
Proof. intros [k' ->]%submseteq_Permutation Hnd. by apply NoDup_app in Hnd as [? _]. Qed.

Lemma submseteq_filter_length {A} (P : A → Prop) `{!∀ x, Decision (P x)} (l k : list A) :
  l ⊆+ k → (length (filter P l) ≤ length (filter P k))%nat.
Proof. intros [k' ->]%submseteq_Permutation. rewrite filter_app, length_app. lia. Qed.

Lemma omap_lookup_insert {K V} `{Countable K} (m : gmap K V) k v (ks : list K) :
  k ∉ ks → omap (λ k', <[k := v]> m !! k') ks = omap (λ k', m !! k') ks.
Proof.
  induction ks as [|k' ks IH]; [done|]. intros [Hne Hks]%not_elem_of_cons. csimpl.
  rewrite lookup_insert_ne by done. by rewrite IH.
Qed.

Lemma insert_by_key_Permutation {A} (key : A → N) x l : insert_by_key key x l ≡ₚ x :: l.
Proof.
  induction l as [|y l IH]; simpl; [done|]. case_decide; [done|].
  rewrite IH. apply Permutation_swap.
Qed.

Lemma sort_by_key_Permutation {A} (key : A → N) l : sort_by_key key l ≡ₚ l.
Proof.
  unfold sort_by_key. rewrite <-(app_nil_r l) at 2. generalize (@nil A) as acc.
  induction l as [|x l IH]; intros acc; simpl; [done|].
  rewrite IH, insert_by_key_Permutation. by rewrite Permutation_middle.
Qed.

Lemma insert_by_key_sorted {A} (key : A → N) x l :
  StronglySorted (key_le key) l → StronglySorted (key_le key) (insert_by_key key x l).
Proof.
  induction 1 as [|y l Hl IH Hy]; simpl; [repeat constructor|].
  case_decide as Hxy.
  - constructor; [by constructor|]. constructor; [unfold key_le; lia|].
    eapply Forall_impl; [exact Hy|]. unfold key_le. intros; lia.
  - constructor; [done|]. rewrite insert_by_key_Permutation.
    constructor; [unfold key_le; lia|done].
Qed.

Lemma sort_by_key_sorted {A} (key : A → N) l : StronglySorted (key_le key) (sort_by_key key l).
Proof.
  unfold sort_by_key.
  assert (∀ acc, StronglySorted (key_le key) acc →
    StronglySorted (key_le key) (foldl (λ acc x, insert_by_key key x acc) acc l)) as Hgen.
  { induction l as [|x l IH]; intros acc Hacc; simpl; [done|].
    apply IH. by apply insert_by_key_sorted. }
  apply Hgen. constructor.
Qed.

Lemma insert_by_Permutation {A} (cmp : A → A → comparison) x l : insert_by cmp x l ≡ₚ x :: l.
Proof.
  induction l as [|y l IH]; simpl; [done|].
  destruct (cmp x y); [|done|]; rewrite IH; apply Permutation_swap.
Qed.

Lemma sort_by_Permutation {A} (cmp : A → A → comparison) l : sort_by cmp l ≡ₚ l.
Proof.
  unfold sort_by. rewrite <-(app_nil_r l) at 2. generalize (@nil A) as acc.
  induction l as [|x l IH]; intros acc; simpl; [done|].
  rewrite IH, insert_by_Permutation. by rewrite Permutation_middle.
Qed.

Section total_cmp.
Context {A : Type} (cmp : A → A → comparison) `{!TotalCmp cmp}.

Lemma cmp_le_total x y : cmp_le cmp x y ∨ cmp_le cmp y x.
Proof. unfold cmp_le. rewrite (cmp_opp (cmp:=cmp) x y). by destruct (cmp x y); auto. Qed.

Lemma cmp_le_refl x : cmp_le cmp x x.
Proof. by destruct (cmp_le_total x x). Qed.

Lemma cmp_le_antisym x y : cmp_le cmp x y → cmp_le cmp y x → cmp x y = Eq.
Proof. unfold cmp_le. rewrite (cmp_opp (cmp:=cmp) x y). by destruct (cmp x y). Qed.

Lemma insert_by_sorted x l :
  StronglySorted (cmp_le cmp) l → StronglySorted (cmp_le cmp) (insert_by cmp x l).
Proof.
  induction 1 as [|y l Hl IH Hy]; simpl; [repeat constructor|].
  assert (cmp x y ≠ Lt → cmp_le cmp y x) as Hyx.
  { unfold cmp_le. rewrite (cmp_opp (cmp:=cmp) x y). by destruct (cmp x y). }
  assert (cmp x y ≠ Lt → StronglySorted (cmp_le cmp) (y :: insert_by cmp x l)) as Htl.
  { intros ?. constructor; [done|]. rewrite insert_by_Permutation. by constructor; [apply Hyx|]. }
  destruct (cmp x y) eqn:E; [by apply Htl| |by apply Htl].
  assert (cmp_le cmp x y) as Hxy by (unfold cmp_le; by rewrite E).
  constructor; [by constructor|]. constructor; [done|].
  eapply Forall_impl; [exact Hy|]. intros z ?. by eapply cmp_le_trans.
Qed.

Lemma sort_by_sorted l : StronglySorted (cmp_le cmp) (sort_by cmp l).
Proof.
  unfold sort_by.
  assert (∀ acc, StronglySorted (cmp_le cmp) acc →
    StronglySorted (cmp_le cmp) (foldl (λ acc x, insert_by cmp x acc) acc l)) as Hgen.
  { induction l as [|x l IH]; intros acc Hacc; simpl; [done|].
    apply IH. by apply insert_by_sorted. }
  apply Hgen. constructor.
Qed.

End total_cmp.

#[global] Instance N_compare_total : TotalCmp N.compare.
Proof.
  split; [intros; by rewrite N.compare_antisym|]. intros x y z. unfold cmp_le.
  rewrite !N.compare_gt_iff. lia.
Qed.

#[global] Instance string_compare_total : TotalCmp String.compare.
Proof.
  assert (∀ s t, String.compare t s = CompOpp (String.compare s t)) as Hopp
    by (intros; apply String.compare_antisym).
  split; [done|]. unfold cmp_le.
  induction x as [|a x IH]; intros [|b y] [|c z]; simpl; try done.
  unfold Ascii.compare.
  destruct (N.compare_spec (Ascii.N_of_ascii a) (Ascii.N_of_ascii b)),
    (N.compare_spec (Ascii.N_of_ascii b) (Ascii.N_of_ascii c)),
    (N.compare_spec (Ascii.N_of_ascii a) (Ascii.N_of_ascii c)); try done; try lia; eauto.
Qed.

(** A comparison through a key, reversed, and lexicographic combination. *)
Lemma cmp_on_total {A B} (f : A → B) (cmp : B → B → comparison) :
  TotalCmp cmp → TotalCmp (λ x y, cmp (f x) (f y)).
Proof. intros []. split; unfold cmp_le in *; eauto. Qed.

Lemma cmp_rev_total {A} (cmp : A → A → comparison) :
  TotalCmp cmp → TotalCmp (λ x y, cmp y x).
Proof. intros []. split; unfold cmp_le in *; eauto. Qed.

Lemma cmp_then_total {A} (c d : A → A → comparison) :
  TotalCmp c → TotalCmp d → TotalCmp (λ x y, then_with (c x y) (d x y)).
Proof.
  intros [Hc Htc] [Hd Htd]. split.
  - intros x y. rewrite Hc, (Hd x y). by destruct (c x y).
  - unfold cmp_le in *. intros x y z.
    pose proof (Htc x y z) as H1. pose proof (Htc y z x) as H2. pose proof (Htc z x y) as H3.
    pose proof (Hc x y) as Exy. pose proof (Hc y z) as Eyz. pose proof (Hc x z) as Exz.
    rewrite Exy, Eyz, Exz in *. specialize (Htd x y z).
    destruct (c x y), (c y z), (c x z); simpl in *; naive_solver.
Qed.
