(* ===== verification/Floats.v ===== *)
(** * Floats: the [f64] of the source

    IEEE 754 binary64 numbers, as the standard library's executable specification
    of floating point: a [spec_float] under precision 53 and exponent bound 1024,
    every operation rounded to nearest even.  Span times and execution averages
    use the conversions, comparisons and operations below. *)
From Stdlib Require Import SpecFloat.
From S2P Require Import Prelude.

Abbreviation f64 := spec_float (only parsing).

Definition f64_prec : Z := 53.
Definition f64_emax : Z := 1024.

(** [n as f64]. *)
Definition f64_of_u64 (n : N) : f64 := binary_normalize f64_prec f64_emax (Z.of_N n) 0 false.

Definition f64_zero : f64 := S754_zero false.
Definition f64_add (x y : f64) : f64 := SFadd f64_prec f64_emax x y.
Definition f64_sub (x y : f64) : f64 := SFsub f64_prec f64_emax x y.
Definition f64_mul (x y : f64) : f64 := SFmul f64_prec f64_emax x y.
Definition f64_div (x y : f64) : f64 := SFdiv f64_prec f64_emax x y.

(** [x < y]: false when a side is NaN. *)
Definition f64_ltb (x y : f64) : bool := SFltb x y.

#[global] Instance f64_eq_dec : EqDecision f64.
Proof. solve_decision. Defined.

Lemma f64_ltb_irrefl x : f64_ltb x x = false.
Proof.
  unfold f64_ltb, SFltb, SFcompare.
  by destruct x as [| [] | |[] m e]; simpl; rewrite ?Z.compare_refl, ?Pos.compare_cont_refl.
Qed.
