(* ===== verification/Contracts.v ===== *)
(** * Contracts: the wire data of tasks, leases, runners and dispatch budgets

    Models [crates/mutsuki-runtime-contracts/src] ([common.rs], [error.rs],
    [task.rs], [runner.rs], [batch/entry.rs], the plugin surface records of
    [plugin.rs]) and the error constructors of
    [crates/mutsuki-runtime-core/src/error.rs] and the budgets of
    [runtime/scheduler.rs].  Record fields carry the source's names behind a
    short prefix per record ([t_] for [Task], [tl_] for [TaskLease], ...).
    [serde_json] values, and the typed bodies of in-process payloads, are
    parameters gathered in the class [Serde]. *)
From Stdlib Require Import SpecFloat.
From S2P Require Import Prelude Floats.

(** ** Identifiers *)

Abbreviation RefId := string (only parsing).
Abbreviation TaskId := string (only parsing).
Abbreviation RunnerId := string (only parsing).
Abbreviation PluginId := string (only parsing).
Abbreviation ExecutorId := string (only parsing).
Abbreviation BindingId := string (only parsing).
Abbreviation ProtocolId := string (only parsing).
Abbreviation TaskLeaseId := string (only parsing).
Abbreviation ResourceCellId := string (only parsing).
Abbreviation ResourceLeaseId := string (only parsing).
Abbreviation SurfaceId := string (only parsing).
Abbreviation TraceId := string (only parsing).

Inductive ScalarValue : Type :=
| ScalarString (s : string)
| ScalarInt (i : Z)
| ScalarFloat (x : f64)
| ScalarBool (b : bool).

(** The derived equality: that of [f64] on floats, so NaN differs from itself. *)
Definition scalar_value_eqb (a b : ScalarValue) : bool :=
  match a, b with
  | ScalarString s, ScalarString t => bool_decide (s = t)
  | ScalarInt i, ScalarInt j => bool_decide (i = j)
  | ScalarFloat x, ScalarFloat y => SFeqb x y
  | ScalarBool x, ScalarBool y => bool_decide (x = y)
  | _, _ => false
  end.

(** ** Errors *)

Inductive RuntimeError : Type := mkRuntimeError {
  err_code : string;
  err_source : string;
  err_route : string;
  err_lost_capability : option string;
  err_recovery : option string;
  err_cause : option RuntimeError;
  err_evidence : gmap string ScalarValue;
}.

Definition RuntimeError_new (code source route : string) : RuntimeError :=
  {| err_code := code; err_source := source; err_route := route;
     err_lost_capability := None; err_recovery := None; err_cause := None;
     err_evidence := ∅ |}.

Definition set_err_evidence (key : string) (v : ScalarValue) (e : RuntimeError) : RuntimeError :=
  {| err_code := err_code e; err_source := err_source e; err_route := err_route e;
     err_lost_capability := err_lost_capability e; err_recovery := err_recovery e;
     err_cause := err_cause e; err_evidence := <[key := v]> (err_evidence e) |}.

Definition ERR_RUNTIME_HOST_FAILED : string := "runtime.host_failed".
Definition ERR_CAPABILITY_EXHAUSTED : string := "capability.exhausted".
Definition ERR_TASK_NOT_FOUND : string := "task.not_found".
Definition ERR_TASK_DUPLICATE : string := "task.duplicate".
Definition ERR_TASK_CLAIM_CONFLICT : string := "task.claim_conflict".
Definition ERR_STATE_CONFLICT : string := "state.conflict".
Definition ERR_STATE_HISTORY_DISABLED : string := "state.history_disabled".
Definition ERR_STATE_HISTORY_UNAVAILABLE : string := "state.history_unavailable".
Definition ERR_RESOURCE_NOT_FOUND : string := "resource.not_found".
Definition ERR_RESOURCE_LEASE_EXPIRED : string := "resource.lease_expired".
Definition ERR_RESOURCE_GENERATION_MISMATCH : string := "resource.generation_mismatch".
Definition ERR_RESOURCE_ENCODE_FAILED : string := "resource.encode_failed".
Definition ERR_RESOURCE_LEASE_MODE_INVALID : string := "resource.lease_mode_invalid".
Definition ERR_RESOURCE_SEMANTIC_MISMATCH : string := "resource.semantic_mismatch".

(** [RuntimeFailure] boxes a [RuntimeError]. *)
Definition RuntimeFailure : Type := RuntimeError.
Definition RuntimeResult (A : Type) : Type := result A RuntimeFailure.

Definition runtime_failure (code source route : string) : RuntimeFailure :=
  RuntimeError_new code source route.

(** ** serde_json, as a parameter

    [to_writer] gives the sizes of the chunks handed to the writer, in order, or
    the encoder's message. *)
Class Serde := {
  Value : Type;
  Value_eq_dec :: EqDecision Value;
  Value_null : Value;
  Any : Type;
  value_to_writer : Value → result (list N) string;
  any_to_writer : Any → result (list N) string;
  any_to_json : Any → result Value string;
}.

(** ** Dispatch lanes, ordering and resource requirements *)

Inductive DispatchLane : Type := Control | Interactive | Normal | Background | Bulk.

Definition DispatchLane_ALL : list DispatchLane :=
  [Control; Interactive; Normal; Background; Bulk].

(** Declaration order, the derived [Ord]. *)
Definition lane_rank (lane : DispatchLane) : N :=
  match lane with
  | Control => 0 | Interactive => 1 | Normal => 2 | Background => 3 | Bulk => 4
  end.

#[global] Instance DispatchLane_eq_dec : EqDecision DispatchLane.
Proof. solve_decision. Defined.
#[global] Program Instance DispatchLane_countable : Countable DispatchLane :=
  inj_countable' lane_rank
    (λ n, if decide (n = 0%N) then Control else if decide (n = 1%N) then Interactive
          else if decide (n = 2%N) then Normal else if decide (n = 3%N) then Background
          else Bulk) _.
Next Obligation. by intros []. Qed.

Inductive OrderingRequirement : Type :=
| OrderingNone
| PreserveSubmitOrder
| SameResourceOrder (ref_id : RefId)
| StrictSequence (sequence_id : string).

#[global] Instance OrderingRequirement_eq_dec : EqDecision OrderingRequirement.
Proof. solve_decision. Defined.

Inductive ResourceAccessMode : Type := Read | Write | ExclusiveWrite.

Record ResourceRequirement : Type := mkResourceRequirement {
  req_ref_id : RefId;
  req_mode : ResourceAccessMode;
  req_expected_version : option N;
}.

(** ** Task status *)

Inductive TaskStatus : Type :=
| Created | Ready | Running | Waiting | Blocked
| Completed | Failed | Cancelled | Expired | DeadLetter.

#[global] Instance TaskStatus_eq_dec : EqDecision TaskStatus.
Proof. solve_decision. Defined.

Record VersionExpectation : Type := mkVersionExpectation {
  ve_ref_id : RefId;
  ve_expected_version : N;
}.

(** ** Task leases *)

Record TaskLease : Type := mkTaskLease {
  tl_lease_id : TaskLeaseId;
  tl_task_id : TaskId;
  tl_attempt_generation : N;
  tl_runner_id : RunnerId;
  tl_executor_id : ExecutorId;
  tl_registry_generation : N;
  tl_acquired_at_step : N;
  tl_expires_at_step : option N;
}.

#[global] Instance TaskLease_eq_dec : EqDecision TaskLease.
Proof. solve_decision. Defined.

Inductive CancelPolicy : Type := Cascade | Detach | Shield.

Record TaskHandle : Type := mkTaskHandle {
  th_task_id : TaskId;
  th_protocol_id : ProtocolId;
  th_target_binding_id : option BindingId;
  th_cancel_policy : CancelPolicy;
  th_trace_id : option TraceId;
  th_correlation_id : option string;
}.

Inductive WakeCondition : Type :=
| Timer (ready_at_step : N)
| RetryAfter (ready_at_step : N)
| ResourceEvent (ref_id : RefId)
| ExternalSignal (signal_id : string)
| ManualWake.

(** ** Resource references *)

Record ResourceId : Type := mkResourceId {
  rid_kind_id : string;
  rid_slot_id : string;
  rid_generation : N;
  rid_version : N;
}.

Inductive ResourceSemantic : Type :=
| FrozenValue | VersionedSnapshot | ReadOnlyFact | CowVersionedState
| CapabilityResource | StreamResource | TransactionResource.

#[global] Instance ResourceSemantic_eq_dec : EqDecision ResourceSemantic.
Proof. solve_decision. Defined.

Inductive ResourceSealState : Type := Writable | Sealed.

Inductive ResourceLifetime : Type :=
| BorrowedUntilTaskEnd
| LeaseUntil (step : N)
| Persistent
| ExternalManaged.

Inductive ResourceAccess : Type :=
| AccessInline
| MmapFile (path : string) (offset len : N) (readonly : bool)
| SharedMemory (name : string) (offset len : N) (readonly : bool)
| AccessBlob (store_id key : string)
| AccessStream (endpoint : string)
| AccessProviderRpc (provider_id method : string).

Record LeaseToken : Type := mkLeaseToken {
  tok_token_id : string;
  tok_ref_id : RefId;
  tok_owner : string;
  tok_mode : string;
  tok_expires_at_step : option N;
  tok_generation : N;
}.

#[global] Instance LeaseToken_eq_dec : EqDecision LeaseToken.
Proof. solve_decision. Defined.

Record ResourceRef : Type := mkResourceRef {
  rr_ref_id : RefId;
  rr_resource_id : ResourceId;
  rr_semantic : ResourceSemantic;
  rr_provider_id : string;
  rr_resource_kind : string;
  rr_schema : string;
  rr_version : N;
  rr_generation : N;
  rr_access : ResourceAccess;
  rr_size_hint : option N;
  rr_content_hash : option string;
  rr_lifetime : ResourceLifetime;
  rr_lease : option LeaseToken;
  rr_seal_state : ResourceSealState;
}.

(** ** Waiting on another task *)

Record TaskStepContinuation : Type := mkTaskStepContinuation {
  tsc_continuation : ResourceRef;
  tsc_wake : option WakeCondition;
  tsc_reason : option string;
}.

Record TaskAwait : Type := mkTaskAwait {
  ta_parent_task_id : TaskId;
  ta_child : TaskHandle;
  ta_continuation : TaskStepContinuation;
  ta_cancel_policy : CancelPolicy;
}.

(** ** Tasks *)

Section with_serde.
Context {serde : Serde}.

Record LocalPayload : Type := mkLocalPayload {
  lp_body : Any;
  lp_json : option Value;
}.

Inductive TaskPayload : Type :=
| PayloadJson (value : Value)
| PayloadLocal (local : LocalPayload).

(** The counting writer: chunk sizes summed with saturation. *)
Definition compact_json_len (written : result (list N) string) : result N string :=
  match written with
  | Ok chunks => Ok (foldl sat_add 0%N chunks)
  | Err e => Err e
  end.

Definition try_wire_len (p : TaskPayload) : result N string :=
  match p with
  | PayloadJson value => compact_json_len (value_to_writer value)
  | PayloadLocal local =>
      match lp_json local with
      | Some json => compact_json_len (value_to_writer json)
      | None => compact_json_len (any_to_writer (lp_body local))
      end
  end.

Definition try_materialize_json (local : LocalPayload) : result Value string * LocalPayload :=
  match lp_json local with
  | Some json => (Ok json, local)
  | None =>
      match any_to_json (lp_body local) with
      | Ok v => (Ok v, mkLocalPayload (lp_body local) (Some v))
      | Err e => (Err e, local)
      end
  end.

Record Task : Type := mkTask {
  t_task_id : TaskId;
  t_protocol_id : ProtocolId;
  t_priority : Z;
  t_ready_at_step : option N;
  t_payload : TaskPayload;
  t_input_refs : list RefId;
  t_output_ref : option RefId;
  t_continuation_ref : option RefId;
  t_target_binding_id : option BindingId;
  t_lease_id : option TaskLeaseId;
  t_trace_id : option TraceId;
  t_expected_versions : list VersionExpectation;
  t_correlation_id : option string;
  t_idempotency_key : option string;
  t_runner_hint : option string;
  t_registry_generation : N;
  t_required_surfaces : list SurfaceId;
  t_dispatch_lane : DispatchLane;
  t_ordering : OrderingRequirement;
  t_resource_requirements : list ResourceRequirement;
  t_created_sequence : N;
}.

Definition Task_new (task_id : TaskId) (protocol_id : ProtocolId) (payload : TaskPayload) : Task :=
  {| t_task_id := task_id; t_protocol_id := protocol_id; t_priority := 0;
     t_ready_at_step := None; t_payload := payload; t_input_refs := []; t_output_ref := None;
     t_continuation_ref := None; t_target_binding_id := None; t_lease_id := None;
     t_trace_id := None; t_expected_versions := []; t_correlation_id := None;
     t_idempotency_key := None; t_runner_hint := None; t_registry_generation := 0;
     t_required_surfaces := []; t_dispatch_lane := Normal; t_ordering := OrderingNone;
     t_resource_requirements := []; t_created_sequence := 0 |}.

Definition derive_with_protocol (t : Task) (task_id : TaskId) (protocol_id : ProtocolId) : Task :=
  {| t_task_id := task_id; t_protocol_id := protocol_id; t_priority := t_priority t;
     t_ready_at_step := None; t_payload := t_payload t; t_input_refs := t_input_refs t;
     t_output_ref := None; t_continuation_ref := None; t_target_binding_id := None;
     t_lease_id := None; t_trace_id := t_trace_id t;
     t_expected_versions := t_expected_versions t;
     t_correlation_id :=
       match t_correlation_id t with Some c => Some c | None => Some (t_task_id t) end;
     t_idempotency_key := t_idempotency_key t; t_runner_hint := None;
     t_registry_generation := t_registry_generation t;
     t_required_surfaces := t_required_surfaces t; t_dispatch_lane := t_dispatch_lane t;
     t_ordering := t_ordering t; t_resource_requirements := t_resource_requirements t;
     t_created_sequence := 0 |}.

(** Assignments to single fields of a task, [task.f = v]. *)
Definition set_t_ready_at_step (v : option N) (t : Task) : Task :=
  mkTask (t_task_id t) (t_protocol_id t) (t_priority t) v (t_payload t) (t_input_refs t)
    (t_output_ref t) (t_continuation_ref t) (t_target_binding_id t) (t_lease_id t)
    (t_trace_id t) (t_expected_versions t) (t_correlation_id t) (t_idempotency_key t)
    (t_runner_hint t) (t_registry_generation t) (t_required_surfaces t) (t_dispatch_lane t)
    (t_ordering t) (t_resource_requirements t) (t_created_sequence t).
Definition set_t_continuation_ref (v : option RefId) (t : Task) : Task :=
  mkTask (t_task_id t) (t_protocol_id t) (t_priority t) (t_ready_at_step t) (t_payload t)
    (t_input_refs t) (t_output_ref t) v (t_target_binding_id t) (t_lease_id t) (t_trace_id t)
    (t_expected_versions t) (t_correlation_id t) (t_idempotency_key t) (t_runner_hint t)
    (t_registry_generation t) (t_required_surfaces t) (t_dispatch_lane t) (t_ordering t)
    (t_resource_requirements t) (t_created_sequence t).
Definition set_t_lease_id (v : option TaskLeaseId) (t : Task) : Task :=
  mkTask (t_task_id t) (t_protocol_id t) (t_priority t) (t_ready_at_step t) (t_payload t)
    (t_input_refs t) (t_output_ref t) (t_continuation_ref t) (t_target_binding_id t) v
    (t_trace_id t) (t_expected_versions t) (t_correlation_id t) (t_idempotency_key t)
    (t_runner_hint t) (t_registry_generation t) (t_required_surfaces t) (t_dispatch_lane t)
    (t_ordering t) (t_resource_requirements t) (t_created_sequence t).
Definition set_t_registry_generation (v : N) (t : Task) : Task :=
  mkTask (t_task_id t) (t_protocol_id t) (t_priority t) (t_ready_at_step t) (t_payload t)
    (t_input_refs t) (t_output_ref t) (t_continuation_ref t) (t_target_binding_id t)
    (t_lease_id t) (t_trace_id t) (t_expected_versions t) (t_correlation_id t)
    (t_idempotency_key t) (t_runner_hint t) v (t_required_surfaces t) (t_dispatch_lane t)
    (t_ordering t) (t_resource_requirements t) (t_created_sequence t).
Definition set_t_created_sequence (v : N) (t : Task) : Task :=
  mkTask (t_task_id t) (t_protocol_id t) (t_priority t) (t_ready_at_step t) (t_payload t)
    (t_input_refs t) (t_output_ref t) (t_continuation_ref t) (t_target_binding_id t)
    (t_lease_id t) (t_trace_id t) (t_expected_versions t) (t_correlation_id t)
    (t_idempotency_key t) (t_runner_hint t) (t_registry_generation t) (t_required_surfaces t)
    (t_dispatch_lane t) (t_ordering t) (t_resource_requirements t) v.

(** ** Runner descriptors *)

Inductive ExecutionClass : Type :=
| ExecControl | Orchestration | Io | Cpu | Blocking | Script.
Inductive InvocationMode : Type :=
| SyncExclusive | AsyncReentrant | AsyncExclusive | ExternalProcess.
Inductive RunnerConcurrency : Type :=
| Exclusive
| Reentrant (max_inflight_batches max_inflight_entries : N)
| Sharded (instances : N).

Definition max_inflight_batches (c : RunnerConcurrency) : N :=
  match c with
  | Exclusive => 1
  | Reentrant batches _ => batches
  | Sharded instances => instances
  end.

Definition max_inflight_entries (c : RunnerConcurrency) (fallback : N) : N :=
  match c with
  | Exclusive => fallback
  | Reentrant _ entries => entries
  | Sharded instances => sat_mul fallback instances
  end.

Inductive RunnerPurity : Type := Pure | Committer | Effectful.
Inductive RunnerMode : Type := ScalarAdapter | NativeBatch | Batch.
Inductive RunnerSideEffect : Type :=
| SideEffectNone | SideEffectResource | SideEffectExternal | SideEffectUnknown.
Inductive PayloadLayout : Type := Row | Columnar | BinaryPacked | ResourceBacked.
Inductive TimeoutGranularity : Type := TimeoutBatch | TimeoutEntry.

Record RunnerBatchCapability : Type := mkRunnerBatchCapability {
  rbc_mode : RunnerMode;
  rbc_preferred_batch_size : N;
  rbc_max_batch_entries : N;
  rbc_max_entry_concurrency : N;
  rbc_max_inflight_batches : N;
  rbc_scalar_thread_safe : bool;
  rbc_scalar_reentrant : bool;
  rbc_partial_failure : bool;
  rbc_preserve_order : bool;
  rbc_side_effect : RunnerSideEffect;
}.
Definition RunnerBatchCapability_default : RunnerBatchCapability :=
  mkRunnerBatchCapability ScalarAdapter 1 1 1 1 false false true true SideEffectUnknown.

Record RunnerPayloadCapability : Type := mkRunnerPayloadCapability {
  rpc_layouts : list PayloadLayout;
  rpc_preferred_layout : PayloadLayout;
  rpc_zero_copy : bool;
}.
Definition RunnerPayloadCapability_default : RunnerPayloadCapability :=
  mkRunnerPayloadCapability [Row] Row false.

Record RunnerResourceCapability : Type := mkRunnerResourceCapability {
  rrc_batch_read : bool;
  rrc_batch_write : bool;
  rrc_requires_resource_plan : bool;
  rrc_supports_shared_memory : bool;
}.
Definition RunnerResourceCapability_default : RunnerResourceCapability :=
  mkRunnerResourceCapability false false true false.

Record RunnerOrderingCapability : Type := mkRunnerOrderingCapability {
  roc_default : OrderingRequirement;
  roc_supports_sequence : bool;
  roc_supports_same_resource_order : bool;
}.
Definition RunnerOrderingCapability_default : RunnerOrderingCapability :=
  mkRunnerOrderingCapability OrderingNone true true.

Record RunnerControlCapability : Type := mkRunnerControlCapability {
  rcc_entry_cancel : bool;
  rcc_batch_cancel : bool;
  rcc_timeout_granularity : TimeoutGranularity;
}.
Definition RunnerControlCapability_default : RunnerControlCapability :=
  mkRunnerControlCapability false true TimeoutBatch.

Record RunnerDescriptor : Type := mkRunnerDescriptor {
  rd_runner_id : RunnerId;
  rd_plugin_id : PluginId;
  rd_plugin_generation : N;
  rd_accepted_protocol_ids : list ProtocolId;
  rd_purity : RunnerPurity;
  rd_execution_class : ExecutionClass;
  rd_invocation_mode : InvocationMode;
  rd_concurrency : RunnerConcurrency;
  rd_input_schema : Value;
  rd_output_schema : Value;
  rd_batch : RunnerBatchCapability;
  rd_payload : RunnerPayloadCapability;
  rd_resources : RunnerResourceCapability;
  rd_ordering : RunnerOrderingCapability;
  rd_control : RunnerControlCapability;
  rd_metadata : gmap string ScalarValue;
  rd_contract_surfaces : list SurfaceId;
}.

End with_serde.

(** ** Surface occupancy *)

Inductive ProtocolClass : Type := ClassDomain | ClassEffect | ClassCore | ClassControl.
#[global] Instance ProtocolClass_eq_dec : EqDecision ProtocolClass.
Proof. solve_decision. Defined.

Record SurfaceOccupancy : Type := mkSurfaceOccupancy {
  so_surface_id : SurfaceId;
  so_ready_tasks : N;
  so_running_invocations : N;
  so_resource_refs : N;
  so_state_refs : N;
  so_active_leases : N;
  so_open_streams : N;
  so_subscriptions : N;
  so_timers : N;
  so_effect_inflight : N;
}.

(** ** Dispatch budgets *)

Record LaneBudget : Type := mkLaneBudget { lb_max_entries : N }.

Record DispatchBudget : Type := mkDispatchBudget {
  db_max_entries : N;
  db_max_batches : N;
  db_max_bytes : N;
  db_lane_budget : gmap DispatchLane LaneBudget;
}.

Definition single_batch (max_entries : N) : DispatchBudget :=
  {| db_max_entries := max_entries;
     db_max_batches := if decide (0 < max_entries)%N then 1 else 0;
     db_max_bytes := u64_max;
     db_lane_budget := ∅ |}.

Definition clamp_to (b : DispatchBudget) (hard_capacity : N) : DispatchBudget :=
  let max_entries := N.min (db_max_entries b) hard_capacity in
  {| db_max_entries := max_entries;
     db_max_batches :=
       if decide (max_entries = 0%N) then 0 else N.min (db_max_batches b) max_entries;
     db_max_bytes := db_max_bytes b;
     db_lane_budget := db_lane_budget b |}.

Definition clamp_batches (b : DispatchBudget) (hard_batch_capacity : N) : DispatchBudget :=
  let max_batches := N.min (db_max_batches b) hard_batch_capacity in
  {| db_max_entries := if decide (max_batches = 0%N) then 0 else db_max_entries b;
     db_max_batches := max_batches;
     db_max_bytes := db_max_bytes b;
     db_lane_budget := db_lane_budget b |}.
