(* ===== verification/TaskIndexes.v ===== *)
(** * TaskIndexes: the incremental scheduling indexes of the task pool

    Models [crates/mutsuki-runtime-core/src/task_pool/indexes.rs] and the
    [TaskRecord] of [task_pool.rs].  A record contributes to the indexes
    according to its status; [update_record] adds or removes that contribution.
    Their specification is in [TaskIndexSpec]. *)
From S2P Require Import Prelude Contracts.

Section records.
Context {serde : Serde}.

Record TaskRecord : Type := mkTaskRecord {
  rec_task : Task;
  rec_output : option Value;
  rec_status : TaskStatus;
  rec_claimed_by : option RunnerId;
  rec_owner_runner : option RunnerId;
  rec_lease : option TaskLease;
  rec_failure : option RuntimeError;
  rec_attempt_generation : N;
  rec_ready_since_step : N;
}.

Definition record_id (r : TaskRecord) : TaskId := t_task_id (rec_task r).

End records.

(** ** Index keys *)

Record ReadySelector : Type := mkReadySelector {
  sel_runner_hint : option string;
  sel_owner_runner : option RunnerId;
}.
#[global] Instance ReadySelector_eq_dec : EqDecision ReadySelector.
Proof. solve_decision. Defined.
#[global] Program Instance ReadySelector_countable : Countable ReadySelector :=
  inj_countable' (λ s, (sel_runner_hint s, sel_owner_runner s))
    (λ p, mkReadySelector p.1 p.2) _.
Next Obligation. by intros []. Qed.

Record ReadyKey : Type := mkReadyKey {
  rk_ready_at_step : N;
  rk_priority : Z;
  rk_created_sequence : N;
  rk_task_id : TaskId;
}.
#[global] Instance ReadyKey_eq_dec : EqDecision ReadyKey.
Proof. solve_decision. Defined.
#[global] Program Instance ReadyKey_countable : Countable ReadyKey :=
  inj_countable' (λ k, (rk_ready_at_step k, rk_priority k, rk_created_sequence k, rk_task_id k))
    (λ p, mkReadyKey p.1.1.1 p.1.1.2 p.1.2 p.2) _.
Next Obligation. by intros []. Qed.

(** The derived lexicographic [Ord] of [ReadyKey]; the priority is wrapped in
    [Reverse], so a larger priority comes first. *)
Definition ready_key_le (a b : ReadyKey) : Prop :=
  (rk_ready_at_step a < rk_ready_at_step b)%N ∨
  rk_ready_at_step a = rk_ready_at_step b ∧
    ((rk_priority b < rk_priority a)%Z ∨
     rk_priority a = rk_priority b ∧
       ((rk_created_sequence a < rk_created_sequence b)%N ∨
        rk_created_sequence a = rk_created_sequence b ∧
          String.le (rk_task_id a) (rk_task_id b))).
#[global] Instance ready_key_le_dec : RelDecision ready_key_le.
Proof. intros a b. unfold ready_key_le. apply _. Defined.

Definition is_due (key : ReadyKey) (current_step : N) : bool :=
  bool_decide (rk_ready_at_step key ≤ current_step)%N.

(** ** The index structures *)

Abbreviation ReadyQueues :=
  (gmap ProtocolId (gmap ReadySelector (gmap DispatchLane (gset ReadyKey)))).
Abbreviation ReadyCounts :=
  (gmap ProtocolId (gmap ReadySelector (gmap DispatchLane (gmap (N * N) N)))).
Abbreviation Buckets := (gmap N (gset TaskId)).

Record TaskIndexes : Type := mkTaskIndexes {
  ix_ready_by_protocol : ReadyQueues;
  ix_ready_counts_by_protocol : ReadyCounts;
  ix_ready_by_step : Buckets;
  ix_ready_with_expectations : gset TaskId;
  ix_wake_by_step : Buckets;
  ix_running_by_runner : gmap RunnerId (gset TaskId);
  ix_waiting_by_runner : gmap RunnerId (gset TaskId);
  ix_leases_by_expiry : Buckets;
}.

Definition TaskIndexes_default : TaskIndexes := mkTaskIndexes ∅ ∅ ∅ ∅ ∅ ∅ ∅ ∅.

(** ** Single-index updates *)

Definition set_map_value {K V} `{Countable K, Countable V}
    (m : gmap K (gset V)) (key : K) (value : V) (present : bool) : gmap K (gset V) :=
  if present then or_default ∅ key (λ values, {[value]} ∪ values) m
  else prune_entry set_is_empty key (λ values, values ∖ {[value]}) m.

Definition set_value {V} `{Countable V} (X : gset V) (value : V) (present : bool) : gset V :=
  if present then {[value]} ∪ X else X ∖ {[value]}.

Definition set_bucket (buckets : Buckets) (step : N) (task_id : TaskId) (present : bool) : Buckets :=
  if present then or_default ∅ step (λ tasks, {[task_id]} ∪ tasks) buckets
  else prune_entry set_is_empty step (λ tasks, tasks ∖ {[task_id]}) buckets.

Definition set_ready (index : ReadyQueues) (protocol_id : ProtocolId) (selector : ReadySelector)
    (lane : DispatchLane) (key : ReadyKey) (present : bool) : ReadyQueues :=
  if present then
    or_default ∅ protocol_id
      (or_default ∅ selector (or_default ∅ lane (λ queue, {[key]} ∪ queue))) index
  else
    prune_entry map_is_empty protocol_id
      (prune_entry map_is_empty selector
        (prune_entry set_is_empty lane (λ queue, queue ∖ {[key]}))) index.

Definition set_ready_count (index : ReadyCounts) (protocol_id : ProtocolId)
    (selector : ReadySelector) (lane : DispatchLane) (ready_at_step registry_generation : N)
    (present : bool) : ReadyCounts :=
  let bucket := (ready_at_step, registry_generation) in
  if present then
    or_default ∅ protocol_id
      (or_default ∅ selector
        (or_default ∅ lane (or_default 0%N bucket (λ count, (count + 1)%N)))) index
  else
    prune_entry map_is_empty protocol_id
      (prune_entry map_is_empty selector
        (prune_entry map_is_empty lane
          (prune_entry (λ count, bool_decide (count = 0%N)) bucket
            (λ count, sat_sub count 1)))) index.

(** ** The contribution of a record *)

Section update.
Context {serde : Serde}.

Definition record_selector (record : TaskRecord) : ReadySelector :=
  mkReadySelector (t_runner_hint (rec_task record)) (rec_owner_runner record).

Definition record_ready_key (record : TaskRecord) : ReadyKey :=
  let task := rec_task record in
  mkReadyKey (default 0%N (t_ready_at_step task)) (t_priority task)
    (t_created_sequence task) (t_task_id task).

Definition update_ready (ix : TaskIndexes) (record : TaskRecord) (present : bool) : TaskIndexes :=
  let task := rec_task record in
  let selector := record_selector record in
  let ready_at_step := default 0%N (t_ready_at_step task) in
  {| ix_ready_by_protocol :=
       set_ready (ix_ready_by_protocol ix) (t_protocol_id task) selector
         (t_dispatch_lane task) (record_ready_key record) present;
     ix_ready_counts_by_protocol :=
       set_ready_count (ix_ready_counts_by_protocol ix) (t_protocol_id task) selector
         (t_dispatch_lane task) ready_at_step (t_registry_generation task) present;
     ix_ready_by_step :=
       match t_ready_at_step task with
       | Some step => set_bucket (ix_ready_by_step ix) step (t_task_id task) present
       | None => ix_ready_by_step ix
       end;
     ix_ready_with_expectations :=
       match t_expected_versions task with
       | [] => ix_ready_with_expectations ix
       | _ :: _ => set_value (ix_ready_with_expectations ix) (t_task_id task) present
       end;
     ix_wake_by_step := ix_wake_by_step ix;
     ix_running_by_runner := ix_running_by_runner ix;
     ix_waiting_by_runner := ix_waiting_by_runner ix;
     ix_leases_by_expiry := ix_leases_by_expiry ix |}.

Definition lease_expiry (record : TaskRecord) : option N :=
  lease ← rec_lease record; tl_expires_at_step lease.

Definition update_running (ix : TaskIndexes) (record : TaskRecord) (present : bool) : TaskIndexes :=
  let task_id := t_task_id (rec_task record) in
  {| ix_ready_by_protocol := ix_ready_by_protocol ix;
     ix_ready_counts_by_protocol := ix_ready_counts_by_protocol ix;
     ix_ready_by_step := ix_ready_by_step ix;
     ix_ready_with_expectations := ix_ready_with_expectations ix;
     ix_wake_by_step := ix_wake_by_step ix;
     ix_running_by_runner :=
       match rec_claimed_by record with
       | Some runner_id => set_map_value (ix_running_by_runner ix) runner_id task_id present
       | None => ix_running_by_runner ix
       end;
     ix_waiting_by_runner := ix_waiting_by_runner ix;
     ix_leases_by_expiry :=
       match lease_expiry record with
       | Some step => set_bucket (ix_leases_by_expiry ix) step task_id present
       | None => ix_leases_by_expiry ix
       end |}.

Definition update_wake (ix : TaskIndexes) (record : TaskRecord) (present : bool) : TaskIndexes :=
  {| ix_ready_by_protocol := ix_ready_by_protocol ix;
     ix_ready_counts_by_protocol := ix_ready_counts_by_protocol ix;
     ix_ready_by_step := ix_ready_by_step ix;
     ix_ready_with_expectations := ix_ready_with_expectations ix;
     ix_wake_by_step :=
       match t_ready_at_step (rec_task record) with
       | Some step =>
           set_bucket (ix_wake_by_step ix) step (t_task_id (rec_task record)) present
       | None => ix_wake_by_step ix
       end;
     ix_running_by_runner := ix_running_by_runner ix;
     ix_waiting_by_runner := ix_waiting_by_runner ix;
     ix_leases_by_expiry := ix_leases_by_expiry ix |}.

Definition update_waiting (ix : TaskIndexes) (record : TaskRecord) (present : bool) : TaskIndexes :=
  {| ix_ready_by_protocol := ix_ready_by_protocol ix;
     ix_ready_counts_by_protocol := ix_ready_counts_by_protocol ix;
     ix_ready_by_step := ix_ready_by_step ix;
     ix_ready_with_expectations := ix_ready_with_expectations ix;
     ix_wake_by_step := ix_wake_by_step ix;
     ix_running_by_runner := ix_running_by_runner ix;
     ix_waiting_by_runner :=
       match rec_owner_runner record with
       | Some runner_id =>
           set_map_value (ix_waiting_by_runner ix) runner_id (t_task_id (rec_task record)) present
       | None => ix_waiting_by_runner ix
       end;
     ix_leases_by_expiry := ix_leases_by_expiry ix |}.

Definition update_record (ix : TaskIndexes) (record : TaskRecord) (present : bool) : TaskIndexes :=
  match rec_status record with
  | Ready => update_ready ix record present
  | Running => update_running ix record present
  | Waiting => update_wake (update_waiting ix record present) record present
  | Blocked => update_wake ix record present
  | _ => ix
  end.

End update.

(** ** Selectors of a runner *)

Abbreviation ReadySelectors := (list ReadySelector).

Definition build_ready_selectors (runner_id : RunnerId) : ReadySelectors :=
  [ mkReadySelector None None;
    mkReadySelector (Some runner_id) None;
    mkReadySelector None (Some runner_id);
    mkReadySelector (Some runner_id) (Some runner_id) ].

(** ** Queries on the buckets *)

(** [BTreeMap<DispatchLane, _>::values]: the lanes in declaration order. *)
Definition lane_values {V} (m : gmap DispatchLane V) : list V :=
  omap (λ lane, m !! lane) DispatchLane_ALL.

(** [buckets.split_off(&(current_step + 1))]: the strictly later buckets stay. *)
Definition due_part (buckets : Buckets) (current_step : N) : Buckets :=
  filter (λ kv, (kv.1 ≤ current_step)%N) buckets.
Definition future_part (buckets : Buckets) (current_step : N) : Buckets :=
  filter (λ kv, (current_step < kv.1)%N) buckets.

Definition bucket_entries (buckets : Buckets) : list (TaskId * N) :=
  step ← btree_iter N.le (dom buckets);
  (λ task_id, (task_id, step)) <$> btree_iter String.le (default ∅ (buckets !! step)).

Definition take_due_buckets (buckets : Buckets) (current_step : N) : list (TaskId * N) * Buckets :=
  if decide (current_step = u64_max) then (bucket_entries buckets, ∅)
  else (bucket_entries (due_part buckets current_step), future_part buckets current_step).

Definition next_bucket_after (buckets : Buckets) (current_step : N) : option N :=
  head (btree_iter N.le (dom (future_part buckets current_step))).

Definition map_set_len {K V} `{Countable K, Countable V} (m : gmap K (gset V)) (key : K) : N :=
  match m !! key with Some X => N.of_nat (size X) | None => 0 end.

(** [take_due_wake_tasks] and [take_expired_lease_tasks] on the index record. *)
Definition take_due_wake (ix : TaskIndexes) (current_step : N) : list (TaskId * N) * TaskIndexes :=
  let '(due, rest) := take_due_buckets (ix_wake_by_step ix) current_step in
  (due, mkTaskIndexes (ix_ready_by_protocol ix) (ix_ready_counts_by_protocol ix)
          (ix_ready_by_step ix) (ix_ready_with_expectations ix) rest
          (ix_running_by_runner ix) (ix_waiting_by_runner ix) (ix_leases_by_expiry ix)).

Definition take_expired_leases (ix : TaskIndexes) (current_step : N) : list TaskId * TaskIndexes :=
  let '(due, rest) := take_due_buckets (ix_leases_by_expiry ix) current_step in
  (due.*1, mkTaskIndexes (ix_ready_by_protocol ix) (ix_ready_counts_by_protocol ix)
             (ix_ready_by_step ix) (ix_ready_with_expectations ix) (ix_wake_by_step ix)
             (ix_running_by_runner ix) (ix_waiting_by_runner ix) rest).

Definition min_option (a b : option N) : option N :=
  match a, b with
  | Some x, Some y => Some (N.min x y)
  | Some x, None => Some x
  | None, b => b
  end.

Definition next_required_step_after (ix : TaskIndexes) (current_step : N) : option N :=
  min_option (next_bucket_after (ix_ready_by_step ix) current_step)
    (min_option (next_bucket_after (ix_wake_by_step ix) current_step)
      (next_bucket_after (ix_leases_by_expiry ix) current_step)).

(** ** Total lookup of a bucket *)

Definition bucket {K V} `{Countable K, Countable V} (m : gmap K (gset V)) (k : K) : gset V :=
  default ∅ (m !! k).
