(* ===== verification/TaskIndexSpec.v ===== *)
(** * TaskIndexSpec: what the scheduling indexes of the task pool hold

    Each index of [TaskIndexes] is characterised by the records that contribute
    to it ([facts], [count_at], gathered in [index_spec]); [update_record]
    maintains the characterisation, no empty container survives an update
    ([index_canon]), and the two determine the index record ([index_unique]).
    Draining due buckets moves their tasks to the gap of the specification. *)
From S2P Require Import Prelude Contracts TaskIndexes.

(** ** Total views of the indexes *)

Definition ready_queue (q : ReadyQueues) (i : ProtocolId * ReadySelector * DispatchLane)
  : gset ReadyKey :=
  bucket (default ∅ (default ∅ (q !! i.1.1) !! i.1.2)) i.2.

Definition ready_count (c : ReadyCounts)
    (i : ProtocolId * ReadySelector * DispatchLane * (N * N)) : N :=
  default 0%N (default ∅ (default ∅ (default ∅ (c !! i.1.1.1) !! i.1.1.2) !! i.1.2) !! i.2).

(** No empty inner container is kept. *)
Definition queues_canon (q : ReadyQueues) : Prop :=
  all_values (λ m1, m1 ≠ ∅ ∧ all_values (λ m2, m2 ≠ ∅ ∧ (all_values (.≠ ∅) m2)) m1) q.
Definition counts_canon (c : ReadyCounts) : Prop :=
  all_values (λ m1, m1 ≠ ∅ ∧
    all_values (λ m2, m2 ≠ ∅ ∧ all_values (λ m3, m3 ≠ ∅ ∧ all_values (.≠ 0%N) m3) m2) m1) c.

(** ** The specification of the indexes *)

Section spec.
Context {serde : Serde}.
Implicit Types (tasks : gmap TaskId TaskRecord) (r : TaskRecord).

Definition record_position r : ProtocolId * ReadySelector * DispatchLane :=
  (t_protocol_id (rec_task r), record_selector r, t_dispatch_lane (rec_task r)).
Definition record_bucket r : N * N :=
  (default 0%N (t_ready_at_step (rec_task r)), t_registry_generation (rec_task r)).

Definition at_ready r (i : ProtocolId * ReadySelector * DispatchLane) : Prop :=
  rec_status r = Ready ∧ record_position r = i.
Definition at_count r (i : ProtocolId * ReadySelector * DispatchLane * (N * N)) : Prop :=
  rec_status r = Ready ∧ (record_position r, record_bucket r) = i.
Definition at_ready_step r (step : N) : Prop :=
  rec_status r = Ready ∧ t_ready_at_step (rec_task r) = Some step.
Definition at_expectation r (_ : unit) : Prop :=
  rec_status r = Ready ∧ (length (t_expected_versions (rec_task r)) ≠ 0%nat).
Definition at_wake r (step : N) : Prop :=
  (rec_status r = Waiting ∨ rec_status r = Blocked) ∧ t_ready_at_step (rec_task r) = Some step.
Definition at_running r (runner_id : RunnerId) : Prop :=
  rec_status r = Running ∧ rec_claimed_by r = Some runner_id.
Definition at_waiting r (runner_id : RunnerId) : Prop :=
  rec_status r = Waiting ∧ rec_owner_runner r = Some runner_id.
Definition at_lease r (step : N) : Prop :=
  rec_status r = Running ∧ lease_expiry r = Some step.

#[global] Instance at_ready_dec r i : Decision (at_ready r i).
Proof. unfold at_ready. apply _. Defined.
#[global] Instance at_count_dec r i : Decision (at_count r i).
Proof. unfold at_count. apply _. Defined.
#[global] Instance at_ready_step_dec r i : Decision (at_ready_step r i).
Proof. unfold at_ready_step. apply _. Defined.
#[global] Instance at_expectation_dec r i : Decision (at_expectation r i).
Proof. unfold at_expectation. apply _. Defined.
#[global] Instance at_wake_dec r i : Decision (at_wake r i).
Proof. unfold at_wake. apply _. Defined.
#[global] Instance at_running_dec r i : Decision (at_running r i).
Proof. unfold at_running. apply _. Defined.
#[global] Instance at_waiting_dec r i : Decision (at_waiting r i).
Proof. unfold at_waiting. apply _. Defined.
#[global] Instance at_lease_dec r i : Decision (at_lease r i).
Proof. unfold at_lease. apply _. Defined.

(** A set-valued index [view] holds exactly the values of the records that sit
    at each coordinate, the records of [gap] excepted. *)
Definition facts {I V} `{Countable V} (idof : V → TaskId) (at_ : TaskRecord → I → Prop)
    (val : TaskRecord → V) (gap : gset TaskId) tasks (view : I → gset V) : Prop :=
  ∀ i v, (v ∈ view i) ↔ (idof v ∉ gap) ∧ (∃ r, tasks !! idof v = Some r ∧ at_ r i ∧ val r = v).

(** The number of records at a coordinate. *)
Definition count_at tasks (i : ProtocolId * ReadySelector * DispatchLane * (N * N)) : N :=
  N.of_nat (size (filter (λ kv, at_count kv.2 i) tasks)).

(** The whole index record, relative to the tasks.  [wgap] and [lgap] are the
    tasks whose wake or lease entry has been taken out of the index. *)
Record index_spec (wgap lgap : gset TaskId) tasks (ix : TaskIndexes) : Prop := {
  spec_ready : facts rk_task_id at_ready record_ready_key ∅ tasks
    (ready_queue (ix_ready_by_protocol ix));
  spec_count : ∀ i, ready_count (ix_ready_counts_by_protocol ix) i = count_at tasks i;
  spec_ready_step : facts id at_ready_step record_id ∅ tasks (bucket (ix_ready_by_step ix));
  spec_expectation : facts id at_expectation record_id ∅ tasks
    (λ _, ix_ready_with_expectations ix);
  spec_wake : facts id at_wake record_id wgap tasks (bucket (ix_wake_by_step ix));
  spec_running : facts id at_running record_id ∅ tasks (bucket (ix_running_by_runner ix));
  spec_waiting : facts id at_waiting record_id ∅ tasks (bucket (ix_waiting_by_runner ix));
  spec_lease : facts id at_lease record_id lgap tasks (bucket (ix_leases_by_expiry ix));
}.

Record index_canon (ix : TaskIndexes) : Prop := {
  canon_ready : queues_canon (ix_ready_by_protocol ix);
  canon_count : counts_canon (ix_ready_counts_by_protocol ix);
  canon_ready_step : all_values (.≠ ∅) (ix_ready_by_step ix);
  canon_wake : all_values (.≠ ∅) (ix_wake_by_step ix);
  canon_running : all_values (.≠ ∅) (ix_running_by_runner ix);
  canon_waiting : all_values (.≠ ∅) (ix_waiting_by_runner ix);
  canon_lease : all_values (.≠ ∅) (ix_leases_by_expiry ix);
}.

(** ** Views after a single-index update *)

Lemma bucket_set_map_value {K V} `{Countable K, Countable V} (m : gmap K (gset V)) k v b k' :
  bucket (set_map_value m k v b) k'
  = if decide (k = k') then set_value (bucket m k) v b else bucket m k'.
Proof.
  unfold bucket, set_map_value, set_value. destruct b.
  - by rewrite default_or_default.
  - rewrite default_prune_entry; [done| |set_solver].
    intros X. apply set_is_empty_true.
Qed.

Lemma bucket_set_bucket m k v b k' :
  bucket (set_bucket m k v b) k'
  = if decide (k = k') then set_value (bucket m k) v b else bucket m k'.
Proof. apply (bucket_set_map_value m k v b k'). Qed.

Lemma ready_queue_set_ready q p s l key b i :
  ready_queue (set_ready q p s l key b) i
  = if decide ((p, s, l) = i) then set_value (ready_queue q i) key b else ready_queue q i.
Proof.
  destruct i as [[p' s'] l']. unfold ready_queue, set_ready, bucket, set_value. simpl.
  assert (prune_entry set_is_empty l (λ X : gset ReadyKey, X ∖ {[key]}) ∅ = ∅) as H1 by done.
  assert (prune_entry map_is_empty s
    (prune_entry set_is_empty l (λ X : gset ReadyKey, X ∖ {[key]})) ∅ = ∅) as H2 by done.
  assert (∀ X : gset ReadyKey, set_is_empty X = true → X = ∅) as H3
    by (intros X; apply set_is_empty_true).
  assert (∀ m : gmap DispatchLane (gset ReadyKey), map_is_empty m = true → m = ∅) as H4
    by (intros m; apply map_is_empty_true).
  assert (∀ m : gmap ReadySelector (gmap DispatchLane (gset ReadyKey)),
    map_is_empty m = true → m = ∅) as H5 by (intros m; apply map_is_empty_true).
  destruct b; rewrite ?default_or_default, ?default_prune_entry by done;
    repeat (case_decide; simplify_eq/=; rewrite ?default_or_default, ?default_prune_entry by set_solver);
    try done; by repeat (case_decide; simplify_eq/=).
Qed.

Lemma ready_count_set_ready_count c p s l step gen b i :
  ready_count (set_ready_count c p s l step gen b) i
  = if decide ((p, s, l, (step, gen)) = i)
    then (if b then (ready_count c i + 1)%N else (ready_count c i - 1)%N)
    else ready_count c i.
Proof.
  destruct i as [[[p' s'] l'] k']. unfold ready_count, set_ready_count, sat_sub. simpl.
  assert (∀ n : N, bool_decide (n = 0%N) = true → n = 0%N) as H3
    by (intros n; apply bool_decide_eq_true).
  assert (∀ m : gmap (N * N) N, map_is_empty m = true → m = ∅) as H4
    by (intros m; apply map_is_empty_true).
  assert (∀ m : gmap DispatchLane (gmap (N * N) N), map_is_empty m = true → m = ∅) as H5
    by (intros m; apply map_is_empty_true).
  assert (∀ m : gmap ReadySelector (gmap DispatchLane (gmap (N * N) N)),
    map_is_empty m = true → m = ∅) as H6 by (intros m; apply map_is_empty_true).
  destruct b; rewrite ?default_or_default, ?default_prune_entry by done;
    repeat (case_decide; simplify_eq/=; rewrite ?default_or_default, ?default_prune_entry by done);
    try done; by repeat (case_decide; simplify_eq/=).
Qed.

(** ** Views after the update of a record *)

(** Case analysis on whether record [r] sits at the coordinate, then on its
    status. *)
Ltac by_status at_dec r :=
  destruct at_dec as [Hat|Hat]; unfold update_record;
  destruct (rec_status r) eqn:Hst; simpl; try done;
  unfold at_ready, at_count, at_ready_step, at_expectation, at_wake, at_running, at_waiting,
    at_lease in Hat; rewrite Hst in Hat; try (exfalso; intuition congruence).

Lemma view_ready ix r b i :
  ready_queue (ix_ready_by_protocol (update_record ix r b)) i
  = if decide (at_ready r i)
    then set_value (ready_queue (ix_ready_by_protocol ix) i) (record_ready_key r) b
    else ready_queue (ix_ready_by_protocol ix) i.
Proof.
  by_status (decide (at_ready r i)) r; rewrite ready_queue_set_ready;
    unfold record_position in Hat; case_decide; naive_solver.
Qed.

Lemma view_count ix r b i :
  ready_count (ix_ready_counts_by_protocol (update_record ix r b)) i
  = if decide (at_count r i)
    then (if b then (ready_count (ix_ready_counts_by_protocol ix) i + 1)%N
          else (ready_count (ix_ready_counts_by_protocol ix) i - 1)%N)
    else ready_count (ix_ready_counts_by_protocol ix) i.
Proof.
  by_status (decide (at_count r i)) r; rewrite ready_count_set_ready_count;
    unfold record_position, record_bucket in Hat; case_decide; naive_solver.
Qed.

Lemma view_ready_step ix r b i :
  bucket (ix_ready_by_step (update_record ix r b)) i
  = if decide (at_ready_step r i) then set_value (bucket (ix_ready_by_step ix) i) (record_id r) b
    else bucket (ix_ready_by_step ix) i.
Proof.
  by_status (decide (at_ready_step r i)) r;
    destruct (t_ready_at_step (rec_task r)) as [step|]; try rewrite bucket_set_bucket;
    try case_decide; naive_solver.
Qed.

Lemma view_expectation ix r b i :
  ix_ready_with_expectations (update_record ix r b)
  = if decide (at_expectation r i) then set_value (ix_ready_with_expectations ix) (record_id r) b
    else ix_ready_with_expectations ix.
Proof.
  by_status (decide (at_expectation r i)) r;
    destruct (t_expected_versions (rec_task r)); naive_solver.
Qed.

Lemma view_wake ix r b i :
  bucket (ix_wake_by_step (update_record ix r b)) i
  = if decide (at_wake r i) then set_value (bucket (ix_wake_by_step ix) i) (record_id r) b
    else bucket (ix_wake_by_step ix) i.
Proof.
  by_status (decide (at_wake r i)) r;
    destruct (t_ready_at_step (rec_task r)) as [step|]; try rewrite bucket_set_bucket;
    try case_decide; naive_solver.
Qed.

Lemma view_running ix r b i :
  bucket (ix_running_by_runner (update_record ix r b)) i
  = if decide (at_running r i) then set_value (bucket (ix_running_by_runner ix) i) (record_id r) b
    else bucket (ix_running_by_runner ix) i.
Proof.
  by_status (decide (at_running r i)) r;
    destruct (rec_claimed_by r) as [rid|]; try rewrite bucket_set_map_value;
    try case_decide; naive_solver.
Qed.

Lemma view_waiting ix r b i :
  bucket (ix_waiting_by_runner (update_record ix r b)) i
  = if decide (at_waiting r i) then set_value (bucket (ix_waiting_by_runner ix) i) (record_id r) b
    else bucket (ix_waiting_by_runner ix) i.
Proof.
  by_status (decide (at_waiting r i)) r;
    destruct (rec_owner_runner r) as [rid|]; try rewrite bucket_set_map_value;
    try case_decide; naive_solver.
Qed.

Lemma view_lease ix r b i :
  bucket (ix_leases_by_expiry (update_record ix r b)) i
  = if decide (at_lease r i) then set_value (bucket (ix_leases_by_expiry ix) i) (record_id r) b
    else bucket (ix_leases_by_expiry ix) i.
Proof.
  by_status (decide (at_lease r i)) r;
    destruct (lease_expiry r) as [step|]; try rewrite bucket_set_bucket;
    try case_decide; naive_solver.
Qed.

(** ** Facts under insertion and removal of a record *)

Section facts_lemmas.
Context {I V : Type} `{Countable V} (idof : V → TaskId) (at_ : TaskRecord → I → Prop)
  `{!∀ r i, Decision (at_ r i)} (val : TaskRecord → V).

Lemma facts_remove gap gap' tasks (view view' : I → gset V) id r :
  facts idof at_ val gap tasks view → tasks !! id = Some r → idof (val r) = id →
  (∀ x, x ≠ id → x ∈ gap' ↔ x ∈ gap) →
  (∀ i, view' i = if decide (at_ r i) then set_value (view i) (val r) false else view i) →
  facts idof at_ val gap' (delete id tasks) view'.
Proof.
  intros Hf Hr Hid Hgap Hview i v. rewrite Hview. specialize (Hf i v). rewrite lookup_delete.
  destruct (decide (id = idof v)) as [->|Hne].
  - split; [|naive_solver]. intros Hv. exfalso. simpl in Hv.
    case_decide as Hat; simpl in Hv; set_solver.
  - rewrite (Hgap (idof v)) by done. simpl. assert (v ≠ val r) by congruence.
    case_decide; simpl; set_solver.
Qed.

Lemma facts_insert gap tasks (view view' : I → gset V) id r :
  facts idof at_ val gap tasks view → tasks !! id = None → id ∉ gap → idof (val r) = id →
  (∀ i, view' i = if decide (at_ r i) then set_value (view i) (val r) true else view i) →
  facts idof at_ val gap (<[id := r]> tasks) view'.
Proof.
  intros Hf Hr Hgap Hid Hview i v. rewrite Hview. specialize (Hf i v). rewrite lookup_insert.
  destruct (decide (id = idof v)) as [->|Hne].
  - case_decide; simpl; set_solver.
  - assert (v ≠ val r) by congruence. case_decide; simpl; set_solver.
Qed.

(** Taking values out of the view and putting their tasks in the gap. *)
Lemma facts_gap gap gap' tasks (view view' : I → gset V) :
  facts idof at_ val gap tasks view →
  (∀ i v, v ∈ view' i ↔ v ∈ view i ∧ idof v ∉ gap') →
  facts idof at_ val (gap ∪ gap') tasks view'.
Proof. intros Hf Hview i v. rewrite Hview, (Hf i v). set_solver. Qed.

End facts_lemmas.

Lemma count_at_insert tasks id r i :
  tasks !! id = None →
  count_at (<[id := r]> tasks) i
  = if decide (at_count r i) then (count_at tasks i + 1)%N else count_at tasks i.
Proof.
  intros Hid. unfold count_at. rewrite map_filter_insert. simpl.
  case_decide.
  - rewrite map_size_insert_None by (by rewrite map_lookup_filter, Hid). lia.
  - by rewrite delete_id.
Qed.

Lemma count_at_delete tasks id r i :
  tasks !! id = Some r →
  count_at (delete id tasks) i
  = if decide (at_count r i) then (count_at tasks i - 1)%N else count_at tasks i.
Proof.
  intros Hid.
  assert (count_at tasks i = if decide (at_count r i) then (count_at (delete id tasks) i + 1)%N
    else count_at (delete id tasks) i) as Hc.
  { rewrite <-(insert_delete_id tasks id r Hid) at 1. apply count_at_insert, lookup_delete_eq. }
  case_decide; lia.
Qed.

Lemma index_spec_remove wgap lgap wgap' lgap' tasks ix id r :
  index_spec wgap lgap tasks ix → tasks !! id = Some r → record_id r = id →
  (∀ x, x ≠ id → x ∈ wgap' ↔ x ∈ wgap) → (∀ x, x ≠ id → x ∈ lgap' ↔ x ∈ lgap) →
  index_spec wgap' lgap' (delete id tasks) (update_record ix r false).
Proof.
  intros [] Hr Hid Hw Hl.
  split; try (eapply facts_remove; [done|done|done|done|]; intros i).
  - apply view_ready.
  - intros i. rewrite view_count, spec_count0, (count_at_delete _ _ r) by done.
    by case_decide.
  - apply view_ready_step.
  - apply view_expectation.
  - apply view_wake.
  - apply view_running.
  - apply view_waiting.
  - apply view_lease.
Qed.

Lemma index_spec_insert wgap lgap tasks ix id r :
  index_spec wgap lgap tasks ix → tasks !! id = None → id ∉ wgap → id ∉ lgap → record_id r = id →
  index_spec wgap lgap (<[id := r]> tasks) (update_record ix r true).
Proof.
  intros [] Hr Hw Hl Hid.
  split; try (eapply facts_insert; [done|done|set_solver|done|]; intros i).
  - apply view_ready.
  - intros i. rewrite view_count, spec_count0, (count_at_insert _ _ r) by done.
    by case_decide.
  - apply view_ready_step.
  - apply view_expectation.
  - apply view_wake.
  - apply view_running.
  - apply view_waiting.
  - apply view_lease.
Qed.

(** Replacing the record of a task. *)
Lemma index_spec_update wgap lgap tasks ix id r r' :
  index_spec wgap lgap tasks ix → tasks !! id = Some r → record_id r = id → record_id r' = id →
  index_spec (wgap ∖ {[id]}) (lgap ∖ {[id]}) (<[id := r']> tasks)
    (update_record (update_record ix r false) r' true).
Proof.
  intros Hix Hr Hid Hid'. rewrite <-insert_delete_eq.
  apply index_spec_insert; [|apply lookup_delete_eq|set_solver..|done].
  eapply index_spec_remove; eauto; set_solver.
Qed.

(** A task that is not stored may leave the gap. *)
Lemma index_spec_gap_absent wgap lgap tasks ix id :
  index_spec wgap lgap tasks ix → tasks !! id = None → index_spec wgap (lgap ∖ {[id]}) tasks ix.
Proof.
  intros [] Hid. split; try done. intros i v. specialize (spec_lease0 i v). simpl in *.
  rewrite spec_lease0, not_elem_of_difference, elem_of_singleton.
  split; intros [? (r & Hr & ?)]; (split; [|by exists r]); [tauto|].
  intros ?. destruct (decide (v = id)) as [->|]; [congruence|tauto].
Qed.

(** Gap tasks that do not run have no lease entry to miss. *)
Lemma index_spec_lgap lgap wgap tasks ix :
  index_spec wgap lgap tasks ix →
  (∀ x r, x ∈ lgap → tasks !! x = Some r → rec_status r = Running → False) →
  index_spec wgap ∅ tasks ix.
Proof.
  intros [] Hgap. split; try done. intros i v. specialize (spec_lease0 i v). simpl in *.
  rewrite spec_lease0. split; intros [? (r & Hr & Hat & ?)]; (split; [|by exists r]); [set_solver|].
  intros Hv. destruct Hat. eauto.
Qed.

Lemma index_spec_empty : index_spec ∅ ∅ ∅ TaskIndexes_default.
Proof.
  split; try (intros i v; unfold ready_queue, bucket; rewrite ?lookup_empty; simpl;
    rewrite ?lookup_empty; simpl; set_solver).
  intros i. unfold count_at. by rewrite map_filter_empty, map_size_empty.
Qed.

(** ** Canonicity: no empty container survives an update *)

Lemma canon_set_map_value {K V} `{Countable K, Countable V} (m : gmap K (gset V)) k v b :
  all_values (.≠ ∅) m → all_values (.≠ ∅) (set_map_value m k v b).
Proof.
  intros Hm. unfold set_map_value. destruct b.
  - apply all_values_or_default; [done|]. set_solver.
  - apply all_values_prune_entry; [done|]. intros X _. apply set_is_empty_false.
Qed.

Lemma canon_set_bucket m k v b : all_values (.≠ ∅) m → all_values (.≠ ∅) (set_bucket m k v b).
Proof. apply (canon_set_map_value m k v b). Qed.

Lemma or_default_nonempty {K V} `{Countable K} (d : V) (k : K) f (m : gmap K V) :
  or_default d k f m ≠ ∅.
Proof. apply insert_non_empty. Qed.

(** One level of nesting: the values satisfy [Q] and are not empty. *)
Lemma nested_or_default {K K' V} `{Countable K, Countable K'}
    (Q : gmap K' V → Prop) (k : K) f (m : gmap K (gmap K' V)) :
  (∀ m', Q m' → Q (f m')) → Q ∅ → (∀ m', f m' ≠ ∅) →
  all_values (λ m', m' ≠ ∅ ∧ Q m') m → all_values (λ m', m' ≠ ∅ ∧ Q m') (or_default ∅ k f m).
Proof.
  intros Hf Hq0 Hne Hm. apply all_values_or_default; [done|].
  intros v [Hv|[_ ->]]; split; auto. apply Hf. by destruct (Hm k v Hv).
Qed.

Lemma nested_prune_entry {K K' V} `{Countable K, Countable K'}
    (Q : gmap K' V → Prop) (k : K) f (m : gmap K (gmap K' V)) :
  (∀ m', Q m' → Q (f m')) →
  all_values (λ m', m' ≠ ∅ ∧ Q m') m →
  all_values (λ m', m' ≠ ∅ ∧ Q m') (prune_entry map_is_empty k f m).
Proof.
  intros Hf Hm. apply all_values_prune_entry; [done|].
  intros v Hv He. split; [by apply map_is_empty_false|]. apply Hf. by destruct (Hm k v Hv).
Qed.

Lemma canon_set_ready q p s l key b : queues_canon q → queues_canon (set_ready q p s l key b).
Proof.
  unfold queues_canon, set_ready. intros Hq. destruct b.
  - apply nested_or_default; [|apply all_values_empty|intros; apply or_default_nonempty|done].
    intros m1 Hm1. apply nested_or_default;
      [|apply all_values_empty|intros; apply or_default_nonempty|done].
    intros m2 Hm2. by apply (canon_set_map_value m2 l key true).
  - apply nested_prune_entry; [|done]. intros m1 Hm1. apply nested_prune_entry; [|done].
    intros m2 Hm2. by apply (canon_set_map_value m2 l key false).
Qed.

Lemma canon_set_ready_count c p s l step gen b :
  counts_canon c → counts_canon (set_ready_count c p s l step gen b).
Proof.
  unfold counts_canon, set_ready_count. intros Hc. destruct b.
  - apply nested_or_default; [|apply all_values_empty|intros; apply or_default_nonempty|done].
    intros m1 Hm1. apply nested_or_default;
      [|apply all_values_empty|intros; apply or_default_nonempty|done].
    intros m2 Hm2. apply nested_or_default;
      [|apply all_values_empty|intros; apply or_default_nonempty|done].
    intros m3 Hm3. apply all_values_or_default; [done|]. intros; lia.
  - do 3 (apply nested_prune_entry; [|done]; intros ? ?).
    apply all_values_prune_entry; [done|]. intros v _. apply bool_decide_eq_false.
Qed.

Lemma index_canon_update ix r b : index_canon ix → index_canon (update_record ix r b).
Proof.
  intros []. unfold update_record.
  destruct (rec_status r); split; simpl; try done;
    repeat case_match; auto using canon_set_ready, canon_set_ready_count, canon_set_bucket,
      canon_set_map_value.
Qed.

Lemma index_canon_default : index_canon TaskIndexes_default.
Proof. split; apply all_values_empty. Qed.

(** ** Uniqueness: a canonical index is determined by the tasks *)

Lemma facts_unique {I V} `{Countable V} (idof : V → TaskId) (at_ : TaskRecord → I → Prop)
    val gap tasks (view1 view2 : I → gset V) i :
  facts idof at_ val gap tasks view1 → facts idof at_ val gap tasks view2 → view1 i = view2 i.
Proof. intros H1 H2. apply set_eq. intros v. by rewrite (H1 i v), (H2 i v). Qed.

Lemma queues_unique q1 q2 :
  queues_canon q1 → queues_canon q2 → (∀ i, ready_queue q1 i = ready_queue q2 i) → q1 = q2.
Proof.
  intros H1 H2 Heq.
  apply (map_eq_default ∅); [intros p m Hm; by apply (H1 p m)|intros p m Hm; by apply (H2 p m)|].
  intros p.
  assert (∀ q, queues_canon q → all_values (λ m2, m2 ≠ ∅ ∧ all_values (.≠ ∅) m2) (default ∅ (q !! p)))
    as Hin1.
  { intros q Hq. destruct (q !! p) eqn:E; simpl; [by apply (Hq p)|apply all_values_empty]. }
  pose proof (Hin1 q1 H1) as G1. pose proof (Hin1 q2 H2) as G2.
  apply (map_eq_default ∅); [intros s m Hm; by apply (G1 s m)|intros s m Hm; by apply (G2 s m)|].
  intros s.
  assert (∀ m : gmap ReadySelector (gmap DispatchLane (gset ReadyKey)),
    all_values (λ m2, m2 ≠ ∅ ∧ all_values (.≠ ∅) m2) m → all_values (.≠ ∅) (default ∅ (m !! s))) as Hin2.
  { intros m Hm. destruct (m !! s) eqn:E; simpl; [by apply (Hm s)|apply all_values_empty]. }
  apply (map_eq_default ∅); [by apply Hin2|by apply Hin2|].
  intros l. apply (Heq (p, s, l)).
Qed.

Lemma counts_unique c1 c2 :
  counts_canon c1 → counts_canon c2 → (∀ i, ready_count c1 i = ready_count c2 i) → c1 = c2.
Proof.
  intros H1 H2 Heq.
  assert (∀ (A B : Type) `{Countable A} (Q : B → Prop) (d : B) (m : gmap A B) k,
    all_values Q m → Q d → Q (default d (m !! k))) as Hin.
  { intros A B ?? Q d m k Hm Hd. destruct (m !! k) eqn:E; simpl; [by apply (Hm k)|done]. }
  set (Q3 := λ m : gmap (N * N) N, all_values (.≠ 0%N) m).
  set (Q2 := λ m : gmap DispatchLane (gmap (N * N) N), all_values (λ m3, m3 ≠ ∅ ∧ Q3 m3) m).
  set (Q1 := λ m : gmap ReadySelector (gmap DispatchLane (gmap (N * N) N)),
    all_values (λ m2, m2 ≠ ∅ ∧ Q2 m2) m).
  assert (∀ c p, counts_canon c → Q1 (default ∅ (c !! p))) as G1.
  { intros c p Hc. apply (Hin _ _ _ _ Q1); [intros k v Hv; by apply (Hc k v)|apply all_values_empty]. }
  assert (∀ m s, Q1 m → Q2 (default ∅ (m !! s))) as G2.
  { intros m s Hm. apply (Hin _ _ _ _ Q2); [intros k v Hv; by apply (Hm k v)|apply all_values_empty]. }
  assert (∀ m l, Q2 m → Q3 (default ∅ (m !! l))) as G3.
  { intros m l Hm. apply (Hin _ _ _ _ Q3); [intros k v Hv; by apply (Hm k v)|apply all_values_empty]. }
  apply (map_eq_default ∅); [intros p m Hm; by apply (H1 p m)|intros p m Hm; by apply (H2 p m)|].
  intros p. apply (map_eq_default ∅);
    [intros s m Hm; by apply (G1 c1 p H1 s m)|intros s m Hm; by apply (G1 c2 p H2 s m)|].
  intros s. apply (map_eq_default ∅);
    [intros l m Hm; by apply (G2 _ s (G1 c1 p H1) l m)|intros l m Hm; by apply (G2 _ s (G1 c2 p H2) l m)|].
  intros l. apply (map_eq_default 0%N);
    [apply (G3 _ l (G2 _ s (G1 c1 p H1)))|apply (G3 _ l (G2 _ s (G1 c2 p H2)))|].
  intros b. apply (Heq (p, s, l, b)).
Qed.

Lemma index_unique wgap lgap tasks ix1 ix2 :
  index_spec wgap lgap tasks ix1 → index_canon ix1 →
  index_spec wgap lgap tasks ix2 → index_canon ix2 → ix1 = ix2.
Proof.
  intros [] [] [] []. destruct ix1, ix2; simpl in *. f_equal.
  - apply queues_unique; auto. intros i. exact (facts_unique _ _ _ _ _ _ _ i spec_ready0 spec_ready1).
  - apply counts_unique; auto. congruence.
  - apply (map_eq_default ∅); auto. intros i.
    exact (facts_unique _ _ _ _ _ _ _ i spec_ready_step0 spec_ready_step1).
  - exact (facts_unique _ _ _ _ _ _ _ () spec_expectation0 spec_expectation1).
  - apply (map_eq_default ∅); auto. intros i.
    exact (facts_unique _ _ _ _ _ _ _ i spec_wake0 spec_wake1).
  - apply (map_eq_default ∅); auto. intros i.
    exact (facts_unique _ _ _ _ _ _ _ i spec_running0 spec_running1).
  - apply (map_eq_default ∅); auto. intros i.
    exact (facts_unique _ _ _ _ _ _ _ i spec_waiting0 spec_waiting1).
  - apply (map_eq_default ∅); auto. intros i.
    exact (facts_unique _ _ _ _ _ _ _ i spec_lease0 spec_lease1).
Qed.

(** ** Due buckets *)

Lemma elem_of_bucket_entries b id step : (id, step) ∈ bucket_entries b ↔ id ∈ bucket b step.
Proof.
  unfold bucket_entries. rewrite list_elem_of_bind. setoid_rewrite list_elem_of_fmap.
  setoid_rewrite elem_of_btree_iter. setoid_rewrite elem_of_dom. unfold bucket. split.
  - intros (? & (? & [= -> ->] & ?) & ?). done.
  - intros Hid. exists step. split; [by exists id|].
    destruct (b !! step); [eauto|set_solver].
Qed.

Lemma bucket_due_part b current_step step :
  bucket (due_part b current_step) step
  = if decide (step ≤ current_step)%N then bucket b step else ∅.
Proof.
  unfold bucket, due_part. rewrite map_lookup_filter. destruct (b !! step); simpl;
    repeat case_guard; repeat case_decide; simpl; done.
Qed.

Lemma bucket_future_part b current_step step :
  bucket (future_part b current_step) step
  = if decide (current_step < step)%N then bucket b step else ∅.
Proof.
  unfold bucket, future_part. rewrite map_lookup_filter. destruct (b !! step); simpl;
    repeat case_guard; repeat case_decide; simpl; done.
Qed.

Lemma NoDup_bucket_entries b : NoDup (bucket_entries b).
Proof.
  unfold bucket_entries. apply NoDup_bind.
  - intros x1 x2 y _ _ (? & -> & _)%list_elem_of_fmap (? & ? & _)%list_elem_of_fmap. congruence.
  - intros step _. apply NoDup_fmap_2; [|apply NoDup_btree_iter]. by intros ?? [= ->].
  - apply NoDup_btree_iter.
Qed.

(** A due entry was in its bucket; what is not due stays. *)
Lemma take_due_buckets_spec b current_step due rest :
  take_due_buckets b current_step = (due, rest) →
  NoDup due ∧
  (∀ id step, id ∈ bucket b step ↔ (id, step) ∈ due ∨ id ∈ bucket rest step) ∧
  (∀ id step, (id, step) ∈ due → id ∉ bucket rest step) ∧
  (∀ id step, id ∈ bucket rest step → (current_step < step)%N) ∧
  (all_values (.≠ ∅) b → all_values (.≠ ∅) rest).
Proof.
  unfold take_due_buckets. case_decide as Hmax; intros [= <- <-];
    (split; [apply NoDup_bucket_entries|]).
  - assert (∀ step, bucket (∅ : Buckets) step = ∅) as He by done.
    split_and!; [..|intros _; apply all_values_empty]; intros id step;
      rewrite ?He, ?elem_of_bucket_entries; set_solver.
  - split_and!.
    + intros id step. rewrite elem_of_bucket_entries, bucket_due_part, bucket_future_part.
      repeat case_decide; first [lia|set_solver].
    + intros id step. rewrite elem_of_bucket_entries, bucket_due_part, bucket_future_part.
      repeat case_decide; first [lia|set_solver].
    + intros id step. rewrite bucket_future_part. case_decide; set_solver.
    + intros Hb k X. unfold future_part. rewrite map_lookup_filter_Some. naive_solver.
Qed.

(** Only due entries are drained; at the last step everything is due. *)
Lemma take_due_buckets_due b current_step due rest :
  take_due_buckets b current_step = (due, rest) →
  ∀ id step, (id, step) ∈ due → (step ≤ current_step)%N ∨ current_step = u64_max.
Proof.
  unfold take_due_buckets. case_decide; intros [= <- <-] id step; [auto|].
  rewrite elem_of_bucket_entries, bucket_due_part. case_decide; set_solver.
Qed.

(** Draining due buckets puts their tasks in the gap. *)
Lemma take_due_facts at_ gap tasks b current_step due rest :
  (∀ r s1 s2, at_ r s1 → at_ r s2 → s1 = s2) →
  facts id at_ record_id gap tasks (bucket b) →
  take_due_buckets b current_step = (due, rest) →
  facts id at_ record_id (gap ∪ list_to_set due.*1) tasks (bucket rest) ∧ NoDup due.*1 ∧
  (∀ x step, (x, step) ∈ due → x ∉ gap ∧ (∃ r, tasks !! x = Some r ∧ at_ r step)) ∧
  (∀ x r step, tasks !! x = Some r → record_id r = x → x ∉ gap → at_ r step →
     (step ≤ current_step)%N → (x, step) ∈ due).
Proof.
  intros Hfun Hf Htake.
  apply take_due_buckets_spec in Htake as (Hnd & Hpart & Hdisj & Hrest & _).
  assert (∀ x step, x ∈ bucket b step → x ∉ gap ∧ (∃ r, tasks !! x = Some r ∧ at_ r step)) as Hb.
  { intros x step Hx. apply Hf in Hx. simpl in Hx. naive_solver. }
  assert (∀ x s1 s2, x ∈ bucket b s1 → x ∈ bucket b s2 → s1 = s2) as Huniq.
  { intros x s1 s2 [_ (r1 & ? & ?)]%Hb [_ (r2 & ? & ?)]%Hb. simplify_eq. eauto. }
  split_and!.
  - eapply facts_gap; [done|]. intros step x. simpl. split; [|set_solver].
    intros Hin. split; [apply Hpart; auto|]. rewrite elem_of_list_to_set, list_elem_of_fmap.
    intros ([x' step'] & -> & Hdue). simpl in *.
    assert (step' = step) as -> by (eapply Huniq; apply Hpart; eauto). by eapply Hdisj.
  - apply NoDup_fmap_fst; [|done]. intros x s1 s2 H1 H2. eapply (Huniq x); apply Hpart; auto.
  - intros x step Hdue. apply Hb, Hpart. auto.
  - intros x r step Hr Hid Hgap Hat Hle.
    assert (x ∈ bucket b step) as [?|Hin]%Hpart by (apply Hf; simpl; naive_solver); [done|].
    apply Hrest in Hin. lia.
Qed.

Lemma take_due_wake_spec lgap tasks ix current_step due ix' :
  index_spec ∅ lgap tasks ix → index_canon ix → take_due_wake ix current_step = (due, ix') →
  index_spec (list_to_set due.*1) lgap tasks ix' ∧ index_canon ix' ∧ NoDup due.*1 ∧
  (∀ x step, (x, step) ∈ due → ∃ r, tasks !! x = Some r ∧ at_wake r step) ∧
  (∀ x r step, tasks !! x = Some r → record_id r = x → at_wake r step →
     (step ≤ current_step)%N → (x, step) ∈ due).
Proof.
  intros [] []. unfold take_due_wake.
  destruct (take_due_buckets (ix_wake_by_step ix) current_step) as [l rest] eqn:Htake.
  intros [= <- <-].
  pose proof (take_due_buckets_spec _ _ _ _ Htake) as (_ & _ & _ & _ & Hcan).
  destruct (take_due_facts at_wake ∅ tasks _ _ _ _ ltac:(unfold at_wake; naive_solver)
    spec_wake0 Htake) as (Hf & Hnd & Hdue & Hcomp).
  rewrite (left_id_L ∅ (∪)) in Hf.
  split_and!; [by split|by split; simpl; auto|done|..].
  - intros x step Hx. by apply Hdue.
  - intros. eapply Hcomp; eauto. set_solver.
Qed.

Lemma take_expired_leases_spec lgap tasks ix current_step due ix' :
  index_spec ∅ lgap tasks ix → index_canon ix → take_expired_leases ix current_step = (due, ix') →
  index_spec ∅ (lgap ∪ list_to_set due) tasks ix' ∧ index_canon ix' ∧ NoDup due ∧
  (∀ x, x ∈ due → x ∉ lgap ∧ (∃ r step, tasks !! x = Some r ∧ at_lease r step ∧
     ((step ≤ current_step)%N ∨ current_step = u64_max))) ∧
  (∀ x r step, tasks !! x = Some r → record_id r = x → x ∉ lgap → at_lease r step →
     (step ≤ current_step)%N → x ∈ due).
Proof.
  intros [] []. unfold take_expired_leases.
  destruct (take_due_buckets (ix_leases_by_expiry ix) current_step) as [l rest] eqn:Htake.
  intros [= <- <-].
  pose proof (take_due_buckets_spec _ _ _ _ Htake) as (_ & _ & _ & _ & Hcan).
  destruct (take_due_facts at_lease lgap tasks _ _ _ _ ltac:(unfold at_lease; naive_solver)
    spec_lease0 Htake) as (Hf & Hnd & Hdue & Hcomp).
  split_and!; [by split|by split; simpl; auto|done|..].
  - intros x ([x' step] & -> & Hx)%list_elem_of_fmap.
    pose proof (take_due_buckets_due _ _ _ _ Htake _ _ Hx). apply Hdue in Hx. naive_solver.
  - intros x r step **. apply list_elem_of_fmap. exists (x, step). split; [done|]. eauto.
Qed.

(** ** The next step at which the indexes have work *)

Lemma btree_iter_sorted {A} (R : relation A) `{!RelDecision R, Countable A, !PartialOrder R, !Total R}
    (X : gset A) : StronglySorted R (btree_iter R X).
Proof. unfold btree_iter. by apply StronglySorted_merge_sort; try apply _. Qed.

Lemma next_bucket_after_Some b current_step step :
  all_values (.≠ ∅) b → next_bucket_after b current_step = Some step →
  (current_step < step)%N ∧ (∃ x, x ∈ bucket b step) ∧
  (∀ x s, x ∈ bucket b s → (current_step < s)%N → (step ≤ s)%N).
Proof.
  intros Hb. unfold next_bucket_after. intros Hhd.
  pose proof (btree_iter_sorted N.le (dom (future_part b current_step))) as Hs.
  assert (∀ s, s ∈ dom (future_part b current_step) ↔
    (current_step < s)%N ∧ ∃ x, x ∈ bucket b s) as Hdom.
  { intros s. rewrite elem_of_dom. unfold is_Some, future_part, bucket.
    setoid_rewrite map_lookup_filter_Some. simpl. split.
    - intros (X & HX & ?). split; [done|]. rewrite HX. simpl.
      apply set_choose_L. by apply (Hb s).
    - intros (? & x & Hx). destruct (b !! s); [eauto|set_solver]. }
  assert (∀ s, s ∈ dom (future_part b current_step) ↔
    s ∈ btree_iter N.le (dom (future_part b current_step))) as Hiter
    by (intros; by rewrite elem_of_btree_iter).
  destruct (btree_iter N.le _) as [|step' l]; simplify_eq/=.
  apply StronglySorted_cons in Hs as [Hall _]. rewrite Forall_forall in Hall.
  destruct (proj1 (Hdom step)) as [? ?]; [apply Hiter; set_solver|].
  split_and!; [done..|]. intros x s Hx Hlt.
  assert (s ∈ step :: l) as [->|Hin]%elem_of_cons by (apply Hiter, Hdom; eauto); [lia|].
  by apply Hall.
Qed.

Lemma next_bucket_after_None b current_step x s :
  next_bucket_after b current_step = None → x ∈ bucket b s → (s ≤ current_step)%N.
Proof.
  unfold next_bucket_after. intros Hhd%head_None Hx.
  destruct (decide (s ≤ current_step)%N) as [|Hgt]; [done|]. exfalso.
  assert (s ∈ btree_iter N.le (dom (future_part b current_step))) as Hin; [|rewrite Hhd in Hin; set_solver].
  rewrite elem_of_btree_iter, elem_of_dom. unfold bucket in Hx.
  destruct (b !! s) as [X|] eqn:HX; [|set_solver].
  exists X. unfold future_part. rewrite map_lookup_filter_Some. simpl. split; [done|lia].
Qed.

End spec.
