(* ===== verification/TaskPool.v ===== *)
(** * TaskPool: the authoritative task store of the runtime

    Models [crates/mutsuki-runtime-core/src/task_pool.rs] with its submodules
    [awaits.rs] and [transitions.rs] (claiming is in [TaskClaiming]).  A method
    that takes [&mut self] returns the new pool; [Result] is [RuntimeResult] and
    is returned beside the pool, because the pool keeps what was done before the
    error; a method that can reach an [expect] returns an [outcome].  The
    iteration over a [HashMap] is [map_to_list]. *)
From S2P Require Import Prelude Contracts TaskIndexes.

Definition TASK_LEASE_TTL_STEPS : N := 1.
Definition READY_SELECTOR_CACHE_CAPACITY : N := 1024.

Record TaskHistoryRetention : Type := mkTaskHistoryRetention {
  max_terminal_records : N;
  max_evicted_task_ids : N;
}.

Record PendingCancellation : Type := mkPendingCancellation {
  pc_failure : option RuntimeError;
}.

(** ** Statistics *)

Record TaskPoolStatistics : Type := mkTaskPoolStatistics {
  st_state_revision : N;
  st_ready : N;
  st_running : N;
  st_waiting : N;
  st_blocked : N;
  st_completed : N;
  st_failed : N;
  st_cancelled : N;
  st_expired : N;
  st_dead_letter : N;
  st_submitted_total : N;
  st_attempts_started : N;
  st_cumulative_queue_steps : N;
  st_cumulative_execution_steps : N;
  st_stale_results_rejected : N;
  st_terminal_records_evicted : N;
}.

Definition TaskPoolStatistics_default : TaskPoolStatistics :=
  mkTaskPoolStatistics 0 0 0 0 0 0 0 0 0 0 0 0 0 0 0 0.

Definition set_st_state_revision (v : N) (s : TaskPoolStatistics) : TaskPoolStatistics :=
  mkTaskPoolStatistics v (st_ready s) (st_running s) (st_waiting s) (st_blocked s)
    (st_completed s) (st_failed s) (st_cancelled s) (st_expired s) (st_dead_letter s)
    (st_submitted_total s) (st_attempts_started s) (st_cumulative_queue_steps s)
    (st_cumulative_execution_steps s) (st_stale_results_rejected s)
    (st_terminal_records_evicted s).
Definition set_st_ready (v : N) (s : TaskPoolStatistics) : TaskPoolStatistics :=
  mkTaskPoolStatistics (st_state_revision s) v (st_running s) (st_waiting s) (st_blocked s)
    (st_completed s) (st_failed s) (st_cancelled s) (st_expired s) (st_dead_letter s)
    (st_submitted_total s) (st_attempts_started s) (st_cumulative_queue_steps s)
    (st_cumulative_execution_steps s) (st_stale_results_rejected s)
    (st_terminal_records_evicted s).
Definition set_st_running (v : N) (s : TaskPoolStatistics) : TaskPoolStatistics :=
  mkTaskPoolStatistics (st_state_revision s) (st_ready s) v (st_waiting s) (st_blocked s)
    (st_completed s) (st_failed s) (st_cancelled s) (st_expired s) (st_dead_letter s)
    (st_submitted_total s) (st_attempts_started s) (st_cumulative_queue_steps s)
    (st_cumulative_execution_steps s) (st_stale_results_rejected s)
    (st_terminal_records_evicted s).
Definition set_st_waiting (v : N) (s : TaskPoolStatistics) : TaskPoolStatistics :=
  mkTaskPoolStatistics (st_state_revision s) (st_ready s) (st_running s) v (st_blocked s)
    (st_completed s) (st_failed s) (st_cancelled s) (st_expired s) (st_dead_letter s)
    (st_submitted_total s) (st_attempts_started s) (st_cumulative_queue_steps s)
    (st_cumulative_execution_steps s) (st_stale_results_rejected s)
    (st_terminal_records_evicted s).
Definition set_st_blocked (v : N) (s : TaskPoolStatistics) : TaskPoolStatistics :=
  mkTaskPoolStatistics (st_state_revision s) (st_ready s) (st_running s) (st_waiting s) v
    (st_completed s) (st_failed s) (st_cancelled s) (st_expired s) (st_dead_letter s)
    (st_submitted_total s) (st_attempts_started s) (st_cumulative_queue_steps s)
    (st_cumulative_execution_steps s) (st_stale_results_rejected s)
    (st_terminal_records_evicted s).
Definition set_st_completed (v : N) (s : TaskPoolStatistics) : TaskPoolStatistics :=
  mkTaskPoolStatistics (st_state_revision s) (st_ready s) (st_running s) (st_waiting s)
    (st_blocked s) v (st_failed s) (st_cancelled s) (st_expired s) (st_dead_letter s)
    (st_submitted_total s) (st_attempts_started s) (st_cumulative_queue_steps s)
    (st_cumulative_execution_steps s) (st_stale_results_rejected s)
    (st_terminal_records_evicted s).
Definition set_st_failed (v : N) (s : TaskPoolStatistics) : TaskPoolStatistics :=
  mkTaskPoolStatistics (st_state_revision s) (st_ready s) (st_running s) (st_waiting s)
    (st_blocked s) (st_completed s) v (st_cancelled s) (st_expired s) (st_dead_letter s)
    (st_submitted_total s) (st_attempts_started s) (st_cumulative_queue_steps s)
    (st_cumulative_execution_steps s) (st_stale_results_rejected s)
    (st_terminal_records_evicted s).
Definition set_st_cancelled (v : N) (s : TaskPoolStatistics) : TaskPoolStatistics :=
  mkTaskPoolStatistics (st_state_revision s) (st_ready s) (st_running s) (st_waiting s)
    (st_blocked s) (st_completed s) (st_failed s) v (st_expired s) (st_dead_letter s)
    (st_submitted_total s) (st_attempts_started s) (st_cumulative_queue_steps s)
    (st_cumulative_execution_steps s) (st_stale_results_rejected s)
    (st_terminal_records_evicted s).
Definition set_st_expired (v : N) (s : TaskPoolStatistics) : TaskPoolStatistics :=
  mkTaskPoolStatistics (st_state_revision s) (st_ready s) (st_running s) (st_waiting s)
    (st_blocked s) (st_completed s) (st_failed s) (st_cancelled s) v (st_dead_letter s)
    (st_submitted_total s) (st_attempts_started s) (st_cumulative_queue_steps s)
    (st_cumulative_execution_steps s) (st_stale_results_rejected s)
    (st_terminal_records_evicted s).
Definition set_st_dead_letter (v : N) (s : TaskPoolStatistics) : TaskPoolStatistics :=
  mkTaskPoolStatistics (st_state_revision s) (st_ready s) (st_running s) (st_waiting s)
    (st_blocked s) (st_completed s) (st_failed s) (st_cancelled s) (st_expired s) v
    (st_submitted_total s) (st_attempts_started s) (st_cumulative_queue_steps s)
    (st_cumulative_execution_steps s) (st_stale_results_rejected s)
    (st_terminal_records_evicted s).
Definition set_st_submitted_total (v : N) (s : TaskPoolStatistics) : TaskPoolStatistics :=
  mkTaskPoolStatistics (st_state_revision s) (st_ready s) (st_running s) (st_waiting s)
    (st_blocked s) (st_completed s) (st_failed s) (st_cancelled s) (st_expired s)
    (st_dead_letter s) v (st_attempts_started s) (st_cumulative_queue_steps s)
    (st_cumulative_execution_steps s) (st_stale_results_rejected s)
    (st_terminal_records_evicted s).
Definition set_st_attempts_started (v : N) (s : TaskPoolStatistics) : TaskPoolStatistics :=
  mkTaskPoolStatistics (st_state_revision s) (st_ready s) (st_running s) (st_waiting s)
    (st_blocked s) (st_completed s) (st_failed s) (st_cancelled s) (st_expired s)
    (st_dead_letter s) (st_submitted_total s) v (st_cumulative_queue_steps s)
    (st_cumulative_execution_steps s) (st_stale_results_rejected s)
    (st_terminal_records_evicted s).
Definition set_st_cumulative_queue_steps (v : N) (s : TaskPoolStatistics) : TaskPoolStatistics :=
  mkTaskPoolStatistics (st_state_revision s) (st_ready s) (st_running s) (st_waiting s)
    (st_blocked s) (st_completed s) (st_failed s) (st_cancelled s) (st_expired s)
    (st_dead_letter s) (st_submitted_total s) (st_attempts_started s) v
    (st_cumulative_execution_steps s) (st_stale_results_rejected s)
    (st_terminal_records_evicted s).
Definition set_st_cumulative_execution_steps (v : N) (s : TaskPoolStatistics) : TaskPoolStatistics :=
  mkTaskPoolStatistics (st_state_revision s) (st_ready s) (st_running s) (st_waiting s)
    (st_blocked s) (st_completed s) (st_failed s) (st_cancelled s) (st_expired s)
    (st_dead_letter s) (st_submitted_total s) (st_attempts_started s)
    (st_cumulative_queue_steps s) v (st_stale_results_rejected s)
    (st_terminal_records_evicted s).
Definition set_st_stale_results_rejected (v : N) (s : TaskPoolStatistics) : TaskPoolStatistics :=
  mkTaskPoolStatistics (st_state_revision s) (st_ready s) (st_running s) (st_waiting s)
    (st_blocked s) (st_completed s) (st_failed s) (st_cancelled s) (st_expired s)
    (st_dead_letter s) (st_submitted_total s) (st_attempts_started s)
    (st_cumulative_queue_steps s) (st_cumulative_execution_steps s) v
    (st_terminal_records_evicted s).
Definition set_st_terminal_records_evicted (v : N) (s : TaskPoolStatistics) : TaskPoolStatistics :=
  mkTaskPoolStatistics (st_state_revision s) (st_ready s) (st_running s) (st_waiting s)
    (st_blocked s) (st_completed s) (st_failed s) (st_cancelled s) (st_expired s)
    (st_dead_letter s) (st_submitted_total s) (st_attempts_started s)
    (st_cumulative_queue_steps s) (st_cumulative_execution_steps s)
    (st_stale_results_rejected s) v.

(** [status_counter_mut]; the counter of [Created] is [unreachable!] in the
    source and both callers filter that status out. *)
Definition status_counter (status : TaskStatus) (s : TaskPoolStatistics) : N :=
  match status with
  | Created => 0
  | Ready => st_ready s
  | Running => st_running s
  | Waiting => st_waiting s
  | Blocked => st_blocked s
  | Completed => st_completed s
  | Failed => st_failed s
  | Cancelled => st_cancelled s
  | Expired => st_expired s
  | DeadLetter => st_dead_letter s
  end.

Definition set_status_counter (status : TaskStatus) (v : N) (s : TaskPoolStatistics)
  : TaskPoolStatistics :=
  match status with
  | Created => s
  | Ready => set_st_ready v s
  | Running => set_st_running v s
  | Waiting => set_st_waiting v s
  | Blocked => set_st_blocked v s
  | Completed => set_st_completed v s
  | Failed => set_st_failed v s
  | Cancelled => set_st_cancelled v s
  | Expired => set_st_expired v s
  | DeadLetter => set_st_dead_letter v s
  end.

Definition not_created (status : option TaskStatus) : option TaskStatus :=
  match status with Some Created => None | o => o end.

Definition record_status_transition (from to : option TaskStatus) (s : TaskPoolStatistics)
  : TaskPoolStatistics :=
  let s := if decide (from = to) then s
           else set_st_state_revision (sat_add (st_state_revision s) 1) s in
  let s := match not_created from with
           | Some status => set_status_counter status (sat_sub (status_counter status s) 1) s
           | None => s
           end in
  match not_created to with
  | Some status => set_status_counter status (sat_add (status_counter status s) 1) s
  | None => s
  end.

Section pool.
Context {serde : Serde}.

(** ** Records *)

Definition set_rec_task (v : Task) (r : TaskRecord) : TaskRecord :=
  mkTaskRecord v (rec_output r) (rec_status r) (rec_claimed_by r) (rec_owner_runner r)
    (rec_lease r) (rec_failure r) (rec_attempt_generation r) (rec_ready_since_step r).
Definition set_rec_output (v : option Value) (r : TaskRecord) : TaskRecord :=
  mkTaskRecord (rec_task r) v (rec_status r) (rec_claimed_by r) (rec_owner_runner r)
    (rec_lease r) (rec_failure r) (rec_attempt_generation r) (rec_ready_since_step r).
Definition set_rec_status (v : TaskStatus) (r : TaskRecord) : TaskRecord :=
  mkTaskRecord (rec_task r) (rec_output r) v (rec_claimed_by r) (rec_owner_runner r)
    (rec_lease r) (rec_failure r) (rec_attempt_generation r) (rec_ready_since_step r).
Definition set_rec_claimed_by (v : option RunnerId) (r : TaskRecord) : TaskRecord :=
  mkTaskRecord (rec_task r) (rec_output r) (rec_status r) v (rec_owner_runner r) (rec_lease r)
    (rec_failure r) (rec_attempt_generation r) (rec_ready_since_step r).
Definition set_rec_owner_runner (v : option RunnerId) (r : TaskRecord) : TaskRecord :=
  mkTaskRecord (rec_task r) (rec_output r) (rec_status r) (rec_claimed_by r) v (rec_lease r)
    (rec_failure r) (rec_attempt_generation r) (rec_ready_since_step r).
Definition set_rec_lease (v : option TaskLease) (r : TaskRecord) : TaskRecord :=
  mkTaskRecord (rec_task r) (rec_output r) (rec_status r) (rec_claimed_by r)
    (rec_owner_runner r) v (rec_failure r) (rec_attempt_generation r) (rec_ready_since_step r).
Definition set_rec_failure (v : option RuntimeError) (r : TaskRecord) : TaskRecord :=
  mkTaskRecord (rec_task r) (rec_output r) (rec_status r) (rec_claimed_by r)
    (rec_owner_runner r) (rec_lease r) v (rec_attempt_generation r) (rec_ready_since_step r).
Definition set_rec_attempt_generation (v : N) (r : TaskRecord) : TaskRecord :=
  mkTaskRecord (rec_task r) (rec_output r) (rec_status r) (rec_claimed_by r)
    (rec_owner_runner r) (rec_lease r) (rec_failure r) v (rec_ready_since_step r).
Definition set_rec_ready_since_step (v : N) (r : TaskRecord) : TaskRecord :=
  mkTaskRecord (rec_task r) (rec_output r) (rec_status r) (rec_claimed_by r)
    (rec_owner_runner r) (rec_lease r) (rec_failure r) (rec_attempt_generation r) v.

Definition is_terminal_status (status : TaskStatus) : bool :=
  match status with
  | Completed | Failed | Cancelled | Expired | DeadLetter => true
  | _ => false
  end.

Definition clear_record_owner (record : TaskRecord) : TaskRecord :=
  set_rec_owner_runner None record.

Definition release_record_lease (record : TaskRecord) : TaskRecord :=
  set_rec_claimed_by None
    (set_rec_task (set_t_lease_id None (rec_task record)) (set_rec_lease None record)).

Definition mark_terminal_record (record : TaskRecord) (status : TaskStatus)
    (failure : option RuntimeError) : TaskRecord :=
  set_rec_failure failure
    (clear_record_owner (release_record_lease (set_rec_status status record))).

Definition task_lease_expired (lease : TaskLease) (current_step : N) : bool :=
  match tl_expires_at_step lease with
  | Some expires_at => bool_decide (expires_at ≤ current_step)%N
  | None => false
  end.

Definition validate_record_lease (record : TaskRecord) (lease : TaskLease) (current_step : N)
    (action : string) : RuntimeResult () :=
  let active := rec_lease record in
  let expired := task_lease_expired lease current_step in
  let matches_active :=
    bool_decide (rec_status record = Running) &&
    bool_decide (rec_claimed_by record = Some (tl_runner_id lease)) &&
    bool_decide (active = Some lease) in
  if matches_active && negb expired then Ok tt
  else
    let error := RuntimeError_new ERR_TASK_CLAIM_CONFLICT "runtime.task_pool"
                   ("task." +:+ action +:+ "." +:+ tl_task_id lease) in
    let error := set_err_evidence "lease_id" (ScalarString (tl_lease_id lease)) error in
    let error := set_err_evidence "executor_id" (ScalarString (tl_executor_id lease)) error in
    let error := set_err_evidence "current_step" (ScalarInt (u64_as_i64 current_step)) error in
    let error :=
      match active with
      | Some active =>
          set_err_evidence "active_executor_id" (ScalarString (tl_executor_id active))
            (set_err_evidence "active_lease_id" (ScalarString (tl_lease_id active)) error)
      | None => error
      end in
    let error :=
      if expired then set_err_evidence "reason" (ScalarString "lease_expired") error else error in
    Err error.

(** ** The pool *)

Record TaskPool : Type := mkTaskPool {
  tp_tasks : gmap TaskId TaskRecord;
  tp_pending_cancellations : gmap TaskId PendingCancellation;
  tp_waits_by_child : gmap TaskId (list TaskAwait);
  tp_waits_by_parent : gmap TaskId (list TaskAwait);
  tp_indexes : TaskIndexes;
  tp_ready_selector_cache : gmap RunnerId ReadySelectors;
  tp_payload_wire_bytes : gmap TaskId N;
  tp_terminal_order : list TaskId;
  tp_evicted_task_ids : gset TaskId;
  tp_evicted_task_order : list TaskId;
  tp_history_retention : option TaskHistoryRetention;
  tp_next_sequence : N;
  tp_statistics : TaskPoolStatistics;
}.

Definition TaskPool_default : TaskPool :=
  mkTaskPool ∅ ∅ ∅ ∅ TaskIndexes_default ∅ ∅ [] ∅ [] None 0 TaskPoolStatistics_default.

Definition set_tp_tasks (v : gmap TaskId TaskRecord) (p : TaskPool) : TaskPool :=
  mkTaskPool v (tp_pending_cancellations p) (tp_waits_by_child p) (tp_waits_by_parent p)
    (tp_indexes p) (tp_ready_selector_cache p) (tp_payload_wire_bytes p) (tp_terminal_order p)
    (tp_evicted_task_ids p) (tp_evicted_task_order p) (tp_history_retention p)
    (tp_next_sequence p) (tp_statistics p).
Definition set_tp_pending_cancellations (v : gmap TaskId PendingCancellation) (p : TaskPool) : TaskPool :=
  mkTaskPool (tp_tasks p) v (tp_waits_by_child p) (tp_waits_by_parent p) (tp_indexes p)
    (tp_ready_selector_cache p) (tp_payload_wire_bytes p) (tp_terminal_order p)
    (tp_evicted_task_ids p) (tp_evicted_task_order p) (tp_history_retention p)
    (tp_next_sequence p) (tp_statistics p).
Definition set_tp_waits_by_child (v : gmap TaskId (list TaskAwait)) (p : TaskPool) : TaskPool :=
  mkTaskPool (tp_tasks p) (tp_pending_cancellations p) v (tp_waits_by_parent p) (tp_indexes p)
    (tp_ready_selector_cache p) (tp_payload_wire_bytes p) (tp_terminal_order p)
    (tp_evicted_task_ids p) (tp_evicted_task_order p) (tp_history_retention p)
    (tp_next_sequence p) (tp_statistics p).
Definition set_tp_waits_by_parent (v : gmap TaskId (list TaskAwait)) (p : TaskPool) : TaskPool :=
  mkTaskPool (tp_tasks p) (tp_pending_cancellations p) (tp_waits_by_child p) v (tp_indexes p)
    (tp_ready_selector_cache p) (tp_payload_wire_bytes p) (tp_terminal_order p)
    (tp_evicted_task_ids p) (tp_evicted_task_order p) (tp_history_retention p)
    (tp_next_sequence p) (tp_statistics p).
Definition set_tp_indexes (v : TaskIndexes) (p : TaskPool) : TaskPool :=
  mkTaskPool (tp_tasks p) (tp_pending_cancellations p) (tp_waits_by_child p)
    (tp_waits_by_parent p) v (tp_ready_selector_cache p) (tp_payload_wire_bytes p)
    (tp_terminal_order p) (tp_evicted_task_ids p) (tp_evicted_task_order p)
    (tp_history_retention p) (tp_next_sequence p) (tp_statistics p).
Definition set_tp_ready_selector_cache (v : gmap RunnerId ReadySelectors) (p : TaskPool) : TaskPool :=
  mkTaskPool (tp_tasks p) (tp_pending_cancellations p) (tp_waits_by_child p)
    (tp_waits_by_parent p) (tp_indexes p) v (tp_payload_wire_bytes p) (tp_terminal_order p)
    (tp_evicted_task_ids p) (tp_evicted_task_order p) (tp_history_retention p)
    (tp_next_sequence p) (tp_statistics p).
Definition set_tp_payload_wire_bytes (v : gmap TaskId N) (p : TaskPool) : TaskPool :=
  mkTaskPool (tp_tasks p) (tp_pending_cancellations p) (tp_waits_by_child p)
    (tp_waits_by_parent p) (tp_indexes p) (tp_ready_selector_cache p) v (tp_terminal_order p)
    (tp_evicted_task_ids p) (tp_evicted_task_order p) (tp_history_retention p)
    (tp_next_sequence p) (tp_statistics p).
Definition set_tp_terminal_order (v : list TaskId) (p : TaskPool) : TaskPool :=
  mkTaskPool (tp_tasks p) (tp_pending_cancellations p) (tp_waits_by_child p)
    (tp_waits_by_parent p) (tp_indexes p) (tp_ready_selector_cache p) (tp_payload_wire_bytes p)
    v (tp_evicted_task_ids p) (tp_evicted_task_order p) (tp_history_retention p)
    (tp_next_sequence p) (tp_statistics p).
Definition set_tp_evicted_task_ids (v : gset TaskId) (p : TaskPool) : TaskPool :=
  mkTaskPool (tp_tasks p) (tp_pending_cancellations p) (tp_waits_by_child p)
    (tp_waits_by_parent p) (tp_indexes p) (tp_ready_selector_cache p) (tp_payload_wire_bytes p)
    (tp_terminal_order p) v (tp_evicted_task_order p) (tp_history_retention p)
    (tp_next_sequence p) (tp_statistics p).
Definition set_tp_evicted_task_order (v : list TaskId) (p : TaskPool) : TaskPool :=
  mkTaskPool (tp_tasks p) (tp_pending_cancellations p) (tp_waits_by_child p)
    (tp_waits_by_parent p) (tp_indexes p) (tp_ready_selector_cache p) (tp_payload_wire_bytes p)
    (tp_terminal_order p) (tp_evicted_task_ids p) v (tp_history_retention p)
    (tp_next_sequence p) (tp_statistics p).
Definition set_tp_history_retention (v : option TaskHistoryRetention) (p : TaskPool) : TaskPool :=
  mkTaskPool (tp_tasks p) (tp_pending_cancellations p) (tp_waits_by_child p)
    (tp_waits_by_parent p) (tp_indexes p) (tp_ready_selector_cache p) (tp_payload_wire_bytes p)
    (tp_terminal_order p) (tp_evicted_task_ids p) (tp_evicted_task_order p) v
    (tp_next_sequence p) (tp_statistics p).
Definition set_tp_next_sequence (v : N) (p : TaskPool) : TaskPool :=
  mkTaskPool (tp_tasks p) (tp_pending_cancellations p) (tp_waits_by_child p)
    (tp_waits_by_parent p) (tp_indexes p) (tp_ready_selector_cache p) (tp_payload_wire_bytes p)
    (tp_terminal_order p) (tp_evicted_task_ids p) (tp_evicted_task_order p)
    (tp_history_retention p) v (tp_statistics p).
Definition set_tp_statistics (v : TaskPoolStatistics) (p : TaskPool) : TaskPool :=
  mkTaskPool (tp_tasks p) (tp_pending_cancellations p) (tp_waits_by_child p)
    (tp_waits_by_parent p) (tp_indexes p) (tp_ready_selector_cache p) (tp_payload_wire_bytes p)
    (tp_terminal_order p) (tp_evicted_task_ids p) (tp_evicted_task_order p)
    (tp_history_retention p) (tp_next_sequence p) v.

(** *** Index maintenance *)

Definition update_record_indexes (p : TaskPool) (task_id : TaskId) (present : bool) : TaskPool :=
  match tp_tasks p !! task_id with
  | Some record => set_tp_indexes (update_record (tp_indexes p) record present) p
  | None => p
  end.
Definition insert_record_indexes (p : TaskPool) (task_id : TaskId) : TaskPool :=
  update_record_indexes p task_id true.
Definition remove_record_indexes (p : TaskPool) (task_id : TaskId) : TaskPool :=
  update_record_indexes p task_id false.

Definition rebuild_indexes_of (tasks : gmap TaskId TaskRecord) : TaskIndexes :=
  foldl (λ ix kv, update_record ix kv.2 true) TaskIndexes_default (map_to_list tasks).
Definition rebuild_indexes (p : TaskPool) : TaskPool :=
  set_tp_indexes (rebuild_indexes_of (tp_tasks p)) p.

Definition with_statistics (f : TaskPoolStatistics → TaskPoolStatistics) (p : TaskPool) : TaskPool :=
  set_tp_statistics (f (tp_statistics p)) p.

(** *** Admission and lookup *)

Definition contains_task_id (p : TaskPool) (task_id : TaskId) : bool :=
  bool_decide (is_Some (tp_tasks p !! task_id)) || bool_decide (task_id ∈ tp_evicted_task_ids p).

Definition enqueue_at (p : TaskPool) (task : Task) (current_step : N)
  : TaskPool * RuntimeResult TaskId :=
  let task_id := t_task_id task in
  if contains_task_id p task_id then
    (p, Err (runtime_failure ERR_TASK_DUPLICATE "runtime.task_pool" ("task.enqueue." +:+ task_id)))
  else
    match try_wire_len (t_payload task) with
    | Err error =>
        (p, Err (runtime_failure ERR_RUNTIME_HOST_FAILED "runtime.task_pool"
                   ("task.payload.encode." +:+ task_id +:+ ":" +:+ error)))
    | Ok payload_wire_bytes =>
        let p := set_tp_next_sequence (wrap_add (tp_next_sequence p) 1) p in
        let task := if decide (t_created_sequence task = 0%N)
                    then set_t_created_sequence (tp_next_sequence p) task else task in
        let record := mkTaskRecord task None Ready None None None None 0 current_step in
        let p := set_tp_tasks (<[task_id := record]> (tp_tasks p)) p in
        let p := set_tp_payload_wire_bytes
                   (<[task_id := payload_wire_bytes]> (tp_payload_wire_bytes p)) p in
        let p := insert_record_indexes p task_id in
        let p := with_statistics
                   (λ s, set_st_submitted_total (sat_add (st_submitted_total s) 1) s) p in
        let p := with_statistics (record_status_transition None (Some Ready)) p in
        (p, Ok task_id)
    end.

Definition enqueue (p : TaskPool) (task : Task) : TaskPool * RuntimeResult TaskId :=
  enqueue_at p task 0.

Definition pool_get (p : TaskPool) (task_id : TaskId) : option TaskRecord := tp_tasks p !! task_id.

Definition record_of (p : TaskPool) (task_id : TaskId) : RuntimeResult TaskRecord :=
  match tp_tasks p !! task_id with
  | Some record => Ok record
  | None => Err (runtime_failure ERR_TASK_NOT_FOUND "runtime.task_pool" ("task." +:+ task_id))
  end.

Definition payload_wire_bytes (p : TaskPool) (task_id : TaskId) : outcome N :=
  expect (tp_payload_wire_bytes p !! task_id) "enqueued task must have a cached payload wire size".

Definition retained_terminal_records (p : TaskPool) : N :=
  let s := tp_statistics p in
  (st_completed s + st_failed s + st_cancelled s + st_expired s + st_dead_letter s)%N.

Definition record_sequence (r : TaskRecord) : N := t_created_sequence (rec_task r).
Definition pool_records (p : TaskPool) : list TaskRecord :=
  sort_by_key record_sequence ((map_to_list (tp_tasks p)).*2).
Definition running_records (p : TaskPool) : list TaskRecord :=
  sort_by_key record_sequence
    (filter (λ r, rec_status r = Running) ((map_to_list (tp_tasks p)).*2)).
Definition running_records_for_runner (p : TaskPool) (runner_id : RunnerId) : list TaskRecord :=
  sort_by_key record_sequence
    (omap (λ task_id, tp_tasks p !! task_id)
       (btree_iter String.le (bucket (ix_running_by_runner (tp_indexes p)) runner_id))).
Definition waiting_records_for_runner (p : TaskPool) (runner_id : RunnerId) : list TaskRecord :=
  sort_by_key record_sequence
    (omap (λ task_id, tp_tasks p !! task_id)
       (btree_iter String.le (bucket (ix_waiting_by_runner (tp_indexes p)) runner_id))).
Definition stale_expectation_task_ids (p : TaskPool) : list TaskId :=
  btree_iter String.le (ix_ready_with_expectations (tp_indexes p)).

Definition record_stale_result_rejection (p : TaskPool) : TaskPool :=
  with_statistics
    (λ s, set_st_stale_results_rejected (sat_add (st_stale_results_rejected s) 1) s) p.

(** *** Retention of terminal records *)

Fixpoint trim_loop (fuel : nat) (capacity : N) (order : list TaskId) (ids : gset TaskId)
  : list TaskId * gset TaskId :=
  match fuel with
  | O => (order, ids)
  | S fuel =>
      if decide (capacity < N.of_nat (length order))%N then
        match order with
        | expired :: order => trim_loop fuel capacity order (ids ∖ {[expired]})
        | [] => (order, ids)
        end
      else (order, ids)
  end.
Definition trim_evicted_task_ids (p : TaskPool) (capacity : N) : TaskPool :=
  let '(order, ids) := trim_loop (length (tp_evicted_task_order p)) capacity
                         (tp_evicted_task_order p) (tp_evicted_task_ids p) in
  set_tp_evicted_task_ids ids (set_tp_evicted_task_order order p).

Definition remember_evicted_task_id (p : TaskPool) (task_id : TaskId) (capacity : N) : TaskPool :=
  if decide (capacity = 0%N) then p
  else
    let p := set_tp_evicted_task_ids ({[task_id]} ∪ tp_evicted_task_ids p) p in
    let p := set_tp_evicted_task_order (tp_evicted_task_order p ++ [task_id]) p in
    trim_evicted_task_ids p capacity.

(** The task is referenced by a continuation and must not be evicted yet. *)
Definition is_protected (p : TaskPool) (task_id : TaskId) : bool :=
  bool_decide (is_Some (tp_waits_by_child p !! task_id)) ||
  bool_decide (is_Some (tp_waits_by_parent p !! task_id)).

(** Removal of one terminal record from the pool. *)
Definition evict_record (p : TaskPool) (task_id : TaskId) (retention : TaskHistoryRetention)
  : outcome TaskPool :=
  record ← expect (tp_tasks p !! task_id) "terminal history referenced a missing task record";
  let p := remove_record_indexes p task_id in
  let p := set_tp_tasks (delete task_id (tp_tasks p)) p in
  let p := set_tp_pending_cancellations (delete task_id (tp_pending_cancellations p)) p in
  let p := set_tp_payload_wire_bytes (delete task_id (tp_payload_wire_bytes p)) p in
  let p := with_statistics (record_status_transition (Some (rec_status record)) None) p in
  let p := with_statistics
             (λ s, set_st_terminal_records_evicted (sat_add (st_terminal_records_evicted s) 1) s) p in
  Done (remember_evicted_task_id p task_id (max_evicted_task_ids retention)).

Fixpoint compact_loop (fuel : nat) (retention : TaskHistoryRetention) (protected_examined : N)
    (p : TaskPool) : outcome TaskPool :=
  let len := N.of_nat (length (tp_terminal_order p)) in
  if decide (max_terminal_records retention < len ∧ protected_examined < len)%N then
    match fuel with
    | O => Panic "compact_loop: fuel"
    | S fuel =>
        match tp_terminal_order p with
        | [] => Panic "terminal history length checked above"
        | task_id :: order =>
            let p := set_tp_terminal_order order p in
            if is_protected p task_id then
              compact_loop fuel retention (protected_examined + 1)
                (set_tp_terminal_order (tp_terminal_order p ++ [task_id]) p)
            else
              p ← evict_record p task_id retention;
              compact_loop fuel retention 0 p
        end
    end
  else Done p.

(** Every pass either shortens the queue or rotates a protected entry, at most
    [length] times in a row. *)
Definition compact_fuel (n : nat) : nat := (n + 1) * (n + 1).

Definition compact_terminal_history (p : TaskPool) : outcome TaskPool :=
  match tp_history_retention p with
  | None => Done p
  | Some retention => compact_loop (compact_fuel (length (tp_terminal_order p))) retention 0 p
  end.

Definition record_terminal_task (p : TaskPool) (task_id : TaskId) : outcome TaskPool :=
  match tp_history_retention p with
  | Some _ => compact_terminal_history (set_tp_terminal_order (tp_terminal_order p ++ [task_id]) p)
  | None => Done p
  end.

Definition configure_history_retention (p : TaskPool) (retention : option TaskHistoryRetention)
  : outcome TaskPool :=
  let p := set_tp_history_retention retention p in
  let p := set_tp_terminal_order [] p in
  match retention with
  | Some retention =>
      let terminal := filter (λ r, is_terminal_status (rec_status r)) ((map_to_list (tp_tasks p)).*2) in
      let terminal := (λ r, (record_sequence r, record_id r)) <$> terminal in
      let terminal := sort_by_key fst terminal in
      let p := set_tp_terminal_order (tp_terminal_order p ++ terminal.*2) p in
      let p := trim_evicted_task_ids p (max_evicted_task_ids retention) in
      compact_terminal_history p
  | None => Done (set_tp_evicted_task_order [] (set_tp_evicted_task_ids ∅ p))
  end.

(** *** Indexed mutation of one record *)

Definition mutate_record_indexed {R} (p : TaskPool) (task_id : TaskId)
    (mutate : TaskRecord → RuntimeResult R * TaskRecord) : TaskPool * RuntimeResult R :=
  match tp_tasks p !! task_id with
  | None =>
      (p, Err (runtime_failure ERR_TASK_NOT_FOUND "runtime.task_pool" ("task." +:+ task_id)))
  | Some record =>
      let p := remove_record_indexes p task_id in
      let '(res, record) := mutate record in
      let p := set_tp_tasks (<[task_id := record]> (tp_tasks p)) p in
      (insert_record_indexes p task_id, res)
  end.

(** The closure of the lease-holding transitions: validate, then [f]. *)
Definition validated (lease : TaskLease) (current_step : N) (action : string)
    (f : TaskRecord → TaskRecord) (record : TaskRecord) : RuntimeResult () * TaskRecord :=
  match validate_record_lease record lease current_step action with
  | Err e => (Err e, record)
  | Ok _ => (Ok tt, f record)
  end.

(** *** Waiting on children *)

Definition remove_waits_for_parent (p : TaskPool) (parent_task_id : TaskId) : TaskPool :=
  let waits := default [] (tp_waits_by_parent p !! parent_task_id) in
  let p := set_tp_waits_by_parent (delete parent_task_id (tp_waits_by_parent p)) p in
  foldl (λ p task_await,
    set_tp_waits_by_child
      (prune_entry (λ l : list TaskAwait, bool_decide (length l = 0%nat))
         (th_task_id (ta_child task_await))
         (filter (λ item, ta_parent_task_id item ≠ parent_task_id)) (tp_waits_by_child p)) p)
    p waits.

Definition awaits_take_waits_for_child (p : TaskPool) (child_task_id : TaskId)
  : list TaskAwait * TaskPool :=
  let waits := default [] (tp_waits_by_child p !! child_task_id) in
  let p := set_tp_waits_by_child (delete child_task_id (tp_waits_by_child p)) p in
  (waits,
   foldl (λ p task_await,
     set_tp_waits_by_parent
       (prune_entry (λ l : list TaskAwait, bool_decide (length l = 0%nat))
          (ta_parent_task_id task_await)
          (filter (λ item, th_task_id (ta_child item) ≠ child_task_id)) (tp_waits_by_parent p)) p)
     p waits).

Definition take_waits_for_child (p : TaskPool) (child_task_id : TaskId)
  : outcome (TaskPool * list TaskAwait) :=
  let '(waits, p) := awaits_take_waits_for_child p child_task_id in
  p ← compact_terminal_history p;
  Done (p, waits).

Definition awaits_for_parent (p : TaskPool) (task_id : TaskId) : list TaskAwait :=
  default [] (tp_waits_by_parent p !! task_id).

Definition ready_step_for_wait (task_await : TaskAwait) : option N :=
  match tsc_wake (ta_continuation task_await) with
  | Some (Timer ready_at_step) | Some (RetryAfter ready_at_step) => Some ready_at_step
  | _ => None
  end.

Definition validate_task_await_child (parent_record child_record : TaskRecord)
    (task_await : TaskAwait) : RuntimeResult () :=
  let child := ta_child task_await in
  let ct := rec_task child_record in
  let pt := rec_task parent_record in
  if is_terminal_status (rec_status child_record) then
    Err (runtime_failure ERR_TASK_CLAIM_CONFLICT "runtime.task_pool"
           ("task.await.child_terminal." +:+ th_task_id child))
  else
    let child_matches_handle :=
      bool_decide (th_protocol_id child = t_protocol_id ct) &&
      bool_decide (th_target_binding_id child = t_target_binding_id ct) &&
      bool_decide (th_trace_id child = t_trace_id ct) &&
      bool_decide (th_correlation_id child = t_correlation_id ct) in
    let child_inherits_parent_context :=
      bool_decide (t_trace_id ct = t_trace_id pt) &&
      bool_decide (t_correlation_id ct = t_correlation_id pt) in
    if child_matches_handle && child_inherits_parent_context then Ok tt
    else
      Err (runtime_failure ERR_TASK_CLAIM_CONFLICT "runtime.task_pool"
             ("task.await.child_descriptor." +:+ ta_parent_task_id task_await)).

(** *** Transitions *)

Definition record_attempt_finished_value (s : TaskPoolStatistics) (lease : TaskLease)
    (current_step : N) : TaskPoolStatistics :=
  let elapsed := sat_add (sat_sub current_step (tl_acquired_at_step lease)) 1 in
  set_st_cumulative_execution_steps (sat_add (st_cumulative_execution_steps s) elapsed) s.
Definition record_attempt_finished (p : TaskPool) (lease : TaskLease) (current_step : N) : TaskPool :=
  with_statistics (λ s, record_attempt_finished_value s lease current_step) p.

Definition remove_pending (p : TaskPool) (task_id : TaskId) : TaskPool :=
  set_tp_pending_cancellations (delete task_id (tp_pending_cancellations p)) p.

Definition complete (p : TaskPool) (lease : TaskLease) (current_step : N) (output : option Value)
  : outcome (TaskPool * RuntimeResult ()) :=
  let task_id := tl_task_id lease in
  match mutate_record_indexed p task_id (validated lease current_step "complete"
          (λ record, mark_terminal_record (set_rec_output output record) Completed None)) with
  | (p, Err e) => Done (p, Err e)
  | (p, Ok _) =>
      let p := with_statistics (record_status_transition (Some Running) (Some Completed)) p in
      let p := remove_pending p task_id in
      let p := record_attempt_finished p lease current_step in
      p ← record_terminal_task p task_id;
      Done (p, Ok tt)
  end.

Definition fail (p : TaskPool) (lease : TaskLease) (current_step : N) (failure : RuntimeError)
  : outcome (TaskPool * RuntimeResult ()) :=
  let task_id := tl_task_id lease in
  match mutate_record_indexed p task_id (validated lease current_step "fail"
          (λ record, mark_terminal_record record Failed (Some failure))) with
  | (p, Err e) => Done (p, Err e)
  | (p, Ok _) =>
      let p := with_statistics (record_status_transition (Some Running) (Some Failed)) p in
      let p := remove_pending p task_id in
      let p := record_attempt_finished p lease current_step in
      p ← record_terminal_task p task_id;
      Done (p, Ok tt)
  end.

Definition wait (p : TaskPool) (lease : TaskLease) (current_step : N) (ready_at_step : option N)
  : TaskPool * RuntimeResult () :=
  let task_id := tl_task_id lease in
  match mutate_record_indexed p task_id (validated lease current_step "wait"
          (λ record,
             let record := set_rec_status Waiting record in
             let record := set_rec_task
                             (set_t_ready_at_step ready_at_step (rec_task record)) record in
             release_record_lease record)) with
  | (p, Err e) => (p, Err e)
  | (p, Ok _) =>
      let p := with_statistics (record_status_transition (Some Running) (Some Waiting)) p in
      let p := remove_pending p task_id in
      (record_attempt_finished p lease current_step, Ok tt)
  end.

Definition defer_leased (p : TaskPool) (lease : TaskLease) (current_step : N)
  : TaskPool * RuntimeResult () :=
  let task_id := tl_task_id lease in
  match mutate_record_indexed p task_id (validated lease current_step "defer"
          (λ record,
             let record := set_rec_status Ready record in
             let record := set_rec_ready_since_step current_step record in
             clear_record_owner (release_record_lease record))) with
  | (p, Err e) => (p, Err e)
  | (p, Ok _) =>
      let p := with_statistics (record_status_transition (Some Running) (Some Ready)) p in
      let p := remove_pending p task_id in
      (record_attempt_finished p lease current_step, Ok tt)
  end.

Definition block (p : TaskPool) (lease : TaskLease) (current_step : N)
  : TaskPool * RuntimeResult () :=
  let task_id := tl_task_id lease in
  match mutate_record_indexed p task_id (validated lease current_step "block"
          (λ record, release_record_lease (set_rec_status Blocked record))) with
  | (p, Err e) => (p, Err e)
  | (p, Ok _) =>
      let p := with_statistics (record_status_transition (Some Running) (Some Blocked)) p in
      let p := remove_pending p task_id in
      (record_attempt_finished p lease current_step, Ok tt)
  end.

Definition wait_on_task (p : TaskPool) (lease : TaskLease) (current_step : N)
    (task_await : TaskAwait) : TaskPool * RuntimeResult () :=
  let task_id := tl_task_id lease in
  let child_id := th_task_id (ta_child task_await) in
  if decide (ta_parent_task_id task_await ≠ task_id) then
    (p, Err (runtime_failure ERR_TASK_CLAIM_CONFLICT "runtime.task_pool"
               ("task.await.parent." +:+ task_id)))
  else
    match record_of p task_id with
    | Err e => (p, Err e)
    | Ok parent_record =>
    match validate_record_lease parent_record lease current_step "wait" with
    | Err e => (p, Err e)
    | Ok _ =>
    match record_of p child_id with
    | Err e => (p, Err e)
    | Ok child_record =>
    match validate_task_await_child parent_record child_record task_await with
    | Err e => (p, Err e)
    | Ok _ =>
        let ready_at_step := ready_step_for_wait task_await in
        match mutate_record_indexed p task_id (validated lease current_step "wait"
                (λ record,
                   let record := set_rec_status Waiting record in
                   let record := set_rec_task
                       (set_t_continuation_ref
                          (Some (rr_ref_id (tsc_continuation (ta_continuation task_await))))
                          (set_t_ready_at_step ready_at_step (rec_task record))) record in
                   release_record_lease record)) with
        | (p, Err e) => (p, Err e)
        | (p, Ok _) =>
            let p := with_statistics (record_status_transition (Some Running) (Some Waiting)) p in
            let p := record_attempt_finished p lease current_step in
            let p := set_tp_waits_by_child
                       (or_default [] child_id (λ l, l ++ [task_await]) (tp_waits_by_child p)) p in
            let p := set_tp_waits_by_parent
                       (or_default [] task_id (λ l, l ++ [task_await]) (tp_waits_by_parent p)) p in
            (p, Ok tt)
        end
    end end end end.

Definition wake (p : TaskPool) (task_id : TaskId) (current_step : N) : TaskPool * RuntimeResult () :=
  match mutate_record_indexed p task_id (λ record,
          if decide (rec_status record = Waiting ∨ rec_status record = Blocked) then
            let previous_status := rec_status record in
            let record := set_rec_status Ready record in
            let record := set_rec_ready_since_step current_step record in
            (Ok previous_status, release_record_lease record)
          else
            (Err (runtime_failure ERR_TASK_CLAIM_CONFLICT "runtime.task_pool"
                    ("task.wake." +:+ task_id)), record)) with
  | (p, Err e) => (p, Err e)
  | (p, Ok previous_status) =>
      let p := with_statistics (record_status_transition (Some previous_status) (Some Ready)) p in
      (remove_waits_for_parent p task_id, Ok tt)
  end.

(** The closure shared by [wake_due_tasks], [cancel_running_invocation] and
    [reclaim_expired_task_leases]: back to [Ready] without a lease. *)
Definition make_ready (current_step : N) (record : TaskRecord) : TaskRecord :=
  release_record_lease (set_rec_ready_since_step current_step (set_rec_status Ready record)).

Fixpoint wake_due_loop (p : TaskPool) (current_step : N) (due_tasks : list (TaskId * N))
  : outcome TaskPool :=
  match due_tasks with
  | [] => Done p
  | (task_id, _) :: rest =>
      match mutate_record_indexed p task_id
              (λ record, (Ok (rec_status record), make_ready current_step record)) with
      | (_, Err _) => Panic "wake index referenced a missing task record"
      | (p, Ok previous_status) =>
          let p := with_statistics
                     (record_status_transition (Some previous_status) (Some Ready)) p in
          wake_due_loop (remove_waits_for_parent p task_id) current_step rest
      end
  end.
Definition wake_due_tasks (p : TaskPool) (current_step : N)
  : outcome (TaskPool * list (TaskId * N)) :=
  let '(due_tasks, ix) := take_due_wake (tp_indexes p) current_step in
  p ← wake_due_loop (set_tp_indexes ix p) current_step due_tasks;
  Done (p, due_tasks).

Definition reject_ready (p : TaskPool) (task_id : TaskId) (failure : RuntimeError)
  : outcome (TaskPool * RuntimeResult ()) :=
  match mutate_record_indexed p task_id (λ record,
          if decide (rec_status record ≠ Ready) then
            (Err (runtime_failure ERR_TASK_CLAIM_CONFLICT "runtime.task_pool"
                    ("task.reject." +:+ task_id)), record)
          else (Ok tt, set_rec_failure (Some failure) (set_rec_status Failed record))) with
  | (p, Err e) => Done (p, Err e)
  | (p, Ok _) =>
      let p := with_statistics (record_status_transition (Some Ready) (Some Failed)) p in
      p ← record_terminal_task p task_id;
      Done (p, Ok tt)
  end.

Definition find_invocation (p : TaskPool) (runner_id : RunnerId) (invocation_id : string)
  : option TaskId :=
  head (omap (λ task_id,
          record ← tp_tasks p !! task_id;
          lease ← rec_lease record;
          if decide (tl_lease_id lease = invocation_id) then Some (record_id record) else None)
        (btree_iter String.le (bucket (ix_running_by_runner (tp_indexes p)) runner_id))).

Definition cancel_running_invocation (p : TaskPool) (runner_id : RunnerId) (invocation_id : string)
    (current_step : N) : outcome (TaskPool * N) :=
  match find_invocation p runner_id invocation_id with
  | None => Done (p, 0%N)
  | Some task_id =>
      let lease := record ← tp_tasks p !! task_id; rec_lease record in
      match mutate_record_indexed p task_id
              (λ record, (Ok tt, make_ready current_step record)) with
      | (_, Err _) => Panic "running index referenced a missing task record"
      | (p, Ok _) =>
          let p := match lease with
                   | Some lease => record_attempt_finished p lease current_step
                   | None => p
                   end in
          let p := with_statistics (record_status_transition (Some Running) (Some Ready)) p in
          Done (remove_pending p task_id, 1%N)
      end
  end.

Definition cancel_task (p : TaskPool) (lease : TaskLease) (current_step : N)
  : outcome (TaskPool * RuntimeResult ()) :=
  let task_id := tl_task_id lease in
  match mutate_record_indexed p task_id (validated lease current_step "cancel"
          (λ record, mark_terminal_record record Cancelled None)) with
  | (p, Err e) => Done (p, Err e)
  | (p, Ok _) =>
      let p := with_statistics (record_status_transition (Some Running) (Some Cancelled)) p in
      let p := remove_pending p task_id in
      let p := record_attempt_finished p lease current_step in
      let p := remove_waits_for_parent p task_id in
      p ← record_terminal_task p task_id;
      Done (p, Ok tt)
  end.

Definition terminal_by_core (p : TaskPool) (task_id : TaskId) (status : TaskStatus)
    (failure : option RuntimeError) (action : string) (current_step : N)
  : outcome (TaskPool * RuntimeResult ()) :=
  match mutate_record_indexed p task_id (λ record,
          if is_terminal_status (rec_status record) then
            (Err (runtime_failure ERR_TASK_CLAIM_CONFLICT "runtime.task_pool"
                    ("task." +:+ action +:+ "." +:+ task_id)), record)
          else
            (Ok (rec_lease record, rec_status record), mark_terminal_record record status failure))
  with
  | (p, Err e) => Done (p, Err e)
  | (p, Ok (active_lease, previous_status)) =>
      let p := with_statistics
                 (record_status_transition (Some previous_status) (Some status)) p in
      let p := remove_pending p task_id in
      let p := match active_lease with
               | Some lease => record_attempt_finished p lease current_step
               | None => p
               end in
      let p := remove_waits_for_parent p task_id in
      p ← record_terminal_task p task_id;
      Done (p, Ok tt)
  end.

Definition cancel_by_core (p : TaskPool) (task_id : TaskId) (current_step : N)
  : outcome (TaskPool * RuntimeResult ()) :=
  terminal_by_core p task_id Cancelled None "cancel" current_step.
Definition expire_by_core (p : TaskPool) (task_id : TaskId) (failure : RuntimeError)
    (current_step : N) : outcome (TaskPool * RuntimeResult ()) :=
  terminal_by_core p task_id Expired (Some failure) "expire" current_step.
Definition dead_letter_by_core (p : TaskPool) (task_id : TaskId) (failure : RuntimeError)
    (current_step : N) : outcome (TaskPool * RuntimeResult ()) :=
  terminal_by_core p task_id DeadLetter (Some failure) "dead_letter" current_step.

Definition cancellation_requested (p : TaskPool) (task_id : TaskId) : bool :=
  bool_decide (is_Some (tp_pending_cancellations p !! task_id)).

Definition request_cancel_by_core (p : TaskPool) (task_id : TaskId) (current_step : N)
    (failure : option RuntimeError) : outcome (TaskPool * RuntimeResult bool) :=
  match tp_pending_cancellations p !! task_id with
  | Some _ =>
      match failure with
      | Some _ =>
          Done (set_tp_pending_cancellations
                  (<[task_id := mkPendingCancellation failure]> (tp_pending_cancellations p)) p,
                Ok false)
      | None => Done (p, Ok false)
      end
  | None =>
      match record_of p task_id with
      | Err e => Done (p, Err e)
      | Ok record =>
          if decide (rec_status record = Running) then
            Done (set_tp_pending_cancellations
                    (<[task_id := mkPendingCancellation failure]> (tp_pending_cancellations p)) p,
                  Ok false)
          else
            r ← terminal_by_core p task_id Cancelled failure "cancel" current_step;
            match r with
            | (p, Ok _) => Done (p, Ok true)
            | (p, Err e) => Done (p, Err e)
            end
      end
  end.

Definition finalize_requested_cancellation (p : TaskPool) (lease : TaskLease) (current_step : N)
  : outcome (TaskPool * RuntimeResult (option PendingCancellation)) :=
  let task_id := tl_task_id lease in
  match tp_pending_cancellations p !! task_id with
  | None => Done (p, Ok None)
  | Some pending =>
      match mutate_record_indexed p task_id (λ record,
              let matches_active :=
                bool_decide (rec_status record = Running) &&
                bool_decide (rec_claimed_by record = Some (tl_runner_id lease)) &&
                bool_decide (rec_lease record = Some lease) in
              if matches_active then
                (Ok tt, mark_terminal_record record Cancelled (pc_failure pending))
              else
                (Err (runtime_failure ERR_TASK_CLAIM_CONFLICT "runtime.task_pool"
                        ("task.cancel_finalize." +:+ task_id)), record)) with
      | (p, Err e) => Done (p, Err e)
      | (p, Ok _) =>
          let p := remove_pending p task_id in
          let p := with_statistics (record_status_transition (Some Running) (Some Cancelled)) p in
          let p := record_attempt_finished p lease current_step in
          let p := remove_waits_for_parent p task_id in
          p ← record_terminal_task p task_id;
          Done (p, Ok (Some pending))
      end
  end.

Definition ensure_active_lease (p : TaskPool) (task_id : TaskId) (lease : TaskLease)
    (current_step : N) (action : string) : RuntimeResult () :=
  match record_of p task_id with
  | Err e => Err e
  | Ok record => validate_record_lease record lease current_step action
  end.

Fixpoint reclaim_loop (p : TaskPool) (current_step : N) (task_ids : list TaskId)
    (reclaimed : list TaskLease) : outcome (TaskPool * list TaskLease) :=
  match task_ids with
  | [] => Done (p, reclaimed)
  | task_id :: rest =>
      if bool_decide (is_Some (tp_pending_cancellations p !! task_id)) then
        reclaim_loop p current_step rest reclaimed
      else
        match (record ← tp_tasks p !! task_id; rec_lease record) with
        | Some lease =>
            if task_lease_expired lease current_step then
              match mutate_record_indexed p task_id
                      (λ record, (Ok tt, make_ready current_step record)) with
              | (_, Err _) => Panic "lease expiry index referenced a missing task record"
              | (p, Ok _) =>
                  let p := with_statistics
                             (record_status_transition (Some Running) (Some Ready)) p in
                  reclaim_loop p current_step rest (reclaimed ++ [lease])
              end
            else reclaim_loop p current_step rest reclaimed
        | None => reclaim_loop p current_step rest reclaimed
        end
  end.
Definition reclaim_expired_task_leases (p : TaskPool) (current_step : N)
  : outcome (TaskPool * list TaskLease) :=
  let '(task_ids, ix) := take_expired_leases (tp_indexes p) current_step in
  '(p, reclaimed) ← reclaim_loop (set_tp_indexes ix p) current_step task_ids [];
  Done (foldl (λ p lease, record_attempt_finished p lease current_step) p reclaimed, reclaimed).

(** The state threaded through the record loop of [abort_all]. *)
Record AbortState : Type := mkAbortState {
  ab_tasks : gmap TaskId TaskRecord;
  ab_statistics : TaskPoolStatistics;
  ab_aborted : list TaskId;
  ab_finished_leases : list TaskLease;
  ab_pending : list TaskId;
  ab_finalized : list TaskId;
}.

Definition abort_record (failure : RuntimeError) (a : AbortState) (kv : TaskId * TaskRecord)
  : AbortState :=
  let '(key, record) := kv in
  if is_terminal_status (rec_status record) then a
  else
    let aborted := ab_aborted a ++ [record_id record] in
    if decide (rec_status record = Running) then
      mkAbortState (ab_tasks a) (ab_statistics a) aborted (ab_finished_leases a)
        (ab_pending a ++ [record_id record]) (ab_finalized a)
    else
      mkAbortState
        (<[key := mark_terminal_record record Cancelled (Some failure)]> (ab_tasks a))
        (record_status_transition (Some (rec_status record)) (Some Cancelled) (ab_statistics a))
        aborted
        (match rec_lease record with
         | Some lease => ab_finished_leases a ++ [lease]
         | None => ab_finished_leases a
         end)
        (ab_pending a) (ab_finalized a ++ [record_id record]).

Fixpoint abort_finalize_loop (p : TaskPool) (finalized : list TaskId) : outcome TaskPool :=
  match finalized with
  | [] => Done p
  | task_id :: rest =>
      p ← record_terminal_task (remove_waits_for_parent p task_id) task_id;
      abort_finalize_loop p rest
  end.

Definition abort_all (p : TaskPool) (current_step : N) (failure : RuntimeError)
  : outcome (TaskPool * list TaskId) :=
  let a := foldl (abort_record failure)
             (mkAbortState (tp_tasks p) (tp_statistics p) [] [] [] []) (map_to_list (tp_tasks p)) in
  let p := set_tp_statistics (ab_statistics a) (set_tp_tasks (ab_tasks a) p) in
  let p := foldl (λ p task_id,
             set_tp_pending_cancellations
               (<[task_id := mkPendingCancellation (Some failure)]> (tp_pending_cancellations p)) p)
             p (ab_pending a) in
  let p := rebuild_indexes p in
  let p := foldl (λ p lease, record_attempt_finished p lease current_step) p
             (ab_finished_leases a) in
  let aborted := merge_sort String.le (ab_aborted a) in
  p ← abort_finalize_loop p (ab_finalized a);
  Done (p, aborted).

Definition rebind_record (old_generation new_generation : N) (record : TaskRecord) : TaskRecord :=
  if decide (rec_status record = Ready ∧ t_registry_generation (rec_task record) = old_generation)
  then set_rec_task (set_t_registry_generation new_generation (rec_task record)) record
  else record.
Definition rebind_ready_generation (p : TaskPool) (old_generation new_generation : N)
  : TaskPool * N :=
  let rebound := filter (λ kv, rec_status kv.2 = Ready ∧
                   t_registry_generation (rec_task kv.2) = old_generation) (tp_tasks p) in
  let p := set_tp_tasks (rebind_record old_generation new_generation <$> tp_tasks p) p in
  (rebuild_indexes p, N.of_nat (size rebound)).

(** [wake_by_step], [ready_by_step] and [leases_by_expiry] of the pool. *)
Definition pool_next_required_step_after (p : TaskPool) (current_step : N) : option N :=
  next_required_step_after (tp_indexes p) current_step.

End pool.
