(* ===== verification/TaskClaiming.v ===== *)
(** * TaskClaiming: selecting and leasing ready tasks, runner load, occupancy

    Models [task_pool/claiming.rs], [task_pool/occupancy.rs] and the ready-queue
    queries of [task_pool/indexes.rs].  The selector cache is a [RefCell], so the
    queries that go through it return the pool they leave behind.  The closures
    passed to the visitors are state-passing functions that answer whether the
    visit goes on; they may panic, hence the [outcome].  [BinaryHeap<Reverse<_>>]
    is a list whose minimum is extracted. *)
From S2P Require Import Prelude Contracts TaskIndexes TaskPool.

Section claiming.
Context {serde : Serde}.

(** ** Ready queues of a runner *)

Definition with_ready_selectors (p : TaskPool) (runner_id : RunnerId) : ReadySelectors * TaskPool :=
  match tp_ready_selector_cache p !! runner_id with
  | Some selectors => (selectors, p)
  | None =>
      let selectors := build_ready_selectors runner_id in
      if decide (N.of_nat (size (tp_ready_selector_cache p)) < READY_SELECTOR_CACHE_CAPACITY)%N then
        (selectors,
         set_tp_ready_selector_cache (<[runner_id := selectors]> (tp_ready_selector_cache p)) p)
      else (selectors, p)
  end.

Definition queues_of (ix : TaskIndexes) (selectors : ReadySelectors) (protocols : list ProtocolId)
    (lanes : gmap DispatchLane (gset ReadyKey) → list (gset ReadyKey)) : list (gset ReadyKey) :=
  protocol_id ← protocols;
  match ix_ready_by_protocol ix !! protocol_id with
  | None => []
  | Some by_selector =>
      selector ← selectors;
      match by_selector !! selector with
      | Some by_lane => lanes by_lane
      | None => []
      end
  end.

Definition ready_dispatch_queues (p : TaskPool) (runner : RunnerDescriptor)
  : list (gset ReadyKey) * TaskPool :=
  let '(selectors, p) := with_ready_selectors p (rd_runner_id runner) in
  (queues_of (tp_indexes p) selectors (rd_accepted_protocol_ids runner) lane_values, p).

Definition ready_dispatch_queues_for_lane (p : TaskPool) (runner : RunnerDescriptor)
    (lane : DispatchLane) : list (gset ReadyKey) * TaskPool :=
  let '(selectors, p) := with_ready_selectors p (rd_runner_id runner) in
  (queues_of (tp_indexes p) selectors (rd_accepted_protocol_ids runner)
     (λ by_lane, option_list (by_lane !! lane)), p).

Definition generation_matches (registry_generation task_generation : N) : bool :=
  bool_decide (registry_generation = 0%N) || bool_decide (task_generation = 0%N) ||
  bool_decide (task_generation = registry_generation).

Definition sum_counts (current_step registry_generation : N) (by_bucket : gmap (N * N) N) : N :=
  foldr (λ kv total,
    if bool_decide (kv.1.1 ≤ current_step)%N && generation_matches registry_generation kv.1.2
    then (kv.2 + total)%N else total) 0%N (map_to_list by_bucket).

Definition counts_of (ix : TaskIndexes) (selectors : ReadySelectors) (protocols : list ProtocolId)
    (lanes : gmap DispatchLane (gmap (N * N) N) → list (gmap (N * N) N)) : list (gmap (N * N) N) :=
  protocol_id ← protocols;
  match ix_ready_counts_by_protocol ix !! protocol_id with
  | None => []
  | Some by_selector =>
      selector ← selectors;
      match by_selector !! selector with
      | Some by_lane => lanes by_lane
      | None => []
      end
  end.

Definition ready_dispatch_count (p : TaskPool) (runner : RunnerDescriptor)
    (current_step registry_generation : N) : N * TaskPool :=
  let '(selectors, p) := with_ready_selectors p (rd_runner_id runner) in
  (foldr N.add 0%N (sum_counts current_step registry_generation <$>
     counts_of (tp_indexes p) selectors (rd_accepted_protocol_ids runner) lane_values), p).

Definition ready_dispatch_count_for_lane (p : TaskPool) (runner : RunnerDescriptor)
    (current_step registry_generation : N) (lane : DispatchLane) : N * TaskPool :=
  let '(selectors, p) := with_ready_selectors p (rd_runner_id runner) in
  (foldr N.add 0%N (sum_counts current_step registry_generation <$>
     counts_of (tp_indexes p) selectors (rd_accepted_protocol_ids runner)
       (λ by_lane, option_list (by_lane !! lane))), p).

(** ** The k-way merge of the ready queues *)

Definition runner_accepts_indexed_task (task : Task) (registry_generation : N) : bool :=
  negb (bool_decide (registry_generation ≠ 0%N) &&
        bool_decide (t_registry_generation task ≠ 0%N) &&
        bool_decide (t_registry_generation task ≠ registry_generation)).

(** The order of [(&ReadyKey, usize)]. *)
Definition heap_le (a b : ReadyKey * nat) : Prop :=
  (ready_key_le a.1 b.1 ∧ a.1 ≠ b.1) ∨ (a.1 = b.1 ∧ a.2 ≤ b.2).
#[global] Instance heap_le_dec : RelDecision heap_le.
Proof. intros a b. unfold heap_le. apply _. Defined.

Fixpoint heap_pop_from (x : ReadyKey * nat) (heap : list (ReadyKey * nat))
  : (ReadyKey * nat) * list (ReadyKey * nat) :=
  match heap with
  | [] => (x, [])
  | y :: heap =>
      if decide (heap_le x y)
      then let '(m, rest) := heap_pop_from x heap in (m, y :: rest)
      else let '(m, rest) := heap_pop_from y heap in (m, x :: rest)
  end.
Definition heap_pop (heap : list (ReadyKey * nat))
  : option ((ReadyKey * nat) * list (ReadyKey * nat)) :=
  match heap with [] => None | x :: heap => Some (heap_pop_from x heap) end.

(** [iterators[index].next()], pushed when due. *)
Definition advance (step : N) (index : nat) (iterators : list (list ReadyKey))
    (heap : list (ReadyKey * nat)) : list (list ReadyKey) * list (ReadyKey * nat) :=
  match iterators !! index with
  | Some (next :: rest) =>
      (<[index := rest]> iterators, if is_due next step then (next, index) :: heap else heap)
  | _ => (iterators, heap)
  end.

Section visit.
Context {A : Type}.
Variable visit : A → TaskRecord → outcome (A * bool).

Fixpoint visit_loop (fuel : nat) (p : TaskPool) (step registry_generation : N)
    (iterators : list (list ReadyKey)) (heap : list (ReadyKey * nat)) (visited : N) (acc : A)
  : outcome (A * N) :=
  match heap_pop heap with
  | None => Done (acc, visited)
  | Some ((key, index), heap) =>
      match fuel with
      | O => Panic "visit_loop: fuel"
      | S fuel =>
          '(acc, visited, go_on) ←
            match tp_tasks p !! rk_task_id key with
            | Some record =>
                if runner_accepts_indexed_task (rec_task record) registry_generation then
                  '(acc, go_on) ← visit acc record;
                  Done (acc, (visited + 1)%N, go_on)
                else Done (acc, visited, true)
            | None => Done (acc, visited, true)
            end;
          if go_on : bool then
            let '(iterators, heap) := advance step index iterators heap in
            visit_loop fuel p step registry_generation iterators heap visited acc
          else Done (acc, visited)
      end
  end.

(** The first due key of each queue seeds the heap. *)
Fixpoint seed_heap (step : N) (n : nat) (index : nat) (iterators : list (list ReadyKey))
    (heap : list (ReadyKey * nat)) : list (list ReadyKey) * list (ReadyKey * nat) :=
  match n with
  | O => (iterators, heap)
  | S n =>
      let '(iterators, heap) := advance step index iterators heap in
      seed_heap step n (S index) iterators heap
  end.

Definition visit_queues (p : TaskPool) (step registry_generation : N)
    (queues : list (gset ReadyKey)) (acc : A) : outcome (A * N) :=
  let iterators := btree_iter ready_key_le <$> queues in
  let '(iterators, heap) := seed_heap step (length iterators) 0 iterators [] in
  visit_loop (length (mjoin (btree_iter ready_key_le <$> queues))) p step registry_generation
    iterators heap 0 acc.

Definition visit_candidate_records (p : TaskPool) (runner : RunnerDescriptor)
    (step registry_generation : N) (acc : A) : outcome (A * N * TaskPool) :=
  let '(queues, p) := ready_dispatch_queues p runner in
  '(acc, visited) ← visit_queues p step registry_generation queues acc;
  Done (acc, visited, p).

Definition visit_candidate_records_for_lane (p : TaskPool) (runner : RunnerDescriptor)
    (step registry_generation : N) (lane : DispatchLane) (acc : A) : outcome (A * N * TaskPool) :=
  let '(queues, p) := ready_dispatch_queues_for_lane p runner lane in
  '(acc, visited) ← visit_queues p step registry_generation queues acc;
  Done (acc, visited, p).

End visit.

(** ** Candidate selection *)

(** A [TaskId] is a [String]: three words. *)
Definition SIZE_OF_TASK_ID : N := 24.

(** What the selecting closure captures: lane counts, bytes, selected ids. *)
Record Selection : Type := mkSelection {
  sl_lane_counts : gmap DispatchLane N;
  sl_bytes : N;
  sl_selected : list TaskId;
}.

Definition lane_exhausted (budget : DispatchBudget) (lane_counts : gmap DispatchLane N)
    (lane : DispatchLane) : bool :=
  match db_lane_budget budget !! lane with
  | Some lane_budget => bool_decide (lb_max_entries lane_budget ≤ default 0 (lane_counts !! lane))%N
  | None => false
  end.

Definition select_visit (p : TaskPool) (budget : option DispatchBudget) (max_entries : N)
    (s : Selection) (record : TaskRecord) : outcome (Selection * bool) :=
  let lane := t_dispatch_lane (rec_task record) in
  if decide (max_entries ≤ N.of_nat (length (sl_selected s)))%N then Done (s, false)
  else
    bytes ← match budget with
            | Some _ => payload_wire_bytes p (record_id record)
            | None => Done 0%N
            end;
    let skip :=
      match budget with
      | Some budget =>
          bool_decide (db_max_bytes budget < sat_add (sl_bytes s) bytes)%N ||
          lane_exhausted budget (sl_lane_counts s) lane
      | None => false
      end in
    if skip : bool then Done (s, true)
    else
      let s := mkSelection (or_default 0%N lane (λ n, (n + 1)%N) (sl_lane_counts s))
                 (sat_add (sl_bytes s) bytes) (sl_selected s ++ [record_id record]) in
      Done (s, bool_decide (N.of_nat (length (sl_selected s)) < max_entries)%N).

Definition collect_visit (lane_limit : N) (ids : list TaskId) (record : TaskRecord)
  : outcome (list TaskId * bool) :=
  let ids := ids ++ [record_id record] in
  Done (ids, bool_decide (N.of_nat (length ids) < lane_limit)%N).

Definition qos_lane_limit (budget : DispatchBudget) (max_entries : N) (lane : DispatchLane) : N :=
  N.min (match db_lane_budget budget !! lane with
         | Some lane_budget => lb_max_entries lane_budget
         | None => max_entries
         end) max_entries.

Fixpoint collect_lanes (p : TaskPool) (runner : RunnerDescriptor) (step registry_generation : N)
    (max_entries : N) (budget : DispatchBudget) (lanes : list DispatchLane)
    (candidates : gmap DispatchLane (list TaskId))
  : outcome (gmap DispatchLane (list TaskId) * TaskPool) :=
  match lanes with
  | [] => Done (candidates, p)
  | lane :: lanes =>
      let lane_limit := qos_lane_limit budget max_entries lane in
      if decide (lane_limit = 0%N) then
        collect_lanes p runner step registry_generation max_entries budget lanes candidates
      else
        _ ← vec_with_capacity SIZE_OF_TASK_ID lane_limit;
        '(ids, _, p) ← visit_candidate_records_for_lane (collect_visit lane_limit) p runner step
                         registry_generation lane [];
        let candidates := match ids with [] => candidates | _ => <[lane := ids]> candidates end in
        collect_lanes p runner step registry_generation max_entries budget lanes candidates
  end.

Record QosState : Type := mkQosState {
  q_candidates : gmap DispatchLane (list TaskId);
  q_bytes : N;
  q_selected : list TaskId;
  q_progressed : bool;
}.

(** One pass over the lanes; stops when [max_entries] are selected. *)
Fixpoint qos_round (p : TaskPool) (max_entries : N) (budget : DispatchBudget)
    (lanes : list DispatchLane) (q : QosState) : outcome QosState :=
  match lanes with
  | [] => Done q
  | lane :: lanes =>
      match q_candidates q !! lane with
      | None | Some [] => qos_round p max_entries budget lanes q
      | Some (task_id :: rest) =>
          let q := mkQosState (<[lane := rest]> (q_candidates q)) (q_bytes q) (q_selected q)
                     (q_progressed q) in
          bytes ← payload_wire_bytes p task_id;
          if decide (db_max_bytes budget < sat_add (q_bytes q) bytes)%N then
            qos_round p max_entries budget lanes q
          else
            let q := mkQosState (q_candidates q) (sat_add (q_bytes q) bytes)
                       (q_selected q ++ [task_id]) true in
            if decide (max_entries ≤ N.of_nat (length (q_selected q)))%N then Done q
            else qos_round p max_entries budget lanes q
      end
  end.

Fixpoint qos_loop (fuel : nat) (p : TaskPool) (max_entries : N) (budget : DispatchBudget)
    (q : QosState) : outcome (list TaskId) :=
  if decide (N.of_nat (length (q_selected q)) < max_entries)%N then
    match fuel with
    | O => Panic "qos_loop: fuel"
    | S fuel =>
        q ← qos_round p max_entries budget DispatchLane_ALL
              (mkQosState (q_candidates q) (q_bytes q) (q_selected q) false);
        if q_progressed q then qos_loop fuel p max_entries budget q
        else Done (q_selected q)
    end
  else Done (q_selected q).

(** The candidates left, over all lanes: each pass that makes progress removes one. *)
Definition candidates_left (candidates : gmap DispatchLane (list TaskId)) : nat :=
  foldr (λ lane n, length (default [] (candidates !! lane)) + n) 0 DispatchLane_ALL.

Definition select_qos_candidate_ids (p : TaskPool) (runner : RunnerDescriptor)
    (step registry_generation max_entries : N) (budget : DispatchBudget)
  : outcome (list TaskId * TaskPool) :=
  '(candidates, p) ← collect_lanes p runner step registry_generation max_entries budget
                       DispatchLane_ALL ∅;
  _ ← vec_with_capacity SIZE_OF_TASK_ID max_entries;
  selected ← qos_loop (S (candidates_left candidates)) p max_entries budget
               (mkQosState candidates 0 [] false);
  Done (selected, p).

Definition budget_is_zero (budget : option DispatchBudget) : bool :=
  match budget with
  | Some b =>
      bool_decide (db_max_batches b = 0%N) || bool_decide (db_max_entries b = 0%N) ||
      bool_decide (db_max_bytes b = 0%N)
  | None => false
  end.

(** The bound on the number of entries: the limit, and the budget's when there is one. *)
Definition selection_limit (limit : N) (budget : option DispatchBudget) : N :=
  match budget with
  | Some b => N.min limit (db_max_entries b)
  | None => limit
  end.

Definition select_candidate_ids (p : TaskPool) (runner : RunnerDescriptor)
    (step registry_generation limit : N) (budget : option DispatchBudget)
  : outcome (list TaskId * TaskPool) :=
  if bool_decide (limit = 0%N) || budget_is_zero budget then Done ([], p)
  else
    let max_entries := selection_limit limit budget in
    match budget with
    | Some b =>
        if map_is_empty (db_lane_budget b) then
          _ ← vec_with_capacity SIZE_OF_TASK_ID max_entries;
          '(s, _, p) ← visit_candidate_records (select_visit p budget max_entries) p runner step
                         registry_generation (mkSelection ∅ 0 []);
          Done (sl_selected s, p)
        else select_qos_candidate_ids p runner step registry_generation max_entries b
    | None =>
        _ ← vec_with_capacity SIZE_OF_TASK_ID max_entries;
        '(s, _, p) ← visit_candidate_records (select_visit p budget max_entries) p runner step
                       registry_generation (mkSelection ∅ 0 []);
        Done (sl_selected s, p)
    end.

(** ** Claiming *)

Definition lease_for (runner : RunnerDescriptor) (executor_id : ExecutorId)
    (step registry_generation : N) (expires_at_step : option N) (record : TaskRecord) : TaskLease :=
  {| tl_lease_id := "task-lease-" +:+ pretty step +:+ "-" +:+ record_id record +:+ "-" +:+
                    pretty (rec_attempt_generation record);
     tl_task_id := record_id record;
     tl_attempt_generation := rec_attempt_generation record;
     tl_runner_id := rd_runner_id runner;
     tl_executor_id := executor_id;
     tl_registry_generation := registry_generation;
     tl_acquired_at_step := step;
     tl_expires_at_step := expires_at_step |}.

Definition claimed_record (runner : RunnerDescriptor) (lease : TaskLease) (record : TaskRecord)
  : TaskRecord :=
  let record := set_rec_status Running record in
  let record := set_rec_claimed_by (Some (rd_runner_id runner)) record in
  let record := set_rec_owner_runner (Some (rd_runner_id runner)) record in
  let record := set_rec_lease (Some lease) record in
  set_rec_task (set_t_lease_id (Some (tl_lease_id lease)) (rec_task record)) record.

Record ClaimState : Type := mkClaimState {
  cl_pool : TaskPool;
  cl_leased : list (TaskLease * Task);
  cl_queue_steps : N;
  cl_attempts_started : N;
}.

Definition claim_one (runner : RunnerDescriptor) (executor_id : ExecutorId)
    (step registry_generation : N) (expires_at_step : option N) (c : ClaimState)
    (task_id : TaskId) : outcome ClaimState :=
  let p := remove_record_indexes (cl_pool c) task_id in
  record ← expect (tp_tasks p !! task_id) "ready index referenced a missing task record";
  let record := set_rec_attempt_generation (sat_add (rec_attempt_generation record) 1) record in
  let queue_steps := sat_add (cl_queue_steps c) (sat_sub step (rec_ready_since_step record)) in
  let attempts_started := sat_add (cl_attempts_started c) 1 in
  let lease := lease_for runner executor_id step registry_generation expires_at_step record in
  let record := claimed_record runner lease record in
  let p := set_tp_tasks (<[task_id := record]> (tp_tasks p)) p in
  let p := insert_record_indexes p task_id in
  let p := with_statistics (record_status_transition (Some Ready) (Some Running)) p in
  Done (mkClaimState p (cl_leased c ++ [(lease, rec_task record)]) queue_steps attempts_started).

Fixpoint claim_loop (runner : RunnerDescriptor) (executor_id : ExecutorId)
    (step registry_generation : N) (expires_at_step : option N) (c : ClaimState)
    (candidates : list TaskId) : outcome ClaimState :=
  match candidates with
  | [] => Done c
  | task_id :: rest =>
      c ← claim_one runner executor_id step registry_generation expires_at_step c task_id;
      claim_loop runner executor_id step registry_generation expires_at_step c rest
  end.

Definition claim_ready_for_executor_with_budget (p : TaskPool) (runner : RunnerDescriptor)
    (executor_id : ExecutorId) (step registry_generation limit : N)
    (budget : option DispatchBudget) (expires_at_step : option N)
  : outcome (TaskPool * list (TaskLease * Task)) :=
  '(candidates, p) ← select_candidate_ids p runner step registry_generation limit budget;
  c ← claim_loop runner executor_id step registry_generation expires_at_step
        (mkClaimState p [] 0 0) candidates;
  let p := cl_pool c in
  let p := with_statistics (λ s, set_st_attempts_started
             (sat_add (st_attempts_started s) (cl_attempts_started c)) s) p in
  let p := with_statistics (λ s, set_st_cumulative_queue_steps
             (sat_add (st_cumulative_queue_steps s) (cl_queue_steps c)) s) p in
  Done (p, cl_leased c).

Definition claim_ready_for_executor (p : TaskPool) (runner : RunnerDescriptor)
    (executor_id : ExecutorId) (step registry_generation limit : N)
  : outcome (TaskPool * list (TaskLease * Task)) :=
  claim_ready_for_executor_with_budget p runner executor_id step registry_generation limit None
    (Some (wrap_add step TASK_LEASE_TTL_STEPS)).

Definition claim_ready (p : TaskPool) (runner : RunnerDescriptor)
    (step registry_generation limit : N) : outcome (TaskPool * list Task) :=
  '(p, leased) ← claim_ready_for_executor p runner "executor:inline" step registry_generation limit;
  Done (p, leased.*2).

(** ** Load and occupancy *)

Record RunnerLoad : Type := mkRunnerLoad {
  rl_running_count : N;
  rl_waiting_count : N;
  rl_queued_count : N;
  rl_queued_by_lane : gmap DispatchLane N;
  rl_pending_weight : N;
}.

Fixpoint queued_by_lane (p : TaskPool) (runner : RunnerDescriptor) (step registry_generation : N)
    (lanes : list DispatchLane) : gmap DispatchLane N * TaskPool :=
  match lanes with
  | [] => (∅, p)
  | lane :: lanes =>
      let '(count, p) := ready_dispatch_count_for_lane p runner step registry_generation lane in
      let '(m, p) := queued_by_lane p runner step registry_generation lanes in
      (if decide (0 < count)%N then <[lane := count]> m else m, p)
  end.

Definition runner_load (p : TaskPool) (runner : RunnerDescriptor) (step registry_generation : N)
  : RunnerLoad * TaskPool :=
  let running_count := map_set_len (ix_running_by_runner (tp_indexes p)) (rd_runner_id runner) in
  let waiting_count := map_set_len (ix_waiting_by_runner (tp_indexes p)) (rd_runner_id runner) in
  let '(queued_count, p) := ready_dispatch_count p runner step registry_generation in
  let '(by_lane, p) := queued_by_lane p runner step registry_generation DispatchLane_ALL in
  (mkRunnerLoad running_count waiting_count queued_count by_lane
     (running_count + waiting_count + queued_count)%N, p).

Definition is_effect (task : Task) (protocol_classes : gmap ProtocolId ProtocolClass) : bool :=
  bool_decide (protocol_classes !! t_protocol_id task = Some ClassEffect).

(** [Vec::dedup]: drops consecutive duplicates. *)
Fixpoint dedup (l : list string) : list string :=
  match l with
  | x :: ((y :: _) as l') => if decide (x = y) then dedup l' else x :: dedup l'
  | l => l
  end.

Definition surface_ids_for_task (task : Task) (protocol_classes : gmap ProtocolId ProtocolClass)
  : list SurfaceId :=
  let ids := t_required_surfaces task in
  let ids := ids ++ ["task_protocol:" +:+ t_protocol_id task] in
  let ids := if is_effect task protocol_classes
             then ids ++ ["effect:" +:+ t_protocol_id task] else ids in
  let ids := match t_runner_hint task with
             | Some runner_hint => ids ++ ["runner:" +:+ runner_hint]
             | None => ids
             end in
  dedup (merge_sort String.le ids).

Definition zero_occupancy (surface_id : SurfaceId) : SurfaceOccupancy :=
  mkSurfaceOccupancy surface_id 0 0 0 0 0 0 0 0 0.

Definition occupy (status : TaskStatus) (effect : bool) (o : SurfaceOccupancy) : SurfaceOccupancy :=
  let bump := if effect then 1%N else 0%N in
  match status with
  | Ready =>
      mkSurfaceOccupancy (so_surface_id o) (so_ready_tasks o + 1) (so_running_invocations o)
        (so_resource_refs o) (so_state_refs o) (so_active_leases o) (so_open_streams o)
        (so_subscriptions o) (so_timers o) (so_effect_inflight o + bump)
  | Running | Waiting =>
      mkSurfaceOccupancy (so_surface_id o) (so_ready_tasks o) (so_running_invocations o + 1)
        (so_resource_refs o) (so_state_refs o) (so_active_leases o) (so_open_streams o)
        (so_subscriptions o) (so_timers o) (so_effect_inflight o + bump)
  | _ => o
  end.

Definition occupy_record (protocol_classes : gmap ProtocolId ProtocolClass)
    (occupancy : gmap SurfaceId SurfaceOccupancy) (record : TaskRecord)
  : gmap SurfaceId SurfaceOccupancy :=
  foldl (λ occupancy surface_id,
    or_default (zero_occupancy surface_id) surface_id
      (occupy (rec_status record) (is_effect (rec_task record) protocol_classes)) occupancy)
    occupancy (surface_ids_for_task (rec_task record) protocol_classes).

Definition surface_occupancy (p : TaskPool) (protocol_classes : gmap ProtocolId ProtocolClass)
  : list SurfaceOccupancy :=
  let occupancy := foldl (occupy_record protocol_classes) ∅ ((map_to_list (tp_tasks p)).*2) in
  omap (λ surface_id, occupancy !! surface_id) (btree_iter String.le (dom occupancy)).

End claiming.
