(* ===== verification/TaskMerge.v ===== *)
(** * TaskMerge: the k-way merge of the ready queues

    [visit_queues] walks several sorted queues through a heap of their heads.
    The walk is the walk over the sorted list of all due keys: every due key is
    visited once, in key order, until the visitor stops, and the fuel of the model
    (the number of queued keys) is never exhausted. *)
From S2P Require Import Prelude Contracts TaskIndexes TaskIndexSpec TaskPool TaskClaiming.

(** ** The order of ready keys *)

#[global] Instance ready_key_le_total : Total ready_key_le.
Proof.
  intros a b. unfold ready_key_le.
  destruct (N.lt_total (rk_ready_at_step a) (rk_ready_at_step b)) as [?|[->|?]]; [auto| |auto].
  destruct (Z.lt_total (rk_priority a) (rk_priority b)) as [?|[->|?]]; [auto 6| |auto 6].
  destruct (N.lt_total (rk_created_sequence a) (rk_created_sequence b)) as [?|[->|?]]; [auto 8| |auto 8].
  destruct (total String.le (rk_task_id a) (rk_task_id b)); [left|right]; auto 8.
Qed.

#[global] Instance ready_key_le_antisymm : AntiSymm (=) ready_key_le.
Proof.
  intros [] [] H1 H2. unfold ready_key_le in *. simpl in *.
  destruct H1 as [?|[-> H1]]; [destruct H2 as [?|[? _]]; lia|].
  destruct H2 as [?|[_ H2]]; [lia|].
  destruct H1 as [?|[-> H1]]; [destruct H2 as [?|[? _]]; lia|].
  destruct H2 as [?|[_ H2]]; [lia|].
  destruct H1 as [?|[-> H1]]; [destruct H2 as [?|[? _]]; lia|].
  destruct H2 as [?|[_ H2]]; [lia|]. f_equal. by apply (anti_symm String.le).
Qed.

#[global] Instance ready_key_le_trans : Transitive ready_key_le.
Proof.
  intros [] [] [] H1 H2. unfold ready_key_le in *. simpl in *.
  destruct H1 as [?|[-> H1]]; [left; destruct H2 as [?|[? _]]; lia|].
  destruct H2 as [?|[-> H2]]; [auto|]. right. split; [done|].
  destruct H1 as [?|[-> H1]]; [left; destruct H2 as [?|[? _]]; lia|].
  destruct H2 as [?|[-> H2]]; [auto|]. right. split; [done|].
  destruct H1 as [?|[-> H1]]; [left; destruct H2 as [?|[? _]]; lia|].
  destruct H2 as [?|[-> H2]]; [auto|]. right. split; [done|]. by etrans.
Qed.

#[global] Instance ready_key_le_partial : PartialOrder ready_key_le.
Proof. repeat split; try apply _. intros x. by destruct (total ready_key_le x x). Qed.

(** Keys come due in key order. *)
Lemma is_due_mono a b step : ready_key_le a b → is_due b step = true → is_due a step = true.
Proof.
  unfold ready_key_le, is_due. rewrite !bool_decide_eq_true. intros [?|[-> _]] ?; lia.
Qed.

(** ** The heap *)

Lemma heap_le_key a b : heap_le a b → ready_key_le a.1 b.1.
Proof. intros [[? _]|[-> _]]; [done|reflexivity]. Qed.

Lemma not_heap_le_key a b : ¬ heap_le a b → ready_key_le b.1 a.1.
Proof.
  intros Hn. destruct (decide (a.1 = b.1)) as [->|Hne]; [reflexivity|].
  destruct (total ready_key_le a.1 b.1); [|done]. destruct Hn. left. auto.
Qed.

Lemma heap_pop_from_spec heap : ∀ x m rest,
  heap_pop_from x heap = (m, rest) →
  x :: heap ≡ₚ m :: rest ∧ (∀ y, y ∈ x :: heap → ready_key_le m.1 y.1).
Proof.
  induction heap as [|z heap IH]; intros x m rest; simpl.
  { intros [= <- <-]. split; [done|]. intros y ->%list_elem_of_singleton. reflexivity. }
  case_decide as Hle.
  - destruct (heap_pop_from x heap) as [m' rest'] eqn:Hpop. intros [= <- <-].
    destruct (IH _ _ _ Hpop) as [Hperm Hmin]. split.
    + by rewrite Permutation_swap, Hperm, Permutation_swap.
    + intros y [->|[->|Hy]%elem_of_cons]%elem_of_cons; [apply Hmin; set_solver| |apply Hmin; set_solver].
      etrans; [apply Hmin|by apply heap_le_key]. set_solver.
  - destruct (heap_pop_from z heap) as [m' rest'] eqn:Hpop. intros [= <- <-].
    destruct (IH _ _ _ Hpop) as [Hperm Hmin]. split.
    + by rewrite Hperm, Permutation_swap.
    + intros y [->|Hy]%elem_of_cons; [|auto].
      etrans; [apply Hmin|by apply not_heap_le_key]. set_solver.
Qed.

Lemma heap_pop_spec heap m rest :
  heap_pop heap = Some (m, rest) →
  heap ≡ₚ m :: rest ∧ (∀ y, y ∈ heap → ready_key_le m.1 y.1).
Proof. destruct heap as [|x heap]; simpl; [done|]. intros [= Hp]. by apply heap_pop_from_spec. Qed.

(** ** Walking a list of keys *)

Section merge.
Context {serde : Serde}.
Implicit Types (p : TaskPool) (its : list (list ReadyKey)) (heap : list (ReadyKey * nat)).

Context {A : Type} (visit : A → TaskRecord → outcome (A * bool)).
Context (p : TaskPool) (step registry_generation : N).

(** The visit of one key: a missing or foreign record is passed over. *)
Definition visit_key (key : ReadyKey) (visited : N) (acc : A) : outcome (A * N * bool) :=
  match tp_tasks p !! rk_task_id key with
  | Some record =>
      if runner_accepts_indexed_task (rec_task record) registry_generation then
        '(acc, go_on) ← visit acc record;
        Done (acc, (visited + 1)%N, go_on)
      else Done (acc, visited, true)
  | None => Done (acc, visited, true)
  end.

Fixpoint visit_keys (keys : list ReadyKey) (visited : N) (acc : A) : outcome (A * N) :=
  match keys with
  | [] => Done (acc, visited)
  | key :: keys =>
      '(acc, visited, go_on) ← visit_key key visited acc;
      if go_on : bool then visit_keys keys visited acc else Done (acc, visited)
  end.

Definition due_keys (l : list ReadyKey) : list ReadyKey := filter (λ k, is_due k step = true) l.

(** The state of the walk: the heap holds the head of every queue that still has
    due keys, the queues of [unseen] excepted. *)
Record merge_inv (unseen : nat → Prop) its heap : Prop := {
  merge_sorted : Forall (StronglySorted ready_key_le) its;
  merge_index : NoDup heap.*2;
  merge_head : ∀ k i, (k, i) ∈ heap →
    is_due k step = true ∧ ∃ it, its !! i = Some it ∧ Forall (ready_key_le k) it;
  merge_idle : ∀ i it, its !! i = Some it → i ∉ heap.*2 → ¬ unseen i → due_keys it = [];
}.

(** The due keys still to be visited. *)
Definition merge_rest its heap : list ReadyKey := heap.*1 ++ due_keys (mjoin its).

Lemma due_keys_app l1 l2 : due_keys (l1 ++ l2) = due_keys l1 ++ due_keys l2.
Proof. apply filter_app. Qed.

Lemma due_keys_head_late k l :
  StronglySorted ready_key_le (k :: l) → is_due k step = false → due_keys (k :: l) = [].
Proof.
  intros [_ Hk]%StronglySorted_inv Hd. apply elem_of_nil_inv.
  intros y [Hy Hin]%list_elem_of_filter. apply elem_of_cons in Hin as [->|Hin]; [congruence|].
  rewrite Forall_forall in Hk. assert (is_due k step = true) by (eapply is_due_mono; eauto). congruence.
Qed.

Lemma due_keys_join_update its i it it' :
  its !! i = Some it →
  due_keys (mjoin its) ++ due_keys it' ≡ₚ due_keys it ++ due_keys (mjoin (<[i := it']> its)).
Proof.
  intros Hi. pose proof (lookup_lt_Some _ _ _ Hi).
  rewrite <-(take_drop_middle its i it Hi) at 1. rewrite insert_take_drop by done.
  rewrite !join_app. simpl. rewrite !due_keys_app. solve_Permutation.
Qed.

(** Pulling the next key of a queue closes the gap of that queue. *)
Lemma advance_spec (unseen : nat → Prop) i its heap its' heap' :
  merge_inv (λ j, j = i ∨ unseen j) its heap → i ∉ heap.*2 →
  advance step i its heap = (its', heap') →
  merge_inv unseen its' heap' ∧ merge_rest its' heap' ≡ₚ merge_rest its heap ∧
  length its' = length its ∧ (∀ j, j ∈ heap'.*2 → j = i ∨ j ∈ heap.*2).
Proof.
  intros [Hs Hnd Hh Hidle] Hi. unfold advance.
  destruct (its !! i) as [[|next rest]|] eqn:Hit; cycle 1.
  - pose proof (Forall_lookup_1 _ _ _ _ Hs Hit) as Hn.
    assert (StronglySorted ready_key_le rest ∧ Forall (ready_key_le next) rest) as [Hsr Hnr]
      by (by apply StronglySorted_inv in Hn).
    pose proof (due_keys_join_update its i _ rest Hit) as Hjoin.
    pose proof (lookup_lt_Some _ _ _ Hit) as Hlt.
    assert (Forall (StronglySorted ready_key_le) (<[i := rest]> its)) as Hs'
      by (by apply Forall_insert).
    assert (∀ j, j ∉ heap.*2 → ¬ unseen j → j ≠ i →
      ∀ it, <[i := rest]> its !! j = Some it → due_keys it = []) as Hidle'.
    { intros j Hj Hu Hne it. rewrite list_lookup_insert_ne by done. intros. eapply Hidle; [done..|tauto]. }
    destruct (is_due next step) eqn:Hd; intros [= <- <-]; rewrite length_insert;
      (split_and!; [split| |done|]); try done.
    + simpl. by apply NoDup_cons.
    + intros k j [[= -> ->]|Hk]%elem_of_cons.
      * split; [done|]. exists rest. by rewrite list_lookup_insert_eq.
      * destruct (Hh k j Hk) as (? & it & ? & ?). split; [done|]. exists it.
        rewrite list_lookup_insert_ne; [done|]. intros <-.
        apply Hi, list_elem_of_fmap. by exists (k, i).
    + simpl. intros j it Hj [? ?]%not_elem_of_cons Hu. by eapply Hidle'.
    + unfold merge_rest. simpl. apply (Permutation_app_inv_r (due_keys rest)).
      rewrite <-!(assoc_L (++)), Hjoin. simpl. unfold due_keys at 3.
      rewrite filter_cons_True by done. simpl. solve_Permutation.
    + simpl. intros j. by rewrite elem_of_cons.
    + intros k j Hk. destruct (Hh k j Hk) as (? & it & ? & ?). split; [done|]. exists it.
      rewrite list_lookup_insert_ne; [done|]. intros <-. apply Hi, list_elem_of_fmap. by exists (k, i).
    + intros j it Hj Hnj Hu. destruct (decide (j = i)) as [->|]; [|by eapply Hidle'].
      rewrite list_lookup_insert_eq in Hj by done. simplify_eq.
      pose proof (due_keys_head_late next it Hn Hd) as Hz. unfold due_keys in Hz.
      rewrite filter_cons_False in Hz by congruence. done.
    + unfold merge_rest. rewrite (due_keys_head_late next rest Hn Hd) in Hjoin.
      pose proof (due_keys_head_late next rest Hn Hd) as Hz. unfold due_keys at 1 in Hz.
      rewrite filter_cons_False in Hz by congruence. fold (due_keys rest) in Hz.
      rewrite Hz, (right_id_L [] (++)) in Hjoin. simpl in Hjoin. by rewrite Hjoin.
    + auto.
  - intros [= <- <-]. split_and!; [split; try done|done|done|auto].
    intros j it Hj Hnj Hu. destruct (decide (j = i)) as [->|]; [by simplify_eq|].
    eapply Hidle; [done..|tauto].
  - intros [= <- <-]. split_and!; [split; try done|done|done|auto].
    intros j it Hj Hnj Hu. destruct (decide (j = i)) as [->|]; [by simplify_eq|].
    eapply Hidle; [done..|tauto].
Qed.

Lemma merge_inv_weaken (P Q : nat → Prop) its heap :
  (∀ j, j < length its → P j → Q j) → merge_inv P its heap → merge_inv Q its heap.
Proof.
  intros HPQ [? ? ? Hidle]. split; try done. intros i it Hi Hni HQ. eapply Hidle; [done..|].
  intros HP. apply HQ, HPQ; [by eapply lookup_lt_Some|done].
Qed.

Lemma seed_heap_spec n : ∀ index its heap its' heap',
  merge_inv (λ j, index ≤ j) its heap → (∀ j, j ∈ heap.*2 → j < index) →
  length its = index + n → seed_heap step n index its heap = (its', heap') →
  merge_inv (λ _, False) its' heap' ∧ merge_rest its' heap' ≡ₚ merge_rest its heap.
Proof.
  induction n as [|n IH]; intros index its heap its' heap' Hinv Hlt Hlen; simpl.
  - intros [= <- <-]. split; [|done]. eapply merge_inv_weaken; [|done]. simpl. lia.
  - destruct (advance step index its heap) as [its1 heap1] eqn:Hadv. intros Hseed.
    destruct (advance_spec (λ j, S index ≤ j) index its heap its1 heap1) as (Hinv1 & Hp1 & Hl1 & Hj1).
    + eapply merge_inv_weaken; [|done]. simpl. lia.
    + intros Hin%Hlt. lia.
    + done.
    + destruct (IH (S index) its1 heap1 its' heap') as [Hinv' Hp']; [done| |lia|done|].
      * intros j [->|Hj%Hlt]%Hj1; lia.
      * split; [done|]. by rewrite Hp'.
Qed.

(** The head of the heap is the least due key left. *)
Lemma merge_least its heap m rest k :
  merge_inv (λ _, False) its heap → heap_pop heap = Some (m, rest) →
  k ∈ merge_rest its heap → ready_key_le m.1 k.
Proof.
  intros [Hs Hnd Hh Hidle] Hpop. destruct (heap_pop_spec _ _ _ Hpop) as [Hperm Hmin].
  unfold merge_rest. rewrite elem_of_app. intros [([k' i] & -> & Hk)%list_elem_of_fmap|Hk]; [by apply Hmin|].
  apply list_elem_of_filter in Hk as [Hdue Hk]. apply list_elem_of_join in Hk as (it & Hk & Hit).
  apply list_elem_of_lookup_1 in Hit as (i & Hi).
  destruct (decide (i ∈ heap.*2)) as [([k' i'] & -> & Hin)%list_elem_of_fmap|Hni].
  - etrans; [by apply Hmin|]. destruct (Hh k' i' Hin) as (_ & it' & Hi' & Hle). simpl in *.
    simplify_eq. rewrite Forall_forall in Hle. auto.
  - pose proof (Hidle i it Hi Hni id) as Hz.
    assert (k ∈ due_keys it) as Hin by (by apply list_elem_of_filter). rewrite Hz in Hin. set_solver.
Qed.

(** Popping the heap opens the gap of the popped queue. *)
Lemma merge_pop its heap k i rest :
  merge_inv (λ _, False) its heap → heap ≡ₚ (k, i) :: rest →
  merge_inv (λ j, j = i ∨ False) its rest ∧ (i ∉ rest.*2) ∧
  merge_rest its heap ≡ₚ k :: merge_rest its rest.
Proof.
  intros [Hs Hnd Hh Hidle] Hperm. rewrite Hperm in Hnd. simpl in Hnd.
  apply NoDup_cons in Hnd as [Hi Hnd]. split_and!; [split|done|].
  - done.
  - done.
  - intros k' i' Hk. apply Hh. rewrite Hperm. set_solver.
  - intros j it Hj Hnj Hne. eapply Hidle; [done| |tauto]. rewrite Hperm. simpl.
    rewrite not_elem_of_cons. tauto.
  - unfold merge_rest. by rewrite Hperm.
Qed.

(** An empty heap means that no due key is left. *)
Lemma merge_empty its : merge_inv (λ _, False) its [] → merge_rest its [] = [].
Proof.
  intros [_ _ _ Hidle]. unfold merge_rest. simpl. apply elem_of_nil_inv.
  intros k [Hdue (it & Hk & (i & Hi)%list_elem_of_lookup_1)%list_elem_of_join]%list_elem_of_filter.
  assert (due_keys it = []) as Hz by (eapply Hidle; [done|set_solver|tauto]).
  assert (k ∈ due_keys it) as Hin by (by apply list_elem_of_filter). rewrite Hz in Hin. set_solver.
Qed.

Lemma visit_loop_spec fuel : ∀ its heap keys visited acc,
  merge_inv (λ _, False) its heap → StronglySorted ready_key_le keys →
  keys ≡ₚ merge_rest its heap → length keys ≤ fuel →
  visit_loop visit fuel p step registry_generation its heap visited acc
  = visit_keys keys visited acc.
Proof.
  induction fuel as [|fuel IH]; intros its heap keys visited acc Hinv Hsort Hperm Hfuel; simpl.
  all: destruct (heap_pop heap) as [[[k i] rest]|] eqn:Hpop;
    [|destruct heap; [|done]; rewrite (merge_empty its Hinv) in Hperm;
      by apply Permutation_nil_r in Hperm as ->].
  all: destruct (heap_pop_spec _ _ _ Hpop) as [Hheap _];
    destruct (merge_pop its heap k i rest Hinv Hheap) as (Hinv1 & Hi & Hrest).
  all: destruct keys as [|k0 keys]; [by rewrite Hrest in Hperm; apply Permutation_nil_cons in Hperm|].
  - simpl in Hfuel. lia.
  - assert (k0 = k) as ->.
    { apply (anti_symm ready_key_le).
      - apply StronglySorted_inv in Hsort as [_ Hk0]. rewrite Forall_forall in Hk0.
        assert (k ∈ k0 :: keys) as [->|?]%elem_of_cons by (rewrite Hperm, Hrest; set_solver);
          [reflexivity|auto].
      - apply (merge_least its heap (k, i) rest k0 Hinv Hpop). rewrite <-Hperm. set_solver. }
    simpl. fold (visit_key k visited acc).
    destruct (visit_key k visited acc) as [[[acc' visited'] go_on]|]; simpl; [|done].
    destruct go_on; [|done].
    destruct (advance step i its rest) as [its' heap'] eqn:Hadv.
    destruct (advance_spec _ _ _ _ _ _ Hinv1 Hi Hadv) as (Hinv' & Hp' & _ & _).
    apply IH; [done| | |simpl in Hfuel; lia].
    + by apply StronglySorted_inv in Hsort as [? _].
    + rewrite Hp'. apply (Permutation_cons_inv (a := k)). by rewrite Hperm.
Qed.

(** The whole walk: the due keys of all queues, sorted. *)
Lemma visit_queues_spec (queues : list (gset ReadyKey)) acc :
  visit_queues visit p step registry_generation queues acc
  = visit_keys (merge_sort ready_key_le (due_keys (mjoin (btree_iter ready_key_le <$> queues)))) 0 acc.
Proof.
  unfold visit_queues. set (its := btree_iter ready_key_le <$> queues).
  destruct (seed_heap step (length its) 0 its []) as [its' heap'] eqn:Hseed.
  destruct (seed_heap_spec (length its) 0 its [] its' heap') as [Hinv Hperm].
  - split; [|constructor|set_solver|].
    + apply Forall_fmap, Forall_forall. intros q _. apply btree_iter_sorted; apply _.
    + simpl. intros. lia.
  - set_solver.
  - done.
  - done.
  - apply visit_loop_spec; [done|apply StronglySorted_merge_sort; apply _|..].
    + by rewrite merge_sort_Permutation, Hperm.
    + rewrite merge_sort_Permutation. apply length_filter.
Qed.

End merge.
