(* ===== verification/TaskPoolInv.v ===== *)
(** * TaskPoolInv: the invariant of the task pool

    [pool_wf] gathers what every reachable pool satisfies: records and leases
    agree, the indexes and the statistics describe the stored records, wait
    links are mirrored, the terminal history and the eviction window are sound.
    Operations break parts of it for a moment (a record is terminal before it is
    entered in the history, a due entry leaves the wake index before its record
    is changed), so the invariant is stated with gaps ([pool_wf_gap]) and
    the lemmas here show how each elementary step moves the gaps. *)
From S2P Require Import Prelude Contracts TaskIndexes TaskIndexSpec TaskPool.

Section inv.
Context {serde : Serde}.
Implicit Types (p : TaskPool) (r : TaskRecord) (tasks : gmap TaskId TaskRecord).

(** ** Records *)

Definition lease_agrees (x : TaskId) r (l : TaskLease) : Prop :=
  rec_lease r = Some l ∧ tl_task_id l = x ∧
  tl_attempt_generation l = rec_attempt_generation r ∧
  rec_claimed_by r = Some (tl_runner_id l) ∧ rec_owner_runner r = Some (tl_runner_id l) ∧
  t_lease_id (rec_task r) = Some (tl_lease_id l) ∧
  (∀ e, tl_expires_at_step l = Some e → (e ≤ u64_max)%N).

Record record_wf (x : TaskId) r : Prop := {
  wf_rec_id : record_id r = x;
  wf_rec_created : rec_status r ≠ Created;
  wf_rec_running : rec_status r = Running → ∃ l, lease_agrees x r l;
  wf_rec_idle : rec_status r ≠ Running → rec_lease r = None ∧ rec_claimed_by r = None;
}.

(** ** Statistics *)

Definition status_count (status : TaskStatus) tasks : nat :=
  size (filter (λ kv, rec_status kv.2 = status) tasks).

Definition stats_ok tasks (s : TaskPoolStatistics) : Prop :=
  ∀ status, status ≠ Created → status_counter status s = N.of_nat (status_count status tasks).

Definition size_ok tasks : Prop := (N.of_nat (size tasks) ≤ u64_max)%N.

(** ** Wait links *)

Definition waits_at (m : gmap TaskId (list TaskAwait)) (k : TaskId) : list TaskAwait :=
  default [] (m !! k).

(** Two maps that hold the same awaits under the keys [k1] and [k2]. *)
Record mirrored (k1 k2 : TaskAwait → TaskId) (m1 m2 : gmap TaskId (list TaskAwait)) : Prop := {
  mirror_l : ∀ k a, a ∈ waits_at m1 k → k1 a = k ∧ a ∈ waits_at m2 (k2 a);
  mirror_r : ∀ k a, a ∈ waits_at m2 k → k2 a = k ∧ a ∈ waits_at m1 (k1 a);
  mirror_ne_l : all_values (.≠ []) m1;
  mirror_ne_r : all_values (.≠ []) m2;
}.

Definition await_child (a : TaskAwait) : TaskId := th_task_id (ta_child a).
Abbreviation waits_ok := (mirrored await_child ta_parent_task_id).

(** ** Terminal history *)

Definition is_terminal tasks (x : TaskId) : Prop :=
  ∃ r, tasks !! x = Some r ∧ is_terminal_status (rec_status r) = true.

Record history_ok (tgap : gset TaskId) p : Prop := {
  hist_nodup : NoDup (tp_terminal_order p);
  hist_terminal : ∀ x, x ∈ tp_terminal_order p → is_terminal (tp_tasks p) x ∧ x ∉ tgap;
  hist_complete : is_Some (tp_history_retention p) →
    ∀ x, is_terminal (tp_tasks p) x → x ∈ tp_terminal_order p ∨ x ∈ tgap;
  hist_off : tp_history_retention p = None → tp_terminal_order p = [];
}.

Record evicted_ok p : Prop := {
  ev_nodup : NoDup (tp_evicted_task_order p);
  ev_set : tp_evicted_task_ids p = list_to_set (tp_evicted_task_order p);
  ev_fresh : ∀ x, x ∈ tp_evicted_task_ids p → tp_tasks p !! x = None;
  ev_bound : ∀ ret, tp_history_retention p = Some ret →
    (N.of_nat (length (tp_evicted_task_order p)) ≤ max_evicted_task_ids ret)%N;
  ev_off : tp_history_retention p = None → tp_evicted_task_order p = [];
}.

(** ** The invariant

    The indexes describe the records, with two allowances: the wake entries of
    [wgap] have been drained, and the lease entry of a running task may be
    missing while its cancellation is pending
    ([reclaim_expired_task_leases] drains it and leaves the task alone) or while
    the task is in [dgap].  [tgap]: terminal tasks not yet entered in the history;
    [ngap]: tasks that may hold wait links without being [Waiting]. *)
Definition index_ok (wgap dgap : gset TaskId) p : Prop :=
  ∃ lgap, index_spec wgap lgap (tp_tasks p) (tp_indexes p) ∧
    (∀ x r, x ∈ lgap → tp_tasks p !! x = Some r → rec_status r = Running →
       is_Some (tp_pending_cancellations p !! x) ∨ x ∈ dgap).

Record pool_wf_gap (wgap dgap tgap ngap : gset TaskId) p : Prop := {
  wf_records : map_Forall record_wf (tp_tasks p);
  wf_size : size_ok (tp_tasks p);
  wf_index : index_ok wgap dgap p;
  wf_canon : index_canon (tp_indexes p);
  wf_stats : stats_ok (tp_tasks p) (tp_statistics p);
  wf_bytes : dom (tp_payload_wire_bytes p) = dom (tp_tasks p);
  wf_pending : dom (tp_pending_cancellations p) ⊆ dom (tp_tasks p);
  wf_waits : waits_ok (tp_waits_by_child p) (tp_waits_by_parent p);
  wf_wait_child : ∀ c, is_Some (tp_waits_by_child p !! c) → is_Some (tp_tasks p !! c);
  wf_wait_parent : ∀ q, is_Some (tp_waits_by_parent p !! q) →
    ∃ r, tp_tasks p !! q = Some r ∧ (rec_status r = Waiting ∨ q ∈ ngap);
  wf_history : history_ok tgap p;
  wf_evicted : evicted_ok p;
  wf_cache : ∀ rid s, tp_ready_selector_cache p !! rid = Some s → s = build_ready_selectors rid;
}.

Definition pool_wf p : Prop := pool_wf_gap ∅ ∅ ∅ ∅ p.

(** ** Counting by status *)

Lemma status_count_insert_new status tasks x r :
  tasks !! x = None →
  status_count status (<[x := r]> tasks)
  = (if decide (rec_status r = status) then 1 else 0) + status_count status tasks.
Proof.
  intros Hx. unfold status_count. rewrite map_filter_insert. simpl. case_decide.
  - by rewrite map_size_insert_None by (by rewrite map_lookup_filter, Hx).
  - by rewrite delete_id.
Qed.

Lemma status_count_delete status tasks x r :
  tasks !! x = Some r →
  status_count status tasks
  = (if decide (rec_status r = status) then 1 else 0) + status_count status (delete x tasks).
Proof.
  intros Hx. rewrite <-(insert_delete_id tasks x r Hx) at 1.
  apply status_count_insert_new, lookup_delete_eq.
Qed.

Lemma status_count_update status tasks x r r' :
  tasks !! x = Some r →
  status_count status (<[x := r']> tasks) + (if decide (rec_status r = status) then 1 else 0)
  = (if decide (rec_status r' = status) then 1 else 0) + status_count status tasks.
Proof.
  intros Hx. rewrite (status_count_delete status tasks x r Hx), <-insert_delete_eq.
  rewrite status_count_insert_new by apply lookup_delete_eq. lia.
Qed.

Lemma status_count_le status tasks : status_count status tasks ≤ size tasks.
Proof. apply map_size_filter. Qed.

Lemma terminal_count tasks :
  size (filter (λ kv, is_terminal_status (rec_status kv.2) = true) tasks)
  = (status_count Completed tasks + status_count Failed tasks + status_count Cancelled tasks +
     status_count Expired tasks + status_count DeadLetter tasks)%nat.
Proof.
  induction tasks as [|x r tasks Hx IH] using map_ind.
  { unfold status_count. by rewrite !map_filter_empty, !map_size_empty. }
  rewrite map_filter_insert, !status_count_insert_new by done. simpl.
  destruct (rec_status r); simpl; repeat first [rewrite decide_True by done|rewrite decide_False by done];
    rewrite ?map_size_insert_None by (by rewrite map_lookup_filter, Hx); rewrite ?delete_id by done; lia.
Qed.

Lemma status_counter_set status status' v s :
  status_counter status' (set_status_counter status v s)
  = if decide (status = status' ∧ status ≠ Created) then v else status_counter status' s.
Proof. destruct status, status'; done. Qed.

Lemma status_counter_revision status v s :
  status_counter status (set_st_state_revision v s) = status_counter status s.
Proof. by destruct status. Qed.

(** One counter of [record_status_transition]. *)
Lemma status_counter_bump o (f : N → N) status s :
  status ≠ Created →
  status_counter status (match not_created o with
                         | Some st => set_status_counter st (f (status_counter st s)) s
                         | None => s
                         end)
  = if decide (o = Some status) then f (status_counter status s) else status_counter status s.
Proof. intros Hst. destruct o as [[]|], status; done. Qed.

(** Counters after [record_status_transition]. *)
Lemma status_counter_transition from to status s :
  status ≠ Created →
  status_counter status (record_status_transition from to s)
  = let n := if decide (from = Some status) then sat_sub (status_counter status s) 1
             else status_counter status s in
    if decide (to = Some status) then sat_add n 1 else n.
Proof.
  intros Hst. unfold record_status_transition. cbv zeta.
  rewrite (status_counter_bump to (λ n, sat_add n 1)) by done.
  rewrite (status_counter_bump from (λ n, sat_sub n 1)) by done.
  by destruct (decide (from = to)); rewrite ?status_counter_revision.
Qed.

Lemma stats_ok_transition tasks s x r r' :
  stats_ok tasks s → size_ok tasks → tasks !! x = Some r →
  stats_ok (<[x := r']> tasks)
    (record_status_transition (Some (rec_status r)) (Some (rec_status r')) s).
Proof.
  intros Hs Hsz Hx status Hst. rewrite status_counter_transition by done.
  pose proof (status_count_update status tasks x r r' Hx) as Hc.
  pose proof (status_count_delete status tasks x r Hx) as Hd.
  pose proof (status_count_le status (<[x := r']> tasks)) as Hle.
  rewrite map_size_insert_Some in Hle by eauto.
  specialize (Hs status Hst). unfold size_ok, sat_add, sat_sub in *. simpl.
  repeat case_decide; simplify_eq; first [congruence|lia].
Qed.

Lemma stats_ok_enqueue tasks s x r :
  stats_ok tasks s → (N.of_nat (size tasks) < u64_max)%N → tasks !! x = None →
  stats_ok (<[x := r]> tasks) (record_status_transition None (Some (rec_status r)) s).
Proof.
  intros Hs Hsz Hx status Hst. rewrite status_counter_transition by done.
  rewrite status_count_insert_new by done.
  pose proof (status_count_le status tasks) as Hle.
  specialize (Hs status Hst). unfold sat_add, sat_sub in *. simpl.
  repeat case_decide; simplify_eq; first [congruence|lia].
Qed.

Lemma stats_ok_evict tasks s x r :
  stats_ok tasks s → tasks !! x = Some r →
  stats_ok (delete x tasks) (record_status_transition (Some (rec_status r)) None s).
Proof.
  intros Hs Hx status Hst. rewrite status_counter_transition by done.
  pose proof (status_count_delete status tasks x r Hx) as Hc.
  specialize (Hs status Hst). unfold sat_sub in *. simpl.
  repeat case_decide; simplify_eq; first [congruence|lia].
Qed.

(** Two statistics with the same counters. *)
Definition same_counters (s s' : TaskPoolStatistics) : Prop :=
  ∀ status, status ≠ Created → status_counter status s' = status_counter status s.

Lemma stats_ok_same tasks s s' : same_counters s s' → stats_ok tasks s → stats_ok tasks s'.
Proof. intros Hss Hs status Hst. rewrite Hss by done. auto. Qed.

(** ** Replacing one record *)

(** What [mutate_record_indexed] does to the pool when the record [r] of [x]
    becomes [r']. *)
Definition put_record p (x : TaskId) r r' : TaskPool :=
  set_tp_indexes (update_record (update_record (tp_indexes p) r false) r' true)
    (set_tp_tasks (<[x := r']> (tp_tasks p)) p).

Lemma mutate_record_indexed_eq {R} p x (f : TaskRecord → RuntimeResult R * TaskRecord) :
  mutate_record_indexed p x f
  = match tp_tasks p !! x with
    | None => (p, Err (runtime_failure ERR_TASK_NOT_FOUND "runtime.task_pool" ("task." +:+ x)))
    | Some r => (put_record p x r (f r).2, (f r).1)
    end.
Proof.
  unfold mutate_record_indexed, remove_record_indexes, insert_record_indexes, update_record_indexes.
  destruct (tp_tasks p !! x) as [r|]; [|done]. destruct (f r) as [res r']. simpl.
  by rewrite lookup_insert_eq.
Qed.

(** The record changes status along an edge that is not out of a terminal one. *)
Lemma wf_put_record wgap dgap tgap tgap' ngap ngap' p x r r' :
  pool_wf_gap wgap dgap tgap ngap p → tp_tasks p !! x = Some r → record_wf x r' →
  is_terminal_status (rec_status r) = false →
  tgap ⊆ tgap' → tgap' ⊆ tgap ∪ {[x]} →
  (is_terminal_status (rec_status r') = true → x ∈ tgap') →
  (∀ y, y ≠ x → y ∈ ngap → y ∈ ngap') →
  rec_status r' = Waiting ∨ x ∈ ngap' ∨ (rec_status r ≠ Waiting ∧ x ∉ ngap) →
  pool_wf_gap (wgap ∖ {[x]}) (dgap ∖ {[x]}) tgap' ngap'
    (with_statistics (record_status_transition (Some (rec_status r)) (Some (rec_status r')))
       (put_record p x r r')).
Proof.
  intros [] Hx Hr' Hterm Ht1 Ht2 Ht3 Hn1 Hn2.
  assert (∀ y, is_Some (<[x := r']> (tp_tasks p) !! y) ↔ is_Some (tp_tasks p !! y)) as Hdom.
  { intros y. rewrite lookup_insert_is_Some. destruct (decide (x = y)) as [->|]; naive_solver. }
  assert (∀ y, is_terminal (tp_tasks p) y → y ≠ x ∧ is_terminal (<[x := r']> (tp_tasks p)) y) as Hkeep.
  { intros y (ry & Hy & ?). assert (y ≠ x) by congruence. split; [done|].
    exists ry. by rewrite lookup_insert_ne. }
  split; simpl.
  - by apply map_Forall_insert_2.
  - unfold size_ok. by rewrite map_size_insert_Some by eauto.
  - destruct wf_index0 as (lgap & Hix & Hgap). exists (lgap ∖ {[x]}). split; simpl.
    + apply index_spec_update; [done|done| |by destruct Hr']. by destruct (wf_records0 x r Hx).
    + intros y ry Hy. rewrite lookup_insert_ne by set_solver. intros Hry Hrun.
      destruct (Hgap y ry); set_solver.
  - by apply index_canon_update, index_canon_update.
  - by apply stats_ok_transition.
  - rewrite wf_bytes0, dom_insert_L. apply elem_of_dom_2 in Hx. set_solver.
  - rewrite dom_insert. set_solver.
  - done.
  - intros c ?. by apply Hdom, wf_wait_child0.
  - intros q Hq. destruct (wf_wait_parent0 q Hq) as (rq & Hrq & Hst).
    destruct (decide (q = x)) as [->|Hne].
    + exists r'. rewrite lookup_insert_eq. split; [done|]. naive_solver.
    + exists rq. rewrite lookup_insert_ne by done. naive_solver.
  - destruct wf_history0 as [? Hin Hcomp ?]. split; simpl; [done| |..|done].
    + intros y Hy. destruct (Hin y Hy) as [Hy' ?]. apply Hkeep in Hy' as []. set_solver.
    + intros Hret y (ry & Hy & Hty). destruct (decide (y = x)) as [->|Hne].
      * rewrite lookup_insert_eq in Hy. simplify_eq. auto.
      * rewrite lookup_insert_ne in Hy by done.
        destruct (Hcomp Hret y) as [|]; [by exists ry|auto|set_solver].
  - destruct wf_evicted0 as [?? Hfresh ??]. split; simpl; [done..| |done|done].
    intros y Hy. apply Hfresh in Hy. rewrite lookup_insert_ne by congruence. done.
  - done.
Qed.

(** Writing back the same record only refreshes the indexes. *)
Lemma wf_put_same wgap dgap tgap ngap p x r :
  pool_wf_gap wgap dgap tgap ngap p → tp_tasks p !! x = Some r →
  pool_wf_gap (wgap ∖ {[x]}) (dgap ∖ {[x]}) tgap ngap (put_record p x r r).
Proof.
  intros [] Hx. unfold put_record. rewrite insert_id by done.
  split; simpl; try done.
  - destruct wf_index0 as (lgap & Hix & Hgap). exists (lgap ∖ {[x]}). split; simpl.
    + rewrite <-(insert_id (tp_tasks p) x r) by done.
      apply index_spec_update; [done|done|..]; by destruct (wf_records0 x r Hx).
    + intros y ry Hy Hry Hrun. destruct (Hgap y ry); set_solver.
  - by apply index_canon_update, index_canon_update.
  - by destruct wf_history0.
  - by destruct wf_evicted0.
Qed.

(** ** Steps that leave the records alone *)

Lemma wf_statistics wgap dgap tgap ngap p f :
  pool_wf_gap wgap dgap tgap ngap p → same_counters (tp_statistics p) (f (tp_statistics p)) →
  pool_wf_gap wgap dgap tgap ngap (with_statistics f p).
Proof.
  intros [] Hf. split; simpl; try done.
  - by eapply stats_ok_same.
  - by destruct wf_history0.
  - by destruct wf_evicted0.
Qed.

Lemma wf_attempt_finished wgap dgap tgap ngap p lease step :
  pool_wf_gap wgap dgap tgap ngap p →
  pool_wf_gap wgap dgap tgap ngap (record_attempt_finished p lease step).
Proof. intros Hp. apply wf_statistics; [done|]. by intros []. Qed.

Lemma wf_attempts_finished wgap dgap tgap ngap p leases step :
  pool_wf_gap wgap dgap tgap ngap p →
  pool_wf_gap wgap dgap tgap ngap
    (foldl (λ p lease, record_attempt_finished p lease step) p leases).
Proof.
  revert p. induction leases as [|l leases IH]; intros p Hp; simpl; [done|].
  by apply IH, wf_attempt_finished.
Qed.

Lemma wf_insert_pending wgap dgap tgap ngap p x c :
  pool_wf_gap wgap dgap tgap ngap p → is_Some (tp_tasks p !! x) →
  pool_wf_gap wgap dgap tgap ngap
    (set_tp_pending_cancellations (<[x := c]> (tp_pending_cancellations p)) p).
Proof.
  intros [] Hx. split; simpl; try done.
  - destruct wf_index0 as (lgap & Hix & Hgap). exists lgap. split; [done|]. simpl.
    intros y r Hy Hr Hrun. rewrite lookup_insert_is_Some'. destruct (Hgap y r); auto.
  - apply elem_of_dom in Hx. rewrite dom_insert. set_solver.
  - by destruct wf_history0.
  - by destruct wf_evicted0.
Qed.

Lemma wf_remove_pending wgap dgap tgap ngap p x :
  pool_wf_gap wgap dgap tgap ngap p →
  (∀ r, tp_tasks p !! x = Some r → rec_status r ≠ Running) →
  pool_wf_gap wgap dgap tgap ngap (remove_pending p x).
Proof.
  intros [] Hx. split; simpl; try done.
  - destruct wf_index0 as (lgap & Hix & Hgap). exists lgap. split; [done|]. simpl.
    intros y r Hy Hr Hrun. rewrite lookup_delete_is_Some. destruct (Hgap y r); [done..| |auto].
    left. split; [|done]. intros ->. by eapply Hx.
  - rewrite dom_delete. set_solver.
  - by destruct wf_history0.
  - by destruct wf_evicted0.
Qed.

(** ** Wait links *)

Definition drop_waits (key : TaskAwait → TaskId) (P : TaskAwait → Prop) `{!∀ a, Decision (P a)}
    (m : gmap TaskId (list TaskAwait)) (waits : list TaskAwait) : gmap TaskId (list TaskAwait) :=
  foldl (λ m a, prune_entry (λ l : list TaskAwait, bool_decide (length l = 0%nat)) (key a)
                  (filter P) m) m waits.

Section drop.
Context (key : TaskAwait → TaskId) (P : TaskAwait → Prop) `{!∀ a, Decision (P a)}.

Lemma drop_waits_ne m waits : all_values (.≠ []) m → all_values (.≠ []) (drop_waits key P m waits).
Proof.
  unfold drop_waits. revert m. induction waits as [|a waits IH]; intros m Hm; simpl; [done|].
  apply IH, all_values_prune_entry; [done|]. intros v _.
  rewrite bool_decide_eq_false. intros Hl Hn. apply Hl. by rewrite Hn.
Qed.

(** Entries that fail [P] are all under a key of [waits]: the walk over [waits]
    filters the whole map. *)
Lemma waits_at_drop_waits m waits k :
  (∀ a, a ∈ waits_at m k → ¬ P a → k ∈ key <$> waits) →
  waits_at (drop_waits key P m waits) k = filter P (waits_at m k).
Proof.
  assert (∀ m k a, waits_at (prune_entry (λ l : list TaskAwait, bool_decide (length l = 0%nat))
      (key a) (filter P) m) k
    = if decide (key a = k) then filter P (waits_at m k) else waits_at m k) as Hone.
  { intros m' k' a. unfold waits_at. rewrite default_prune_entry; [|..|done].
    - by case_decide; subst.
    - intros l. rewrite bool_decide_eq_true. apply length_zero_iff_nil. }
  unfold drop_waits. revert m. induction waits as [|a waits IH]; intros m Hm; simpl.
  - symmetry. apply list_filter_all. intros a Ha. destruct (decide (P a)); [done|].
    exfalso. by eapply not_elem_of_nil, (Hm a).
  - rewrite IH, Hone.
    + case_decide; [|done]. by apply list_filter_filter_r.
    + intros b. rewrite Hone. case_decide as Hk.
      * intros [? _]%list_elem_of_filter ?. done.
      * intros Hb Hnb. specialize (Hm b Hb Hnb). rewrite fmap_cons in Hm. set_solver.
Qed.
End drop.

Lemma waits_at_nonempty m k :
  all_values (.≠ []) m → is_Some (m !! k) ↔ waits_at m k ≠ [].
Proof.
  intros Hm. unfold waits_at. destruct (m !! k) as [l|] eqn:Hk; simpl.
  - specialize (Hm k l Hk). split; [done|eauto].
  - split; [by intros []|done].
Qed.

Lemma waits_at_delete m k k' : waits_at (delete k m) k' = if decide (k = k') then [] else waits_at m k'.
Proof. unfold waits_at. rewrite lookup_delete. by case_decide. Qed.

Lemma mirrored_sym k1 k2 m1 m2 : mirrored k1 k2 m1 m2 → mirrored k2 k1 m2 m1.
Proof. by intros []. Qed.

Lemma mirrored_drop k1 k2 m1 m2 q :
  mirrored k1 k2 m1 m2 →
  let m1' := drop_waits k1 (λ a, k2 a ≠ q) m1 (waits_at m2 q) in
  mirrored k1 k2 m1' (delete q m2) ∧
  (∀ c, waits_at m1' c = filter (λ a, k2 a ≠ q) (waits_at m1 c)).
Proof.
  intros [Hc Hp Hcne Hpne] m1'.
  assert (∀ c, waits_at m1' c = filter (λ a, k2 a ≠ q) (waits_at m1 c)) as Hm1.
  { intros c. apply waits_at_drop_waits. intros a Ha Hq. apply dec_stable in Hq. subst q.
    apply Hc in Ha as [<- Ha]. apply list_elem_of_fmap. by exists a. }
  split; [|done]. split.
  - intros c a. rewrite Hm1, waits_at_delete. intros [? [-> Ha]%Hc]%list_elem_of_filter.
    by case_decide; subst.
  - intros q' a. rewrite waits_at_delete. case_decide as Hne; [by intros ?%not_elem_of_nil|].
    intros [<- Ha]%Hp. split; [done|]. rewrite Hm1. apply list_elem_of_filter. by split; [auto|].
  - by apply drop_waits_ne.
  - intros k v. rewrite lookup_delete. case_decide; [done|]. apply Hpne.
Qed.

(** A kept entry of the filtered map was an entry before. *)
Lemma mirrored_drop_is_Some k1 k2 m1 m2 q c :
  mirrored k1 k2 m1 m2 →
  is_Some (drop_waits k1 (λ a, k2 a ≠ q) m1 (waits_at m2 q) !! c) → is_Some (m1 !! c).
Proof.
  intros Hm. destruct (mirrored_drop _ _ _ _ q Hm) as [[_ _ Hne _] Hat]. destruct Hm.
  rewrite !waits_at_nonempty by done. rewrite Hat. intros Hf Hn. apply Hf. by rewrite Hn.
Qed.

Lemma remove_waits_for_parent_eq p q :
  remove_waits_for_parent p q
  = set_tp_waits_by_child
      (drop_waits await_child (λ a, ta_parent_task_id a ≠ q) (tp_waits_by_child p)
         (waits_at (tp_waits_by_parent p) q))
      (set_tp_waits_by_parent (delete q (tp_waits_by_parent p)) p).
Proof.
  unfold remove_waits_for_parent, drop_waits. fold (waits_at (tp_waits_by_parent p) q).
  generalize (waits_at (tp_waits_by_parent p) q) as waits. intros waits.
  change (tp_waits_by_child p)
    with (tp_waits_by_child (set_tp_waits_by_parent (delete q (tp_waits_by_parent p)) p)).
  generalize (set_tp_waits_by_parent (delete q (tp_waits_by_parent p)) p) as p'.
  induction waits as [|a waits IH]; intros p'; simpl; [by destruct p'|by rewrite IH].
Qed.

Lemma awaits_take_waits_for_child_eq p c :
  awaits_take_waits_for_child p c
  = (waits_at (tp_waits_by_child p) c,
     set_tp_waits_by_parent
       (drop_waits ta_parent_task_id (λ a, await_child a ≠ c) (tp_waits_by_parent p)
          (waits_at (tp_waits_by_child p) c))
       (set_tp_waits_by_child (delete c (tp_waits_by_child p)) p)).
Proof.
  unfold awaits_take_waits_for_child, drop_waits. fold (waits_at (tp_waits_by_child p) c).
  f_equal. generalize (waits_at (tp_waits_by_child p) c) as waits. intros waits.
  change (tp_waits_by_parent p)
    with (tp_waits_by_parent (set_tp_waits_by_child (delete c (tp_waits_by_child p)) p)).
  generalize (set_tp_waits_by_child (delete c (tp_waits_by_child p)) p) as p'.
  induction waits as [|a waits IH]; intros p'; simpl; [by destruct p'|by rewrite IH].
Qed.

Lemma wf_remove_waits wgap dgap tgap ngap p q :
  pool_wf_gap wgap dgap tgap ngap p →
  pool_wf_gap wgap dgap tgap (ngap ∖ {[q]}) (remove_waits_for_parent p q).
Proof.
  intros []. rewrite remove_waits_for_parent_eq. split; simpl; try done.
  - by apply mirrored_drop.
  - intros c Hc%mirrored_drop_is_Some; eauto.
  - intros q'. rewrite lookup_delete. case_decide; [by intros []|].
    intros (r & ? & ?)%wf_wait_parent0. exists r. set_solver.
  - by destruct wf_history0.
  - by destruct wf_evicted0.
Qed.

Lemma wf_take_waits wgap dgap tgap ngap p c :
  pool_wf_gap wgap dgap tgap ngap p →
  pool_wf_gap wgap dgap tgap ngap (awaits_take_waits_for_child p c).2.
Proof.
  intros []. rewrite awaits_take_waits_for_child_eq. apply mirrored_sym in wf_waits0.
  split; simpl; try done.
  - by apply mirrored_sym, mirrored_drop.
  - intros c'. rewrite lookup_delete. case_decide; [by intros []|]. auto.
  - intros q Hq%mirrored_drop_is_Some; eauto.
  - by destruct wf_history0.
  - by destruct wf_evicted0.
Qed.

Lemma waits_at_add m k a k' :
  waits_at (or_default [] k (λ l, l ++ [a]) m) k'
  = if decide (k = k') then waits_at m k' ++ [a] else waits_at m k'.
Proof. unfold waits_at. rewrite default_or_default. by case_decide; subst. Qed.

Lemma mirrored_add k1 k2 m1 m2 a :
  mirrored k1 k2 m1 m2 →
  mirrored k1 k2 (or_default [] (k1 a) (λ l, l ++ [a]) m1) (or_default [] (k2 a) (λ l, l ++ [a]) m2).
Proof.
  intros [Hl Hr Hnl Hnr].
  assert (∀ (m : gmap TaskId (list TaskAwait)) k b,
    b ∈ waits_at (or_default [] k (λ l, l ++ [a]) m) k ↔ b ∈ waits_at m k ∨ b = a) as Hin.
  { intros m k b. rewrite waits_at_add, decide_True by done. set_solver. }
  assert (∀ (m : gmap TaskId (list TaskAwait)) k k' b, b ∈ waits_at m k' →
    b ∈ waits_at (or_default [] k (λ l, l ++ [a]) m) k') as Hmono.
  { intros m k k' b Hb. rewrite waits_at_add. case_decide; set_solver. }
  split.
  - intros k b. destruct (decide (k1 a = k)) as [<-|Hne].
    + intros [[? ?]%Hl| ->]%Hin; [auto|]. split; [done|]. apply Hin. auto.
    + rewrite waits_at_add, decide_False by done. intros [? ?]%Hl. auto.
  - intros k b. destruct (decide (k2 a = k)) as [<-|Hne].
    + intros [[? ?]%Hr| ->]%Hin; [auto|]. split; [done|]. apply Hin. auto.
    + rewrite waits_at_add, decide_False by done. intros [? ?]%Hr. auto.
  - apply all_values_or_default; [done|]. by intros [] _.
  - apply all_values_or_default; [done|]. by intros [] _.
Qed.

(** A waiting parent is linked to a stored child. *)
Lemma wf_add_wait wgap dgap tgap ngap p a r :
  pool_wf_gap wgap dgap tgap ngap p → is_Some (tp_tasks p !! await_child a) →
  tp_tasks p !! ta_parent_task_id a = Some r → rec_status r = Waiting →
  pool_wf_gap wgap dgap tgap ngap
    (set_tp_waits_by_parent
       (or_default [] (ta_parent_task_id a) (λ l, l ++ [a]) (tp_waits_by_parent p))
       (set_tp_waits_by_child
          (or_default [] (await_child a) (λ l, l ++ [a]) (tp_waits_by_child p)) p)).
Proof.
  intros [] Hc Hp Hst. split; simpl; try done.
  - by apply mirrored_add.
  - intros c. rewrite lookup_or_default. case_decide; subst; auto.
  - intros q. rewrite lookup_or_default. case_decide; subst; eauto.
  - by destruct wf_history0.
  - by destruct wf_evicted0.
Qed.

End inv.
