(* ===== verification/TaskHistory.v ===== *)
(** * TaskHistory: retention of terminal records

    [compact_terminal_history] terminates, never reaches one of its [expect]s,
    keeps the invariant of the pool, evicts only terminal records that no wait
    link references, and stops when the history fits or every entry of it is
    referenced. *)
From S2P Require Import Prelude Contracts TaskIndexes TaskIndexSpec TaskPool TaskPoolInv.

Section history.
Context {serde : Serde}.
Implicit Types (p : TaskPool) (r : TaskRecord).

(** ** The window of evicted identifiers *)

Lemma trim_loop_spec fuel capacity order ids :
  NoDup order → ids = list_to_set order → (length order ≤ fuel)%nat →
  let order' := drop (length order - N.to_nat capacity) order in
  trim_loop fuel capacity order ids = (order', list_to_set order').
Proof.
  revert order ids. induction fuel as [|fuel IH]; intros order ids Hnd -> Hfuel; simpl.
  - destruct order; [done|simpl in *; lia].
  - case_decide as Hcap; [|by replace (length order - N.to_nat capacity)%nat with 0%nat by lia].
    destruct order as [|x order]; [done|]. apply NoDup_cons in Hnd as [Hx Hnd]. simpl in *.
    rewrite IH; [|done|set_solver|lia].
    by replace (S (length order) - N.to_nat capacity)%nat
      with (S (length order - N.to_nat capacity)) by lia.
Qed.

Lemma trim_evicted_spec p capacity :
  NoDup (tp_evicted_task_order p) →
  tp_evicted_task_ids p = list_to_set (tp_evicted_task_order p) →
  trim_evicted_task_ids p capacity
  = let order := drop (length (tp_evicted_task_order p) - N.to_nat capacity)
                   (tp_evicted_task_order p) in
    set_tp_evicted_task_ids (list_to_set order) (set_tp_evicted_task_order order p).
Proof. intros Hnd Hset. unfold trim_evicted_task_ids. by rewrite trim_loop_spec. Qed.

(** Trimming keeps the newest identifiers, at most [capacity] of them. *)
Lemma evicted_trim p ret :
  NoDup (tp_evicted_task_order p) →
  tp_evicted_task_ids p = list_to_set (tp_evicted_task_order p) →
  (∀ x, x ∈ tp_evicted_task_ids p → tp_tasks p !! x = None) →
  tp_history_retention p = Some ret →
  evicted_ok (trim_evicted_task_ids p (max_evicted_task_ids ret)).
Proof.
  intros Hnd Hset Hfresh Hret. rewrite trim_evicted_spec by done.
  set (n := (_ - _)%nat). split; simpl; try done.
  - eapply NoDup_app with (l := take n (tp_evicted_task_order p)). by rewrite take_drop.
  - intros x. rewrite elem_of_list_to_set. intros Hx. apply Hfresh. rewrite Hset.
    apply elem_of_list_to_set. rewrite <-(take_drop n (tp_evicted_task_order p)). set_solver.
  - intros ret' ?. simplify_eq. rewrite length_drop. subst n. lia.
  - congruence.
Qed.

(** ** Eviction of one record *)

(** The parts of the pool that retention does not touch. *)
Record same_links p p' : Prop := {
  links_child : tp_waits_by_child p' = tp_waits_by_child p;
  links_parent : tp_waits_by_parent p' = tp_waits_by_parent p;
  links_retention : tp_history_retention p' = tp_history_retention p;
  links_cache : tp_ready_selector_cache p' = tp_ready_selector_cache p;
  links_sequence : tp_next_sequence p' = tp_next_sequence p;
}.

#[global] Instance same_links_preorder : PreOrder same_links.
Proof. split; [done|]. intros p1 p2 p3 [] []. split; congruence. Qed.

Lemma is_protected_links p p' x : same_links p p' → is_protected p' x = is_protected p x.
Proof. intros [Hc Hp _ _ _]. unfold is_protected. by rewrite Hc, Hp. Qed.

Lemma not_protected p x :
  is_protected p x = false ↔ tp_waits_by_child p !! x = None ∧ tp_waits_by_parent p !! x = None.
Proof.
  unfold is_protected. rewrite orb_false_iff, !bool_decide_eq_false, !eq_None_not_Some. done.
Qed.

(** The pool with the record of [x] taken out, before [x] is remembered. *)
Definition drop_record p (x : TaskId) r : TaskPool :=
  with_statistics
    (λ s, set_st_terminal_records_evicted (sat_add (st_terminal_records_evicted s) 1) s)
    (with_statistics (record_status_transition (Some (rec_status r)) None)
      (set_tp_payload_wire_bytes (delete x (tp_payload_wire_bytes p))
        (set_tp_pending_cancellations (delete x (tp_pending_cancellations p))
          (set_tp_tasks (delete x (tp_tasks p))
            (set_tp_indexes (update_record (tp_indexes p) r false) p))))).

Lemma evict_record_eq p x r ret :
  tp_tasks p !! x = Some r →
  evict_record p x ret
  = Done (remember_evicted_task_id (drop_record p x r) x (max_evicted_task_ids ret)).
Proof.
  intros Hx. unfold evict_record, remove_record_indexes, update_record_indexes. by rewrite Hx.
Qed.

Lemma wf_drop_record wgap dgap tgap ngap p x r :
  pool_wf_gap wgap dgap (tgap ∪ {[x]}) ngap p → tp_tasks p !! x = Some r → x ∉ tgap →
  is_protected p x = false → pool_wf_gap wgap dgap tgap ngap (drop_record p x r).
Proof.
  intros [] Hx Ht [Hwc Hwp]%not_protected.
  assert (∀ y, y ≠ x → is_terminal (tp_tasks p) y ↔ is_terminal (delete x (tp_tasks p)) y) as Hterm.
  { intros y Hne. unfold is_terminal. by rewrite lookup_delete_ne. }
  split; simpl.
  - by apply map_Forall_delete.
  - unfold size_ok in *. rewrite map_size_delete_Some by eauto. lia.
  - destruct wf_index as (lgap & Hix & Hgap). exists lgap. split; simpl.
    + eapply index_spec_remove; [done|done| |done|done]. by destruct (wf_records x r Hx).
    + intros y ry Hy. rewrite lookup_delete_Some. intros [Hne Hry] Hrun.
      rewrite lookup_delete_ne by done. by eapply Hgap.
  - by apply index_canon_update.
  - eapply stats_ok_same; [|by apply stats_ok_evict]. by intros [].
  - by rewrite !dom_delete_L, wf_bytes.
  - rewrite !dom_delete. set_solver.
  - done.
  - intros c Hc. rewrite lookup_delete_ne by (intros <-; rewrite Hwc in Hc; by destruct Hc). auto.
  - intros q Hq. rewrite lookup_delete_ne by (intros <-; rewrite Hwp in Hq; by destruct Hq). auto.
  - destruct wf_history as [? Hin Hcomp ?]. split; simpl; [done| |..|done].
    + intros y Hy. destruct (Hin y Hy). rewrite <-Hterm by set_solver. set_solver.
    + intros Hret y Hy. assert (y ≠ x) by (intros ->; destruct Hy as (?&?&_); by simplify_map_eq).
      apply Hterm in Hy; [|done]. destruct (Hcomp Hret y Hy); set_solver.
  - destruct wf_evicted. split; simpl; try done. intros y Hy. rewrite lookup_delete. case_decide; auto.
  - done.
Qed.

Lemma wf_remember wgap dgap tgap ngap p x ret :
  pool_wf_gap wgap dgap tgap ngap p → tp_tasks p !! x = None → x ∉ tp_evicted_task_ids p →
  tp_history_retention p = Some ret →
  let p' := remember_evicted_task_id p x (max_evicted_task_ids ret) in
  pool_wf_gap wgap dgap tgap ngap p' ∧ same_links p p' ∧
  tp_tasks p' = tp_tasks p ∧ tp_terminal_order p' = tp_terminal_order p ∧
  tp_pending_cancellations p' = tp_pending_cancellations p.
Proof.
  intros Hwf Hx Hev Hret. unfold remember_evicted_task_id. case_decide; [done|].
  pose proof (wf_evicted _ _ _ _ _ Hwf) as [Hnd Hset Hfresh _ _].
  assert (evicted_ok (trim_evicted_task_ids
    (set_tp_evicted_task_order (tp_evicted_task_order p ++ [x])
      (set_tp_evicted_task_ids ({[x]} ∪ tp_evicted_task_ids p) p)) (max_evicted_task_ids ret))) as Hok.
  { apply evicted_trim; simpl; try done.
    - apply NoDup_app. split_and!; [done| |apply NoDup_singleton].
      intros y Hy ->%list_elem_of_singleton. apply Hev. rewrite Hset. by apply elem_of_list_to_set.
    - rewrite list_to_set_app_L, Hset. set_solver.
    - set_solver. }
  revert Hok. simpl. unfold trim_evicted_task_ids. destruct (trim_loop _ _ _ _) as [order ids].
  intros Hok. split_and!; try done. destruct Hwf. split; simpl; try done. by destruct wf_history.
Qed.

Lemma wf_evict wgap dgap tgap ngap p x ret :
  pool_wf_gap wgap dgap (tgap ∪ {[x]}) ngap p → is_Some (tp_tasks p !! x) → x ∉ tgap →
  is_protected p x = false → tp_history_retention p = Some ret →
  ∃ p', evict_record p x ret = Done p' ∧ pool_wf_gap wgap dgap tgap ngap p' ∧ same_links p p' ∧
    tp_tasks p' = delete x (tp_tasks p) ∧ tp_terminal_order p' = tp_terminal_order p ∧
    tp_pending_cancellations p' = delete x (tp_pending_cancellations p).
Proof.
  intros Hwf [r Hx] Ht Hprot Hret. rewrite (evict_record_eq p x r ret Hx).
  eexists. split; [done|].
  destruct (wf_remember wgap dgap tgap ngap (drop_record p x r) x ret) as (?&?&?&?&?); simpl.
  - by apply wf_drop_record.
  - apply lookup_delete_eq.
  - intros Hin. apply (ev_fresh p (wf_evicted _ _ _ _ _ Hwf)) in Hin. congruence.
  - done.
  - split_and!; [done|etrans; [|eassumption]; done|done|done|done].
Qed.

(** ** Compaction *)

(** [p'] is [p] with some unreferenced terminal records evicted. *)
Record compacted p p' : Prop := {
  cp_links : same_links p p';
  cp_tasks : tp_tasks p' ⊆ tp_tasks p;
  cp_pending : ∀ x, is_Some (tp_tasks p' !! x) →
    tp_pending_cancellations p' !! x = tp_pending_cancellations p !! x;
  cp_order : ∀ x, x ∈ tp_terminal_order p' → x ∈ tp_terminal_order p;
  cp_evicted : ∀ x r, tp_tasks p !! x = Some r → tp_tasks p' !! x = None →
    x ∈ tp_terminal_order p ∧ is_terminal_status (rec_status r) = true ∧ is_protected p x = false;
}.

#[global] Instance compacted_preorder : PreOrder compacted.
Proof.
  split.
  - intros p. split; [done|done|done|done|congruence].
  - intros p1 p2 p3 H12 H23. destruct H12 as [L12 T12 P12 O12 E12], H23 as [L23 T23 P23 O23 E23].
    split; [by etrans|by etrans| |auto|].
    { intros x [r Hx]. rewrite P23, P12; [done| |eauto]. exists r. by eapply lookup_weaken. }
    intros x r Hx Hx3. destruct (tp_tasks p2 !! x) as [r2|] eqn:Hx2; [|eauto].
    assert (r2 = r) as -> by (eapply lookup_weaken in T12; [|done]; congruence).
    destruct (E23 x r Hx2 Hx3) as (Ho & Ht & Hp). rewrite (is_protected_links p1 p2) in Hp by done.
    auto.
Qed.

(** The loop stops only when the history fits or all of it is referenced. *)
Definition compaction_done (ret : TaskHistoryRetention) p : Prop :=
  (N.of_nat (length (tp_terminal_order p)) ≤ max_terminal_records ret)%N ∨
  Forall (λ x, is_protected p x = true) (tp_terminal_order p).

Lemma wf_set_order wgap dgap tgap tgap' ngap p order :
  pool_wf_gap wgap dgap tgap ngap p → is_Some (tp_history_retention p) →
  NoDup order → (∀ x, x ∈ order → is_terminal (tp_tasks p) x ∧ x ∉ tgap') →
  (∀ x, is_terminal (tp_tasks p) x → x ∈ order ∨ x ∈ tgap') →
  pool_wf_gap wgap dgap tgap' ngap (set_tp_terminal_order order p).
Proof.
  intros [] Hret Hnd Hin Hcomp. split; simpl; try done.
  - split; simpl; [done|done|done|]. intros Hn. rewrite Hn in Hret. by destruct Hret.
  - by destruct wf_evicted.
Qed.

(** Rotating a protected entry to the back. *)
Lemma wf_rotate wgap dgap tgap ngap p x order :
  pool_wf_gap wgap dgap tgap ngap p → is_Some (tp_history_retention p) →
  tp_terminal_order p = x :: order →
  pool_wf_gap wgap dgap tgap ngap (set_tp_terminal_order (order ++ [x]) p).
Proof.
  intros Hwf Hret Ho. pose proof (wf_history _ _ _ _ _ Hwf) as [Hnd Hin Hcomp _].
  rewrite Ho in *. assert (order ++ [x] ≡ₚ x :: order) as Hperm by (by rewrite Permutation_app_comm).
  eapply wf_set_order; [done|done|by rewrite Hperm|..]; intros y; rewrite Hperm; auto.
Qed.

(** Popping an entry leaves it in the gap. *)
Lemma wf_pop wgap dgap tgap ngap p x order :
  pool_wf_gap wgap dgap tgap ngap p → is_Some (tp_history_retention p) →
  tp_terminal_order p = x :: order →
  pool_wf_gap wgap dgap (tgap ∪ {[x]}) ngap (set_tp_terminal_order order p).
Proof.
  intros Hwf Hret Ho. pose proof (wf_history _ _ _ _ _ Hwf) as [Hnd Hin Hcomp _].
  rewrite Ho in *. apply NoDup_cons in Hnd as [Hx Hnd].
  eapply wf_set_order; [done|done|done|..]; intros y Hy.
  - destruct (Hin y); set_solver.
  - destruct (Hcomp Hret y Hy); set_solver.
Qed.

Lemma compacted_rotate p x order :
  tp_terminal_order p = x :: order → compacted p (set_tp_terminal_order (order ++ [x]) p).
Proof. intros Ho. split; simpl; [done|done|done| |congruence]. rewrite Ho. set_solver. Qed.

(** Evicting the unprotected head of the history. *)
Lemma wf_evict_head wgap dgap tgap ngap p x order ret :
  pool_wf_gap wgap dgap tgap ngap p → tp_history_retention p = Some ret →
  tp_terminal_order p = x :: order → is_protected p x = false →
  ∃ p', evict_record (set_tp_terminal_order order p) x ret = Done p' ∧
    pool_wf_gap wgap dgap tgap ngap p' ∧ compacted p p' ∧ tp_terminal_order p' = order ∧
    tp_tasks p' = delete x (tp_tasks p).
Proof.
  intros Hwf Hret Ho Hx.
  destruct (hist_terminal _ _ (wf_history _ _ _ _ _ Hwf) x) as [(r & Hr & Hterm) Hgap];
    [rewrite Ho; set_solver|].
  destruct (wf_evict wgap dgap tgap ngap (set_tp_terminal_order order p) x ret)
    as (p' & Hev & Hwf' & Hl & Ht & Ho' & Hp'); simpl; [apply wf_pop; eauto|eauto|done|done|done|].
  exists p'. split_and!; [done|done| |done|done].
  assert (same_links p p') by (etrans; [|exact Hl]; done). simpl in *. split.
  - done.
  - rewrite Ht. apply delete_subseteq.
  - intros y Hy. rewrite Hp', lookup_delete_ne; [done|]. intros <-.
    rewrite Ht, lookup_delete_eq in Hy. by destruct Hy.
  - rewrite Ho', Ho. set_solver.
  - intros y ry Hy. rewrite Ht, lookup_delete. case_decide; [subst|congruence].
    intros _. rewrite Ho. split_and!; [set_solver|congruence|done].
Qed.

(** Steps left before the loop stops. *)
Definition compact_measure (n pe : nat) : nat := n * (n + 1) - pe.

(** The last [pe] entries have been found protected since the last eviction. *)
Definition examined (pe : nat) p : Prop :=
  (pe ≤ length (tp_terminal_order p))%nat ∧
  Forall (λ x, is_protected p x = true)
    (drop (length (tp_terminal_order p) - pe) (tp_terminal_order p)).

Lemma examined_0 p : examined 0 p.
Proof. split; [lia|]. rewrite drop_ge by lia. constructor. Qed.

Lemma examined_rotate pe p x order :
  examined pe p → (pe < length (tp_terminal_order p))%nat →
  tp_terminal_order p = x :: order → is_protected p x = true →
  examined (S pe) (set_tp_terminal_order (order ++ [x]) p).
Proof.
  intros [_ Hprot] Hlt Ho Hx. unfold examined. simpl. rewrite Ho in *. simpl in *.
  rewrite length_app. simpl. split; [lia|].
  replace (length order + 1 - S pe)%nat with (length order - pe)%nat by lia.
  rewrite drop_app_le by lia. apply Forall_app. split; [|by repeat constructor].
  by replace (S (length order) - pe)%nat with (S (length order - pe)) in Hprot by lia.
Qed.

Lemma examined_done ret pe p :
  examined pe p → ¬ (max_terminal_records ret < N.of_nat (length (tp_terminal_order p)) ∧
    N.of_nat pe < N.of_nat (length (tp_terminal_order p)))%N → compaction_done ret p.
Proof.
  intros [_ Hprot] [|]%not_and_l; [left; lia|right].
  by replace (length (tp_terminal_order p) - pe)%nat with 0%nat in Hprot by lia.
Qed.

Lemma compact_loop_spec wgap dgap tgap ngap ret fuel :
  ∀ (pe : nat) p,
  pool_wf_gap wgap dgap tgap ngap p → tp_history_retention p = Some ret → examined pe p →
  (compact_measure (length (tp_terminal_order p)) pe ≤ fuel)%nat →
  ∃ p', compact_loop fuel ret (N.of_nat pe) p = Done p' ∧
    pool_wf_gap wgap dgap tgap ngap p' ∧ compacted p p' ∧ compaction_done ret p'.
Proof.
  unfold compact_measure.
  induction fuel as [|fuel IH]; intros pe p Hwf Hret Hex Hfuel; simpl.
  all: case_decide as Hgo; [|exists p; split_and!; [done|done|done|by eapply examined_done]].
  - exfalso. nia.
  - destruct (tp_terminal_order p) as [|x order] eqn:Ho; [simpl in *; lia|].
    rewrite (is_protected_links p) by done. destruct (is_protected p x) eqn:Hx; simpl.
    + replace (N.of_nat pe + 1)%N with (N.of_nat (S pe)) by lia.
      destruct (IH (S pe) (set_tp_terminal_order (order ++ [x]) p)) as (p' & ? & ? & ? & ?).
      * apply wf_rotate; eauto.
      * done.
      * apply examined_rotate; [done|rewrite Ho; simpl in *; lia|done|done].
      * simpl in *. rewrite length_app. simpl. lia.
      * exists p'. split_and!; [done|done| |done]. etrans; [|done]. by apply compacted_rotate.
    + destruct (wf_evict_head wgap dgap tgap ngap p x order ret) as (p1 & -> & Hwf1 & Hc1 & Ho1 & _);
        [done..|]. simpl.
      destruct (IH 0%nat p1) as (p' & ? & ? & ? & ?).
      * done.
      * by rewrite (links_retention _ _ (cp_links _ _ Hc1)).
      * apply examined_0.
      * rewrite Ho1. simpl in *. lia.
      * exists p'. split_and!; [done|done| |done]. by etrans.
Qed.

(** A history that is referenced throughout is only rotated. *)
Lemma compact_loop_protected ret fuel : ∀ pe p p',
  Forall (λ y, is_protected p y = true) (tp_terminal_order p) → compact_loop fuel ret pe p = Done p' →
  same_links p p' ∧ tp_terminal_order p' ≡ₚ tp_terminal_order p.
Proof.
  induction fuel as [|fuel IH]; intros pe p p' Hall; simpl; (case_decide; [|by intros [= <-]]); [done|].
  destruct (tp_terminal_order p) as [|x order] eqn:Ho; [done|].
  apply Forall_cons in Hall as [Hx Hall]. rewrite (is_protected_links p) by done. rewrite Hx.
  intros [Hl Hperm]%IH; simpl in *.
  - split; [by etrans; [|exact Hl]|]. rewrite Hperm. by rewrite Permutation_app_comm.
  - apply Forall_app. split; [|constructor; [|constructor]]; [|by rewrite (is_protected_links p)].
    eapply Forall_impl; [exact Hall|]. intros y Hy. by rewrite (is_protected_links p).
Qed.

(** The newest entry [x] of the history goes last: when it is evicted, the history is at its
    bound and all that is left of it is referenced. *)
Lemma compact_loop_newest wgap dgap tgap ngap ret fuel : ∀ pe p p' order x rotated,
  pool_wf_gap wgap dgap tgap ngap p → tp_history_retention p = Some ret →
  tp_terminal_order p = order ++ x :: rotated → Forall (λ y, is_protected p y = true) rotated →
  compact_loop fuel ret pe p = Done p' →
  x ∈ tp_terminal_order p'
  ∨ (Forall (λ y, is_protected p' y = true) (tp_terminal_order p')
     ∧ (max_terminal_records ret ≤ N.of_nat (length (tp_terminal_order p')))%N).
Proof.
  induction fuel as [|fuel IH]; intros pe p p' order x rotated Hwf Hret Ho Hrot; simpl;
    (case_decide as Hgo; [|intros [= <-]; left; rewrite Ho; set_solver]); [done|].
  rewrite Ho in *. destruct order as [|y order]; cbn [app] in *.
  - rewrite (is_protected_links p) by done. destruct (is_protected p x) eqn:Hx.
    + intros [_ Hperm]%compact_loop_protected; [left; rewrite Hperm; simpl; set_solver|].
      simpl. apply Forall_app. split; [done|]. by constructor.
    + destruct (wf_evict_head wgap dgap tgap ngap p x rotated ret) as (p1 & -> & _ & Hc1 & Ho1 & _);
        [done..|]. cbn [mbind outcome_bind].
      assert (Forall (λ y, is_protected p1 y = true) rotated) as Hrot1.
      { eapply Forall_impl; [exact Hrot|]. intros y Hy. by rewrite (is_protected_links p) by apply Hc1. }
      intros [Hl Hperm]%compact_loop_protected; rewrite Ho1 in *; [|done]. right. rewrite Hperm. split.
      * eapply Forall_impl; [exact Hrot1|]. intros y Hy. by rewrite (is_protected_links p1).
      * simpl in Hgo. lia.
  - rewrite (is_protected_links p) by done. destruct (is_protected p y) eqn:Hy.
    + apply (IH _ _ _ order x (rotated ++ [y])); simpl.
      * apply (wf_rotate wgap dgap tgap ngap p y (order ++ x :: rotated)); [done|eauto|by rewrite Ho].
      * done.
      * by rewrite <- app_assoc.
      * apply Forall_app. split; [done|]. by constructor.
    + destruct (wf_evict_head wgap dgap tgap ngap p y (order ++ x :: rotated) ret)
        as (p1 & -> & Hwf1 & Hc1 & Ho1 & _); [done..|]. cbn [mbind outcome_bind].
      apply (IH _ _ _ order x rotated); [done| |done|].
      * by rewrite (links_retention _ _ (cp_links _ _ Hc1)).
      * eapply Forall_impl; [exact Hrot|]. intros z Hz. by rewrite (is_protected_links p) by apply Hc1.
Qed.

Lemma wf_compact wgap dgap tgap ngap p :
  pool_wf_gap wgap dgap tgap ngap p →
  ∃ p', compact_terminal_history p = Done p' ∧ pool_wf_gap wgap dgap tgap ngap p' ∧
    compacted p p' ∧ (∀ ret, tp_history_retention p = Some ret → compaction_done ret p').
Proof.
  intros Hwf. unfold compact_terminal_history.
  destruct (tp_history_retention p) as [ret|] eqn:Hret; [|by exists p].
  destruct (compact_loop_spec wgap dgap tgap ngap ret
    (compact_fuel (length (tp_terminal_order p))) 0 p) as (p' & ? & ? & ? & ?).
  - done.
  - done.
  - apply examined_0.
  - unfold compact_measure, compact_fuel. nia.
  - exists p'. split_and!; [done..|]. intros ? [= <-]. done.
Qed.

(** A task that just became terminal is appended to the history. *)
Lemma wf_push wgap dgap tgap ngap p x :
  pool_wf_gap wgap dgap (tgap ∪ {[x]}) ngap p → is_terminal (tp_tasks p) x → x ∉ tgap →
  is_Some (tp_history_retention p) →
  pool_wf_gap wgap dgap tgap ngap (set_tp_terminal_order (tp_terminal_order p ++ [x]) p).
Proof.
  intros Hwf Hx Ht Hret. destruct (wf_history _ _ _ _ _ Hwf) as [Hnd Hin Hcomp _].
  eapply wf_set_order; [done|done|..].
  - apply NoDup_app. split_and!; [done| |apply NoDup_singleton].
    intros y Hy ->%list_elem_of_singleton. destruct (Hin x Hy). set_solver.
  - intros y [Hy| ->%list_elem_of_singleton]%elem_of_app; [|done]. destruct (Hin y Hy). set_solver.
  - intros y Hy. destruct (Hcomp Hret y Hy); set_solver.
Qed.

(** Entering a task that just became terminal. *)
Lemma wf_record_terminal wgap dgap tgap ngap p x :
  pool_wf_gap wgap dgap (tgap ∪ {[x]}) ngap p → is_terminal (tp_tasks p) x → x ∉ tgap →
  ∃ p', record_terminal_task p x = Done p' ∧ pool_wf_gap wgap dgap tgap ngap p' ∧
    tp_tasks p' ⊆ tp_tasks p ∧ same_links p p' ∧
    (∀ ret, tp_history_retention p = Some ret → compaction_done ret p') ∧
    (∀ y, is_Some (tp_tasks p' !! y) →
       tp_pending_cancellations p' !! y = tp_pending_cancellations p !! y) ∧
    (∀ y r, tp_tasks p !! y = Some r → tp_tasks p' !! y = None →
       is_terminal_status (rec_status r) = true ∧ is_protected p y = false ∧ y ∉ tgap).
Proof.
  intros Hwf Hx Ht. unfold record_terminal_task. pose proof (wf_history _ _ _ _ _ Hwf) as Hh.
  destruct (tp_history_retention p) as [ret|] eqn:Hret.
  - destruct (wf_compact wgap dgap tgap ngap
      (set_tp_terminal_order (tp_terminal_order p ++ [x]) p)) as (p' & ? & Hwf' & Hc & Hdone).
    + apply wf_push; eauto.
    + destruct Hc as [Hl ? ? ? He]. exists p'. simpl in Hdone.
      split_and!; [done|done|done|by etrans; [|exact Hl]|by rewrite <-Hret|done|]. intros y r Hy Hy'. destruct (He y r Hy Hy') as (Ho & ? & ?). split_and!; [done|done|].
      apply elem_of_app in Ho as [Ho| ->%list_elem_of_singleton]; [|done].
      destruct (hist_terminal _ _ Hh y Ho). set_solver.
  - exists p. split_and!; [done| |done|done|done|done|congruence].
    destruct Hwf. split; try done. pose proof (hist_off _ _ Hh Hret) as Ho.
    split; rewrite ?Hret, ?Ho; [constructor|set_solver|by intros []|done].
Qed.

(** It is evicted at once only when the history is at its bound and all that is left of it
    is referenced; never when no bound is set. *)
Definition crowded_out p' (retention : option TaskHistoryRetention) : Prop :=
  ∃ ret, retention = Some ret ∧ (max_terminal_records ret ≤ N.of_nat (length (tp_terminal_order p')))%N
    ∧ Forall (λ y, is_protected p' y = true) (tp_terminal_order p').

Lemma record_terminal_newest wgap dgap tgap ngap p x p' :
  pool_wf_gap wgap dgap (tgap ∪ {[x]}) ngap p → is_terminal (tp_tasks p) x → x ∉ tgap →
  record_terminal_task p x = Done p' → tp_tasks p' !! x = None → crowded_out p' (tp_history_retention p).
Proof.
  intros Hwf Hx Ht Heq Hgone. destruct (wf_record_terminal _ _ _ _ _ _ Hwf Hx Ht) as (q & Heq' & Hwf' & _).
  rewrite Heq in Heq'. injection Heq' as <-. revert Heq. unfold record_terminal_task.
  destruct (tp_history_retention p) as [ret|] eqn:Hret; [|intros [= <-]; by destruct Hx as (r & ? & _); congruence].
  unfold compact_terminal_history. simpl. rewrite Hret. intros Hloop. exists ret. split; [done|].
  destruct (compact_loop_newest wgap dgap tgap ngap ret _ _ _ _ (tp_terminal_order p) x []
    (wf_push _ _ _ _ _ _ Hwf Hx Ht ltac:(eauto)) Hret eq_refl ltac:(constructor) Hloop) as [Hin|[? ?]]; [|done].
  destruct (hist_terminal _ _ (wf_history _ _ _ _ _ Hwf') x Hin) as [(r & ? & _) _]. congruence.
Qed.

End history.
