(* ===== verification/TaskStates.v ===== *)
(** * TaskStates: the state machine of a task

    The edges of [TaskStatus] that the pool takes, and the relation between the
    record of a task before and after one operation: what was submitted does not
    change but for the due step and the continuation (when the task is parked) and the
    registry generation (of a task that stays ready), the status moves along one edge at
    most, and the attempt generation grows exactly when the task starts to run. *)
From S2P Require Import Prelude Contracts TaskIndexes TaskIndexSpec TaskPool.

Definition status_edge (s s' : TaskStatus) : bool :=
  match s, s' with
  | Ready, (Running | Failed | Cancelled | Expired | DeadLetter) => true
  | Running, (Ready | Waiting | Blocked | Completed | Failed | Cancelled | Expired | DeadLetter) => true
  | (Waiting | Blocked), (Ready | Cancelled | Expired | DeadLetter) => true
  | _, _ => false
  end.

Section states.
Context {serde : Serde}.
Implicit Types (r : TaskRecord) (tasks : gmap TaskId TaskRecord).

(** The part of a task that is fixed at admission: all fields but the four below. *)
Definition submission (t : Task) :=
  (t_task_id t, t_protocol_id t, t_priority t, t_payload t, t_input_refs t, t_output_ref t,
   t_target_binding_id t, t_trace_id t, t_expected_versions t, t_correlation_id t,
   t_idempotency_key t, t_runner_hint t, t_required_surfaces t, t_dispatch_lane t, t_ordering t,
   t_resource_requirements t, t_created_sequence t).

(** When the task is due and what it continues with: set when it is parked. *)
Definition schedule (t : Task) := (t_ready_at_step t, t_continuation_ref t).

Record task_step r r' : Prop := {
  step_submission : submission (rec_task r') = submission (rec_task r);
  step_status : rec_status r' = rec_status r ∨ status_edge (rec_status r) (rec_status r') = true;
  step_attempt : rec_attempt_generation r'
    = if decide (rec_status r ≠ Running ∧ rec_status r' = Running)
      then sat_add (rec_attempt_generation r) 1 else rec_attempt_generation r;
  step_lease : rec_status r' = rec_status r →
    rec_lease r' = rec_lease r ∧ t_lease_id (rec_task r') = t_lease_id (rec_task r);
  step_schedule : (rec_status r' = Waiting → rec_status r = Waiting) →
    schedule (rec_task r') = schedule (rec_task r);
  step_generation : (rec_status r = Ready → rec_status r' ≠ Ready) →
    t_registry_generation (rec_task r') = t_registry_generation (rec_task r);
}.

Lemma task_step_refl r : task_step r r.
Proof. split; [done|by left| |done..]. by rewrite decide_False by tauto. Qed.

(** A step that does not start an attempt. *)
Lemma task_step_edge r r' :
  submission (rec_task r') = submission (rec_task r) →
  t_registry_generation (rec_task r') = t_registry_generation (rec_task r) →
  (rec_status r' ≠ Waiting → schedule (rec_task r') = schedule (rec_task r)) →
  rec_attempt_generation r' = rec_attempt_generation r → rec_status r' ≠ Running →
  status_edge (rec_status r) (rec_status r') = true → task_step r r'.
Proof.
  intros ? ? Hsch Ha ? He. split; [done|by right|by rewrite decide_False by tauto| | |done].
  - intros Hs. rewrite Hs in He. by destruct (rec_status r).
  - intros Hw. apply Hsch. intros E. rewrite E, (Hw E) in He. done.
Qed.

Lemma task_step_terminal r r' :
  task_step r r' → is_terminal_status (rec_status r) = true → rec_status r' = rec_status r.
Proof. intros [_ [|He] _ _ _ _] Ht; [done|]. by destruct (rec_status r), (rec_status r'). Qed.

(** ** All tasks of a pool *)

Definition tasks_step tasks (tasks' : gmap TaskId TaskRecord) : Prop :=
  ∀ x r', tasks' !! x = Some r' → ∃ r, tasks !! x = Some r ∧ task_step r r'.

Lemma tasks_step_refl tasks : tasks_step tasks tasks.
Proof. intros x r Hx. exists r. split; [done|]. apply task_step_refl. Qed.

Lemma tasks_step_sub tasks tasks1 tasks' :
  tasks_step tasks tasks1 → tasks' ⊆ tasks1 → tasks_step tasks tasks'.
Proof. intros Hs Hsub x r' Hx. apply Hs. by eapply lookup_weaken. Qed.

Lemma tasks_step_insert tasks x r r' :
  tasks !! x = Some r → task_step r r' → tasks_step tasks (<[x := r']> tasks).
Proof.
  intros Hx Hr y ry. rewrite lookup_insert. case_decide; subst.
  - intros [= <-]. eauto.
  - intros Hy. exists ry. split; [done|]. apply task_step_refl.
Qed.

Lemma tasks_step_fmap tasks (f : TaskRecord → TaskRecord) :
  (∀ r, task_step r (f r)) → tasks_step tasks (f <$> tasks).
Proof. intros Hf x r'. rewrite lookup_fmap_Some. intros (r & <- & Hr). eauto. Qed.

Lemma tasks_step_dom tasks tasks' : tasks_step tasks tasks' → dom tasks' ⊆ dom tasks.
Proof. intros Hs x [r' (r & ? & _)%Hs]%elem_of_dom. by eapply elem_of_dom_2. Qed.

(** The tasks of [ids] changed by [f], the rest left alone. *)
Definition changed_by (f : TaskRecord → TaskRecord) (ids : list TaskId) tasks
    (tasks' : gmap TaskId TaskRecord) : Prop :=
  ∀ x, tasks' !! x = if decide (x ∈ ids) then f <$> tasks !! x else tasks !! x.

Lemma changed_by_step f ids tasks tasks' :
  changed_by f ids tasks tasks' → (∀ x r, x ∈ ids → tasks !! x = Some r → task_step r (f r)) →
  tasks_step tasks tasks'.
Proof.
  intros Hc Hf x r'. rewrite Hc. case_decide as Hx.
  - rewrite fmap_Some. intros (r & Hr & ->). eauto.
  - intros Hr. exists r'. split; [done|]. apply task_step_refl.
Qed.

Lemma changed_by_nil f tasks : changed_by f [] tasks tasks.
Proof. intros x. by destruct (decide (x ∈ [])) as [?%not_elem_of_nil|]. Qed.

Lemma changed_by_cons f x ids tasks tasks1 tasks' r :
  changed_by f ids tasks1 tasks' → x ∉ ids → tasks !! x = Some r → tasks1 = <[x := f r]> tasks →
  changed_by f (x :: ids) tasks tasks'.
Proof.
  intros Hc Hx Hr -> y. rewrite Hc. destruct (decide (y = x)) as [->|Hne].
  - rewrite decide_False by done. rewrite decide_True by set_solver. by rewrite lookup_insert_eq, Hr.
  - rewrite lookup_insert_ne by done. destruct (decide (y ∈ ids)).
    + by rewrite decide_True by set_solver.
    + by rewrite decide_False by set_solver.
Qed.

End states.
