(* ===== verification/TaskPoolSafety.v ===== *)
(** * TaskPoolSafety: every operation of the task pool is safe

    Each operation, started on a pool that satisfies [pool_wf], returns (it
    reaches none of its [expect]s and its loops terminate), leaves a pool that
    satisfies [pool_wf], stores no task that was not stored before (admission
    excepted) and takes every stored task along one edge of its state machine at
    most ([TaskStates.tasks_step]). *)
From S2P Require Import Prelude Contracts TaskIndexes TaskIndexSpec TaskPool TaskPoolInv.
From S2P Require Import TaskHistory TaskStates.

Section safety.
Context {serde : Serde}.
Implicit Types (p : TaskPool) (r : TaskRecord).

(** The pool after an operation on [p]. *)
Definition good p p' : Prop := pool_wf p' ∧ tasks_step (tp_tasks p) (tp_tasks p').

Definition safe {A} p (o : outcome (TaskPool * A)) : Prop :=
  ∃ p' a, o = Done (p', a) ∧ good p p'.

(** ** Records after a transition *)

Lemma validate_record_lease_Ok r lease step action :
  validate_record_lease r lease step action = Ok tt ↔
  rec_status r = Running ∧ rec_claimed_by r = Some (tl_runner_id lease) ∧
  rec_lease r = Some lease ∧ task_lease_expired lease step = false.
Proof.
  unfold validate_record_lease.
  destruct (bool_decide (rec_status r = Running)) eqn:H1, (bool_decide (rec_claimed_by r = _)) eqn:H2,
    (bool_decide (rec_lease r = Some lease)) eqn:H3, (task_lease_expired lease step) eqn:H4; simpl;
    rewrite ?bool_decide_eq_true, ?bool_decide_eq_false in *; split; try done; intuition congruence.
Qed.

Lemma validate_record_lease_cases r lease step action :
  validate_record_lease r lease step action = Ok tt ∨
  ∃ e, validate_record_lease r lease step action = Err e.
Proof. destruct (validate_record_lease r lease step action) as [[]|e]; eauto. Qed.

(** A record without a lease in a status other than [Running] and [Created]. *)
Lemma record_wf_idle x r :
  record_id r = x → rec_status r ≠ Created → rec_status r ≠ Running →
  rec_lease r = None → rec_claimed_by r = None → record_wf x r.
Proof. intros. split; [done..|]. auto. Qed.

Lemma record_wf_release x r status :
  record_wf x r → status ≠ Created → status ≠ Running →
  record_wf x (release_record_lease (set_rec_status status r)).
Proof. intros []. intros. by apply record_wf_idle. Qed.

Lemma record_wf_terminal x r status failure :
  record_wf x r → is_terminal_status status = true →
  record_wf x (mark_terminal_record r status failure).
Proof. intros [] ?. by apply record_wf_idle; simpl; try done; intros ->. Qed.

Lemma record_wf_make_ready x r step : record_wf x r → record_wf x (make_ready step r).
Proof. intros []. by apply record_wf_idle. Qed.

(** ** One record replaced, the rest of the invariant closed again *)

Lemma empty_difference (X : gset TaskId) : ∅ ∖ X = ∅.
Proof. set_solver. Qed.

Lemma wf_same p x r : pool_wf p → tp_tasks p !! x = Some r → good p (put_record p x r r).
Proof.
  intros Hwf Hx. split; [|simpl; rewrite insert_id by done; apply tasks_step_refl].
  by pose proof (wf_put_same _ _ _ _ _ _ _ Hwf Hx) as H; rewrite empty_difference in H.
Qed.

(** A transition between statuses that are not terminal. *)
Lemma wf_transition p x r r' :
  pool_wf p → tp_tasks p !! x = Some r → record_wf x r' →
  is_terminal_status (rec_status r) = false → is_terminal_status (rec_status r') = false →
  rec_status r' = Waiting ∨ rec_status r ≠ Waiting →
  pool_wf (with_statistics (record_status_transition (Some (rec_status r)) (Some (rec_status r')))
             (put_record p x r r')).
Proof.
  intros Hwf Hx Hr' Ht Ht' Hw.
  pose proof (wf_put_record ∅ ∅ ∅ ∅ ∅ ∅ p x r r' Hwf Hx Hr' Ht) as H.
  rewrite !empty_difference in H. apply H; [set_solver|set_solver|congruence|done|].
  destruct Hw; [by left|right; right; set_solver].
Qed.

(** A transition to a terminal status or out of [Waiting]: the history and the
    wait links are still to be updated. *)
Lemma wf_transition_gap wgap dgap p x r r' :
  pool_wf_gap wgap dgap ∅ ∅ p → tp_tasks p !! x = Some r → record_wf x r' →
  is_terminal_status (rec_status r) = false →
  pool_wf_gap (wgap ∖ {[x]}) (dgap ∖ {[x]})
    (if is_terminal_status (rec_status r') then {[x]} else ∅) {[x]}
    (with_statistics (record_status_transition (Some (rec_status r)) (Some (rec_status r')))
       (put_record p x r r')).
Proof.
  intros Hwf Hx Hr' Ht. eapply wf_put_record; [done|done|done|done|set_solver|..].
  - destruct (is_terminal_status (rec_status r')); set_solver.
  - intros ->. set_solver.
  - set_solver.
  - right. left. set_solver.
Qed.

(** The history entered at the end of a terminal transition. *)
Lemma good_record_terminal p p1 x r :
  pool_wf_gap ∅ ∅ {[x]} ∅ p1 → tp_tasks p1 !! x = Some r → is_terminal_status (rec_status r) = true →
  tasks_step (tp_tasks p) (tp_tasks p1) →
  ∃ p', record_terminal_task p1 x = Done p' ∧ good p p'.
Proof.
  intros Hwf Hx Ht Hstep.
  destruct (wf_record_terminal ∅ ∅ ∅ ∅ p1 x) as (p' & Hp' & Hwf' & Hsub & _).
  - by rewrite (left_id_L ∅ (∪)).
  - by exists r.
  - set_solver.
  - exists p'. split; [done|]. split; [done|]. by eapply tasks_step_sub.
Qed.

(** ** Lookups through the bookkeeping steps *)

Lemma tasks_remove_waits p q : tp_tasks (remove_waits_for_parent p q) = tp_tasks p.
Proof. by rewrite remove_waits_for_parent_eq. Qed.

Lemma lookup_put p x r r' : tp_tasks (put_record p x r r') !! x = Some r'.
Proof. apply lookup_insert_eq. Qed.

(** ** Transitions under a lease *)

(** The three outcomes of a transition guarded by [validated]. *)
Lemma mutate_validated_cases p lease step action f :
  let x := tl_task_id lease in
  let o := mutate_record_indexed p x (validated lease step action f) in
  (tp_tasks p !! x = None ∧
     o = (p, Err (runtime_failure ERR_TASK_NOT_FOUND "runtime.task_pool" ("task." +:+ x)))) ∨
  (∃ r e, tp_tasks p !! x = Some r ∧ validate_record_lease r lease step action = Err e ∧
     o = (put_record p x r r, Err e)) ∨
  (∃ r, tp_tasks p !! x = Some r ∧ validate_record_lease r lease step action = Ok tt ∧
     o = (put_record p x r (f r), Ok tt)).
Proof.
  intros x o. subst o. rewrite mutate_record_indexed_eq.
  destruct (tp_tasks p !! x) as [r|]; [right|by left]. unfold validated.
  destruct (validate_record_lease_cases r lease step action) as [Hv|[e Hv]]; rewrite Hv; simpl.
  - right. by exists r.
  - left. by exists r, e.
Qed.

(** A rejected transition leaves the pool as it was, up to the refreshed indexes. *)
Lemma safe_rejected {A} p x r (a : A) :
  pool_wf p → tp_tasks p !! x = Some r → safe p (Done (put_record p x r r, a)).
Proof. intros Hwf Hx. do 2 eexists. split; [done|]. by apply wf_same. Qed.

Lemma good_refl p : pool_wf p → good p p.
Proof. split; [done|]. apply tasks_step_refl. Qed.

Lemma safe_refl {A} p (a : A) : pool_wf p → safe p (Done (p, a)).
Proof. intros Hwf. do 2 eexists. split; [done|]. by apply good_refl. Qed.

Ltac validated_cases :=
  match goal with
  | |- context [mutate_record_indexed ?p _ (validated ?lease ?step ?action ?f)] =>
      destruct (mutate_validated_cases p lease step action f)
        as [[_ ->]|[(r & e & Hx & _ & ->)|(r & Hx & Hv & ->)]];
      [by apply safe_refl|by apply safe_rejected with (r := r)
      |apply validate_record_lease_Ok in Hv as (Hrun & _ & _ & _)]
  end.

(** The end of [complete], [fail], [cancel_task], [terminal_by_core] and
    [finalize_requested_cancellation]: from the terminal record to the history. *)
Lemma safe_finish {A} p p1 x r r' (a : A) :
  tp_tasks p !! x = Some r → tp_tasks p1 = <[x := r']> (tp_tasks p) → task_step r r' →
  is_terminal_status (rec_status r') = true →
  pool_wf_gap ∅ ∅ {[x]} ∅ p1 →
  safe p (p' ← record_terminal_task p1 x; Done (p', a)).
Proof.
  intros Hx Htasks Hr Ht' Hp1.
  destruct (good_record_terminal p p1 x r') as (p' & -> & Hgood).
  - done.
  - by rewrite Htasks, lookup_insert_eq.
  - done.
  - rewrite Htasks. by eapply tasks_step_insert.
  - exists p', a. by split.
Qed.

(** A task that is not waiting holds no wait links, so its terminal transition
    leaves none. *)
Lemma wf_finish p x r r' :
  pool_wf p → tp_tasks p !! x = Some r → record_wf x r' →
  is_terminal_status (rec_status r) = false → rec_status r ≠ Waiting →
  is_terminal_status (rec_status r') = true →
  pool_wf_gap ∅ ∅ {[x]} ∅
    (with_statistics (record_status_transition (Some (rec_status r)) (Some (rec_status r')))
       (put_record p x r r')).
Proof.
  intros Hwf Hx Hr' Hrun Hw Ht.
  pose proof (wf_put_record ∅ ∅ ∅ {[x]} ∅ ∅ p x r r' Hwf Hx Hr') as H.
  rewrite !empty_difference in H.
  apply H; [done|set_solver|set_solver|set_solver|done|]. right. right. set_solver.
Qed.

Lemma wf_finish_running p x r r' :
  pool_wf p → tp_tasks p !! x = Some r → record_wf x r' → rec_status r = Running →
  is_terminal_status (rec_status r') = true →
  pool_wf_gap ∅ ∅ {[x]} ∅
    (with_statistics (record_status_transition (Some Running) (Some (rec_status r')))
       (put_record p x r r')).
Proof. intros ??? Hrun ?. rewrite <-Hrun. apply wf_finish; auto; by rewrite Hrun. Qed.

Lemma not_running_terminal p x r' :
  is_terminal_status (rec_status r') = true → tp_tasks p !! x = Some r' →
  ∀ r, tp_tasks p !! x = Some r → rec_status r ≠ Running.
Proof. intros Ht Hx r Hr Hrun. assert (r = r') as -> by congruence. by rewrite Hrun in Ht. Qed.

Lemma complete_safe p lease step output :
  pool_wf p → safe p (complete p lease step output).
Proof.
  intros Hwf. unfold complete.
  validated_cases.
  pose proof (wf_records _ _ _ _ _ Hwf _ _ Hx) as Hr.
  eapply safe_finish; [done|done|by apply task_step_edge; simpl; rewrite ?Hrun|done|].
  apply wf_attempt_finished, wf_remove_pending.
  - apply (wf_finish_running p _ r); [done|done| |done|done].
    apply record_wf_terminal; [by destruct Hr|done].
  - by eapply not_running_terminal; [|apply lookup_put].
Qed.

Lemma fail_safe p lease step failure : pool_wf p → safe p (fail p lease step failure).
Proof.
  intros Hwf. unfold fail.
  validated_cases.
  pose proof (wf_records _ _ _ _ _ Hwf _ _ Hx) as Hr.
  eapply safe_finish; [done|done|by apply task_step_edge; simpl; rewrite ?Hrun|done|].
  apply wf_attempt_finished, wf_remove_pending.
  - apply (wf_finish_running p _ r); [done|done| |done|done]. by apply record_wf_terminal.
  - by eapply not_running_terminal; [|apply lookup_put].
Qed.

Lemma cancel_task_safe p lease step : pool_wf p → safe p (cancel_task p lease step).
Proof.
  intros Hwf. unfold cancel_task.
  validated_cases.
  pose proof (wf_records _ _ _ _ _ Hwf _ _ Hx) as Hr.
  eapply safe_finish;
    [done|by rewrite tasks_remove_waits|by apply task_step_edge; simpl; rewrite ?Hrun|done|].
  rewrite <-(empty_difference {[tl_task_id lease]}).
  apply wf_remove_waits, wf_attempt_finished, wf_remove_pending.
  - rewrite empty_difference. apply (wf_finish_running p _ r); [done|done| |done|done].
    by apply record_wf_terminal.
  - by eapply not_running_terminal; [|apply lookup_put].
Qed.

(** The end of the transitions that put a running task back in the pool. *)
Lemma safe_yield {A} p x r r' lease step (a : A) :
  pool_wf p → tp_tasks p !! x = Some r → record_wf x r' → rec_status r = Running →
  is_terminal_status (rec_status r') = false → rec_status r' ≠ Running → task_step r r' →
  safe p (Done (record_attempt_finished
    (remove_pending
      (with_statistics (record_status_transition (Some Running) (Some (rec_status r')))
         (put_record p x r r')) x) lease step, a)).
Proof.
  intros Hwf Hx Hr' Hrun Ht Hnr Hs. do 2 eexists. split; [done|]. split.
  - apply wf_attempt_finished, wf_remove_pending.
    + rewrite <-Hrun. apply wf_transition; [done|done|done|by rewrite Hrun|done|]. right. congruence.
    + simpl. intros r1. rewrite lookup_insert_eq. by intros [= <-].
  - by eapply tasks_step_insert.
Qed.

Lemma wait_safe p lease step ready_at_step :
  pool_wf p → safe p (Done (wait p lease step ready_at_step)).
Proof.
  intros Hwf. unfold wait.
  validated_cases.
  pose proof (wf_records _ _ _ _ _ Hwf _ _ Hx) as [].
  eapply safe_yield; [done|done| |done|done|done|]; [by apply record_wf_idle|].
  by apply task_step_edge; simpl; rewrite ?Hrun.
Qed.

Lemma defer_leased_safe p lease step : pool_wf p → safe p (Done (defer_leased p lease step)).
Proof.
  intros Hwf. unfold defer_leased.
  validated_cases.
  pose proof (wf_records _ _ _ _ _ Hwf _ _ Hx) as [].
  eapply safe_yield; [done|done| |done|done|done|]; [by apply record_wf_idle|].
  by apply task_step_edge; simpl; rewrite ?Hrun.
Qed.

Lemma block_safe p lease step : pool_wf p → safe p (Done (block p lease step)).
Proof.
  intros Hwf. unfold block.
  validated_cases.
  pose proof (wf_records _ _ _ _ _ Hwf _ _ Hx) as [].
  eapply safe_yield; [done|done| |done|done|done|]; [by apply record_wf_idle|].
  by apply task_step_edge; simpl; rewrite ?Hrun.
Qed.

(** ** Waking *)

(** The end of the transitions out of [Waiting] or [Blocked]: the task is ready
    and its wait links are dropped. *)
Lemma wf_ready_again wgap p x r step :
  pool_wf_gap wgap ∅ ∅ ∅ p → tp_tasks p !! x = Some r →
  is_terminal_status (rec_status r) = false →
  let p' := remove_waits_for_parent
              (with_statistics (record_status_transition (Some (rec_status r)) (Some Ready))
                 (put_record p x r (make_ready step r))) x in
  pool_wf_gap (wgap ∖ {[x]}) ∅ ∅ ∅ p' ∧ tp_tasks p' = <[x := make_ready step r]> (tp_tasks p).
Proof.
  intros Hwf Hx Ht. simpl. split; [|by rewrite tasks_remove_waits].
  pose proof (wf_transition_gap wgap ∅ p x r (make_ready step r) Hwf Hx) as H.
  rewrite empty_difference in H. apply wf_remove_waits with (q := x) in H.
  - by replace ({[x]} ∖ {[x]}) with (∅ : gset TaskId) in H by set_solver.
  - apply record_wf_make_ready. by apply (wf_records _ _ _ _ _ Hwf).
  - done.
Qed.

Lemma wake_safe p task_id step : pool_wf p → safe p (Done (wake p task_id step)).
Proof.
  intros Hwf. unfold wake. rewrite mutate_record_indexed_eq.
  destruct (tp_tasks p !! task_id) as [r|] eqn:Hx; [|by apply safe_refl].
  case_decide as Hst; simpl; [|by apply safe_rejected with (r := r)].
  destruct (wf_ready_again ∅ p task_id r step) as [Hwf' Htasks]; [done|done|by destruct Hst as [-> | ->]|].
  rewrite empty_difference in Hwf'. do 2 eexists. split; [done|]. split; [done|].
  change (release_record_lease _) with (make_ready step r).
  rewrite Htasks. eapply tasks_step_insert; [done|].
  apply task_step_edge; try done. by destruct Hst as [-> | ->].
Qed.

Lemma record_of_cases p x :
  (∃ r, tp_tasks p !! x = Some r ∧ record_of p x = Ok r) ∨
  (tp_tasks p !! x = None ∧ ∃ e, record_of p x = Err e).
Proof. unfold record_of. destruct (tp_tasks p !! x); eauto. Qed.

Lemma wait_on_task_safe p lease step task_await :
  pool_wf p → safe p (Done (wait_on_task p lease step task_await)).
Proof.
  intros Hwf. unfold wait_on_task. case_decide as Hpar; [by apply safe_refl|].
  destruct (record_of_cases p (tl_task_id lease)) as [(r0 & _ & ->)|(_ & e & ->)]; [|by apply safe_refl].
  destruct (validate_record_lease r0 lease step "wait") as [[]|]; [|by apply safe_refl].
  destruct (record_of_cases p (th_task_id (ta_child task_await))) as [(rc & Hc & ->)|(_ & e & ->)];
    [|by apply safe_refl].
  destruct (validate_task_await_child r0 rc task_await) as [[]|]; [|by apply safe_refl].
  validated_cases. pose proof (wf_records _ _ _ _ _ Hwf _ _ Hx) as [].
  do 2 eexists. split; [done|]. split.
  - rewrite <-Hpar in *.
    match goal with |- context [record_attempt_finished ?q lease step] =>
      eapply (wf_add_wait _ _ _ _ (record_attempt_finished q lease step));
        [apply wf_attempt_finished|..|apply lookup_insert_eq|done] end.
    + rewrite <-Hrun. apply (wf_transition p); [done|done|by apply record_wf_idle|by rewrite Hrun|done|by left].
    + apply lookup_insert_is_Some'. eauto.
  - eapply tasks_step_insert; [done|]. by apply task_step_edge; simpl; rewrite ?Hrun.
Qed.

Lemma wake_due_loop_safe step due : ∀ p,
  pool_wf_gap (list_to_set due.*1) ∅ ∅ ∅ p → NoDup due.*1 →
  (∀ x s, (x, s) ∈ due → ∃ r, tp_tasks p !! x = Some r ∧ is_terminal_status (rec_status r) = false) →
  ∃ p', wake_due_loop p step due = Done p' ∧ pool_wf p' ∧
    changed_by (make_ready step) due.*1 (tp_tasks p) (tp_tasks p').
Proof.
  induction due as [|[x s] due IH]; intros p Hwf Hnd Hdue; simpl;
    [exists p; split_and!; [done|done|apply changed_by_nil]|].
  simpl in Hwf, Hnd. apply NoDup_cons in Hnd as [Hnx Hnd].
  destruct (Hdue x s) as (r & Hx & Ht); [set_solver|].
  rewrite mutate_record_indexed_eq, Hx. simpl.
  destruct (wf_ready_again _ p x r step Hwf Hx Ht) as [Hwf' Htasks].
  match goal with |- context [wake_due_loop ?q _ _] => set (p1 := q) in * end.
  destruct (IH p1) as (p' & ? & ? & Hch).
  - replace (list_to_set due.*1) with (({[x]} ∪ list_to_set due.*1) ∖ {[x]} : gset TaskId); [done|].
    assert (x ∉@{gset TaskId} list_to_set due.*1) by (by rewrite elem_of_list_to_set). set_solver.
  - done.
  - intros y sy Hy. rewrite Htasks. assert (y ≠ x).
    { intros ->. apply Hnx. apply list_elem_of_fmap. by exists (x, sy). }
    rewrite lookup_insert_ne by done. apply (Hdue y sy). set_solver.
  - exists p'. split_and!; [done|done|]. by eapply changed_by_cons.
Qed.

Lemma wf_set_indexes wgap wgap' dgap dgap' tgap ngap p ix :
  pool_wf_gap wgap dgap tgap ngap p → index_ok wgap' dgap' (set_tp_indexes ix p) →
  index_canon ix → pool_wf_gap wgap' dgap' tgap ngap (set_tp_indexes ix p).
Proof.
  intros [] Hix Hcan. split; simpl; try done.
  - by destruct wf_history.
  - by destruct wf_evicted.
Qed.

(** Waking takes every due waiting or blocked task back to [Ready]. *)
Lemma wake_due_spec p step :
  pool_wf p →
  ∃ p' due, wake_due_tasks p step = Done (p', due) ∧ pool_wf p' ∧ NoDup due.*1 ∧
    changed_by (make_ready step) due.*1 (tp_tasks p) (tp_tasks p') ∧
    (∀ x s, (x, s) ∈ due → ∃ r, tp_tasks p !! x = Some r ∧ at_wake r s ∧
       ((s ≤ step)%N ∨ step = u64_max)) ∧
    (∀ x r s, tp_tasks p !! x = Some r → at_wake r s → (s ≤ step)%N → (x, s) ∈ due).
Proof.
  intros Hwf. unfold wake_due_tasks.
  destruct (take_due_wake (tp_indexes p) step) as [due ix] eqn:Htake.
  destruct (wf_index _ _ _ _ _ Hwf) as (lgap & Hix & Hgap).
  destruct (take_due_wake_spec _ _ _ _ _ _ Hix (wf_canon _ _ _ _ _ Hwf) Htake)
    as (Hix' & Hcan & Hnd & Hdue & Hcomp).
  assert (∀ x s, (x, s) ∈ due → (s ≤ step)%N ∨ step = u64_max) as Hle.
  { unfold take_due_wake in Htake.
    destruct (take_due_buckets (ix_wake_by_step (tp_indexes p)) step) as [l rest] eqn:Ht.
    injection Htake as <- <-. by eapply take_due_buckets_due. }
  destruct (wake_due_loop_safe step due (set_tp_indexes ix p)) as (p' & -> & Hwf' & Hch).
  - eapply wf_set_indexes; [done| |done]. by exists lgap.
  - done.
  - intros x s Hxs. destruct (Hdue x s Hxs) as (r & ? & [Hst _]). exists r.
    split; [done|]. by destruct Hst as [-> | ->].
  - do 2 eexists. split; [done|]. split_and!; [done|done|done| |].
    + intros x s Hxs. destruct (Hdue x s Hxs) as (r & ? & ?). eauto.
    + intros x r s Hr Hat Hs. eapply Hcomp; [done| |done|done].
      by destruct (wf_records _ _ _ _ _ Hwf x r Hr).
Qed.

Lemma wake_due_tasks_safe p step : pool_wf p → safe p (wake_due_tasks p step).
Proof.
  intros Hwf. destruct (wake_due_spec p step Hwf) as (p' & due & -> & Hwf' & _ & Hch & Hdue & _).
  do 2 eexists. split; [done|]. split; [done|]. eapply changed_by_step; [done|].
  intros x r ([y s] & -> & Hy)%list_elem_of_fmap Hr.
  destruct (Hdue y s Hy) as (r' & Hr' & [Hst _] & _). simpl in *. simplify_eq.
  apply task_step_edge; try done. by destruct Hst as [-> | ->].
Qed.

(** ** Transitions by the core *)

Lemma reject_ready_safe p task_id failure : pool_wf p → safe p (reject_ready p task_id failure).
Proof.
  intros Hwf. unfold reject_ready. rewrite mutate_record_indexed_eq.
  destruct (tp_tasks p !! task_id) as [r|] eqn:Hx; [|by apply safe_refl].
  case_decide as Hst; simpl; [by apply safe_rejected with (r := r)|].
  pose proof (wf_records _ _ _ _ _ Hwf _ _ Hx) as Hr.
  eapply safe_finish; [done|done|by apply task_step_edge; simpl; rewrite ?Hst|done|].
  rewrite <-Hst. apply (wf_finish p task_id r); [done|done| |by rewrite Hst|by rewrite Hst|done].
  destruct Hr as [? ? _ Hidle]. destruct Hidle; [congruence|]. by apply record_wf_idle.
Qed.

(** The statuses the core may force a task into. *)
Definition core_status (status : TaskStatus) : bool :=
  match status with Cancelled | Expired | DeadLetter => true | _ => false end.

Lemma core_status_edge s status :
  is_terminal_status s = false → s ≠ Created → core_status status = true →
  status_edge s status = true ∧ is_terminal_status status = true ∧ status ≠ Running.
Proof. by destruct s, status. Qed.

Lemma terminal_by_core_safe p task_id status failure action step :
  pool_wf p → core_status status = true →
  safe p (terminal_by_core p task_id status failure action step).
Proof.
  intros Hwf Hcore. unfold terminal_by_core. rewrite mutate_record_indexed_eq.
  destruct (tp_tasks p !! task_id) as [r|] eqn:Hx; [|by apply safe_refl].
  destruct (is_terminal_status (rec_status r)) eqn:Ht; simpl; [by apply safe_rejected with (r := r)|].
  pose proof (wf_records _ _ _ _ _ Hwf _ _ Hx) as Hr.
  destruct (core_status_edge (rec_status r) status) as (Hedge & Hst & Hnrun);
    [done|by destruct Hr|done|].
  eapply (safe_finish p _ _ r (mark_terminal_record r status failure));
    [done|rewrite tasks_remove_waits; by destruct (rec_lease r)| |done|].
  { by apply task_step_edge. }
  replace (∅ : gset TaskId) with ({[task_id]} ∖ {[task_id]} : gset TaskId) at 3 by set_solver.
  apply wf_remove_waits.
  pose proof (wf_transition_gap ∅ ∅ p task_id r (mark_terminal_record r status failure) Hwf Hx
    (record_wf_terminal _ _ _ _ Hr Hst) Ht) as H.
  rewrite !empty_difference in H. simpl in H. rewrite Hst in H.
  assert (∀ r1, <[task_id := mark_terminal_record r status failure]> (tp_tasks p) !! task_id = Some r1 →
    rec_status r1 ≠ Running) as Hnr.
  { intros r1. rewrite lookup_insert_eq. by intros [= <-]. }
  destruct (rec_lease r); [apply wf_attempt_finished|]; by apply wf_remove_pending.
Qed.

Lemma request_cancel_safe p task_id step failure :
  pool_wf p → safe p (request_cancel_by_core p task_id step failure).
Proof.
  intros Hwf. unfold request_cancel_by_core.
  destruct (tp_pending_cancellations p !! task_id) as [c|] eqn:Hc.
  - assert (is_Some (tp_tasks p !! task_id)).
    { apply elem_of_dom, (wf_pending _ _ _ _ _ Hwf), elem_of_dom. eauto. }
    destruct failure; [|by apply safe_refl].
    do 2 eexists. split; [done|]. split; [|apply tasks_step_refl]. by apply wf_insert_pending.
  - destruct (record_of_cases p task_id) as [(r & Hr & ->)|(_ & e & ->)]; [|by apply safe_refl].
    case_decide.
    + do 2 eexists. split; [done|]. split; [|apply tasks_step_refl]. apply wf_insert_pending; eauto.
    + destruct (terminal_by_core_safe p task_id Cancelled failure "cancel" step) as (p' & res & -> & ?);
        [done|done|]. destruct res; simpl; do 2 eexists; by split.
Qed.

Lemma finalize_requested_cancellation_safe p lease step :
  pool_wf p → safe p (finalize_requested_cancellation p lease step).
Proof.
  intros Hwf. unfold finalize_requested_cancellation.
  destruct (tp_pending_cancellations p !! tl_task_id lease) as [c|] eqn:Hc; [|by apply safe_refl].
  rewrite mutate_record_indexed_eq.
  destruct (tp_tasks p !! tl_task_id lease) as [r|] eqn:Hx; [|by apply safe_refl].
  destruct (bool_decide (rec_status r = Running)) eqn:Hrun; simpl;
    [|by apply safe_rejected with (r := r)].
  destruct (_ && _); simpl; [|by apply safe_rejected with (r := r)].
  apply bool_decide_eq_true in Hrun. pose proof (wf_records _ _ _ _ _ Hwf _ _ Hx) as Hr.
  eapply safe_finish;
    [done|by rewrite tasks_remove_waits|by apply task_step_edge; simpl; rewrite ?Hrun|done|].
  rewrite <-(empty_difference {[tl_task_id lease]}).
  apply wf_remove_waits, wf_attempt_finished. rewrite empty_difference.
  apply (wf_remove_pending _ _ _ _ (with_statistics
    (record_status_transition (Some Running) (Some Cancelled)) (put_record p (tl_task_id lease) r
      (mark_terminal_record r Cancelled (pc_failure c))))).
  - apply (wf_finish_running p _ r); [done|done| |done|done]. by apply record_wf_terminal.
  - by eapply not_running_terminal; [|apply lookup_put].
Qed.

(** ** Returning running tasks *)

(** A task of the running index is stored, under its id, and runs. *)
Lemma running_index wgap dgap tgap ngap p runner_id x :
  pool_wf_gap wgap dgap tgap ngap p →
  x ∈ bucket (ix_running_by_runner (tp_indexes p)) runner_id →
  ∃ r, tp_tasks p !! x = Some r ∧ rec_status r = Running ∧ rec_claimed_by r = Some runner_id.
Proof.
  intros Hwf Hx. destruct (wf_index _ _ _ _ _ Hwf) as (lgap & [] & _).
  apply spec_running in Hx as (_ & r & ? & [? ?] & _). by exists r.
Qed.

Lemma find_invocation_Some p runner_id invocation_id x :
  pool_wf p → find_invocation p runner_id invocation_id = Some x →
  ∃ r lease, tp_tasks p !! x = Some r ∧ rec_status r = Running ∧
    rec_claimed_by r = Some runner_id ∧ rec_lease r = Some lease ∧ tl_lease_id lease = invocation_id.
Proof.
  intros Hwf Hf. unfold find_invocation in Hf.
  apply head_Some_elem_of in Hf. apply list_elem_of_omap in Hf as (y & Hy & Hyx).
  apply elem_of_btree_iter in Hy. destruct (running_index _ _ _ _ _ _ _ Hwf Hy) as (r & Hr & Hrun & Hcl).
  rewrite Hr in Hyx. simpl in Hyx. destruct (rec_lease r) as [lease|] eqn:Hl; [|done].
  simpl in Hyx. case_decide; [|done]. injection Hyx as <-.
  rewrite (wf_rec_id _ _ (wf_records _ _ _ _ _ Hwf _ _ Hr)). by exists r, lease.
Qed.

Lemma cancel_running_invocation_safe p runner_id invocation_id step :
  pool_wf p → safe p (cancel_running_invocation p runner_id invocation_id step).
Proof.
  intros Hwf. unfold cancel_running_invocation.
  destruct (find_invocation p runner_id invocation_id) as [x|] eqn:Hf; [|by apply safe_refl].
  apply find_invocation_Some in Hf as (r & lease & Hx & Hrun & _ & Hl & _); [|done].
  rewrite mutate_record_indexed_eq, Hx. simpl. rewrite Hl.
  do 2 eexists. split; [done|].
  split; [|eapply tasks_step_insert; [done|]; by apply task_step_edge; simpl; rewrite ?Hrun].
  apply wf_remove_pending; [|simpl; intros r1; rewrite lookup_insert_eq; by intros [= <-]].
  apply (wf_attempt_finished _ _ _ _
    (with_statistics (record_status_transition (Some Running) (Some Ready))
       (put_record p x r (make_ready step r)))).
  rewrite <-Hrun. apply (wf_transition p x r (make_ready step r)); try done; rewrite ?Hrun; auto.
  apply record_wf_make_ready. by apply (wf_records _ _ _ _ _ Hwf).
Qed.

(** The drained tasks that are not about to be cancelled. *)
Definition reclaimable p (due : list TaskId) : list TaskId :=
  filter (λ x, tp_pending_cancellations p !! x = None) due.

Lemma reclaimable_skip p x due :
  is_Some (tp_pending_cancellations p !! x) → reclaimable p (x :: due) = reclaimable p due.
Proof. intros [c Hc]. unfold reclaimable. by rewrite filter_cons_False by congruence. Qed.

Lemma reclaimable_take p x due :
  tp_pending_cancellations p !! x = None → reclaimable p (x :: due) = x :: reclaimable p due.
Proof. intros Hc. unfold reclaimable. by rewrite filter_cons_True. Qed.

Lemma omap_record_lease_insert (tasks : gmap TaskId TaskRecord) x v (ids : list TaskId) :
  x ∉ ids →
  omap (λ y, r ← <[x := v]> tasks !! y; rec_lease r) ids
  = omap (λ y, r ← tasks !! y; rec_lease r) ids.
Proof.
  induction ids as [|y ids IH]; [done|]. intros [Hne Hx]%not_elem_of_cons. csimpl.
  rewrite lookup_insert_ne by done. by rewrite IH.
Qed.

Lemma reclaim_loop_safe step due : ∀ p acc,
  pool_wf_gap ∅ (list_to_set due) ∅ ∅ p → NoDup due →
  (∀ x, x ∈ due → ∃ r lease, tp_tasks p !! x = Some r ∧ rec_status r = Running ∧
     rec_lease r = Some lease ∧ task_lease_expired lease step = true) →
  ∃ p' out, reclaim_loop p step due acc = Done (p', out) ∧ pool_wf p' ∧
    changed_by (make_ready step) (reclaimable p due) (tp_tasks p) (tp_tasks p') ∧
    tp_pending_cancellations p' = tp_pending_cancellations p ∧
    out = acc ++ omap (λ x, r ← tp_tasks p !! x; rec_lease r) (reclaimable p due).
Proof.
  induction due as [|x due IH]; intros p acc Hwf Hnd Hdue; simpl;
    [exists p, acc; split_and!; [done|done|apply changed_by_nil|done|by rewrite (right_id_L [] (++))]|].
  apply NoDup_cons in Hnd as [Hnx Hnd]. simpl in Hwf.
  destruct (Hdue x) as (r & lease & Hx & Hrun & Hl & He); [set_solver|].
  case_bool_decide as Hpend.
  - destruct (IH p acc) as (p' & out & -> & ? & Hch & ? & ?);
      [|done|intros y Hy; apply Hdue; set_solver
       |exists p', out; rewrite reclaimable_skip by done; by split_and!].
    destruct Hwf. split; try done. destruct wf_index as (lgap & Hix & Hgap). exists lgap.
    split; [done|]. intros y ry Hy Hry Hrun'. destruct (decide (y = x)) as [->|]; [auto|].
    destruct (Hgap y ry); set_solver.
  - rewrite Hx. simpl. rewrite Hl, He. rewrite mutate_record_indexed_eq, Hx. simpl.
    match goal with |- context [reclaim_loop ?q _ _ ?l] => destruct (IH q l) as (p' & out & -> & ? & Hch & Hpd & Hout) end.
    + rewrite <-Hrun.
      pose proof (wf_put_record _ _ _ ∅ _ ∅ _ x r (make_ready step r) Hwf Hx) as H.
      rewrite empty_difference in H.
      replace (({[x]} ∪ list_to_set due) ∖ {[x]}) with (list_to_set due : gset TaskId) in H.
      * apply H; try done; [|by rewrite Hrun|right; right; rewrite Hrun; set_solver].
        apply record_wf_make_ready. by apply (wf_records _ _ _ _ _ Hwf).
      * assert (x ∉@{gset TaskId} list_to_set due) by (by rewrite elem_of_list_to_set). set_solver.
    + done.
    + intros y Hy. simpl. rewrite lookup_insert_ne by (intros <-; done). apply Hdue. set_solver.
    + exists p', out. simpl in *. rewrite reclaimable_take by (by apply eq_None_not_Some).
      assert (x ∉ reclaimable p due) by (intros [_ ?]%list_elem_of_filter; done).
      split_and!; [done|done|by eapply changed_by_cons|done|].
      rewrite Hout, <-(assoc_L (++)), omap_record_lease_insert by done. csimpl. rewrite Hx. simpl. by rewrite Hl.
Qed.

Lemma tasks_attempts_finished p leases step :
  tp_tasks (foldl (λ p lease, record_attempt_finished p lease step) p leases) = tp_tasks p.
Proof. revert p. induction leases as [|l leases IH]; intros p; simpl; [done|]. by rewrite IH. Qed.

(** The lease of a task drained from the expiry index is expired. *)
Lemma drained_lease_expired x r s step :
  record_wf x r → at_lease r s → (s ≤ step)%N ∨ step = u64_max →
  ∃ lease, rec_lease r = Some lease ∧ task_lease_expired lease step = true.
Proof.
  intros [_ _ Hrun _] [Hst Hexp] Hle. destruct (Hrun Hst) as (lease & Hl & _ & _ & _ & _ & _ & Hw).
  exists lease. split; [done|]. unfold lease_expiry in Hexp. rewrite Hl in Hexp. simpl in Hexp.
  unfold task_lease_expired. rewrite Hexp. apply bool_decide_eq_true.
  specialize (Hw s Hexp). destruct Hle; lia.
Qed.

(** A reclaim takes back every expired lease, the tasks about to be cancelled
    excepted. *)
Lemma reclaim_expired_spec p step :
  pool_wf p →
  ∃ p' ids, reclaim_expired_task_leases p step
      = Done (p', omap (λ x, r ← tp_tasks p !! x; rec_lease r) ids) ∧
    pool_wf p' ∧ NoDup ids ∧ changed_by (make_ready step) ids (tp_tasks p) (tp_tasks p') ∧
    tp_pending_cancellations p' = tp_pending_cancellations p ∧
    (∀ x, x ∈ ids ↔ tp_pending_cancellations p !! x = None ∧
       ∃ r lease, tp_tasks p !! x = Some r ∧ rec_status r = Running ∧ rec_lease r = Some lease ∧
         task_lease_expired lease step = true).
Proof.
  intros Hwf. unfold reclaim_expired_task_leases.
  destruct (take_expired_leases (tp_indexes p) step) as [due ix] eqn:Htake.
  destruct (wf_index _ _ _ _ _ Hwf) as (lgap & Hix & Hgap).
  destruct (take_expired_leases_spec _ _ _ _ _ _ Hix (wf_canon _ _ _ _ _ Hwf) Htake)
    as (Hix' & Hcan & Hnd & Hdue & Hcomp).
  assert (∀ x, x ∈ due → ∃ r lease, tp_tasks p !! x = Some r ∧ rec_status r = Running ∧
    rec_lease r = Some lease ∧ task_lease_expired lease step = true) as Hdue'.
  { intros x Hx. destruct (Hdue x Hx) as (_ & r & s & Hr & Hat & Hle).
    destruct (drained_lease_expired x r s step) as (lease & ? & ?); [|done|done|].
    { by apply (wf_records _ _ _ _ _ Hwf). }
    exists r, lease. by destruct Hat. }
  destruct (reclaim_loop_safe step due (set_tp_indexes ix p) [])
    as (p' & out & -> & Hwf' & Hch & Hpend & ->); [|done|done|].
  - eapply wf_set_indexes; [done| |done]. exists (lgap ∪ list_to_set due). split; [done|].
    simpl. intros x r Hx Hr Hrun.
    destruct (decide (x ∈ due)); [right; by apply elem_of_list_to_set|].
    destruct (Hgap x r); [set_solver|done..|auto|set_solver].
  - simpl in *. do 2 eexists. split; [done|].
    split_and!; [by apply wf_attempts_finished|by apply NoDup_filter| | |].
    + by rewrite tasks_attempts_finished.
    + rewrite <-Hpend. generalize (omap (λ x, r ← tp_tasks p !! x; rec_lease r)
        (reclaimable (set_tp_indexes ix p) due)) as leases. clear.
      intros leases. revert p'. induction leases as [|l leases IH]; intros p'; [done|]. simpl. by rewrite IH.
    + intros x. unfold reclaimable. rewrite list_elem_of_filter. simpl. split.
      * intros [? Hx]. auto.
      * intros [Hnone (r & lease & Hr & Hrun & Hl & He)]. split; [done|].
        unfold task_lease_expired in He. destruct (tl_expires_at_step lease) as [s|] eqn:Hs; [|done].
        apply bool_decide_eq_true in He. eapply (Hcomp x r s); [done|..|done].
        -- by destruct (wf_records _ _ _ _ _ Hwf x r Hr).
        -- intros Hg. destruct (Hgap x r Hg Hr Hrun) as [[c Hc]|]; [congruence|set_solver].
        -- split; [done|]. unfold lease_expiry. by rewrite Hl.
Qed.

Lemma reclaim_expired_task_leases_safe p step :
  pool_wf p → safe p (reclaim_expired_task_leases p step).
Proof.
  intros Hwf. destruct (reclaim_expired_spec p step Hwf) as (p' & ids & -> & Hwf' & _ & Hch & _ & Hids).
  do 2 eexists. split; [done|]. split; [done|]. eapply changed_by_step; [done|].
  intros x r [_ (r' & lease & Hr' & Hrun & _)]%Hids Hr. simplify_eq.
  by apply task_step_edge; simpl; rewrite ?Hrun.
Qed.

(** ** Wait links and retention *)

Lemma good_compacted p p' : pool_wf p' → compacted p p' → good p p'.
Proof. intros Hwf [_ Hsub _ _ _]. split; [done|]. by eapply tasks_step_sub; [apply tasks_step_refl|]. Qed.

Lemma take_waits_for_child_safe p child : pool_wf p → safe p (take_waits_for_child p child).
Proof.
  intros Hwf. unfold take_waits_for_child.
  pose proof (wf_take_waits _ _ _ _ _ child Hwf) as Hwf'.
  assert (tp_tasks (awaits_take_waits_for_child p child).2 = tp_tasks p) as Htasks
    by (by rewrite awaits_take_waits_for_child_eq).
  destruct (awaits_take_waits_for_child p child) as [waits p1]. simpl in *.
  destruct (wf_compact _ _ _ _ p1 Hwf') as (p' & -> & Hwf1 & Hc & _).
  do 2 eexists. split; [done|]. split; [done|]. rewrite <-Htasks. by apply good_compacted.
Qed.

(** The ids of the terminal records, in submission order. *)
Definition terminal_ids (tasks : gmap TaskId TaskRecord) : list TaskId :=
  (sort_by_key fst ((λ r, (record_sequence r, record_id r)) <$>
     filter (λ r, is_terminal_status (rec_status r)) (map_to_list tasks).*2)).*2.

Lemma terminal_ids_spec tasks :
  map_Forall record_wf tasks →
  NoDup (terminal_ids tasks) ∧ (∀ x, x ∈ terminal_ids tasks ↔ is_terminal tasks x).
Proof.
  intros Hwf. unfold terminal_ids.
  assert ((sort_by_key fst ((λ r, (record_sequence r, record_id r)) <$>
      filter (λ r, is_terminal_status (rec_status r)) (map_to_list tasks).*2)).*2
    ≡ₚ record_id <$> filter (λ r, is_terminal_status (rec_status r)) (map_to_list tasks).*2) as Hperm.
  { rewrite sort_by_key_Permutation, <-list_fmap_compose. done. }
  assert ((map_to_list tasks).*1 = record_id <$> (map_to_list tasks).*2) as Hkeys.
  { rewrite <-list_fmap_compose. apply list_fmap_ext. intros i [x r] Hi. simpl.
    apply list_elem_of_lookup_2, elem_of_map_to_list in Hi. by destruct (Hwf x r Hi). }
  split.
  - rewrite Hperm. eapply sublist_NoDup; [|apply (fmap_sublist record_id), sublist_filter].
    rewrite <-Hkeys. apply NoDup_fst_map_to_list.
  - intros x. rewrite Hperm, list_elem_of_fmap. unfold is_terminal.
    setoid_rewrite list_elem_of_filter. setoid_rewrite list_elem_of_fmap. split.
    + intros (r & -> & Ht & [y r'] & -> & Hy). apply elem_of_map_to_list in Hy. simpl in *.
      exists r'. split; [|by destruct (is_terminal_status _)]. by destruct (Hwf y r' Hy) as [<- _ _ _].
    + intros (r & Hr & Ht). exists r. destruct (Hwf x r Hr) as [<- _ _ _]. split; [done|].
      split; [by rewrite Ht|]. exists (record_id r, r). split; [done|]. by apply elem_of_map_to_list.
Qed.

(** Configuring a bound is a compaction of the pool [configured]: the history is
    the terminal records in submission order, the eviction window is trimmed. *)
Definition configured p ret : TaskPool :=
  trim_evicted_task_ids
    (set_tp_terminal_order (terminal_ids (tp_tasks p)) (set_tp_history_retention (Some ret) p))
    (max_evicted_task_ids ret).

Lemma configure_Some p ret :
  configure_history_retention p (Some ret) = compact_terminal_history (configured p ret).
Proof. done. Qed.

Lemma configured_fields p ret :
  tp_tasks (configured p ret) = tp_tasks p ∧
  tp_terminal_order (configured p ret) = terminal_ids (tp_tasks p) ∧
  tp_history_retention (configured p ret) = Some ret ∧
  tp_waits_by_child (configured p ret) = tp_waits_by_child p ∧
  tp_waits_by_parent (configured p ret) = tp_waits_by_parent p.
Proof. unfold configured, trim_evicted_task_ids. by destruct (trim_loop _ _ _ _). Qed.

Lemma wf_configured p ret : pool_wf p → pool_wf (configured p ret).
Proof.
  intros Hwf. destruct (terminal_ids_spec (tp_tasks p) (wf_records _ _ _ _ _ Hwf)) as [Hnd Hin].
  destruct (wf_evicted _ _ _ _ _ Hwf) as [Hend Heset Hefresh _ _].
  pose proof (evicted_trim (set_tp_terminal_order (terminal_ids (tp_tasks p))
    (set_tp_history_retention (Some ret) p)) ret Hend Heset Hefresh eq_refl) as Hev.
  revert Hev. unfold configured, trim_evicted_task_ids. destruct (trim_loop _ _ _ _) as [order ids].
  intros Hev. destruct Hwf. split; simpl; try done.
  split; simpl; [done| |..|done].
  - intros x ?%Hin. set_solver.
  - intros _ x ?%Hin. auto.
Qed.

Lemma configure_history_retention_safe p retention :
  pool_wf p → ∃ p', configure_history_retention p retention = Done p' ∧ good p p'.
Proof.
  intros Hwf. destruct retention as [ret|].
  - rewrite configure_Some.
    destruct (wf_compact _ _ _ _ _ (wf_configured p ret Hwf)) as (p' & -> & Hwf' & Hc & _).
    exists p'. split; [done|]. split; [done|]. destruct (configured_fields p ret) as [<- _].
    by destruct (good_compacted _ _ Hwf' Hc).
  - unfold configure_history_retention.
    eexists. split; [done|]. split; [|apply tasks_step_refl]. destruct Hwf. split; simpl; try done.
    + split; simpl; [constructor|set_solver|by intros []|done].
    + split; simpl; [constructor|done|set_solver|done|done].
Qed.

(** ** Admission *)

Lemma contains_task_id_false p x :
  contains_task_id p x = false ↔ tp_tasks p !! x = None ∧ x ∉ tp_evicted_task_ids p.
Proof.
  unfold contains_task_id. rewrite orb_false_iff, !bool_decide_eq_false, eq_None_not_Some. done.
Qed.

(** The pool after an accepted admission. *)
Definition admit_record p (x : TaskId) r bytes : TaskPool :=
  with_statistics (record_status_transition None (Some Ready))
    (with_statistics (λ s, set_st_submitted_total (sat_add (st_submitted_total s) 1) s)
      (set_tp_indexes (update_record (tp_indexes p) r true)
        (set_tp_payload_wire_bytes (<[x := bytes]> (tp_payload_wire_bytes p))
          (set_tp_tasks (<[x := r]> (tp_tasks p)) p)))).

Lemma wf_admit p x r bytes :
  pool_wf p → (N.of_nat (size (tp_tasks p)) < u64_max)%N → tp_tasks p !! x = None →
  x ∉ tp_evicted_task_ids p → record_wf x r → rec_status r = Ready →
  pool_wf (admit_record p x r bytes).
Proof.
  intros [] Hsz Hx Hev Hr Hst.
  assert (∀ y, is_terminal (<[x := r]> (tp_tasks p)) y ↔ is_terminal (tp_tasks p) y) as Hterm.
  { intros y. unfold is_terminal. destruct (decide (x = y)) as [->|].
    - rewrite lookup_insert_eq, Hx. split; [|naive_solver]. intros (? & [= <-] & Ht).
      by rewrite Hst in Ht.
    - by rewrite lookup_insert_ne. }
  split; simpl.
  - by apply map_Forall_insert_2.
  - unfold size_ok. rewrite map_size_insert_None by done. lia.
  - destruct wf_index as (lgap & Hix & Hgap). exists (lgap ∖ {[x]}). split; simpl.
    + apply index_spec_insert; [|done|set_solver|set_solver|by destruct Hr].
      by apply index_spec_gap_absent.
    + intros y ry Hy. rewrite lookup_insert_ne by set_solver. intros ? ?. eapply Hgap; set_solver.
  - by apply index_canon_update.
  - eapply stats_ok_same; [|by apply stats_ok_enqueue].
    intros status ?. rewrite Hst, !status_counter_transition by done. by destruct status.
  - by rewrite !dom_insert_L, wf_bytes.
  - rewrite dom_insert. set_solver.
  - done.
  - intros c Hc. rewrite lookup_insert_is_Some'. auto.
  - intros q Hq. destruct (wf_wait_parent q Hq) as (rq & Hrq & ?). exists rq.
    rewrite lookup_insert_ne by congruence. done.
  - destruct wf_history. split; simpl; try done; intros; rewrite ?Hterm in *; auto.
  - destruct wf_evicted as [? ? Hfresh ? ?]. split; simpl; try done.
    intros y Hy. rewrite lookup_insert_ne by (intros <-; done). auto.
  - done.
Qed.

Lemma wf_next_sequence p v : pool_wf p → pool_wf (set_tp_next_sequence v p).
Proof. intros []. split; simpl; try done; [by destruct wf_history|by destruct wf_evicted]. Qed.

(** Admission adds at most the submitted task. *)
Lemma enqueue_at_safe p task step :
  pool_wf p → (N.of_nat (size (tp_tasks p)) < u64_max)%N →
  pool_wf (enqueue_at p task step).1 ∧
  dom (tp_tasks (enqueue_at p task step).1) ⊆ {[t_task_id task]} ∪ dom (tp_tasks p).
Proof.
  intros Hwf Hsz. unfold enqueue_at.
  destruct (contains_task_id p (t_task_id task)) eqn:Hc; [set_solver|].
  apply contains_task_id_false in Hc as [Hx Hev].
  destruct (try_wire_len (t_payload task)) as [bytes|]; [|set_solver].
  unfold insert_record_indexes, update_record_indexes. simpl. rewrite lookup_insert_eq. simpl.
  split; [|rewrite dom_insert; set_solver].
  apply (wf_admit (set_tp_next_sequence _ p)); try done; [by apply wf_next_sequence|].
  apply record_wf_idle; try done. simpl. by case_decide.
Qed.

End safety.

#[export] Hint Resolve complete_safe fail_safe wait_safe wait_on_task_safe defer_leased_safe block_safe
  cancel_task_safe wake_safe wake_due_tasks_safe reject_ready_safe cancel_running_invocation_safe
  terminal_by_core_safe request_cancel_safe finalize_requested_cancellation_safe
  reclaim_expired_task_leases_safe take_waits_for_child_safe : mutsuki.
