(* ===== verification/TaskPoolSweep.v ===== *)
(** * TaskPoolSweep: the operations that walk over every record

    [rebuild_indexes] computes the index from the records, and
    [rebind_ready_generation] and [abort_all] that rely on it keep the invariant
    of the pool. *)
From S2P Require Import Prelude Contracts TaskIndexes TaskIndexSpec TaskPool TaskPoolInv.
From S2P Require Import TaskHistory TaskStates TaskPoolSafety.

Section sweep.
Context {serde : Serde}.
Implicit Types (p : TaskPool) (r : TaskRecord) (tasks : gmap TaskId TaskRecord).

(** ** Rebuilding the indexes *)

Lemma rebuild_fold_spec (l : list (TaskId * TaskRecord)) : ∀ tasks ix,
  index_spec ∅ ∅ tasks ix → index_canon ix → NoDup l.*1 →
  (∀ x r, (x, r) ∈ l → tasks !! x = None ∧ record_id r = x) →
  let ix' := foldl (λ ix kv, update_record ix kv.2 true) ix l in
  index_spec ∅ ∅ (list_to_map l ∪ tasks) ix' ∧ index_canon ix'.
Proof.
  induction l as [|[x r] l IH]; intros tasks ix Hix Hcan Hnd Hl; simpl.
  - by rewrite (left_id_L ∅ (∪)).
  - simpl in Hnd. apply NoDup_cons in Hnd as [Hx Hnd].
    destruct (Hl x r) as [Hnone Hid]; [set_solver|].
    destruct (IH (<[x := r]> tasks) (update_record ix r true)) as [Hix' Hcan'].
    + by apply index_spec_insert.
    + by apply index_canon_update.
    + done.
    + intros y ry Hy. assert (x ≠ y).
      { intros ->. apply Hx, list_elem_of_fmap. by exists (y, ry). }
      rewrite lookup_insert_ne by done. apply Hl. set_solver.
    + split; [|done]. rewrite <-insert_union_l, insert_union_r; [done|].
      by apply not_elem_of_list_to_map_1.
Qed.

Lemma rebuild_indexes_spec tasks :
  map_Forall record_wf tasks →
  index_spec ∅ ∅ tasks (rebuild_indexes_of tasks) ∧ index_canon (rebuild_indexes_of tasks).
Proof.
  intros Hwf. destruct (rebuild_fold_spec (map_to_list tasks) ∅ TaskIndexes_default) as [Hix Hcan].
  - apply index_spec_empty.
  - apply index_canon_default.
  - apply NoDup_fst_map_to_list.
  - intros x r Hx%elem_of_map_to_list. split; [apply lookup_empty|]. by destruct (Hwf x r Hx).
  - split; [|done]. by rewrite list_to_map_to_list, (right_id_L ∅ (∪)) in Hix.
Qed.

Lemma rebuild_index_ok dgap p :
  map_Forall record_wf (tp_tasks p) → index_ok ∅ dgap (rebuild_indexes p).
Proof. intros Hwf. exists ∅. split; [by apply rebuild_indexes_spec|set_solver]. Qed.

(** ** Rebinding ready tasks to a new registry generation *)

Lemma status_rebind g g' r : rec_status (rebind_record g g' r) = rec_status r.
Proof. unfold rebind_record. by case_decide. Qed.

Lemma record_wf_rebind g g' x r : record_wf x r → record_wf x (rebind_record g g' r).
Proof.
  unfold rebind_record. case_decide as Hst; [|done]. intros [? ? _ Hidle].
  destruct Hidle; [destruct Hst; congruence|]. by apply record_wf_idle; simpl; destruct Hst; try congruence.
Qed.

Lemma status_count_fmap (f : TaskRecord → TaskRecord) status tasks :
  (∀ r, rec_status (f r) = rec_status r) → status_count status (f <$> tasks) = status_count status tasks.
Proof.
  intros Hf. unfold status_count. rewrite map_filter_fmap, map_size_fmap. f_equal.
  apply map_filter_ext. intros x r _. simpl. by rewrite Hf.
Qed.

Lemma is_terminal_fmap (f : TaskRecord → TaskRecord) tasks x :
  (∀ r, rec_status (f r) = rec_status r) → is_terminal (f <$> tasks) x ↔ is_terminal tasks x.
Proof.
  intros Hf. unfold is_terminal. rewrite lookup_fmap. split.
  - intros (r & Hr & Ht). apply fmap_Some in Hr as (r' & ? & ->). rewrite Hf in Ht. eauto.
  - intros (r & -> & Ht). exists (f r). split; [done|]. by rewrite Hf.
Qed.

Lemma task_step_rebind g g' r : task_step r (rebind_record g g' r).
Proof.
  unfold rebind_record. case_decide as Hc; [|apply task_step_refl]. destruct Hc as [Hst _].
  split; simpl; [done|by left| |done|done|].
  - by rewrite decide_False by tauto.
  - rewrite Hst. intros H. by destruct (H eq_refl).
Qed.

Lemma rebind_ready_generation_safe p g g' : pool_wf p → safe p (Done (rebind_ready_generation p g g')).
Proof.
  intros Hwf. unfold rebind_ready_generation. do 2 eexists. split; [done|].
  pose proof (status_rebind g g') as Hst.
  split; [|simpl; apply tasks_step_fmap; intros r; apply task_step_rebind].
  assert (map_Forall record_wf (rebind_record g g' <$> tp_tasks p)) as Hrecs.
  { intros x r. rewrite lookup_fmap_Some. intros (r' & <- & Hr'). apply record_wf_rebind.
    by apply (wf_records _ _ _ _ _ Hwf). }
  destruct Hwf. split; simpl; try done.
  - unfold size_ok. by rewrite map_size_fmap.
  - by apply (rebuild_index_ok ∅ (set_tp_tasks (rebind_record g g' <$> tp_tasks p) p)).
  - by apply rebuild_indexes_spec.
  - intros status ?. rewrite status_count_fmap by done. auto.
  - by rewrite dom_fmap_L.
  - by rewrite dom_fmap_L.
  - intros c Hc. rewrite lookup_fmap, fmap_is_Some. auto.
  - intros q (r & Hr & Hw)%wf_wait_parent. exists (rebind_record g g' r).
    rewrite lookup_fmap, Hr, Hst. done.
  - destruct wf_history. split; simpl; try done; intros; rewrite ?is_terminal_fmap in *; auto.
  - destruct wf_evicted as [? ? Hfresh ? ?]. split; simpl; try done.
    intros x Hx. rewrite lookup_fmap, Hfresh; done.
Qed.

(** ** Aborting *)

(** The tasks [abort_all] cancels on the spot, and what becomes of a record. *)
Definition abortable r : Prop := is_terminal_status (rec_status r) = false ∧ rec_status r ≠ Running.
#[global] Instance abortable_dec r : Decision (abortable r).
Proof. unfold abortable. apply _. Defined.

Definition abort_one (failure : RuntimeError) r : TaskRecord :=
  if decide (abortable r) then mark_terminal_record r Cancelled (Some failure) else r.

(** The ids of the records of [l] that satisfy [P]. *)
Definition ids_where (P : TaskRecord → Prop) `{!∀ r, Decision (P r)} (l : list TaskRecord)
  : list TaskId := record_id <$> filter P l.

Lemma ids_where_cons P `{!∀ r, Decision (P r)} r l : ids_where P (r :: l) = ids_where P [r] ++ ids_where P l.
Proof. unfold ids_where. rewrite !filter_cons. by case_decide. Qed.

Lemma ids_where_yes P `{!∀ r, Decision (P r)} r : P r → ids_where P [r] = [record_id r].
Proof. intros HP. unfold ids_where. by rewrite filter_cons_True. Qed.

Lemma ids_where_no P `{!∀ r, Decision (P r)} r : ¬ P r → ids_where P [r] = [].
Proof. intros HP. unfold ids_where. by rewrite filter_cons_False. Qed.

Record abort_post (a a' : AbortState) (l : list TaskRecord) : Prop := {
  abort_stats : stats_ok (ab_tasks a') (ab_statistics a');
  abort_size : size (ab_tasks a') = size (ab_tasks a);
  abort_pending : ab_pending a' = ab_pending a ++ ids_where (λ r, rec_status r = Running) l;
  abort_finalized : ab_finalized a' = ab_finalized a ++ ids_where abortable l;
  abort_aborted : ab_aborted a' =
    ab_aborted a ++ ids_where (λ r, is_terminal_status (rec_status r) = false) l;
}.

Lemma abort_record_step failure a x r :
  ab_tasks a !! x = Some r → stats_ok (ab_tasks a) (ab_statistics a) → size_ok (ab_tasks a) →
  let a' := abort_record failure a (x, r) in
  ab_tasks a' = <[x := abort_one failure r]> (ab_tasks a) ∧ abort_post a a' [r].
Proof.
  intros Hr Hst Hsz. unfold abort_record, abort_one.
  destruct (is_terminal_status (rec_status r)) eqn:Ht; [|case_decide as Hrun]; simpl.
  - assert (¬ abortable r) by (intros [? _]; congruence).
    assert (rec_status r ≠ Running) by (intros Hrun; by rewrite Hrun in Ht).
    rewrite decide_False by done. split; [by rewrite insert_id|].
    split; rewrite ?ids_where_no by congruence; rewrite ?(right_id_L [] (++)); done.
  - assert (¬ abortable r) by (intros [_ ?]; congruence).
    rewrite decide_False by done. split; [by rewrite insert_id|].
    split; simpl; rewrite ?ids_where_yes by done; rewrite ?ids_where_no by done; rewrite ?(right_id_L [] (++)); done.
  - assert (abortable r) by done. rewrite decide_True by done. split; [done|].
    split; simpl; rewrite ?ids_where_yes by done; rewrite ?ids_where_no by done; rewrite ?(right_id_L [] (++)); try done.
    + by apply (stats_ok_transition _ _ x r (mark_terminal_record r Cancelled (Some failure))).
    + by rewrite map_size_insert_Some by eauto.
Qed.

Lemma abort_fold failure (l : list (TaskId * TaskRecord)) : ∀ a,
  stats_ok (ab_tasks a) (ab_statistics a) → size_ok (ab_tasks a) → NoDup l.*1 →
  (∀ x r, (x, r) ∈ l → ab_tasks a !! x = Some r) →
  let a' := foldl (abort_record failure) a l in
  abort_post a a' l.*2 ∧
  (∀ x r, (x, r) ∈ l → ab_tasks a' !! x = Some (abort_one failure r)) ∧
  (∀ y, y ∉ l.*1 → ab_tasks a' !! y = ab_tasks a !! y).
Proof.
  induction l as [|[x r] l IH]; intros a Hst Hsz Hnd Hl; cbn [foldl fmap list_fmap].
  { split_and!; [|set_solver|done]. split; unfold ids_where; simpl; rewrite ?(right_id_L [] (++)); done. }
  simpl in Hnd. apply NoDup_cons in Hnd as [Hx Hnd].
  assert (∀ y ry, (y, ry) ∈ l → y ≠ x) as Hne.
  { intros y ry Hy ->. apply Hx, list_elem_of_fmap. by exists (x, ry). }
  destruct (abort_record_step failure a x r) as [Ht [H1 H2 H3 H4 H5]]; [apply Hl; set_solver|done..|].
  destruct (IH (abort_record failure a (x, r))) as ([G1 G2 G3 G4 G5] & Hin & Hout); [done| |done| |].
  - unfold size_ok. by rewrite H2.
  - intros y ry Hy. rewrite Ht, lookup_insert_ne by (by apply not_eq_sym, (Hne y ry)). apply Hl. set_solver.
  - split_and!.
    + change (((x, r) :: l).*2) with (r :: l.*2).
      split; [done|congruence|..]; rewrite (ids_where_cons _ r l.*2), (assoc_L (++)).
      * by rewrite G3, H3.
      * by rewrite G4, H4.
      * by rewrite G5, H5.
    + intros y ry [[= -> ->]|Hy]%elem_of_cons; [|auto].
      rewrite Hout by done. by rewrite Ht, lookup_insert_eq.
    + intros y Hy. rewrite Hout by set_solver. rewrite Ht, lookup_insert_ne by set_solver. done.
Qed.

(** The fold of [abort_all] over all records of a pool. *)
Lemma abort_all_fold failure p :
  pool_wf p →
  let a := foldl (abort_record failure)
             (mkAbortState (tp_tasks p) (tp_statistics p) [] [] [] []) (map_to_list (tp_tasks p)) in
  abort_post (mkAbortState (tp_tasks p) (tp_statistics p) [] [] [] []) a (map_to_list (tp_tasks p)).*2 ∧
  ab_tasks a = abort_one failure <$> tp_tasks p.
Proof.
  intros Hwf.
  destruct (abort_fold failure (map_to_list (tp_tasks p))
    (mkAbortState (tp_tasks p) (tp_statistics p) [] [] [] [])) as (Hpost & Hin & Hout); simpl.
  - by destruct Hwf.
  - by destruct Hwf.
  - apply NoDup_fst_map_to_list.
  - by intros x r ?%elem_of_map_to_list.
  - split; [done|]. apply map_eq. intros x. rewrite lookup_fmap.
    destruct (tp_tasks p !! x) as [r|] eqn:Hx; simpl.
    + by apply Hin, elem_of_map_to_list.
    + rewrite Hout; [done|]. intros ([y r] & -> & Hy)%list_elem_of_fmap.
      apply elem_of_map_to_list in Hy. simpl in *. congruence.
Qed.

Lemma elem_of_ids_where P `{!∀ r, Decision (P r)} tasks x :
  map_Forall record_wf tasks →
  x ∈ ids_where P (map_to_list tasks).*2 ↔ ∃ r, tasks !! x = Some r ∧ P r.
Proof.
  intros Hwf. unfold ids_where. rewrite list_elem_of_fmap.
  setoid_rewrite list_elem_of_filter. setoid_rewrite list_elem_of_fmap. split.
  - intros (r & -> & HP & [y r'] & -> & Hy%elem_of_map_to_list). simpl in *.
    exists r'. by destruct (Hwf y r' Hy) as [<- _ _ _].
  - intros (r & Hr & HP). exists r. destruct (Hwf x r Hr) as [<- _ _ _]. split_and!; [done|done|].
    exists (record_id r, r). split; [done|]. by apply elem_of_map_to_list.
Qed.

Lemma NoDup_ids_where P `{!∀ r, Decision (P r)} tasks :
  map_Forall record_wf tasks → NoDup (ids_where P (map_to_list tasks).*2).
Proof.
  intros Hwf. eapply sublist_NoDup; [|apply (fmap_sublist record_id), sublist_filter].
  rewrite <-list_fmap_compose.
  rewrite (list_fmap_ext _ fst); [apply NoDup_fst_map_to_list|].
  intros i [x r] Hi. apply list_elem_of_lookup_2, elem_of_map_to_list in Hi. by destruct (Hwf x r Hi).
Qed.

Lemma abort_finalize_loop_safe l : ∀ p,
  pool_wf_gap ∅ ∅ (list_to_set l) (list_to_set l) p → NoDup l →
  (∀ x, x ∈ l → is_terminal (tp_tasks p) x) →
  ∃ p', abort_finalize_loop p l = Done p' ∧ pool_wf p' ∧ tp_tasks p' ⊆ tp_tasks p ∧
    (∀ y, is_Some (tp_tasks p' !! y) →
       tp_pending_cancellations p' !! y = tp_pending_cancellations p !! y).
Proof.
  induction l as [|x l IH]; intros p Hwf Hnd Hl; simpl; [by exists p|].
  apply NoDup_cons in Hnd as [Hx Hnd]. simpl in Hwf.
  assert (x ∉@{gset TaskId} list_to_set l) as Hx' by (by rewrite elem_of_list_to_set).
  apply (wf_remove_waits _ _ _ _ _ x) in Hwf.
  replace (({[x]} ∪ list_to_set l) ∖ {[x]}) with (list_to_set l : gset TaskId) in Hwf by set_solver.
  rewrite (comm_L (∪)) in Hwf.
  destruct (wf_record_terminal _ _ _ _ _ _ Hwf) as (p1 & -> & Hwf1 & Hsub & _ & _ & Hpd & Hev).
  - rewrite tasks_remove_waits. apply Hl. set_solver.
  - done.
  - rewrite tasks_remove_waits in Hsub, Hev. simpl.
    destruct (IH p1) as (p' & ? & ? & Hsub' & Hpd'); [done|done| |].
    + intros y Hy. destruct (Hl y) as (r & Hr & Ht); [set_solver|].
      destruct (tp_tasks p1 !! y) as [r1|] eqn:Hy1.
      * exists r. split; [|done]. rewrite Hy1. by rewrite (lookup_weaken _ _ _ _ Hy1 Hsub) in Hr.
      * destruct (Hev y r Hr Hy1) as (_ & _ & []%not_elem_of_list_to_set). done.
    + exists p'. split_and!; [done|done|by etrans|]. intros y Hy. rewrite Hpd', Hpd; [|by eapply lookup_weaken_is_Some|done].
      by rewrite remove_waits_for_parent_eq.
Qed.

Lemma insert_pending_fold p (c : PendingCancellation) ids :
  foldl (λ p x, set_tp_pending_cancellations (<[x := c]> (tp_pending_cancellations p)) p) p ids
  = set_tp_pending_cancellations (foldl (λ m x, <[x := c]> m) (tp_pending_cancellations p) ids) p.
Proof. revert p. induction ids as [|x ids IH]; intros p; simpl; [by destruct p|]. by rewrite IH. Qed.

Lemma dom_insert_fold (c : PendingCancellation) ids : ∀ m : gmap TaskId PendingCancellation,
  dom (foldl (λ m x, <[x := c]> m) m ids) = dom m ∪ list_to_set ids.
Proof.
  induction ids as [|x ids IH]; intros m; simpl; [set_solver|]. rewrite IH, dom_insert_L. set_solver.
Qed.

Lemma record_wf_abort_one failure x r : record_wf x r → record_wf x (abort_one failure r).
Proof. intros Hr. unfold abort_one. case_decide; [|done]. by apply record_wf_terminal. Qed.

Lemma abort_one_terminal failure r :
  is_terminal_status (rec_status (abort_one failure r)) = true ↔
  is_terminal_status (rec_status r) = true ∨ abortable r.
Proof.
  unfold abort_one. case_decide; simpl; [tauto|]. split; [auto|]. by intros [|].
Qed.

Lemma task_step_abort failure r : rec_status r ≠ Created → task_step r (abort_one failure r).
Proof.
  intros Hc. unfold abort_one. case_decide as Hab; [|apply task_step_refl]. destruct Hab as [Ht Hr].
  apply task_step_edge; try done. simpl. by destruct (rec_status r).
Qed.

(** The pool before its history is brought up to date. *)
Lemma wf_abort failure p stats pending F :
  pool_wf p → stats_ok (abort_one failure <$> tp_tasks p) stats →
  dom pending ⊆ dom (tp_tasks p) →
  (∀ x, x ∈ F ↔ ∃ r, tp_tasks p !! x = Some r ∧ abortable r) →
  pool_wf_gap ∅ ∅ F F
    (rebuild_indexes (set_tp_pending_cancellations pending
      (set_tp_statistics stats (set_tp_tasks (abort_one failure <$> tp_tasks p) p)))).
Proof.
  intros Hwf Hst Hpend HF.
  assert (map_Forall record_wf (abort_one failure <$> tp_tasks p)) as Hrecs.
  { intros x r. rewrite lookup_fmap_Some. intros (r' & <- & Hr'). apply record_wf_abort_one.
    by apply (wf_records _ _ _ _ _ Hwf). }
  destruct Hwf. split; simpl; try done.
  - unfold size_ok. by rewrite map_size_fmap.
  - by apply (rebuild_index_ok ∅ (set_tp_pending_cancellations pending
      (set_tp_statistics stats (set_tp_tasks (abort_one failure <$> tp_tasks p) p)))).
  - by apply rebuild_indexes_spec.
  - by rewrite dom_fmap_L.
  - by rewrite dom_fmap_L.
  - intros c Hc. rewrite lookup_fmap, fmap_is_Some. auto.
  - intros q (r & Hr & Hw)%wf_wait_parent. exists (abort_one failure r).
    rewrite lookup_fmap, Hr. split; [done|]. right. apply HF. exists r. split; [done|].
    destruct Hw as [Hw|]; [|set_solver]. unfold abortable. by rewrite Hw.
  - destruct wf_history as [? Hin Hcomp ?]. split; simpl; try done.
    + intros x Hx. destruct (Hin x Hx) as [(r & Hr & Ht) _]. split.
      * exists (abort_one failure r). rewrite lookup_fmap, Hr. split; [done|].
        apply abort_one_terminal. auto.
      * intros (r' & Hr' & Hab)%HF. simplify_eq. destruct Hab. congruence.
    + intros Hret x (r & Hr & Ht). apply lookup_fmap_Some in Hr as (r' & <- & Hr').
      apply abort_one_terminal in Ht as [Ht|Hab]; [|right; apply HF; eauto].
      destruct (Hcomp Hret x); [by exists r'|auto|set_solver].
  - destruct wf_evicted as [? ? Hfresh ? ?]. split; simpl; try done.
    intros x Hx. rewrite lookup_fmap, Hfresh; done.
Qed.

Lemma lookup_insert_fold (c : PendingCancellation) ids : ∀ (m : gmap TaskId PendingCancellation) x,
  x ∈ ids → foldl (λ m x, <[x := c]> m) m ids !! x = Some c.
Proof.
  assert (∀ ids (m : gmap TaskId PendingCancellation) x, m !! x = Some c →
    foldl (λ m x, <[x := c]> m) m ids !! x = Some c) as Hkeep.
  { induction ids0 as [|y ids0 IH]; intros m x Hx; simpl; [done|]. apply IH.
    rewrite lookup_insert. by case_decide. }
  induction ids as [|y ids IH]; intros m x Hx; [set_solver|]. simpl.
  apply elem_of_cons in Hx as [->|Hx]; [|by apply IH]. apply Hkeep, lookup_insert_eq.
Qed.

Lemma pending_attempts_finished p leases step :
  tp_pending_cancellations (foldl (λ p lease, record_attempt_finished p lease step) p leases)
  = tp_pending_cancellations p.
Proof. revert p. induction leases as [|l leases IH]; intros p; simpl; [done|]. by rewrite IH. Qed.

Lemma abort_all_spec p step failure :
  pool_wf p →
  ∃ p', abort_all p step failure
      = Done (p', merge_sort String.le (ids_where (λ r, is_terminal_status (rec_status r) = false)
                                          (map_to_list (tp_tasks p)).*2)) ∧
    pool_wf p' ∧ tp_tasks p' ⊆ abort_one failure <$> tp_tasks p ∧
    (∀ x r, tp_tasks p' !! x = Some r → rec_status r = Running →
       tp_pending_cancellations p' !! x = Some (mkPendingCancellation (Some failure))).
Proof.
  intros Hwf. unfold abort_all.
  destruct (abort_all_fold failure p Hwf) as [[Hst _ Hpend Hfin Hab] Htasks].
  set (a := foldl _ _ _) in *. simpl in Hpend, Hfin, Hab. rewrite Htasks in *.
  pose proof (wf_records _ _ _ _ _ Hwf) as Hrecs.
  rewrite insert_pending_fold, Hab. simpl.
  match goal with |- context [foldl (λ m x, <[x := ?c]> m) ?m0 ?l] =>
    set (pending := foldl (λ m x, <[x := c]> m) m0 l) end.
  pose proof (wf_abort failure p (ab_statistics a) pending (list_to_set (ab_finalized a)) Hwf Hst) as Hwf1.
  eapply wf_attempts_finished in Hwf1.
  - destruct (abort_finalize_loop_safe (ab_finalized a) _ Hwf1) as (p' & Hdone & Hwf' & Hsub & Hpd).
    + rewrite Hfin. by apply NoDup_ids_where.
    + intros x. rewrite Hfin, (elem_of_ids_where abortable) by done. intros (r & Hr & Habt).
      exists (abort_one failure r). rewrite tasks_attempts_finished. simpl.
      rewrite lookup_fmap, Hr. split; [done|]. apply abort_one_terminal. auto.
    + rewrite Hdone. exists p'. rewrite tasks_attempts_finished in Hsub. split_and!; [done..|].
      intros x r Hx Hrun. rewrite Hpd by eauto. rewrite pending_attempts_finished. simpl.
      apply lookup_insert_fold. rewrite Hpend.
      apply (elem_of_ids_where (λ r, rec_status r = Running)); [done|].
      eapply lookup_weaken in Hx; [|done]. simpl in Hx. apply lookup_fmap_Some in Hx as (r' & <- & Hr').
      exists r'. split; [done|]. revert Hrun. unfold abort_one. by case_decide.
  - subst pending. rewrite dom_insert_fold, Hpend. pose proof (wf_pending _ _ _ _ _ Hwf).
    intros x [Hx|Hx]%elem_of_union; [set_solver|]. apply elem_of_list_to_set in Hx.
    apply (elem_of_ids_where (λ r, rec_status r = Running)) in Hx as (r & Hr & _); [|done].
    by apply elem_of_dom_2 in Hr.
  - intros x. rewrite elem_of_list_to_set, Hfin. by apply (elem_of_ids_where abortable).
Qed.

Lemma abort_all_safe p step failure : pool_wf p → safe p (abort_all p step failure).
Proof.
  intros Hwf. destruct (abort_all_spec p step failure Hwf) as (p' & -> & Hwf' & Hsub & _).
  do 2 eexists. split; [done|]. split; [done|]. eapply tasks_step_sub; [|done].
  intros x r'. rewrite lookup_fmap_Some. intros (r & <- & Hr). exists r. split; [done|].
  apply task_step_abort. by destruct (wf_records _ _ _ _ _ Hwf x r Hr).
Qed.

End sweep.

#[export] Hint Resolve abort_all_safe rebind_ready_generation_safe : mutsuki.
