(* ===== verification/TaskCandidates.v ===== *)
(** * TaskCandidates: the records a runner may claim

    The reference definition of the candidates of a runner is a filter over all
    records, sorted by ready key.  The index-driven walk of
    [visit_candidate_records] visits exactly this list, and the indexed counts are
    its length. *)
From S2P Require Import Prelude Contracts TaskIndexes TaskIndexSpec TaskPool TaskClaiming.
From S2P Require Import TaskMerge TaskPoolInv TaskHistory TaskPoolSafety TaskPoolSweep.

Section candidates.
Context {serde : Serde}.
Implicit Types (p : TaskPool) (r : TaskRecord) (runner : RunnerDescriptor).

(** ** The reference definition *)

(** A record a runner may claim at [step] under [registry_generation]. *)
Definition eligible runner (step registry_generation : N) r : Prop :=
  rec_status r = Ready ∧
  t_protocol_id (rec_task r) ∈ rd_accepted_protocol_ids runner ∧
  (t_runner_hint (rec_task r) = None ∨ t_runner_hint (rec_task r) = Some (rd_runner_id runner)) ∧
  (rec_owner_runner r = None ∨ rec_owner_runner r = Some (rd_runner_id runner)) ∧
  (default 0 (t_ready_at_step (rec_task r)) ≤ step)%N ∧
  (registry_generation = 0%N ∨ t_registry_generation (rec_task r) = 0%N ∨
   t_registry_generation (rec_task r) = registry_generation).
#[global] Instance eligible_dec runner step gen r : Decision (eligible runner step gen r).
Proof. unfold eligible. apply _. Defined.

Definition in_lanes (lanes : list DispatchLane) r : Prop := t_dispatch_lane (rec_task r) ∈ lanes.
#[global] Instance in_lanes_dec lanes r : Decision (in_lanes lanes r).
Proof. unfold in_lanes. apply _. Defined.

(** The eligible records of some lanes, in ready-key order. *)
Definition candidate_keys p runner step gen (lanes : list DispatchLane) : list ReadyKey :=
  merge_sort ready_key_le
    (record_ready_key <$> filter (λ r, eligible runner step gen r ∧ in_lanes lanes r)
       (map_to_list (tp_tasks p)).*2).
Definition candidates p runner step gen lanes : list TaskRecord :=
  omap (λ k, tp_tasks p !! rk_task_id k) (candidate_keys p runner step gen lanes).

(** Visiting a list of records. *)
Fixpoint visit_records {A} (visit : A → TaskRecord → outcome (A * bool)) (rs : list TaskRecord)
    (visited : N) (acc : A) : outcome (A * N) :=
  match rs with
  | [] => Done (acc, visited)
  | r :: rs =>
      '(acc, go_on) ← visit acc r;
      if go_on : bool then visit_records visit rs (visited + 1)%N acc else Done (acc, (visited + 1)%N)
  end.

(** ** The selector cache *)

Definition cached p p' : Prop :=
  ∃ c, p' = set_tp_ready_selector_cache c p ∧
    (∀ rid s, c !! rid = Some s → s = build_ready_selectors rid).

Lemma cached_refl p : pool_wf p → cached p p.
Proof. intros Hwf. exists (tp_ready_selector_cache p). split; [by destruct p|]. by destruct Hwf. Qed.

Lemma cached_trans p1 p2 p3 : cached p1 p2 → cached p2 p3 → cached p1 p3.
Proof. intros (c & -> & _) (c' & -> & ?). by exists c'. Qed.

Lemma wf_cached p p' : pool_wf p → cached p p' → pool_wf p'.
Proof.
  intros [] (c & -> & Hc). split; simpl; try done; [by destruct wf_history|by destruct wf_evicted].
Qed.

Lemma with_ready_selectors_spec p rid :
  pool_wf p → ∃ p', with_ready_selectors p rid = (build_ready_selectors rid, p') ∧ cached p p'.
Proof.
  intros Hwf. unfold with_ready_selectors. destruct (tp_ready_selector_cache p !! rid) as [s|] eqn:Hs.
  - exists p. rewrite (wf_cache _ _ _ _ _ Hwf _ _ Hs). split; [done|]. by apply cached_refl.
  - case_decide; eexists; (split; [done|]); [|by apply cached_refl].
    eexists. split; [done|]. intros rid' s'. rewrite lookup_insert. case_decide.
    + by intros [= <-]; subst.
    + by apply (wf_cache _ _ _ _ _ Hwf).
Qed.

(** ** The queues of a runner *)

(** The lanes a query looks at: one, or all of them. *)
Definition lanes_in (lanes : list DispatchLane) (m : gmap DispatchLane (gset ReadyKey))
  : list (gset ReadyKey) := omap (λ lane, m !! lane) lanes.

Definition query_keys p runner (lanes : list DispatchLane) : list ReadyKey :=
  mjoin (btree_iter ready_key_le <$>
    queues_of (tp_indexes p) (build_ready_selectors (rd_runner_id runner))
      (rd_accepted_protocol_ids runner) (lanes_in lanes)).

Lemma elem_of_queues_of ix selectors protocols lanes q :
  q ∈ queues_of ix selectors protocols (lanes_in lanes) ↔
  ∃ pid s l, pid ∈ protocols ∧ s ∈ selectors ∧ l ∈ lanes ∧
    ∃ m1 m2, ix_ready_by_protocol ix !! pid = Some m1 ∧ m1 !! s = Some m2 ∧ m2 !! l = Some q.
Proof.
  unfold queues_of, lanes_in. rewrite list_elem_of_bind. split.
  - intros (pid & Hq & Hpid). destruct (ix_ready_by_protocol ix !! pid) as [m1|] eqn:H1; [|set_solver].
    apply list_elem_of_bind in Hq as (s & Hq & Hs). destruct (m1 !! s) as [m2|] eqn:H2; [|set_solver].
    apply list_elem_of_omap in Hq as (l & Hl & Hq). exists pid, s, l. eauto 10.
  - intros (pid & s & l & Hpid & Hs & Hl & m1 & m2 & H1 & H2 & H3). exists pid. split; [|done].
    rewrite H1. apply list_elem_of_bind. exists s. split; [|done]. rewrite H2.
    apply list_elem_of_omap. eauto.
Qed.

Lemma elem_of_query_keys p runner lanes k :
  k ∈ query_keys p runner lanes ↔
  ∃ pid s l, pid ∈ rd_accepted_protocol_ids runner ∧
    s ∈ build_ready_selectors (rd_runner_id runner) ∧ l ∈ lanes ∧
    k ∈ ready_queue (ix_ready_by_protocol (tp_indexes p)) (pid, s, l).
Proof.
  unfold query_keys. rewrite list_elem_of_join. setoid_rewrite list_elem_of_fmap.
  setoid_rewrite elem_of_queues_of. unfold ready_queue, bucket. simpl. split.
  - intros (it & Hk & q & -> & pid & s & l & Hpid & Hs & Hl & m1 & m2 & H1 & H2 & H3).
    apply elem_of_btree_iter in Hk. exists pid, s, l. rewrite H1. simpl. rewrite H2. simpl. by rewrite H3.
  - intros (pid & s & l & Hpid & Hs & Hl & Hk).
    destruct (ix_ready_by_protocol (tp_indexes p) !! pid) as [m1|] eqn:H1; simpl in Hk;
      [|rewrite lookup_empty in Hk; simpl in Hk; rewrite lookup_empty in Hk; set_solver].
    destruct (m1 !! s) as [m2|] eqn:H2; simpl in Hk; [|rewrite lookup_empty in Hk; set_solver].
    destruct (m2 !! l) as [q|] eqn:H3; simpl in Hk; [|set_solver].
    exists (btree_iter ready_key_le q). rewrite elem_of_btree_iter. split; [done|]. exists q.
    split; [done|]. eauto 12.
Qed.

(** The keys of a query, position by position. *)
Lemma query_keys_bind p runner lanes :
  query_keys p runner lanes
  = (pid ← rd_accepted_protocol_ids runner; s ← build_ready_selectors (rd_runner_id runner);
     l ← lanes;
     btree_iter ready_key_le (ready_queue (ix_ready_by_protocol (tp_indexes p)) (pid, s, l))).
Proof.
  assert (∀ {A B C} (f : B → list C) (g : A → list B) (l : list A),
    mjoin (f <$> (l ≫= g)) = (x ← l; mjoin (f <$> g x))) as Hjoin.
  { intros A B C f g l. induction l as [|x l IH]; [done|].
    rewrite !bind_cons, fmap_app, join_app. by rewrite IH. }
  assert (∀ {A B} (l : list A), (_ ← l; [] : list B) = []) as Hnil.
  { intros A B l. by induction l. }
  unfold query_keys, queues_of, lanes_in, ready_queue, bucket. rewrite Hjoin. cbn [fst snd].
  apply list_bind_ext; [|done]. intros pid.
  destruct (ix_ready_by_protocol (tp_indexes p) !! pid) as [m1|]; cbn [default from_option id].
  - rewrite Hjoin. apply list_bind_ext; [|done]. intros s.
    destruct (m1 !! s) as [m2|]; cbn [default from_option id].
    + induction lanes as [|l lanes IH]; [done|]. rewrite bind_cons, <-IH. simpl.
      by destruct (m2 !! l) as [q|].
    + symmetry. etrans; [|apply (Hnil _ ReadyKey lanes)]. apply list_bind_ext; [|done].
      intros l. by rewrite lookup_empty.
  - symmetry. etrans; [|apply (Hnil _ ReadyKey (build_ready_selectors (rd_runner_id runner)))].
    apply list_bind_ext; [|done]. intros s. etrans; [|apply (Hnil _ ReadyKey lanes)].
    apply list_bind_ext; [|done]. intros l. by rewrite !lookup_empty.
Qed.

Lemma ready_queue_record wgap dgap tgap ngap p i k :
  pool_wf_gap wgap dgap tgap ngap p →
  k ∈ ready_queue (ix_ready_by_protocol (tp_indexes p)) i ↔
  ∃ r, tp_tasks p !! rk_task_id k = Some r ∧ rec_status r = Ready ∧ record_position r = i ∧
    record_ready_key r = k.
Proof.
  intros Hwf. destruct (wf_index _ _ _ _ _ Hwf) as (lgap & [Hq _ _ _ _ _ _ _] & _).
  rewrite (Hq i k). unfold at_ready. split.
  - intros (_ & r & ? & [? ?] & ?). eauto.
  - intros (r & ? & ? & ? & ?). split; [set_solver|]. exists r. auto.
Qed.

Lemma NoDup_query_keys p runner lanes :
  pool_wf p → NoDup (rd_accepted_protocol_ids runner) → NoDup lanes →
  NoDup (query_keys p runner lanes).
Proof.
  intros Hwf Hprot Hlanes. rewrite query_keys_bind.
  assert (∀ k i i', k ∈ btree_iter ready_key_le (ready_queue (ix_ready_by_protocol (tp_indexes p)) i) →
    k ∈ btree_iter ready_key_le (ready_queue (ix_ready_by_protocol (tp_indexes p)) i') → i = i') as Hpos.
  { intros k i i'. rewrite !elem_of_btree_iter, !(ready_queue_record _ _ _ _ p) by done.
    intros (r & ? & _ & <- & _) (r' & ? & _ & <- & _). congruence. }
  apply NoDup_bind; [|intros pid _|done].
  - intros pid1 pid2 k _ _ (s1 & (l1 & H1 & _)%list_elem_of_bind & _)%list_elem_of_bind
      (s2 & (l2 & H2 & _)%list_elem_of_bind & _)%list_elem_of_bind.
    specialize (Hpos _ _ _ H1 H2). congruence.
  - apply NoDup_bind; [|intros s _|].
    + intros s1 s2 k _ _ (l1 & H1 & _)%list_elem_of_bind (l2 & H2 & _)%list_elem_of_bind.
      specialize (Hpos _ _ _ H1 H2). congruence.
    + apply NoDup_bind; [|intros l _; apply NoDup_btree_iter|done].
      intros l1 l2 k _ _ H1 H2. specialize (Hpos _ _ _ H1 H2). congruence.
    + unfold build_ready_selectors. repeat (apply NoDup_cons; split; [set_solver|]). constructor.
Qed.

Lemma elem_of_ready_selectors r rid :
  record_selector r ∈ build_ready_selectors rid ↔
  (t_runner_hint (rec_task r) = None ∨ t_runner_hint (rec_task r) = Some rid) ∧
  (rec_owner_runner r = None ∨ rec_owner_runner r = Some rid).
Proof.
  unfold record_selector, build_ready_selectors. rewrite !elem_of_cons, elem_of_nil.
  split; [intros [[=]|[[=]|[[=]|[[=]|[]]]]]; auto|].
  intros [[-> | ->] [-> | ->]]; auto.
Qed.

Lemma elem_of_query_keys_record p runner lanes k :
  pool_wf p →
  k ∈ query_keys p runner lanes ↔
  ∃ r, tp_tasks p !! rk_task_id k = Some r ∧ record_ready_key r = k ∧ rec_status r = Ready ∧
    t_protocol_id (rec_task r) ∈ rd_accepted_protocol_ids runner ∧
    record_selector r ∈ build_ready_selectors (rd_runner_id runner) ∧ in_lanes lanes r.
Proof.
  intros Hwf. rewrite elem_of_query_keys. unfold in_lanes.
  setoid_rewrite (ready_queue_record _ _ _ _ p _ k Hwf). unfold record_position. split.
  - intros (pid & s & l & ? & ? & ? & r & ? & ? & Hpos & ?). simplify_eq. exists r. auto 10.
  - intros (r & ? & ? & ? & ? & ? & ?). do 3 eexists. split_and!; [done..|]. exists r. auto.
Qed.

(** ** The walk visits the candidates *)

Definition accept_key p (gen : N) (k : ReadyKey) : option TaskRecord :=
  r ← tp_tasks p !! rk_task_id k;
  if runner_accepts_indexed_task (rec_task r) gen then Some r else None.

Lemma visit_keys_records {A} (visit : A → TaskRecord → outcome (A * bool)) p gen keys : ∀ visited acc,
  visit_keys visit p gen keys visited acc
  = visit_records visit (omap (accept_key p gen) keys) visited acc.
Proof.
  induction keys as [|k keys IH]; intros visited acc; [done|]. simpl.
  unfold visit_key, accept_key at 1.
  destruct (tp_tasks p !! rk_task_id k) as [r|]; simpl; [|apply IH].
  destruct (runner_accepts_indexed_task (rec_task r) gen); simpl; [|apply IH].
  destruct (visit acc r) as [[acc' [|]]|]; simpl; [apply IH|done|done].
Qed.

Lemma runner_accepts_spec task gen :
  runner_accepts_indexed_task task gen = true ↔
  gen = 0%N ∨ t_registry_generation task = 0%N ∨ t_registry_generation task = gen.
Proof.
  unfold runner_accepts_indexed_task. rewrite negb_true_iff, !andb_false_iff, !bool_decide_eq_false.
  destruct (decide (gen = 0%N)), (decide (t_registry_generation task = 0%N)),
    (decide (t_registry_generation task = gen)); tauto.
Qed.

(** Among the keys of a query, the due and accepted ones are the eligible ones. *)
Lemma elem_of_accepted p runner step gen lanes k :
  pool_wf p →
  k ∈ filter (λ k, is_Some (accept_key p gen k)) (due_keys step (query_keys p runner lanes)) ↔
  k ∈ record_ready_key <$> filter (λ r, eligible runner step gen r ∧ in_lanes lanes r)
        (map_to_list (tp_tasks p)).*2.
Proof.
  intros Hwf. unfold due_keys, is_due.
  rewrite !list_elem_of_filter, (elem_of_query_keys_record p runner lanes k Hwf), list_elem_of_fmap.
  setoid_rewrite list_elem_of_filter. setoid_rewrite list_elem_of_fmap. split.
  - intros (Hacc & Hdue & r & Hr & <- & Hst & Hp & Hs%elem_of_ready_selectors & Hl).
    unfold accept_key in Hacc. rewrite Hr in Hacc. simpl in Hacc.
    destruct (runner_accepts_indexed_task (rec_task r) gen) eqn:Hg; [|by destruct Hacc].
    apply runner_accepts_spec in Hg. apply bool_decide_eq_true in Hdue.
    exists r. split; [done|]. split; [unfold eligible; naive_solver|].
    exists (rk_task_id (record_ready_key r), r). split; [done|]. by apply elem_of_map_to_list.
  - intros (r & -> & [(Hst & Hp & Hh & Ho & Hdue & Hg) Hl] & [x r'] & -> & Hx%elem_of_map_to_list).
    simpl in *. assert (rk_task_id (record_ready_key r') = x) as Hid
      by (by destruct (wf_records _ _ _ _ _ Hwf x r' Hx)).
    split_and!.
    + unfold accept_key. rewrite Hid, Hx. simpl.
      rewrite (proj2 (runner_accepts_spec (rec_task r') gen) Hg). eauto.
    + by apply bool_decide_eq_true.
    + exists r'. change (t_task_id (rec_task r')) with (rk_task_id (record_ready_key r')).
      rewrite Hid. split_and!; [done..| |done]. by apply elem_of_ready_selectors.
Qed.

Lemma NoDup_candidate_keys p runner step gen lanes :
  pool_wf p →
  NoDup (record_ready_key <$> filter (λ r, eligible runner step gen r ∧ in_lanes lanes r)
           (map_to_list (tp_tasks p)).*2).
Proof.
  intros Hwf. apply (NoDup_fmap_1 rk_task_id). rewrite <-list_fmap_compose.
  apply (NoDup_ids_where (λ r, eligible runner step gen r ∧ in_lanes lanes r)). by destruct Hwf.
Qed.

Lemma accepted_keys_sorted p runner step gen lanes :
  pool_wf p → NoDup (rd_accepted_protocol_ids runner) → NoDup lanes →
  filter (λ k, is_Some (accept_key p gen k))
    (merge_sort ready_key_le (due_keys step (query_keys p runner lanes)))
  = candidate_keys p runner step gen lanes.
Proof.
  intros Hwf Hprot Hlanes. apply (StronglySorted_unique ready_key_le).
  - apply StronglySorted_filter, StronglySorted_merge_sort; apply _.
  - apply StronglySorted_merge_sort; apply _.
  - unfold candidate_keys. rewrite !merge_sort_Permutation.
    apply NoDup_Permutation.
    + apply NoDup_filter, NoDup_filter. by apply NoDup_query_keys.
    + by apply NoDup_candidate_keys.
    + intros k. by apply elem_of_accepted.
Qed.

Lemma omap_accept_key p gen (keys : list ReadyKey) :
  omap (accept_key p gen) keys
  = omap (λ k, tp_tasks p !! rk_task_id k) (filter (λ k, is_Some (accept_key p gen k)) keys).
Proof.
  induction keys as [|k keys IH]; [done|]. rewrite filter_cons. csimpl. rewrite IH.
  unfold accept_key at 1. case_decide as Hk; unfold accept_key in Hk.
  - simpl. destruct (tp_tasks p !! rk_task_id k) as [r|]; simpl in *; [|by destruct Hk].
    destruct (runner_accepts_indexed_task (rec_task r) gen); [done|by destruct Hk].
  - destruct (tp_tasks p !! rk_task_id k) as [r|]; simpl in *; [|done].
    destruct (runner_accepts_indexed_task (rec_task r) gen); [|done]. destruct Hk. eauto.
Qed.

Lemma visit_queues_candidates {A} (visit : A → TaskRecord → outcome (A * bool)) p runner step gen lanes acc :
  pool_wf p → NoDup (rd_accepted_protocol_ids runner) → NoDup lanes →
  visit_queues visit p step gen
    (queues_of (tp_indexes p) (build_ready_selectors (rd_runner_id runner))
       (rd_accepted_protocol_ids runner) (lanes_in lanes)) acc
  = visit_records visit (candidates p runner step gen lanes) 0 acc.
Proof.
  intros Hwf Hprot Hlanes. rewrite visit_queues_spec.
  fold (query_keys p runner lanes). rewrite visit_keys_records, omap_accept_key.
  by rewrite (accepted_keys_sorted p runner step gen lanes).
Qed.

Lemma visit_candidate_records_spec {A} (visit : A → TaskRecord → outcome (A * bool)) p runner step gen acc :
  pool_wf p → NoDup (rd_accepted_protocol_ids runner) →
  ∃ p', cached p p' ∧
    visit_candidate_records visit p runner step gen acc
    = ('(acc, visited) ← visit_records visit (candidates p runner step gen DispatchLane_ALL) 0 acc;
       Done (acc, visited, p')).
Proof.
  intros Hwf Hprot. unfold visit_candidate_records, ready_dispatch_queues.
  destruct (with_ready_selectors_spec p (rd_runner_id runner) Hwf) as (p' & -> & Hc).
  exists p'. split; [done|]. cbn beta iota.
  change (@lane_values (gset ReadyKey)) with (lanes_in DispatchLane_ALL).
  rewrite (visit_queues_candidates visit p' runner step gen DispatchLane_ALL acc); [|by eapply wf_cached|done|].
  - by destruct Hc as (c & -> & _).
  - unfold DispatchLane_ALL. repeat (apply NoDup_cons; split; [set_solver|]). constructor.
Qed.

Lemma visit_candidate_records_for_lane_spec {A} (visit : A → TaskRecord → outcome (A * bool)) p runner
    step gen lane acc :
  pool_wf p → NoDup (rd_accepted_protocol_ids runner) →
  ∃ p', cached p p' ∧
    visit_candidate_records_for_lane visit p runner step gen lane acc
    = ('(acc, visited) ← visit_records visit (candidates p runner step gen [lane]) 0 acc;
       Done (acc, visited, p')).
Proof.
  intros Hwf Hprot. unfold visit_candidate_records_for_lane, ready_dispatch_queues_for_lane.
  destruct (with_ready_selectors_spec p (rd_runner_id runner) Hwf) as (p' & -> & Hc).
  exists p'. split; [done|]. cbn beta iota.
  assert (∀ sel, queues_of (tp_indexes p') sel (rd_accepted_protocol_ids runner)
      (λ by_lane, option_list (by_lane !! lane))
    = queues_of (tp_indexes p') sel (rd_accepted_protocol_ids runner) (lanes_in [lane])) as ->.
  { intros sel. unfold queues_of, lanes_in. apply list_bind_ext; [|done]. intros pid.
    destruct (_ !! pid); [|done]. apply list_bind_ext; [|done]. intros s.
    destruct (_ !! s) as [m|]; [|done]. simpl. by destruct (m !! lane). }
  rewrite (visit_queues_candidates visit p' runner step gen [lane] acc); [|by eapply wf_cached|done|].
  - by destruct Hc as (c & -> & _).
  - apply NoDup_singleton.
Qed.

(** ** Properties of the candidates *)

Lemma elem_of_candidates p runner step gen lanes r :
  pool_wf p →
  r ∈ candidates p runner step gen lanes ↔
  tp_tasks p !! record_id r = Some r ∧ eligible runner step gen r ∧ in_lanes lanes r.
Proof.
  intros Hwf. unfold candidates, candidate_keys. rewrite list_elem_of_omap.
  setoid_rewrite merge_sort_Permutation. setoid_rewrite list_elem_of_fmap.
  setoid_rewrite list_elem_of_filter. setoid_rewrite list_elem_of_fmap. split.
  - intros (k & (r' & -> & He & [x r''] & -> & Hx%elem_of_map_to_list) & Hr). simpl in *.
    destruct (wf_records _ _ _ _ _ Hwf x r'' Hx) as [<- _ _ _].
    assert (r'' = r) as -> by (unfold record_id in *; congruence). done.
  - intros (Hr & He). exists (record_ready_key r). split; [|done]. exists r. split; [done|].
    split; [done|]. exists (record_id r, r). split; [done|]. by apply elem_of_map_to_list.
Qed.

(** The candidates carry the sorted keys. *)
Lemma candidate_keys_of p runner step gen lanes :
  pool_wf p → record_ready_key <$> candidates p runner step gen lanes
  = candidate_keys p runner step gen lanes.
Proof.
  intros Hwf. unfold candidates.
  assert (∀ k, k ∈ candidate_keys p runner step gen lanes →
    ∃ r, tp_tasks p !! rk_task_id k = Some r ∧ record_ready_key r = k) as Hk.
  { intros k. unfold candidate_keys. rewrite merge_sort_Permutation, list_elem_of_fmap.
    intros (r & -> & [_ ([x r'] & -> & Hx%elem_of_map_to_list)%list_elem_of_fmap]%list_elem_of_filter).
    simpl in *. exists r'. destruct (wf_records _ _ _ _ _ Hwf x r' Hx) as [Hid _ _ _].
    unfold record_id in *. by rewrite Hid. }
  induction (candidate_keys p runner step gen lanes) as [|k ks IH]; [done|]. csimpl.
  destruct (Hk k) as (r & -> & Hr); [set_solver|]. csimpl. rewrite Hr. f_equal. apply IH. set_solver.
Qed.

Lemma candidate_ids p runner step gen lanes :
  pool_wf p → record_id <$> candidates p runner step gen lanes
  = rk_task_id <$> candidate_keys p runner step gen lanes.
Proof.
  intros Hwf. rewrite <-(candidate_keys_of p runner step gen lanes Hwf), <-list_fmap_compose. done.
Qed.

Lemma NoDup_candidates p runner step gen lanes :
  pool_wf p → NoDup (record_id <$> candidates p runner step gen lanes).
Proof.
  intros Hwf. rewrite candidate_ids by done. unfold candidate_keys.
  rewrite merge_sort_Permutation, <-list_fmap_compose.
  apply (NoDup_ids_where (λ r, eligible runner step gen r ∧ in_lanes lanes r)). by destruct Hwf.
Qed.

End candidates.
