(* ===== verification/TaskSelection.v ===== *)
(** * TaskSelection: how many candidates a claim takes, and which

    [select_candidate_ids] takes candidates in ready-key order up to the entry
    limit and the byte budget, or, when lane budgets are set, round-robin over the
    lanes.  Both paths terminate without reaching an [expect], pick each candidate
    at most once and respect every budget. *)
From S2P Require Import Prelude Contracts TaskIndexes TaskIndexSpec TaskPool TaskClaiming.
From S2P Require Import TaskMerge TaskPoolInv TaskHistory TaskPoolSafety TaskPoolSweep.
From S2P Require Import TaskCandidates.

Section selection.
Context {serde : Serde}.
Implicit Types (p : TaskPool) (r : TaskRecord) (runner : RunnerDescriptor).

(** The payload bytes of some tasks. *)
Definition bytes_at p (x : TaskId) : N := default 0%N (tp_payload_wire_bytes p !! x).
Definition total_bytes p (ids : list TaskId) : N := foldr (λ x n, (bytes_at p x + n)%N) 0%N ids.

Lemma total_bytes_app p l1 l2 : total_bytes p (l1 ++ l2) = (total_bytes p l1 + total_bytes p l2)%N.
Proof. induction l1 as [|x l1 IH]; simpl; [done|]. rewrite IH. lia. Qed.

Lemma payload_wire_bytes_Done p x :
  pool_wf p → is_Some (tp_tasks p !! x) → payload_wire_bytes p x = Done (bytes_at p x).
Proof.
  intros Hwf Hx. apply elem_of_dom in Hx. rewrite <-(wf_bytes _ _ _ _ _ Hwf) in Hx.
  apply elem_of_dom in Hx as [n Hn]. unfold payload_wire_bytes, bytes_at. by rewrite Hn.
Qed.

(** The byte counter of a selection: saturating, and within the budget. *)
Definition bytes_ok p (max_bytes : N) (ids : list TaskId) (bytes : N) : Prop :=
  bytes = N.min (total_bytes p ids) u64_max ∧ (bytes ≤ max_bytes)%N.

Lemma bytes_ok_nil p max_bytes : bytes_ok p max_bytes [] 0.
Proof. unfold bytes_ok. simpl. lia. Qed.

Lemma bytes_ok_snoc p max_bytes ids bytes x :
  bytes_ok p max_bytes ids bytes → (sat_add bytes (bytes_at p x) ≤ max_bytes)%N →
  bytes_ok p max_bytes (ids ++ [x]) (sat_add bytes (bytes_at p x)).
Proof.
  intros [-> _] Hle. split; [|done]. rewrite total_bytes_app. unfold sat_add. simpl. lia.
Qed.

(** ** Selection in key order *)

(** What the selecting closure maintains. *)
Definition selection_ok p (budget : option DispatchBudget) (max_entries : N) (s : Selection) : Prop :=
  (N.of_nat (length (sl_selected s)) ≤ max_entries)%N ∧
  (∀ b, budget = Some b → bytes_ok p (db_max_bytes b) (sl_selected s) (sl_bytes s)).

Lemma select_visit_spec p budget max_entries s r :
  pool_wf p → is_Some (tp_tasks p !! record_id r) → selection_ok p budget max_entries s →
  ∃ s' go_on, select_visit p budget max_entries s r = Done (s', go_on) ∧
    selection_ok p budget max_entries s' ∧
    (sl_selected s' = sl_selected s ∨ sl_selected s' = sl_selected s ++ [record_id r]).
Proof.
  intros Hwf Hr [Hlen Hbytes]. unfold select_visit.
  case_decide as Hfull; [exists s, false; split_and!; [done|by split|by left]|].
  destruct budget as [b|]; simpl.
  - rewrite payload_wire_bytes_Done by done. simpl.
    destruct (bool_decide _) eqn:Hb; simpl; [exists s, true; split_and!; [done|by split|by left]|].
    apply bool_decide_eq_false in Hb.
    destruct (lane_exhausted _ _ _); [exists s, true; split_and!; [done|by split|by left]|].
    do 2 eexists. split; [done|]. split; [|by right]. split; simpl.
    + rewrite length_app. simpl. lia.
    + intros ? [= <-]. apply bytes_ok_snoc; [by apply Hbytes|lia].
  - do 2 eexists. split; [done|]. split; [|by right]. split; simpl; [|done].
    rewrite length_app. simpl. lia.
Qed.

Lemma select_visit_records p budget max_entries rs : ∀ s visited,
  pool_wf p → (∀ r, r ∈ rs → is_Some (tp_tasks p !! record_id r)) →
  selection_ok p budget max_entries s →
  ∃ s' visited', visit_records (select_visit p budget max_entries) rs visited s = Done (s', visited') ∧
    selection_ok p budget max_entries s' ∧
    ∃ ids, sl_selected s' = sl_selected s ++ ids ∧ ids `sublist_of` (record_id <$> rs).
Proof.
  induction rs as [|r rs IH]; intros s visited Hwf Hrs Hok; simpl.
  { exists s, visited. split_and!; [done|done|]. exists []. by rewrite (right_id_L [] (++)). }
  destruct (select_visit_spec p budget max_entries s r Hwf) as (s1 & go_on & -> & Hok1 & Hsel);
    [apply Hrs; set_solver|done|]. simpl.
  destruct go_on.
  - destruct (IH s1 (visited + 1)%N Hwf) as (s' & v' & -> & Hok' & ids & Hids & Hsub);
      [set_solver|done|].
    exists s', v'. split_and!; [done|done|]. destruct Hsel as [Heq|Heq]; rewrite Heq in Hids.
    + exists ids. split; [done|]. by apply sublist_cons.
    + exists (record_id r :: ids). rewrite Hids, <-(assoc_L (++)). split; [done|]. by apply sublist_skip.
  - exists s1, (visited + 1)%N. split_and!; [done|done|]. destruct Hsel as [Heq|Heq].
    + exists []. rewrite (right_id_L [] (++)). split; [done|]. apply sublist_nil_l.
    + exists [record_id r]. split; [done|]. apply sublist_skip, sublist_nil_l.
Qed.

Lemma select_visit_None p max_entries s r :
  (N.of_nat (length (sl_selected s)) < max_entries)%N →
  select_visit p None max_entries s r
  = let s' := mkSelection (or_default 0%N (t_dispatch_lane (rec_task r)) (λ n, (n + 1)%N) (sl_lane_counts s))
                (sat_add (sl_bytes s) 0) (sl_selected s ++ [record_id r]) in
    Done (s', bool_decide (N.of_nat (length (sl_selected s')) < max_entries)%N).
Proof. intros Hlt. unfold select_visit. by rewrite decide_False by lia. Qed.

(** Without a budget the selection is the first [max_entries] candidates. *)
Lemma select_visit_plain p max_entries rs : ∀ s visited,
  (N.of_nat (length (sl_selected s)) < max_entries)%N →
  ∃ s' visited', visit_records (select_visit p None max_entries) rs visited s = Done (s', visited') ∧
    sl_selected s' = sl_selected s ++
      take (N.to_nat max_entries - length (sl_selected s)) (record_id <$> rs).
Proof.
  induction rs as [|r rs IH]; intros s visited Hlt; cbn [visit_records].
  { exists s, visited. rewrite fmap_nil, take_nil. by rewrite (right_id_L [] (++)). }
  rewrite select_visit_None by done. rewrite fmap_cons. simpl.
  replace (N.to_nat max_entries - length (sl_selected s))%nat
    with (S (N.to_nat max_entries - length (sl_selected s) - 1)) by lia. simpl.
  case_bool_decide as Hgo.
  - match goal with |- context [visit_records _ rs ?v ?s1] => destruct (IH s1 v Hgo) as (s' & v' & -> & Hsel) end.
    exists s', v'. split; [done|]. rewrite Hsel. simpl. rewrite <-(assoc_L (++)), length_app. simpl.
    do 3 f_equal. lia.
  - do 2 eexists. split; [done|]. simpl. rewrite length_app in Hgo. simpl in Hgo.
    replace (N.to_nat max_entries - length (sl_selected s) - 1)%nat with 0%nat by lia. done.
Qed.

(** ** Round-robin selection over the lanes *)

Lemma collect_visit_records lane_limit rs : ∀ ids visited,
  (N.of_nat (length ids) < lane_limit)%N →
  ∃ visited', visit_records (collect_visit lane_limit) rs visited ids
    = Done (ids ++ take (N.to_nat lane_limit - length ids) (record_id <$> rs), visited').
Proof.
  induction rs as [|r rs IH]; intros ids visited Hlt.
  { exists visited. rewrite fmap_nil, take_nil. by rewrite (right_id_L [] (++)). }
  rewrite fmap_cons. simpl.
  replace (N.to_nat lane_limit - length ids)%nat
    with (S (N.to_nat lane_limit - length (ids ++ [record_id r]))) by (rewrite length_app; simpl; lia).
  simpl. case_bool_decide as Hgo.
  - destruct (IH (ids ++ [record_id r]) (visited + 1)%N Hgo) as (v' & ->). exists v'.
    by rewrite <-(assoc_L (++)).
  - eexists. replace (N.to_nat lane_limit - length (ids ++ [record_id r]))%nat with 0%nat by lia. done.
Qed.

Section qos.
Context (runner : RunnerDescriptor) (step gen max_entries : N) (budget : DispatchBudget).

(** The candidates collected for a lane. *)
Definition lane_pick p (lane : DispatchLane) : list TaskId :=
  take (N.to_nat (qos_lane_limit budget max_entries lane))
    (record_id <$> candidates p runner step gen [lane]).

Lemma lane_pick_cached p p' lane : cached p p' → lane_pick p' lane = lane_pick p lane.
Proof. by intros (c & -> & _). Qed.

Lemma collect_lanes_spec lanes : ∀ p cands,
  pool_wf p → NoDup (rd_accepted_protocol_ids runner) → NoDup lanes →
  (SIZE_OF_TASK_ID * max_entries ≤ isize_max)%N →
  (∀ lane, lane ∈ lanes → cands !! lane = None) →
  ∃ cands' p', collect_lanes p runner step gen max_entries budget lanes cands = Done (cands', p') ∧
    cached p p' ∧
    (∀ lane, default [] (cands' !! lane)
       = if decide (lane ∈ lanes) then lane_pick p lane else default [] (cands !! lane)).
Proof.
  induction lanes as [|lane lanes IH]; intros p cands Hwf Hprot Hnd Hcap Hnone; simpl.
  { exists cands, p. split_and!; [done|by apply cached_refl|]. intros lane.
    by destruct (decide (lane ∈ [])) as [?%not_elem_of_nil|]. }
  apply NoDup_cons in Hnd as [Hl Hnd].
  assert (∀ p1 ids, cached p p1 → ids = lane_pick p lane →
    ∃ cands' p', collect_lanes p1 runner step gen max_entries budget lanes
        (match ids with [] => cands | _ => <[lane := ids]> cands end) = Done (cands', p') ∧
      cached p p' ∧
      (∀ l, default [] (cands' !! l)
         = if decide (l ∈ lane :: lanes) then lane_pick p l else default [] (cands !! l))) as Hstep.
  { intros p1 ids Hc Hids.
    set (cands1 := match ids with [] => cands | _ => <[lane := ids]> cands end).
    assert (∀ l, default [] (cands1 !! l) = if decide (l = lane) then ids else default [] (cands !! l))
      as Hc1.
    { intros l. unfold cands1. destruct ids; case_decide; subst.
      - by rewrite Hnone by set_solver.
      - done.
      - by rewrite lookup_insert_eq.
      - by rewrite lookup_insert_ne by done. }
    destruct (IH p1 cands1) as (cands' & p' & -> & Hc' & Hlook); [by eapply wf_cached|done|done|done| |].
    { intros l Hin. assert (l ≠ lane) by (intros ->; done). unfold cands1.
      destruct ids; [|rewrite lookup_insert_ne by done]; apply Hnone; set_solver. }
    exists cands', p'. split_and!; [done|by eapply cached_trans|]. intros l.
    rewrite Hlook, Hc1, (lane_pick_cached p p1) by done.
    destruct (decide (l ∈ lanes)); [by rewrite decide_True by set_solver|].
    destruct (decide (l = lane)) as [->|]; [by rewrite decide_True by set_solver|].
    by rewrite decide_False by set_solver. }
  case_decide as Hlim.
  - apply (Hstep p []); [by apply cached_refl|]. unfold lane_pick. by rewrite Hlim.
  - rewrite vec_with_capacity_fits by (unfold SIZE_OF_TASK_ID, qos_lane_limit in *; lia).
    cbn [mbind outcome_bind].
    destruct (visit_candidate_records_for_lane_spec
      (collect_visit (qos_lane_limit budget max_entries lane)) p runner step gen lane [] Hwf Hprot)
      as (p1 & Hc & ->).
    destruct (collect_visit_records (qos_lane_limit budget max_entries lane)
      (candidates p runner step gen [lane]) [] 0) as (v & ->); [simpl; lia|]. simpl.
    apply (Hstep p1); [done|]. unfold lane_pick. simpl. by rewrite Nat.sub_0_r.
Qed.

(** The ids still in the lanes. *)
Definition remaining (cands : gmap DispatchLane (list TaskId)) : list TaskId :=
  lane ← DispatchLane_ALL; default [] (cands !! lane).

Lemma NoDup_DispatchLane_ALL : NoDup DispatchLane_ALL.
Proof. unfold DispatchLane_ALL. repeat (apply NoDup_cons; split; [set_solver|]). constructor. Qed.

Lemma candidates_left_length cands : candidates_left cands = length (remaining cands).
Proof.
  unfold candidates_left, remaining. induction DispatchLane_ALL as [|lane lanes IH]; [done|].
  rewrite bind_cons, length_app. simpl. by rewrite IH.
Qed.

Lemma bind_lanes_insert (lanes : list DispatchLane) (cands : gmap DispatchLane (list TaskId)) lane rest :
  lane ∉ lanes →
  (l ← lanes; default [] (<[lane := rest]> cands !! l)) = (l ← lanes; default [] (cands !! l)).
Proof.
  induction lanes as [|l lanes IH]; [done|]. intros [Hne Hl]%not_elem_of_cons.
  rewrite !bind_cons, IH by done. by rewrite lookup_insert_ne.
Qed.

Lemma remaining_take cands lane x rest :
  cands !! lane = Some (x :: rest) → remaining cands ≡ₚ x :: remaining (<[lane := rest]> cands).
Proof.
  intros Hl. unfold remaining. assert (lane ∈ DispatchLane_ALL) as Hin by (destruct lane; set_solver).
  pose proof NoDup_DispatchLane_ALL as Hnd. revert Hin Hnd.
  generalize DispatchLane_ALL as lanes. induction lanes as [|l lanes IH]; [set_solver|].
  intros Hin [Hnl Hnd]%NoDup_cons. rewrite !bind_cons.
  destruct (decide (l = lane)) as [->|Hne].
  - rewrite Hl, lookup_insert_eq, bind_lanes_insert by done. done.
  - rewrite lookup_insert_ne by done. rewrite IH by set_solver. by rewrite Permutation_middle.
Qed.

(** One lane after another, ids only leave the lanes, for the selection or for
    good. *)
Record qos_step (q q' : QosState) : Prop := {
  qs_ids : q_selected q' ++ remaining (q_candidates q') ⊆+ q_selected q ++ remaining (q_candidates q);
  qs_rem : remaining (q_candidates q') ⊆+ remaining (q_candidates q);
  qs_progress : q_progressed q' = true → q_progressed q = true ∨
    (length (remaining (q_candidates q')) < length (remaining (q_candidates q)))%nat;
}.

#[local] Instance qos_step_preorder : PreOrder qos_step.
Proof.
  split; [by split; auto|]. intros q1 q2 q3 [I12 R12 P12] [I23 R23 P23].
  split; [by etrans|by etrans|]. apply submseteq_length in R12, R23.
  intros [[|]%P12|]%P23; [by left|right; lia|right; lia].
Qed.

Definition qos_ok p (q : QosState) : Prop :=
  bytes_ok p (db_max_bytes budget) (q_selected q) (q_bytes q) ∧
  (∀ x, x ∈ remaining (q_candidates q) → is_Some (tp_tasks p !! x)).

Lemma qos_round_spec p lanes : ∀ q,
  pool_wf p → qos_ok p q → (N.of_nat (length (q_selected q)) < max_entries)%N →
  ∃ q', qos_round p max_entries budget lanes q = Done q' ∧ qos_ok p q' ∧ qos_step q q' ∧
    (N.of_nat (length (q_selected q')) ≤ max_entries)%N.
Proof.
  induction lanes as [|lane lanes IH]; intros q Hwf Hok Hlen; simpl.
  { exists q. split_and!; [done|done|done|lia]. }
  destruct (q_candidates q !! lane) as [[|x rest]|] eqn:Hl; [by apply IH| |by apply IH].
  pose proof (remaining_take _ _ _ _ Hl) as Hrem. destruct Hok as [Hb Hin].
  assert (∀ y, y ∈ remaining (<[lane := rest]> (q_candidates q)) → is_Some (tp_tasks p !! y)) as Hin1.
  { intros y Hy. apply Hin. rewrite Hrem. set_solver. }
  rewrite payload_wire_bytes_Done; [|done|apply Hin; rewrite Hrem; set_solver]. simpl.
  case_decide as Hover.
  - match goal with |- context [qos_round _ _ _ _ ?q1] => assert (qos_step q q1) as Hs end.
    { split; simpl; [rewrite Hrem; by apply submseteq_app, submseteq_cons|
        rewrite Hrem; by apply submseteq_cons|auto]. }
    match goal with |- context [qos_round _ _ _ _ ?q1] =>
      destruct (IH q1) as (q' & -> & ? & ? & ?); [done|by split|done|] end.
    exists q'. split_and!; [done|done|by etrans|done].
  - match goal with |- context [if decide _ then Done ?q1 else _] => set (q2 := q1) in * end.
    assert (qos_step q q2) as Hs.
    { split; simpl; rewrite Hrem; [|by apply submseteq_cons|intros _; right; simpl; lia].
      rewrite <-(assoc_L (++)). done. }
    assert (qos_ok p q2) as Hok2 by (split; simpl; [apply bytes_ok_snoc; [done|lia]|done]).
    case_decide as Hfull; simpl in Hfull; rewrite length_app in Hfull; simpl in Hfull.
    + exists q2. split_and!; [done|done|done|]. simpl. rewrite length_app. simpl. lia.
    + destruct (IH q2) as (q' & -> & ? & ? & ?); [done|done|simpl; rewrite length_app; simpl; lia|].
      exists q'. split_and!; [done|done|by etrans|done].
Qed.

Lemma qos_loop_spec p fuel : ∀ q,
  pool_wf p → qos_ok p q → (N.of_nat (length (q_selected q)) ≤ max_entries)%N →
  (length (remaining (q_candidates q)) < fuel)%nat →
  ∃ ids, qos_loop fuel p max_entries budget q = Done ids ∧
    ids ⊆+ q_selected q ++ remaining (q_candidates q) ∧
    (N.of_nat (length ids) ≤ max_entries)%N ∧
    (∃ bytes, bytes_ok p (db_max_bytes budget) ids bytes).
Proof.
  induction fuel as [|fuel IH]; intros q Hwf Hok Hlen Hfuel; [lia|]. cbn [qos_loop].
  case_decide as Hgo; [|exists (q_selected q); split_and!;
    [done|by apply submseteq_inserts_r|done|destruct Hok; by eexists]].
  destruct (qos_round_spec p DispatchLane_ALL
    (mkQosState (q_candidates q) (q_bytes q) (q_selected q) false)) as (q' & -> & Hok' & Hs & Hlen');
    [done|done|done|]. simpl. destruct Hs as [Hids Hrem Hprog]. simpl in *.
  destruct (q_progressed q') eqn:Hp.
  - destruct Hprog as [|Hlt]; [done|done|].
    destruct (IH q') as (ids & -> & Hsub & ? & ?); [done|done|done|lia|].
    exists ids. split_and!; [done| |done|done]. by etrans.
  - exists (q_selected q'). split_and!; [done| |done|destruct Hok'; by eexists].
    etrans; [|done]. by apply submseteq_inserts_r.
Qed.

End qos.

(** ** What a selection guarantees *)

Definition task_lane p (x : TaskId) : option DispatchLane :=
  (λ r, t_dispatch_lane (rec_task r)) <$> tp_tasks p !! x.
Definition lane_count p (lane : DispatchLane) (ids : list TaskId) : nat :=
  length (filter (λ x, task_lane p x = Some lane) ids).

Record selected_ok p runner (step gen limit : N) (budget : option DispatchBudget) (ids : list TaskId)
  : Prop := {
  sel_nodup : NoDup ids;
  sel_eligible : ∀ x, x ∈ ids → ∃ r, tp_tasks p !! x = Some r ∧ eligible runner step gen r;
  sel_limit : (N.of_nat (length ids) ≤ limit)%N;
  sel_entries : ∀ b, budget = Some b → (N.of_nat (length ids) ≤ db_max_entries b)%N;
  sel_bytes : ∀ b, budget = Some b → (N.min (total_bytes p ids) u64_max ≤ db_max_bytes b)%N;
  sel_lanes : ∀ b lane lb, budget = Some b → db_lane_budget b !! lane = Some lb →
    (N.of_nat (lane_count p lane ids) ≤ lb_max_entries lb)%N;
}.

Lemma elem_of_candidate_ids p runner step gen lanes x :
  pool_wf p → x ∈ record_id <$> candidates p runner step gen lanes →
  ∃ r, tp_tasks p !! x = Some r ∧ eligible runner step gen r ∧ in_lanes lanes r.
Proof. intros Hwf (r & -> & Hr%elem_of_candidates)%list_elem_of_fmap; [|done]. eauto. Qed.

Section qos_spec.
Context (runner : RunnerDescriptor) (step gen max_entries : N) (budget : DispatchBudget).
Context (p : TaskPool) (Hwf : pool_wf p).

Abbreviation pick := (lane_pick runner step gen max_entries budget p).

Lemma elem_of_lane_pick lane x :
  x ∈ pick lane → ∃ r, tp_tasks p !! x = Some r ∧ eligible runner step gen r ∧
    t_dispatch_lane (rec_task r) = lane.
Proof.
  intros Hx. unfold lane_pick in Hx.
  assert (x ∈ record_id <$> candidates p runner step gen [lane]) as Hin
    by (rewrite <-(take_drop (N.to_nat (qos_lane_limit budget max_entries lane))); set_solver).
  apply elem_of_candidate_ids in Hin as (r & ? & ? & Hl); [|done].
  exists r. unfold in_lanes in Hl. set_solver.
Qed.

Lemma NoDup_picks lanes : NoDup lanes → NoDup (lanes ≫= pick).
Proof.
  intros Hnd. apply NoDup_bind; [| |done].
  - intros l1 l2 x _ _ (r1 & ? & _ & <-)%elem_of_lane_pick (r2 & ? & _ & <-)%elem_of_lane_pick. congruence.
  - intros l _. unfold lane_pick. eapply sublist_NoDup; [by apply (NoDup_candidates p runner step gen [l])|].
    apply sublist_take.
Qed.

Lemma lane_count_picks lanes lane :
  NoDup lanes → (lane_count p lane (lanes ≫= pick) ≤ N.to_nat (qos_lane_limit budget max_entries lane))%nat.
Proof.
  assert (∀ l, l ≠ lane → filter (λ x, task_lane p x = Some lane) (pick l) = []) as Hother.
  { intros l Hne. apply elem_of_nil_inv. intros x [Hx (r & Hr & _ & Hl)%elem_of_lane_pick]%list_elem_of_filter.
    unfold task_lane in Hx. rewrite Hr in Hx. simpl in Hx. congruence. }
  unfold lane_count. induction lanes as [|l lanes IH]; [intros _; simpl; lia|].
  intros [Hl Hnd]%NoDup_cons. rewrite bind_cons, filter_app, length_app.
  destruct (decide (l = lane)) as [->|Hne].
  - assert (filter (λ x, task_lane p x = Some lane) (lanes ≫= pick) = []) as ->.
    { apply elem_of_nil_inv. intros x [Hx (l & Hxl & Hin)%list_elem_of_bind]%list_elem_of_filter.
      assert (x ∈ filter (λ x, task_lane p x = Some lane) (pick l)) as Hf by (by apply list_elem_of_filter).
      rewrite Hother in Hf by (intros ->; done). set_solver. }
    simpl. rewrite Nat.add_0_r. etrans; [apply length_filter|]. unfold lane_pick. rewrite length_take. lia.
  - rewrite Hother by done. simpl. auto.
Qed.

Lemma select_qos_spec :
  NoDup (rd_accepted_protocol_ids runner) → (SIZE_OF_TASK_ID * max_entries ≤ isize_max)%N →
  ∃ ids p', select_qos_candidate_ids p runner step gen max_entries budget = Done (ids, p') ∧
    cached p p' ∧ ids ⊆+ (DispatchLane_ALL ≫= pick) ∧ (N.of_nat (length ids) ≤ max_entries)%N ∧
    (N.min (total_bytes p ids) u64_max ≤ db_max_bytes budget)%N.
Proof.
  intros Hprot Hcap. unfold select_qos_candidate_ids.
  destruct (collect_lanes_spec runner step gen max_entries budget DispatchLane_ALL p ∅)
    as (cands & p' & -> & Hc & Hlook); [done|done|apply NoDup_DispatchLane_ALL|done|done|].
  cbn [mbind outcome_bind]. rewrite vec_with_capacity_fits by done. cbn [mbind outcome_bind].
  assert (remaining cands = DispatchLane_ALL ≫= pick) as Hrem.
  { unfold remaining. apply list_bind_ext; [|done]. intros lane. rewrite Hlook.
    by rewrite decide_True by (destruct lane; set_solver). }
  destruct (qos_loop_spec max_entries budget p' (S (candidates_left cands)) (mkQosState cands 0 [] false))
    as (ids & -> & Hsub & Hlen & bytes & Hb1 & Hb2); simpl.
  - by eapply wf_cached.
  - split; simpl; [apply bytes_ok_nil|]. rewrite Hrem. intros x (lane & (r & Hr & _)%elem_of_lane_pick & _)%list_elem_of_bind.
    destruct Hc as (c & -> & _). simpl. eauto.
  - lia.
  - rewrite candidates_left_length. lia.
  - exists ids, p'. simpl in Hsub. rewrite Hrem in Hsub. split_and!; [done..|].
    destruct Hc as (c & -> & _). subst bytes. done.
Qed.

End qos_spec.

(** The walk in key order, used when no lane budget is set. *)
Lemma select_visit_candidates p runner step gen max_entries budget :
  pool_wf p → NoDup (rd_accepted_protocol_ids runner) →
  ∃ ids p', ('(s, _, p) ← visit_candidate_records (select_visit p budget max_entries) p runner step gen
               (mkSelection ∅ 0 []); Done (sl_selected s, p)) = Done (ids, p') ∧
    cached p p' ∧
    ids `sublist_of` (record_id <$> candidates p runner step gen DispatchLane_ALL) ∧
    (N.of_nat (length ids) ≤ max_entries)%N ∧
    (∀ b, budget = Some b → (N.min (total_bytes p ids) u64_max ≤ db_max_bytes b)%N).
Proof.
  intros Hwf Hprot.
  destruct (visit_candidate_records_spec (select_visit p budget max_entries) p runner step gen
    (mkSelection ∅ 0 []) Hwf Hprot) as (p' & Hc & ->).
  destruct (select_visit_records p budget max_entries (candidates p runner step gen DispatchLane_ALL)
    (mkSelection ∅ 0 []) 0 Hwf) as (s & v & -> & [Hlen Hbytes] & ids & Hids & Hsub); simpl.
  - intros r (Hr & _)%elem_of_candidates; eauto.
  - split; simpl; [lia|]. intros. apply bytes_ok_nil.
  - simpl in Hids. exists (sl_selected s), p'. rewrite Hids in *. split_and!; [done..|].
    intros b Hb. by destruct (Hbytes b Hb) as [-> ?].
Qed.

Lemma selected_ok_sublist p runner step gen limit budget ids :
  pool_wf p → ids `sublist_of` (record_id <$> candidates p runner step gen DispatchLane_ALL) →
  (∀ b, budget = Some b → db_lane_budget b = ∅) →
  (N.of_nat (length ids) ≤ match budget with Some b => N.min limit (db_max_entries b) | None => limit end)%N →
  (∀ b, budget = Some b → (N.min (total_bytes p ids) u64_max ≤ db_max_bytes b)%N) →
  selected_ok p runner step gen limit budget ids.
Proof.
  intros Hwf Hsub Hlb Hlen Hbytes. split.
  - eapply sublist_NoDup; [by apply (NoDup_candidates p runner step gen DispatchLane_ALL)|done].
  - intros x Hx. destruct (elem_of_candidate_ids p runner step gen DispatchLane_ALL x) as (r & ? & ? & _);
      [done|by eapply elem_of_sublist|eauto].
  - destruct budget; lia.
  - intros b ->. lia.
  - done.
  - intros b lane lb Hb. rewrite (Hlb b Hb). by rewrite lookup_empty.
Qed.

Lemma selected_ok_qos p runner step gen limit b ids :
  pool_wf p →
  ids ⊆+ (DispatchLane_ALL ≫= lane_pick runner step gen (N.min limit (db_max_entries b)) b p) →
  (N.of_nat (length ids) ≤ N.min limit (db_max_entries b))%N →
  (N.min (total_bytes p ids) u64_max ≤ db_max_bytes b)%N →
  selected_ok p runner step gen limit (Some b) ids.
Proof.
  intros Hwf Hsub Hlen Hbytes. pose proof NoDup_DispatchLane_ALL as Hnd. split.
  - eapply submseteq_NoDup; [done|]. by apply NoDup_picks.
  - intros x Hx. eapply elem_of_submseteq in Hx; [|done].
    apply list_elem_of_bind in Hx as (lane & (r & ? & ? & _)%elem_of_lane_pick & _); [eauto|done].
  - lia.
  - intros ? [= <-]. lia.
  - by intros ? [= <-].
  - intros ? lane lb [= <-] Hlb.
    pose proof (lane_count_picks runner step gen (N.min limit (db_max_entries b)) b p Hwf
      DispatchLane_ALL lane Hnd) as Hcount.
    assert (lane_count p lane ids ≤ lane_count p lane (DispatchLane_ALL ≫= lane_pick runner step gen
      (N.min limit (db_max_entries b)) b p))%nat as Hle.
    { by apply submseteq_filter_length. }
    unfold qos_lane_limit in Hcount. rewrite Hlb in Hcount. lia.
Qed.

(** The buffers of a selection can be allocated: none is asked for, or it has no more than
    [isize::MAX] bytes. *)
Definition selection_fits (limit : N) (budget : option DispatchBudget) : bool :=
  bool_decide (limit = 0%N) || budget_is_zero budget
  || bool_decide (SIZE_OF_TASK_ID * selection_limit limit budget ≤ isize_max)%N.

Lemma select_candidate_ids_spec p runner step gen limit budget :
  pool_wf p → NoDup (rd_accepted_protocol_ids runner) → selection_fits limit budget = true →
  ∃ ids p', select_candidate_ids p runner step gen limit budget = Done (ids, p') ∧
    cached p p' ∧ selected_ok p runner step gen limit budget ids.
Proof.
  intros Hwf Hprot. unfold select_candidate_ids, selection_fits.
  destruct (bool_decide (limit = 0%N) || budget_is_zero budget); simpl.
  { intros _. exists [], p. split_and!; [done|by apply cached_refl|].
    split; simpl; unfold lane_count; simpl; intros; try lia; [constructor|set_solver]. }
  rewrite bool_decide_eq_true. intros Hcap.
  destruct budget as [b|]; [destruct (map_is_empty (db_lane_budget b)) eqn:Hempty|]; simpl in Hcap |- *;
    rewrite ?vec_with_capacity_fits by done; cbn [mbind outcome_bind].
  - destruct (select_visit_candidates p runner step gen (N.min limit (db_max_entries b)) (Some b) Hwf Hprot)
      as (ids & p' & -> & Hc & Hsub & Hlen & Hbytes).
    exists ids, p'. split_and!; [done|done|]. apply selected_ok_sublist; try done.
    intros ? [= <-]. by apply map_is_empty_true.
  - destruct (select_qos_spec runner step gen (N.min limit (db_max_entries b)) b p Hwf Hprot Hcap)
      as (ids & p' & -> & Hc & Hsub & Hlen & Hbytes).
    exists ids, p'. split_and!; [done|done|]. by apply selected_ok_qos.
  - destruct (select_visit_candidates p runner step gen limit None Hwf Hprot)
      as (ids & p' & -> & Hc & Hsub & Hlen & Hbytes).
    exists ids, p'. split_and!; [done|done|]. by apply selected_ok_sublist.
Qed.

(** The panic of a lane's buffer comes before the panic of the buffer of the selection. *)
Lemma collect_lanes_overflow runner step gen max_entries budget lanes : ∀ p cands,
  pool_wf p → NoDup (rd_accepted_protocol_ids runner) →
  collect_lanes p runner step gen max_entries budget lanes cands = Panic VEC_CAPACITY_OVERFLOW
  ∨ ∃ cands' p', collect_lanes p runner step gen max_entries budget lanes cands = Done (cands', p').
Proof.
  induction lanes as [|lane lanes IH]; intros p cands Hwf Hprot; simpl; [by right; do 2 eexists|].
  case_decide as Hlim; [by apply IH|]. unfold vec_with_capacity. case_decide; [by left|]. cbn [mbind outcome_bind].
  destruct (visit_candidate_records_for_lane_spec (collect_visit (qos_lane_limit budget max_entries lane))
    p runner step gen lane [] Hwf Hprot) as (p1 & Hc & ->).
  destruct (collect_visit_records (qos_lane_limit budget max_entries lane)
    (candidates p runner step gen [lane]) [] 0) as (v & ->); [simpl; lia|]. cbn [mbind outcome_bind].
  apply IH; [by eapply wf_cached|done].
Qed.

Lemma select_candidate_ids_overflow p runner step gen limit budget :
  pool_wf p → NoDup (rd_accepted_protocol_ids runner) → selection_fits limit budget = false →
  select_candidate_ids p runner step gen limit budget = Panic VEC_CAPACITY_OVERFLOW.
Proof.
  intros Hwf Hprot. unfold select_candidate_ids, selection_fits.
  destruct (bool_decide (limit = 0%N) || budget_is_zero budget); simpl; [done|].
  rewrite bool_decide_eq_false. intros Hcap.
  assert (vec_with_capacity SIZE_OF_TASK_ID (selection_limit limit budget) = Panic VEC_CAPACITY_OVERFLOW) as Hv.
  { unfold vec_with_capacity. by rewrite decide_True by lia. }
  destruct budget as [b|]; [destruct (map_is_empty (db_lane_budget b))|]; [by rewrite Hv| |by rewrite Hv].
  unfold select_qos_candidate_ids.
  destruct (collect_lanes_overflow runner step gen (selection_limit limit (Some b)) b DispatchLane_ALL p ∅ Hwf Hprot)
    as [->|(cands & p1 & ->)]; [done|]. cbn [mbind outcome_bind]. by rewrite Hv.
Qed.

(** Without a budget the selection is a prefix of the candidates. *)
Lemma select_plain_ids p runner step gen limit ids :
  pool_wf p → NoDup (rd_accepted_protocol_ids runner) →
  (∃ p', select_candidate_ids p runner step gen limit None = Done (ids, p')) →
  ids = take (N.to_nat limit) (record_id <$> candidates p runner step gen DispatchLane_ALL).
Proof.
  intros Hwf Hprot [p' Hsel]. revert Hsel. unfold select_candidate_ids, budget_is_zero.
  case_bool_decide as Hz; simpl; [by intros [= <- <-]; subst|].
  unfold vec_with_capacity. case_decide; [done|]. cbn [mbind outcome_bind].
  destruct (visit_candidate_records_spec (select_visit p None limit) p runner step gen
    (mkSelection ∅ 0 []) Hwf Hprot) as (p1 & _ & ->).
  destruct (select_visit_plain p limit (candidates p runner step gen DispatchLane_ALL)
    (mkSelection ∅ 0 []) 0) as (s & v & -> & Hs); [simpl; lia|]. simpl in *.
  intros [= <- _]. by rewrite Hs, Nat.sub_0_r.
Qed.

End selection.
