(* ===== verification/TaskLeasing.v ===== *)
(** * TaskLeasing: claiming hands out exclusive leases

    The claim loop turns every selected record into a running one under a fresh
    lease, keeps the invariant of the pool and leaves the other records alone. *)
From S2P Require Import Prelude Contracts TaskIndexes TaskIndexSpec TaskPool TaskClaiming.
From S2P Require Import TaskMerge TaskPoolInv TaskHistory TaskStates TaskPoolSafety.
From S2P Require Import TaskPoolSweep TaskCandidates TaskSelection.

Section leasing.
Context {serde : Serde}.
Implicit Types (p : TaskPool) (r : TaskRecord) (runner : RunnerDescriptor).

(** The expiry handed to a claim is a [u64]. *)
Definition expiry_width (expires_at_step : option N) : Prop :=
  ∀ e, expires_at_step = Some e → (e ≤ u64_max)%N.

Section claim.
Context (runner : RunnerDescriptor) (executor_id : ExecutorId) (step gen : N)
  (expires_at_step : option N).

(** The record and lease a claim makes of a ready record. *)
Definition next_attempt r : TaskRecord :=
  set_rec_attempt_generation (sat_add (rec_attempt_generation r) 1) r.
Definition new_lease r : TaskLease :=
  lease_for runner executor_id step gen expires_at_step (next_attempt r).
Definition claimed r : TaskRecord := claimed_record runner (new_lease r) (next_attempt r).

Definition handout r : TaskLease * Task := (new_lease r, rec_task (claimed r)).

Lemma claimed_wf x r : record_id r = x → expiry_width expires_at_step → record_wf x (claimed r).
Proof.
  intros Hid Hw. split; simpl; try done. intros _. exists (new_lease r). split_and!; done.
Qed.

(** The pool after one claim. *)
Definition claim_put p x r : TaskPool :=
  with_statistics (record_status_transition (Some Ready) (Some Running)) (put_record p x r (claimed r)).

Lemma claim_one_eq c x r :
  tp_tasks (cl_pool c) !! x = Some r →
  ∃ qs at_, claim_one runner executor_id step gen expires_at_step c x
    = Done (mkClaimState (claim_put (cl_pool c) x r)
              (cl_leased c ++ [handout r]) qs at_).
Proof.
  intros Hx. unfold claim_one, remove_record_indexes, insert_record_indexes, update_record_indexes.
  rewrite Hx. simpl. rewrite Hx. simpl. rewrite lookup_insert_eq. by do 2 eexists.
Qed.

Lemma wf_claim_put p x r :
  pool_wf p → tp_tasks p !! x = Some r → rec_status r = Ready → expiry_width expires_at_step →
  pool_wf (claim_put p x r).
Proof.
  intros Hwf Hx Hst Hw. unfold claim_put. rewrite <-Hst.
  apply (wf_transition p x r (claimed r)); [done|done| |by rewrite Hst|done|right; by rewrite Hst].
  apply claimed_wf; [|done]. by destruct (wf_records _ _ _ _ _ Hwf x r Hx).
Qed.

(** What the claim loop does to the records of [ids]. *)
Definition claimed_tasks (tasks : gmap TaskId TaskRecord) (ids : list TaskId) : gmap TaskId TaskRecord :=
  foldl (λ tasks x, alter claimed x tasks) tasks ids.

Lemma lookup_claimed_tasks ids : ∀ tasks y,
  NoDup ids →
  claimed_tasks tasks ids !! y
  = if decide (y ∈ ids) then claimed <$> tasks !! y else tasks !! y.
Proof.
  induction ids as [|x ids IH]; intros tasks y Hnd; simpl.
  { by destruct (decide (y ∈ [])) as [?%not_elem_of_nil|]. }
  apply NoDup_cons in Hnd as [Hx Hnd]. rewrite IH by done.
  destruct (decide (y = x)) as [->|Hne].
  - rewrite decide_False by done. rewrite decide_True by set_solver. by rewrite lookup_alter_eq.
  - rewrite lookup_alter_ne by done. destruct (decide (y ∈ ids)).
    + by rewrite decide_True by set_solver.
    + by rewrite decide_False by set_solver.
Qed.

Lemma claim_loop_spec ids : ∀ c,
  pool_wf (cl_pool c) → expiry_width expires_at_step → NoDup ids →
  (∀ x, x ∈ ids → ∃ r, tp_tasks (cl_pool c) !! x = Some r ∧ rec_status r = Ready) →
  ∃ c', claim_loop runner executor_id step gen expires_at_step c ids = Done c' ∧
    pool_wf (cl_pool c') ∧ tp_tasks (cl_pool c') = claimed_tasks (tp_tasks (cl_pool c)) ids ∧
    cl_leased c' = cl_leased c ++ (handout <$> omap (λ x, tp_tasks (cl_pool c) !! x) ids).
Proof.
  induction ids as [|x ids IH]; intros c Hwf Hw Hnd Hids; simpl.
  { exists c. by rewrite (right_id_L [] (++)). }
  apply NoDup_cons in Hnd as [Hx Hnd]. destruct (Hids x) as (r & Hr & Hst); [set_solver|].
  destruct (claim_one_eq c x r Hr) as (qs & at_ & ->). simpl.
  match goal with |- context [claim_loop _ _ _ _ _ ?c1 _] =>
    destruct (IH c1) as (c' & -> & Hwf' & Ht & Hl); simpl end.
  - by apply wf_claim_put.
  - done.
  - done.
  - intros y Hy. rewrite lookup_insert_ne by (intros <-; done). apply Hids. set_solver.
  - exists c'. split_and!; [done|done| |].
    + rewrite Ht. simpl. unfold claimed_tasks. f_equal. apply map_eq. intros y.
      rewrite lookup_insert, lookup_alter. case_decide; subst; [by rewrite Hr|done].
    + rewrite Hl. cbn [cl_leased cl_pool claim_put with_statistics put_record set_tp_statistics
        set_tp_indexes set_tp_tasks tp_tasks].
      rewrite omap_lookup_insert by done. rewrite Hr, <-(assoc_L (++)). done.
Qed.

Lemma task_step_claimed r : rec_status r = Ready → task_step r (claimed r).
Proof.
  intros Hst. split; [done|by right; rewrite Hst| |by rewrite Hst|done|done].
  rewrite Hst, decide_True by done. done.
Qed.

Lemma claim_spec p limit budget :
  pool_wf p → NoDup (rd_accepted_protocol_ids runner) → expiry_width expires_at_step →
  selection_fits limit budget = true →
  ∃ p' ids, claim_ready_for_executor_with_budget p runner executor_id step gen limit budget
      expires_at_step
    = Done (p', handout <$> omap (λ x, tp_tasks p !! x) ids) ∧
    (∃ p1, select_candidate_ids p runner step gen limit budget = Done (ids, p1)) ∧ pool_wf p' ∧ selected_ok p runner step gen limit budget ids ∧
    tp_tasks p' = claimed_tasks (tp_tasks p) ids.
Proof.
  intros Hwf Hprot Hw Hfits. unfold claim_ready_for_executor_with_budget.
  destruct (select_candidate_ids_spec p runner step gen limit budget Hwf Hprot Hfits)
    as (ids & p1 & Hselect & Hc & Hsel). rewrite Hselect. cbn [mbind outcome_bind].
  assert (tp_tasks p1 = tp_tasks p) as Ht1 by (by destruct Hc as (c & -> & _)).
  destruct (claim_loop_spec ids (mkClaimState p1 [] 0 0)) as (c' & -> & Hwf' & Ht & Hl); simpl.
  - by eapply wf_cached.
  - done.
  - by destruct Hsel.
  - intros x Hx. rewrite Ht1. destruct (sel_eligible _ _ _ _ _ _ _ Hsel x Hx) as (r & ? & ? & _). eauto.
  - rewrite Hl. simpl. rewrite Ht1. do 2 eexists. split; [done|]. split_and!; [by eexists| |done|].
    + apply wf_statistics; [apply wf_statistics; [done|]|]; by intros [].
    + simpl. by rewrite Ht; simpl; rewrite Ht1.
Qed.

(** A claim whose buffers cannot be allocated panics before it changes anything. *)
Lemma claim_overflow p limit budget :
  pool_wf p → NoDup (rd_accepted_protocol_ids runner) → selection_fits limit budget = false →
  claim_ready_for_executor_with_budget p runner executor_id step gen limit budget expires_at_step
  = Panic VEC_CAPACITY_OVERFLOW.
Proof.
  intros Hwf Hprot Hfits. unfold claim_ready_for_executor_with_budget.
  by rewrite (select_candidate_ids_overflow p runner step gen limit budget Hwf Hprot Hfits).
Qed.

(** [claim_spec] for a claim that is known to return. *)
Lemma claim_returned p limit budget p' leased :
  pool_wf p → NoDup (rd_accepted_protocol_ids runner) → expiry_width expires_at_step →
  claim_ready_for_executor_with_budget p runner executor_id step gen limit budget expires_at_step
    = Done (p', leased) →
  ∃ ids, leased = (handout <$> omap (λ x, tp_tasks p !! x) ids) ∧
    (∃ p1, select_candidate_ids p runner step gen limit budget = Done (ids, p1)) ∧ pool_wf p' ∧
    selected_ok p runner step gen limit budget ids ∧ tp_tasks p' = claimed_tasks (tp_tasks p) ids.
Proof.
  intros Hwf Hprot Hw Heq. destruct (selection_fits limit budget) eqn:Hfits.
  - destruct (claim_spec p limit budget Hwf Hprot Hw Hfits) as (p1 & ids & Heq' & ? & ? & ? & ?).
    rewrite Heq in Heq'. injection Heq' as <- ->. by exists ids.
  - by rewrite claim_overflow in Heq.
Qed.

(** The records after a claim: the selected ones run, the others are as before. *)
Lemma claimed_tasks_step p limit budget ids :
  selected_ok p runner step gen limit budget ids →
  tasks_step (tp_tasks p) (claimed_tasks (tp_tasks p) ids).
Proof.
  intros [Hnd Hel _ _ _ _] x r'. rewrite lookup_claimed_tasks by done. case_decide as Hx.
  - rewrite fmap_Some. intros (r & Hr & ->). exists r. split; [done|]. apply task_step_claimed.
    destruct (Hel x Hx) as (r1 & ? & [? _]). congruence.
  - intros Hr. exists r'. split; [done|]. apply task_step_refl.
Qed.

Lemma claim_safe p limit budget :
  pool_wf p → NoDup (rd_accepted_protocol_ids runner) → expiry_width expires_at_step →
  selection_fits limit budget = true →
  safe p (claim_ready_for_executor_with_budget p runner executor_id step gen limit budget
    expires_at_step).
Proof.
  intros Hwf Hprot Hw Hfits. destruct (claim_spec p limit budget Hwf Hprot Hw Hfits) as (p' & ids & -> & _ & ? & ? & Ht).
  do 2 eexists. split; [done|]. split; [done|]. rewrite Ht. by eapply claimed_tasks_step.
Qed.

End claim.

End leasing.

#[export] Hint Resolve claim_safe : mutsuki.
