(* ===== verification/TaskCounts.v ===== *)
(** * TaskCounts: the indexed queue lengths

    [ready_dispatch_count] sums the count index instead of walking the queues; the
    sum is the number of candidates of the runner. *)
From S2P Require Import Prelude Contracts TaskIndexes TaskIndexSpec TaskPool TaskClaiming.
From S2P Require Import TaskMerge TaskPoolInv TaskHistory TaskStates TaskPoolSafety.
From S2P Require Import TaskPoolSweep TaskCandidates.

(** ** Sums *)

Definition sum_list {A} (f : A → N) (l : list A) : N := foldr (λ x n, (f x + n)%N) 0%N l.

Lemma sum_list_app {A} (f : A → N) l1 l2 : sum_list f (l1 ++ l2) = (sum_list f l1 + sum_list f l2)%N.
Proof. induction l1 as [|x l1 IH]; simpl; [done|]. rewrite IH. lia. Qed.

Lemma sum_list_perm {A} (f : A → N) l1 l2 : l1 ≡ₚ l2 → sum_list f l1 = sum_list f l2.
Proof. induction 1; simpl; lia. Qed.

Lemma sum_list_ext {A} (f g : A → N) l : (∀ x, x ∈ l → f x = g x) → sum_list f l = sum_list g l.
Proof.
  induction l as [|x l IH]; intros Hfg; simpl; [done|]. rewrite IH, Hfg; [done|set_solver..].
Qed.

Lemma sum_list_bind {A B} (f : B → N) (g : A → list B) l :
  sum_list f (l ≫= g) = sum_list (λ x, sum_list f (g x)) l.
Proof. induction l as [|x l IH]; [done|]. rewrite bind_cons, sum_list_app, IH. done. Qed.

Lemma sum_list_zero {A} (l : list A) : sum_list (λ _, 0%N) l = 0%N.
Proof. induction l; simpl; lia. Qed.

(** ** Counting records *)

Section counts.
Context {serde : Serde}.
Implicit Types (p : TaskPool) (r : TaskRecord) (tasks : gmap TaskId TaskRecord).

Definition count_where (P : TaskRecord → Prop) `{!∀ r, Decision (P r)} tasks : N :=
  N.of_nat (size (filter (λ kv, P kv.2) tasks)).

Lemma count_where_insert P `{!∀ r, Decision (P r)} tasks x r :
  tasks !! x = None →
  count_where P (<[x := r]> tasks) = ((if decide (P r) then 1 else 0) + count_where P tasks)%N.
Proof.
  intros Hx. unfold count_where. rewrite map_filter_insert. simpl. case_decide.
  - rewrite map_size_insert_None by (by rewrite map_lookup_filter, Hx). lia.
  - by rewrite delete_id.
Qed.

Lemma count_where_empty P `{!∀ r, Decision (P r)} : count_where P ∅ = 0%N.
Proof. unfold count_where. by rewrite map_filter_empty, map_size_empty. Qed.

Lemma count_where_ext P Q `{!∀ r, Decision (P r), !∀ r, Decision (Q r)} tasks :
  (∀ r, P r ↔ Q r) → count_where P tasks = count_where Q tasks.
Proof.
  intros HPQ. induction tasks as [|x r tasks Hx IH] using map_ind; [by rewrite !count_where_empty|].
  rewrite !count_where_insert, IH by done. specialize (HPQ r). repeat case_decide; tauto.
Qed.

(** Records spread over distinct positions of [l]. *)
Lemma count_where_sum {I} `{EqDecision I} (pos : TaskRecord → I) Q `{!∀ r, Decision (Q r)} (l : list I) tasks :
  NoDup l →
  sum_list (λ i, count_where (λ r, pos r = i ∧ Q r) tasks) l
  = count_where (λ r, pos r ∈ l ∧ Q r) tasks.
Proof.
  intros Hnd. induction tasks as [|x r tasks Hx IH] using map_ind.
  { rewrite count_where_empty. erewrite sum_list_ext; [apply sum_list_zero|].
    intros. apply count_where_empty. }
  rewrite count_where_insert, <-IH by done.
  rewrite (sum_list_ext _ (λ i, ((if decide (pos r = i ∧ Q r) then 1 else 0) +
    count_where (λ r, pos r = i ∧ Q r) tasks)%N)) by (intros; by apply count_where_insert).
  clear IH. induction Hnd as [|i l Hi Hnd IH]; simpl.
  { by destruct (decide (pos r ∈ [] ∧ Q r)) as [[?%not_elem_of_nil _]|]. }
  rewrite IH. destruct (decide (Q r)) as [HQ|HQ].
  - destruct (decide (pos r = i)) as [<-|Hne].
    + rewrite (decide_True (P := pos r = pos r ∧ Q r)) by done.
      rewrite (decide_False (P := pos r ∈ l ∧ Q r)) by tauto.
      rewrite (decide_True (P := pos r ∈ pos r :: l ∧ Q r)) by set_solver. lia.
    + rewrite (decide_False (P := pos r = i ∧ Q r)) by tauto.
      destruct (decide (pos r ∈ l)).
      * rewrite !decide_True by set_solver. lia.
      * rewrite !decide_False by set_solver. lia.
  - rewrite !decide_False by tauto. lia.
Qed.

(** ** One count bucket map *)

Definition bucket_due (step gen : N) (k : N * N) : Prop :=
  (k.1 ≤ step)%N ∧ generation_matches gen k.2 = true.
#[global] Instance bucket_due_dec step gen k : Decision (bucket_due step gen k).
Proof. unfold bucket_due. apply _. Defined.

Lemma bucket_due_bool (step gen : N) (k : N * N) :
  bool_decide (k.1 ≤ step)%N && generation_matches gen k.2 = bool_decide (bucket_due step gen k).
Proof.
  apply Bool.eq_true_iff_eq. rewrite andb_true_iff, !bool_decide_eq_true. done.
Qed.

Lemma sum_counts_sum (step gen : N) (m : gmap (N * N) N) :
  sum_counts step gen m
  = sum_list (λ kv, if decide (bucket_due step gen kv.1) then kv.2 else 0%N) (map_to_list m).
Proof.
  unfold sum_counts, sum_list. induction (map_to_list m) as [|[k n] l IH]; cbn [foldr]; [done|].
  rewrite <-IH. cbn [fst snd]. rewrite bucket_due_bool. by case_bool_decide; case_decide.
Qed.

Lemma count_where_filter P R `{!∀ r, Decision (P r), !∀ r, Decision (R r)} tasks :
  count_where P (filter (λ kv, R kv.2) tasks) = count_where (λ r, P r ∧ R r) tasks.
Proof. unfold count_where. by rewrite map_filter_filter. Qed.

Lemma count_where_split P R `{!∀ r, Decision (P r), !∀ r, Decision (R r)} tasks :
  count_where P tasks
  = (count_where (λ r, P r ∧ R r) tasks + count_where (λ r, P r ∧ ¬ R r) tasks)%N.
Proof.
  induction tasks as [|x r tasks Hx IH] using map_ind; [by rewrite !count_where_empty|].
  rewrite !count_where_insert, IH by done. repeat case_decide; try tauto; lia.
Qed.

Lemma count_where_none P `{!∀ r, Decision (P r)} tasks x r :
  count_where P tasks = 0%N → tasks !! x = Some r → ¬ P r.
Proof.
  unfold count_where. intros Hz Hx HP.
  assert (size (filter (λ kv : TaskId * TaskRecord, P kv.2) tasks) = 0%nat) as H0%map_size_empty_iff by lia.
  assert (filter (λ kv : TaskId * TaskRecord, P kv.2) tasks !! x = Some r) as Hin
    by (by apply map_lookup_filter_Some).
  by rewrite H0, lookup_empty in Hin.
Qed.

Lemma count_where_False P `{!∀ r, Decision (P r)} tasks :
  (∀ x r, tasks !! x = Some r → ¬ P r) → count_where P tasks = 0%N.
Proof.
  intros HP. unfold count_where. rewrite map_empty_filter_2; [by rewrite map_size_empty|].
  intros x r Hx. by apply (HP x).
Qed.

Definition other_bucket (k : N * N) r : Prop := record_bucket r ≠ k.
#[global] Instance other_bucket_dec k r : Decision (other_bucket k r).
Proof. unfold other_bucket. apply _. Defined.

(** A map that counts records by bucket sums up to the records of due buckets. *)
Lemma sum_counts_records (step gen : N) Q `{!∀ r, Decision (Q r)} (m : gmap (N * N) N) : ∀ tasks,
  (∀ k, default 0%N (m !! k) = count_where (λ r, Q r ∧ record_bucket r = k) tasks) →
  sum_counts step gen m = count_where (λ r, Q r ∧ bucket_due step gen (record_bucket r)) tasks.
Proof.
  rewrite sum_counts_sum. induction m as [|k n m Hk IH] using map_ind; intros tasks Hm.
  - rewrite map_to_list_empty. simpl. symmetry. apply count_where_False. intros x r Hr [HQ _].
    specialize (Hm (record_bucket r)). rewrite lookup_empty in Hm. symmetry in Hm.
    by apply (count_where_none _ _ _ _ Hm Hr).
  - rewrite (sum_list_perm _ _ _ (map_to_list_insert m k n Hk)). simpl.
    rewrite (IH (filter (λ kv, other_bucket k kv.2) tasks)).
    + rewrite (count_where_filter _ (other_bucket k)).
      rewrite (count_where_split (λ r, Q r ∧ bucket_due step gen (record_bucket r))
        (λ r, record_bucket r = k) tasks).
      f_equal. specialize (Hm k). rewrite lookup_insert_eq in Hm. simpl in Hm. rewrite Hm.
      case_decide as Hd.
      * apply count_where_ext. intros r. split; [intros [? <-]; tauto|tauto].
      * symmetry. apply count_where_False. intros x r _ [[_ Hdue] <-]. done.
    + intros k'. rewrite (count_where_filter _ (other_bucket k)).
      destruct (decide (k' = k)) as [->|Hne].
      * rewrite Hk. symmetry. apply count_where_False. intros x r _ [[_ ?] ?]. done.
      * specialize (Hm k'). rewrite lookup_insert_ne in Hm by done. rewrite Hm.
        apply count_where_ext. intros r. split; [intros [? <-]; tauto|tauto].
Qed.

(** ** The count of a runner *)

Definition positions (runner : RunnerDescriptor) (lanes : list DispatchLane)
  : list (ProtocolId * ReadySelector * DispatchLane) :=
  pid ← rd_accepted_protocol_ids runner; s ← build_ready_selectors (rd_runner_id runner);
  l ← lanes; [(pid, s, l)].

Definition count_map (ix : TaskIndexes) (i : ProtocolId * ReadySelector * DispatchLane) : gmap (N * N) N :=
  default ∅ (default ∅ (default ∅ (ix_ready_counts_by_protocol ix !! i.1.1) !! i.1.2) !! i.2).

Definition counts_in (lanes : list DispatchLane) (m : gmap DispatchLane (gmap (N * N) N))
  : list (gmap (N * N) N) := omap (λ lane, m !! lane) lanes.

Lemma sum_counts_positions (f : gmap (N * N) N → N) ix runner lanes :
  f ∅ = 0%N →
  sum_list f (counts_of ix (build_ready_selectors (rd_runner_id runner))
                (rd_accepted_protocol_ids runner) (counts_in lanes))
  = sum_list (λ i, f (count_map ix i)) (positions runner lanes).
Proof.
  intros Hf. unfold counts_of, positions, count_map. rewrite !sum_list_bind.
  apply sum_list_ext. intros pid _.
  destruct (ix_ready_counts_by_protocol ix !! pid) as [m1|] eqn:H1.
  - rewrite !sum_list_bind. apply sum_list_ext. intros s _.
    destruct (m1 !! s) as [m2|] eqn:H2.
    + unfold counts_in. induction lanes as [|l lanes IH]; [done|]. rewrite bind_cons, sum_list_app, <-IH.
      csimpl. rewrite H1. simpl. rewrite H2. simpl. destruct (m2 !! l); simpl; lia.
    + rewrite sum_list_bind. simpl. symmetry. erewrite sum_list_ext; [apply sum_list_zero|].
      intros l _. simpl. rewrite H1. simpl. rewrite H2. simpl. rewrite lookup_empty. simpl. by rewrite Hf.
  - rewrite sum_list_bind. symmetry. erewrite sum_list_ext; [apply sum_list_zero|].
    intros s _. rewrite sum_list_bind. erewrite sum_list_ext; [apply sum_list_zero|].
    intros l _. simpl. rewrite H1. simpl. rewrite !lookup_empty. simpl. rewrite lookup_empty. simpl. by rewrite Hf.
Qed.

Lemma NoDup_positions runner lanes :
  NoDup (rd_accepted_protocol_ids runner) → NoDup lanes → NoDup (positions runner lanes).
Proof.
  intros Hp Hl. unfold positions. apply NoDup_bind; [|intros pid _|done].
  - intros p1 p2 i _ _ (s1 & (l1 & H1 & _)%list_elem_of_bind & _)%list_elem_of_bind
      (s2 & (l2 & H2 & _)%list_elem_of_bind & _)%list_elem_of_bind. set_solver.
  - apply NoDup_bind; [|intros s _|].
    + intros s1 s2 i _ _ (l1 & H1 & _)%list_elem_of_bind (l2 & H2 & _)%list_elem_of_bind. set_solver.
    + apply NoDup_bind; [|intros l _; apply NoDup_singleton|done]. set_solver.
    + unfold build_ready_selectors. repeat (apply NoDup_cons; split; [set_solver|]). constructor.
Qed.

Lemma elem_of_positions runner lanes r :
  record_position r ∈ positions runner lanes ↔
  t_protocol_id (rec_task r) ∈ rd_accepted_protocol_ids runner ∧
  record_selector r ∈ build_ready_selectors (rd_runner_id runner) ∧ in_lanes lanes r.
Proof.
  unfold positions, record_position, in_lanes. rewrite list_elem_of_bind. split.
  - intros (pid & (s & (l & Hi & Hl)%list_elem_of_bind & Hs)%list_elem_of_bind & Hp).
    apply list_elem_of_singleton in Hi as [= <- <- <-]. done.
  - intros (Hp & Hs & Hl). eexists. split; [|exact Hp]. apply list_elem_of_bind.
    eexists. split; [|exact Hs]. apply list_elem_of_bind. eexists. split; [|exact Hl].
    by apply list_elem_of_singleton.
Qed.

Lemma count_where_length P `{!∀ r, Decision (P r)} tasks :
  count_where P tasks = N.of_nat (length (filter P (map_to_list tasks).*2)).
Proof.
  induction tasks as [|x r tasks Hx IH] using map_ind; [by rewrite count_where_empty|].
  rewrite count_where_insert, IH, map_to_list_insert by done. csimpl. rewrite filter_cons.
  case_decide; simpl; lia.
Qed.

Lemma sum_positions_candidates p runner step gen lanes :
  pool_wf p → NoDup (rd_accepted_protocol_ids runner) → NoDup lanes →
  sum_list (λ i, sum_counts step gen (count_map (tp_indexes p) i)) (positions runner lanes)
  = N.of_nat (length (candidates p runner step gen lanes)).
Proof.
  intros Hwf Hp Hl. destruct (wf_index _ _ _ _ _ Hwf) as (lgap & [_ Hcount _ _ _ _ _ _] & _).
  rewrite (sum_list_ext _ (λ i, count_where (λ r, record_position r = i ∧
    (rec_status r = Ready ∧ bucket_due step gen (record_bucket r))) (tp_tasks p))).
  - rewrite count_where_sum by (by apply NoDup_positions).
    rewrite <-(length_fmap record_id), candidate_ids, length_fmap by done.
    unfold candidate_keys. rewrite merge_sort_Permutation, length_fmap, <-count_where_length.
    apply count_where_ext. intros r. rewrite elem_of_positions, elem_of_ready_selectors.
    unfold eligible, bucket_due, record_bucket, generation_matches. simpl.
    rewrite !orb_true_iff, !bool_decide_eq_true. intuition congruence.
  - intros i _. rewrite (sum_counts_records step gen (λ r, rec_status r = Ready ∧ record_position r = i)
      _ (tp_tasks p)).
    + apply count_where_ext. intros r. tauto.
    + intros k. specialize (Hcount (i, k)). unfold ready_count, count_at in Hcount. simpl in Hcount.
      unfold count_map. rewrite Hcount. unfold count_where. do 2 f_equal. apply map_filter_ext.
      intros x r _. unfold at_count. simpl. split; [intros [? [= <- <-]]; done|intros [[? <-] <-]; done].
Qed.

Lemma ready_dispatch_count_spec p runner step gen :
  pool_wf p → NoDup (rd_accepted_protocol_ids runner) →
  ∃ p', cached p p' ∧
    ready_dispatch_count p runner step gen
    = (N.of_nat (length (candidates p runner step gen DispatchLane_ALL)), p').
Proof.
  intros Hwf Hprot. unfold ready_dispatch_count.
  destruct (with_ready_selectors_spec p (rd_runner_id runner) Hwf) as (p' & -> & Hc).
  exists p'. split; [done|]. f_equal.
  pose proof (wf_cached p p' Hwf Hc) as Hwf'.
  assert (candidates p runner step gen DispatchLane_ALL = candidates p' runner step gen DispatchLane_ALL) as ->
    by (by destruct Hc as (c & -> & _)).
  rewrite <-(sum_positions_candidates p' runner step gen DispatchLane_ALL) by
    (try done; unfold DispatchLane_ALL; repeat (apply NoDup_cons; split; [set_solver|]); constructor).
  rewrite <-(sum_counts_positions (sum_counts step gen)) by done.
  unfold sum_list. change (@lane_values (gmap (N * N) N)) with (counts_in DispatchLane_ALL).
  induction (counts_of _ _ _ _) as [|m l IH]; [done|]. csimpl. by rewrite IH.
Qed.

End counts.
