(* ===== verification/TaskPoolOps.v ===== *)
(** * TaskPoolOps: histories of the task pool

    The operations of the pool as one type, a history as the operations run one
    after the other from the empty pool, and the lemma that every operation on a
    well-formed pool returns a well-formed pool in which each task has taken at most
    one step. *)
From S2P Require Import Prelude Contracts TaskIndexes TaskIndexSpec TaskPool TaskClaiming.
From S2P Require Import TaskMerge TaskPoolInv TaskHistory TaskStates TaskPoolSafety.
From S2P Require Import TaskPoolSweep TaskCandidates TaskSelection TaskLeasing.

Section ops.
Context {serde : Serde}.
Implicit Types (p : TaskPool) (r : TaskRecord).

Inductive PoolOp : Type :=
| OpEnqueue (task : Task) (step : N)
| OpClaim (runner : RunnerDescriptor) (executor_id : ExecutorId) (step gen limit : N)
    (budget : option DispatchBudget) (expires_at_step : option N)
| OpComplete (lease : TaskLease) (step : N) (output : option Value)
| OpFail (lease : TaskLease) (step : N) (failure : RuntimeError)
| OpWait (lease : TaskLease) (step : N) (ready_at_step : option N)
| OpWaitOnTask (lease : TaskLease) (step : N) (task_await : TaskAwait)
| OpDefer (lease : TaskLease) (step : N)
| OpBlock (lease : TaskLease) (step : N)
| OpCancelTask (lease : TaskLease) (step : N)
| OpWake (task_id : TaskId) (step : N)
| OpWakeDue (step : N)
| OpRejectReady (task_id : TaskId) (failure : RuntimeError)
| OpCancelInvocation (runner_id : RunnerId) (invocation_id : string) (step : N)
| OpCancelByCore (task_id : TaskId) (step : N)
| OpExpireByCore (task_id : TaskId) (failure : RuntimeError) (step : N)
| OpDeadLetterByCore (task_id : TaskId) (failure : RuntimeError) (step : N)
| OpRequestCancel (task_id : TaskId) (step : N) (failure : option RuntimeError)
| OpFinalizeCancellation (lease : TaskLease) (step : N)
| OpReclaim (step : N)
| OpAbortAll (step : N) (failure : RuntimeError)
| OpRebind (old_generation new_generation : N)
| OpTakeWaits (child_task_id : TaskId)
| OpConfigureRetention (retention : option TaskHistoryRetention)
| OpStaleRejection.

(** The pool an operation leaves; its answer is dropped. *)
Definition pool_of {A} (o : outcome (TaskPool * A)) : outcome TaskPool :=
  r ← o; Done r.1.

Definition run_op (op : PoolOp) (p : TaskPool) : outcome TaskPool :=
  match op with
  | OpEnqueue task step => Done (enqueue_at p task step).1
  | OpClaim runner executor_id step gen limit budget expires_at_step =>
      pool_of (claim_ready_for_executor_with_budget p runner executor_id step gen limit budget
                 expires_at_step)
  | OpComplete lease step output => pool_of (complete p lease step output)
  | OpFail lease step failure => pool_of (fail p lease step failure)
  | OpWait lease step ready_at_step => Done (wait p lease step ready_at_step).1
  | OpWaitOnTask lease step task_await => Done (wait_on_task p lease step task_await).1
  | OpDefer lease step => Done (defer_leased p lease step).1
  | OpBlock lease step => Done (block p lease step).1
  | OpCancelTask lease step => pool_of (cancel_task p lease step)
  | OpWake task_id step => Done (wake p task_id step).1
  | OpWakeDue step => pool_of (wake_due_tasks p step)
  | OpRejectReady task_id failure => pool_of (reject_ready p task_id failure)
  | OpCancelInvocation runner_id invocation_id step =>
      pool_of (cancel_running_invocation p runner_id invocation_id step)
  | OpCancelByCore task_id step => pool_of (cancel_by_core p task_id step)
  | OpExpireByCore task_id failure step => pool_of (expire_by_core p task_id failure step)
  | OpDeadLetterByCore task_id failure step => pool_of (dead_letter_by_core p task_id failure step)
  | OpRequestCancel task_id step failure => pool_of (request_cancel_by_core p task_id step failure)
  | OpFinalizeCancellation lease step => pool_of (finalize_requested_cancellation p lease step)
  | OpReclaim step => pool_of (reclaim_expired_task_leases p step)
  | OpAbortAll step failure => pool_of (abort_all p step failure)
  | OpRebind old_generation new_generation =>
      Done (rebind_ready_generation p old_generation new_generation).1
  | OpTakeWaits child_task_id => pool_of (take_waits_for_child p child_task_id)
  | OpConfigureRetention retention => configure_history_retention p retention
  | OpStaleRejection => Done (record_stale_result_rejection p)
  end.

(** What the callers of the pool guarantee: a runner descriptor lists a protocol
    once (the registry sorts and dedups), steps fit in 64 bits and the pool holds
    fewer than 2^64 records. *)
Definition op_ok p (op : PoolOp) : Prop :=
  match op with
  | OpEnqueue _ _ => (N.of_nat (size (tp_tasks p)) < u64_max)%N
  | OpClaim runner _ _ _ _ _ expires_at_step =>
      NoDup (rd_accepted_protocol_ids runner) ∧ expiry_width expires_at_step
  | _ => True
  end.

(** The buffers an operation asks for can be allocated. *)
Definition op_allocates (op : PoolOp) : bool :=
  match op with
  | OpClaim _ _ _ _ limit budget _ => selection_fits limit budget
  | _ => true
  end.

Inductive reachable : TaskPool → Prop :=
| reachable_default : reachable TaskPool_default
| reachable_step p op p' : reachable p → op_ok p op → run_op op p = Done p' → reachable p'.

(** The record [r'] an operation may add under [x]: the submitted task, numbered if it had
    no sequence of its own, ready since the step of the submission and not yet attempted. *)
Definition admits (op : PoolOp) (x : TaskId) r' : Prop :=
  match op with
  | OpEnqueue task step =>
      t_task_id task = x ∧
      ∃ sequence, (t_created_sequence task = 0%N ∨ sequence = t_created_sequence task) ∧
        r' = mkTaskRecord (set_t_created_sequence sequence task) None Ready None None None None 0 step
  | _ => False
  end.

Definition run_good (op : PoolOp) p p' : Prop :=
  pool_wf p' ∧
  ∀ x r', tp_tasks p' !! x = Some r' →
    (∃ r, tp_tasks p !! x = Some r ∧ task_step r r') ∨
    (tp_tasks p !! x = None ∧ admits op x r').

Lemma run_good_safe {A} op p (o : outcome (TaskPool * A)) :
  safe p o → ∃ p', pool_of o = Done p' ∧ run_good op p p'.
Proof.
  intros (p' & a & -> & Hwf & Hs). exists p'. split; [done|]. split; [done|]. intros x r' Hx.
  left. by apply Hs.
Qed.

Lemma run_good_pure {A} op p (o : TaskPool * A) :
  safe p (Done o) → ∃ p', Done o.1 = Done p' ∧ run_good op p p'.
Proof. apply (run_good_safe op p (Done o)). Qed.

Lemma enqueue_good p task step :
  pool_wf p → (N.of_nat (size (tp_tasks p)) < u64_max)%N →
  run_good (OpEnqueue task step) p (enqueue_at p task step).1.
Proof.
  intros Hwf Hsz. destruct (enqueue_at_safe p task step Hwf Hsz) as [Hwf' _]. split; [done|].
  intros x r'. unfold enqueue_at.
  destruct (contains_task_id p (t_task_id task)) eqn:Hc;
    [intros Hx; left; exists r'; split; [done|apply task_step_refl]|].
  apply contains_task_id_false in Hc as [Hx Hev].
  destruct (try_wire_len (t_payload task)) as [bytes|];
    [|intros Hx'; left; exists r'; split; [done|apply task_step_refl]].
  unfold insert_record_indexes, update_record_indexes. simpl. rewrite lookup_insert_eq. simpl.
  rewrite lookup_insert. case_decide; subst.
  - intros [= <-]. right. split; [done|]. split; [done|]. case_decide as Hseq.
    + eexists. split; [by left|done].
    + exists (t_created_sequence task). split; [by right|]. by destruct task.
  - intros Hx'. left. exists r'. split; [done|]. apply task_step_refl.
Qed.

Lemma wf_stale_rejection p : pool_wf p → pool_wf (record_stale_result_rejection p).
Proof. intros Hwf. apply wf_statistics; [done|]. by intros []. Qed.

(** Every operation on a well-formed pool returns a well-formed pool. *)
Lemma run_op_good p op :
  pool_wf p → op_ok p op → op_allocates op = true → ∃ p', run_op op p = Done p' ∧ run_good op p p'.
Proof.
  intros Hwf Hok Hal. destruct op; simpl in Hok, Hal |- *;
    try (first [apply run_good_safe|apply run_good_pure]; auto with mutsuki; fail);
    try (by apply run_good_safe, terminal_by_core_safe).
  - eexists. split; [done|]. by apply enqueue_good.
  - destruct Hok. apply run_good_safe; auto with mutsuki.
  - apply (run_good_pure _ p (rebind_ready_generation p old_generation new_generation)).
    auto with mutsuki.
  - destruct (configure_history_retention_safe p retention Hwf) as (p' & -> & Hwf' & Hs).
    exists p'. split; [done|]. split; [done|]. intros x r' Hx. left. by apply Hs.
  - eexists. split; [done|]. split; [by apply wf_stale_rejection|].
    intros x r' Hx. left. exists r'. split; [done|]. apply task_step_refl.
Qed.

Lemma run_op_overflow p op :
  pool_wf p → op_ok p op → op_allocates op = false → run_op op p = Panic VEC_CAPACITY_OVERFLOW.
Proof.
  intros Hwf Hok Hal. destruct op; try discriminate Hal. destruct Hok. cbn [run_op op_allocates] in *.
  by rewrite claim_overflow.
Qed.

(** An operation that returns. *)
Lemma run_op_done p op p' :
  pool_wf p → op_ok p op → run_op op p = Done p' → run_good op p p'.
Proof.
  intros Hwf Hok Hrun. destruct (op_allocates op) eqn:Hal.
  - destruct (run_op_good p op Hwf Hok Hal) as (p1 & Hrun1 & Hg). congruence.
  - by rewrite run_op_overflow in Hrun.
Qed.

Lemma pool_wf_default : pool_wf TaskPool_default.
Proof.
  split; simpl.
  - apply map_Forall_empty.
  - unfold size_ok. rewrite map_size_empty. lia.
  - exists ∅. split; [apply index_spec_empty|set_solver].
  - apply index_canon_default.
  - intros status _. unfold status_count. rewrite map_filter_empty, map_size_empty. by destruct status.
  - by rewrite !dom_empty_L.
  - done.
  - split; try apply all_values_empty; intros k a; unfold waits_at; rewrite lookup_empty; set_solver.
  - intros c. by rewrite lookup_empty.
  - intros q [? Hq]. by rewrite lookup_empty in Hq.
  - split; simpl; [constructor|set_solver|by intros []|done].
  - split; simpl; [constructor|done|set_solver|done|done].
  - intros rid s. by rewrite lookup_empty.
Qed.

Lemma reachable_pool_wf p : reachable p → pool_wf p.
Proof.
  induction 1 as [|p op p' _ IH Hok Hrun]; [apply pool_wf_default|].
  by destruct (run_op_done p op p' IH Hok Hrun).
Qed.

End ops.
