(* ===== verification/TaskPoolSamples.v ===== *)
(** * TaskPoolSamples: a concrete history of the task pool

    An encoder for the [Serde] parameter, a runner and a sequence of operations;
    the theorems about reachable pools are applied to the pool it leads to. *)
From S2P Require Import Prelude Contracts TaskIndexes TaskPool TaskClaiming TaskPoolInv.
From S2P Require Import TaskLeasing TaskPoolOps.

(** Values are strings, one chunk of their length each. *)
Definition sample_serde : Serde :=
  {| Value := string; Value_eq_dec := _; Value_null := "null"; Any := string;
     value_to_writer := λ v, Ok [N.of_nat (String.length v)];
     any_to_writer := λ v, Ok [N.of_nat (String.length v)];
     any_to_json := λ v, Ok v |}.
#[local] Existing Instance sample_serde.

Section history.
Context {serde : Serde}.

Definition op_okb (p : TaskPool) (op : PoolOp) : bool :=
  match op with
  | OpEnqueue _ _ => bool_decide (N.of_nat (size (tp_tasks p)) < u64_max)%N
  | OpClaim runner _ _ _ _ _ expires_at_step =>
      bool_decide (NoDup (rd_accepted_protocol_ids runner)) &&
      match expires_at_step with Some e => bool_decide (e ≤ u64_max)%N | None => true end
  | _ => true
  end.

(** Runs the operations as long as they are allowed. *)
Fixpoint run_history (ops : list PoolOp) (p : TaskPool) : TaskPool :=
  match ops with
  | [] => p
  | op :: ops =>
      if op_okb p op then
        match run_op op p with Done p' => run_history ops p' | Panic _ => p end
      else p
  end.

Lemma op_okb_ok p op : op_okb p op = true → op_ok p op.
Proof.
  destruct op; simpl; try done.
  - by rewrite bool_decide_eq_true.
  - rewrite andb_true_iff, bool_decide_eq_true. intros [? He]. split; [done|].
    intros e ->. by apply bool_decide_eq_true in He.
Qed.

Lemma run_history_reachable ops : ∀ p, reachable p → reachable (run_history ops p).
Proof.
  induction ops as [|op ops IH]; intros p Hp; simpl; [done|].
  destruct (op_okb p op) eqn:Hok; [|done]. destruct (run_op op p) as [p'|] eqn:Hrun; [|done].
  apply IH. eapply reachable_step; [done|by apply op_okb_ok|done].
Qed.

End history.

Definition sample_runner : RunnerDescriptor :=
  {| rd_runner_id := "runner-a"; rd_plugin_id := "plugin"; rd_plugin_generation := 1;
     rd_accepted_protocol_ids := ["echo"; "mail"]; rd_purity := Pure; rd_execution_class := Cpu;
     rd_invocation_mode := SyncExclusive; rd_concurrency := Exclusive; rd_input_schema := "null";
     rd_output_schema := "null"; rd_batch := RunnerBatchCapability_default;
     rd_payload := RunnerPayloadCapability_default;
     rd_resources := RunnerResourceCapability_default;
     rd_ordering := RunnerOrderingCapability_default;
     rd_control := RunnerControlCapability_default; rd_metadata := ∅;
     rd_contract_surfaces := [] |}.

Definition sample_task (id protocol : string) : Task := Task_new id protocol (PayloadJson "payload").

Definition sample_error : RuntimeError := RuntimeError_new "sample.failed" "test" "sample".

(** The lease the first claim of a task hands out at step 1. *)
Definition sample_lease (id : TaskId) : TaskLease :=
  {| tl_lease_id := "task-lease-1-" +:+ id +:+ "-1"; tl_task_id := id; tl_attempt_generation := 1;
     tl_runner_id := "runner-a"; tl_executor_id := "exec"; tl_registry_generation := 0;
     tl_acquired_at_step := 1; tl_expires_at_step := Some 3%N |}.

(** Four tasks: [t1] and [t2] run, [t3] is delayed, [t4] was completed and
    evicted after [t5] failed. *)
Definition sample_ops : list PoolOp :=
  [ OpConfigureRetention (Some (mkTaskHistoryRetention 1 4));
    OpEnqueue (sample_task "t4" "mail") 0;
    OpEnqueue (sample_task "t5" "mail") 0;
    OpClaim sample_runner "exec" 1 0 2 None (Some 3%N);
    OpComplete (sample_lease "t4") 1 (Some "done");
    OpFail (sample_lease "t5") 1 sample_error;
    OpEnqueue (sample_task "t1" "echo") 1;
    OpEnqueue (sample_task "t2" "echo") 1;
    OpEnqueue (set_t_ready_at_step (Some 9%N) (sample_task "t3" "echo")) 1;
    OpClaim sample_runner "exec" 1 0 2 (Some (single_batch 8)) (Some 3%N) ].

Definition sample_pool : TaskPool := run_history sample_ops TaskPool_default.

Lemma sample_pool_reachable : reachable sample_pool.
Proof. apply run_history_reachable, reachable_default. Qed.

Definition status_of (p : TaskPool) (x : TaskId) : option TaskStatus := rec_status <$> tp_tasks p !! x.

(** The record of a stored task. *)
Definition record_at (p : TaskPool) (x : TaskId) : TaskRecord :=
  default (mkTaskRecord (sample_task "" "") None Ready None None None None 0 0) (tp_tasks p !! x).

Lemma sample_statuses :
  status_of sample_pool "t1" = Some Running ∧ status_of sample_pool "t2" = Some Running ∧
  status_of sample_pool "t3" = Some Ready ∧ status_of sample_pool "t5" = Some Failed ∧
  status_of sample_pool "t4" = None ∧ tp_evicted_task_order sample_pool = ["t4"].
Proof. repeat split; vm_compute; reflexivity. Qed.

(** [t1] waits on [t2] (without a timer). *)
Definition sample_await : TaskAwait :=
  {| ta_parent_task_id := "t1";
     ta_child := mkTaskHandle "t2" "echo" None Cascade None None;
     ta_continuation := mkTaskStepContinuation
       {| rr_ref_id := "cont"; rr_resource_id := mkResourceId "cont" "kind" 1 1;
          rr_semantic := FrozenValue; rr_provider_id := "p"; rr_resource_kind := "kind";
          rr_schema := "null"; rr_version := 1; rr_generation := 1; rr_access := AccessInline;
          rr_size_hint := None; rr_content_hash := None; rr_lifetime := BorrowedUntilTaskEnd;
          rr_lease := None; rr_seal_state := Sealed |} None None;
     ta_cancel_policy := Cascade |}.

Definition waiting_pool : TaskPool := run_history [OpWaitOnTask (sample_lease "t1") 2 sample_await] sample_pool.

Lemma waiting_pool_reachable : reachable waiting_pool.
Proof. apply run_history_reachable, sample_pool_reachable. Qed.

(** Three tasks completed without a bound on the history. *)
Definition history_pool : TaskPool :=
  run_history
    [ OpEnqueue (sample_task "a" "echo") 0; OpEnqueue (sample_task "b" "echo") 0;
      OpEnqueue (sample_task "c" "echo") 0; OpClaim sample_runner "exec" 1 0 8 None (Some 3%N);
      OpComplete (sample_lease "c") 1 None; OpComplete (sample_lease "a") 1 None;
      OpComplete (sample_lease "b") 1 None ] TaskPool_default.

Lemma history_pool_reachable : reachable history_pool.
Proof. apply run_history_reachable, reachable_default. Qed.
