(* ===== verification/TaskPoolTheorems.v ===== *)
(** * TaskPoolTheorems: what holds of every reachable pool

    The invariant, the absence of panics, the task state machine, lease fencing
    over whole histories, and the agreement of the incremental indexes and the
    counters with what a recount over the records gives. *)
From S2P Require Import Prelude Contracts TaskIndexes TaskIndexSpec TaskPool TaskClaiming.
From S2P Require Import TaskMerge TaskPoolInv TaskHistory TaskStates TaskPoolSafety.
From S2P Require Import TaskPoolSweep TaskCandidates TaskSelection TaskLeasing TaskPoolOps.
From S2P Require Import TaskPoolSamples.

Section theorems.
Context {serde : Serde}.
Implicit Types (p : TaskPool) (r : TaskRecord).

(** ** Histories that keep a task *)

(** [p'] is reached from [p] and the task [x] is stored all the way. *)
Inductive retained (x : TaskId) : TaskPool → TaskPool → Prop :=
| retained_refl p : is_Some (tp_tasks p !! x) → retained x p p
| retained_step p op p1 p' :
    is_Some (tp_tasks p !! x) → op_ok p op → run_op op p = Done p1 → retained x p1 p' → retained x p p'.

(** [lease] is not the active lease of [x], and was handed out before any lease
    that may follow. *)
Definition revoked p (x : TaskId) (lease : TaskLease) : Prop :=
  ∃ r, tp_tasks p !! x = Some r ∧ rec_lease r ≠ Some lease ∧
    (tl_attempt_generation lease ≤ rec_attempt_generation r)%N.

Lemma revoked_step p op p1 x lease :
  pool_wf p → op_ok p op → run_op op p = Done p1 → revoked p x lease → is_Some (tp_tasks p1 !! x) →
  (tl_attempt_generation lease < u64_max)%N → revoked p1 x lease.
Proof.
  intros Hwf Hok Hrun (r & Hr & Hne & Hle) [r1 Hr1] Hsat.
  destruct (run_op_done p op p1 Hwf Hok Hrun) as [Hwf1 Hstep].
  destruct (Hstep x r1 Hr1) as [(r' & Hr' & [_ Hst Hatt Hlease _ _])|[Hnone _]]; [|congruence].
  rewrite Hr in Hr'. injection Hr' as <-.
  exists r1. split; [done|].
  destruct (decide (rec_status r ≠ Running ∧ rec_status r1 = Running)) as [[Hnr Hrun1]|Hn].
  - destruct (wf_rec_running _ _ (wf_records _ _ _ _ _ Hwf1 x r1 Hr1) Hrun1) as (l & Hl & _ & Hgen & _).
    assert (tl_attempt_generation lease < rec_attempt_generation r1)%N.
    { rewrite Hatt. unfold sat_add. lia. }
    split; [|lia]. rewrite Hl. intros [= ->]. lia.
  - split; [|rewrite Hatt; done]. destruct (decide (rec_status r1 = rec_status r)) as [Heq|Hneq].
    + by rewrite (proj1 (Hlease Heq)).
    + destruct (decide (rec_status r1 = Running)) as [Hr1run|Hr1run].
      * destruct (decide (rec_status r = Running)); [congruence|]. tauto.
      * by destruct (wf_rec_idle _ _ (wf_records _ _ _ _ _ Hwf1 x r1 Hr1) Hr1run) as [-> _].
Qed.

Lemma retained_first x p p' : retained x p p' → is_Some (tp_tasks p !! x).
Proof. by destruct 1. Qed.

Lemma revoked_retained x p p' lease :
  retained x p p' → pool_wf p → revoked p x lease → (tl_attempt_generation lease < u64_max)%N →
  revoked p' x lease.
Proof.
  induction 1 as [p Hx|p op p1 p' Hx Hok Hrun Hret IH]; intros Hwf Hrev Hsat; [done|].
  apply IH; [|by eapply revoked_step; [..|by eapply retained_first|]|done].
  by destruct (run_op_done p op p1 Hwf Hok Hrun).
Qed.

Lemma revoked_rejected p x lease step action :
  revoked p x lease → is_ok (ensure_active_lease p x lease step action) = false.
Proof.
  intros (r & Hr & Hne & _). unfold ensure_active_lease, record_of. rewrite Hr.
  destruct (validate_record_lease_cases r lease step action) as [Hv|[e ->]]; [|done].
  apply validate_record_lease_Ok in Hv as (_ & _ & ? & _). done.
Qed.

(** ** Theorems *)

(** C9: every pool reached from the empty one by pool operations satisfies the
    pool invariant: leases and statuses agree, the eight indexes describe exactly
    the stored records, the status counters count them, wait links are mirrored
    between child and parent, and the terminal history and the eviction window are
    duplicate-free, complete and disjoint from the stored tasks. *)
Theorem pool_invariant p : reachable p → pool_wf p.
Proof. apply reachable_pool_wf. Qed.

(** C11: when an operation panics.  On a reachable pool a claim whose selection buffers
    would exceed [isize::MAX] bytes (more than 3.8e17 entries) panics; every other
    operation returns a pool that is reachable again: none of the [expect]s on the
    records, payload sizes and history is reached, and every loop ends within the fuel of
    the model. *)
Theorem pool_panics_only_on_overflow p op :
  reachable p → op_ok p op →
  if op_allocates op then ∃ p', run_op op p = Done p' ∧ reachable p'
  else run_op op p = Panic VEC_CAPACITY_OVERFLOW.
Proof.
  intros Hp Hok. pose proof (reachable_pool_wf p Hp) as Hwf. destruct (op_allocates op) eqn:Hal.
  - destruct (run_op_good p op Hwf Hok Hal) as (p' & Hrun & _). exists p'. split; [done|].
    by eapply reachable_step.
  - by apply run_op_overflow.
Qed.

(** C2: the task state machine: one operation takes every stored task along at most one
    edge of [status_edge]; what was submitted stays as it was, except that the due step and
    the continuation are set when the task is parked, and the registry generation of a task
    that stays ready may be rebound; the attempt generation is raised exactly when the task
    starts to run, the lease changes only with the status; and the only record an operation
    adds is that of the submitted task, [Ready] and not yet attempted. *)
Theorem task_state_machine p op p' x r' :
  reachable p → op_ok p op → run_op op p = Done p' → tp_tasks p' !! x = Some r' →
  (∃ r, tp_tasks p !! x = Some r ∧ task_step r r') ∨ (tp_tasks p !! x = None ∧ admits op x r').
Proof.
  intros Hp Hok Hrun Hx.
  destruct (run_op_done p op p' (reachable_pool_wf p Hp) Hok Hrun) as [_ Hs]. by apply Hs.
Qed.

(** A terminal task stays in its terminal status, with its submission
    unchanged, for as long as it is stored. *)
Theorem terminal_status_is_final p op p' x r r' :
  reachable p → op_ok p op → run_op op p = Done p' →
  tp_tasks p !! x = Some r → is_terminal_status (rec_status r) = true → tp_tasks p' !! x = Some r' →
  rec_status r' = rec_status r ∧ rec_attempt_generation r' = rec_attempt_generation r.
Proof.
  intros Hp Hok Hrun Hx Ht Hx'.
  destruct (run_op_done p op p' (reachable_pool_wf p Hp) Hok Hrun) as [_ Hs].
  destruct (Hs x r' Hx') as [(r0 & Hr0 & Hstep)|[Hnone _]]; [|congruence].
  rewrite Hx in Hr0. injection Hr0 as <-. pose proof (task_step_terminal _ _ Hstep Ht) as Hst.
  split; [done|]. destruct Hstep as [_ _ -> _ _ _]. rewrite Hst, decide_False; [done|tauto].
Qed.

(** C5: lease fencing over histories: a lease of an attempt that has begun and that
    is not the active lease of its task (because it was completed, cancelled,
    deferred or reclaimed) is rejected at every later point of every history that
    keeps the task, whatever attempts start in between; the attempt counter must
    not have reached its saturation value. *)
Theorem revoked_lease_is_fenced_forever p p' x lease step action :
  reachable p → retained x p p' → revoked p x lease → (tl_attempt_generation lease < u64_max)%N →
  is_ok (ensure_active_lease p' x lease step action) = false.
Proof.
  intros Hp Hret Hrev Hsat. apply revoked_rejected.
  by eapply revoked_retained; [|apply reachable_pool_wf| |].
Qed.

(** C10: the incrementally maintained indexes of a reachable pool without pending
    cancellations are equal to the indexes rebuilt from scratch. *)
Theorem indexes_equal_rebuild p :
  reachable p → tp_pending_cancellations p = ∅ → tp_indexes p = rebuild_indexes_of (tp_tasks p).
Proof.
  intros Hp Hpend. pose proof (reachable_pool_wf p Hp) as Hwf.
  destruct (wf_index _ _ _ _ _ Hwf) as (lgap & Hix & Hgap).
  destruct (rebuild_indexes_spec (tp_tasks p) (wf_records _ _ _ _ _ Hwf)) as [Hix' Hcan'].
  apply (index_unique ∅ ∅ (tp_tasks p)); [|by destruct Hwf|done|done].
  apply (index_spec_lgap lgap); [done|]. intros x r Hx Hr Hrun.
  destruct (Hgap x r Hx Hr Hrun) as [Hp'|]; [|set_solver]. rewrite Hpend, lookup_empty in Hp'. by destruct Hp'.
Qed.

(** The status counters of a reachable pool are exact: each one is the number
    of stored records with that status, and [retained_terminal_records] the number
    of terminal ones. *)
Theorem statistics_are_exact p :
  reachable p →
  (∀ status, status ≠ Created →
     status_counter status (tp_statistics p) = N.of_nat (status_count status (tp_tasks p))) ∧
  retained_terminal_records p
  = N.of_nat (size (filter (λ kv, is_terminal_status (rec_status kv.2) = true) (tp_tasks p))).
Proof.
  intros Hp. pose proof (wf_stats _ _ _ _ _ (reachable_pool_wf p Hp)) as Hst.
  split; [done|]. unfold retained_terminal_records. rewrite terminal_count.
  pose proof (Hst Completed ltac:(done)). pose proof (Hst Failed ltac:(done)).
  pose proof (Hst Cancelled ltac:(done)). pose proof (Hst Expired ltac:(done)).
  pose proof (Hst DeadLetter ltac:(done)). simpl in *. lia.
Qed.

End theorems.

(** ** The theorems on a concrete history *)

#[local] Existing Instance sample_serde.

(** One more operation on the sample pool: its tasks are aborted. *)
Definition sample_abort : PoolOp := OpAbortAll 2 sample_error.
Definition aborted_pool : TaskPool :=
  match run_op sample_abort sample_pool with Done p => p | Panic _ => sample_pool end.

Lemma pool_invariant_witness : reachable sample_pool ∧ pool_wf sample_pool.
Proof. split; [apply sample_pool_reachable|apply pool_invariant, sample_pool_reachable]. Defined.

Lemma pool_panics_only_on_overflow_witness : ∃ p', run_op sample_abort sample_pool = Done p' ∧ reachable p'.
Proof. apply (pool_panics_only_on_overflow sample_pool sample_abort); [apply sample_pool_reachable|exact I]. Defined.

Lemma run_sample_abort : run_op sample_abort sample_pool = Done aborted_pool.
Proof. vm_compute. reflexivity. Qed.

Lemma task_state_machine_witness :
  ∃ r', tp_tasks aborted_pool !! "t3" = Some r' ∧ rec_status r' = Cancelled ∧
    ((∃ r, tp_tasks sample_pool !! "t3" = Some r ∧ task_step r r') ∨
     (tp_tasks sample_pool !! "t3" = None ∧ admits sample_abort "t3" r')).
Proof.
  eexists. split; [vm_compute; reflexivity|]. split; [vm_compute; reflexivity|].
  eapply (task_state_machine sample_pool sample_abort aborted_pool "t3").
  - apply sample_pool_reachable.
  - exact I.
  - apply run_sample_abort.
  - vm_compute. reflexivity.
Defined.

(** The leases of [t1] and [t2] expire while [t5] stays failed. *)
Definition reclaimed_pool : TaskPool :=
  match run_op (OpReclaim 9) sample_pool with Done p => p | Panic _ => sample_pool end.

Lemma terminal_status_is_final_witness :
  rec_status (record_at reclaimed_pool "t5") = rec_status (record_at sample_pool "t5") ∧
  rec_attempt_generation (record_at reclaimed_pool "t5") = rec_attempt_generation (record_at sample_pool "t5").
Proof.
  apply (terminal_status_is_final sample_pool (OpReclaim 9) reclaimed_pool "t5").
  - apply sample_pool_reachable.
  - exact I.
  - vm_compute. reflexivity.
  - vm_compute. reflexivity.
  - vm_compute. reflexivity.
  - vm_compute. reflexivity.
Defined.

(** The failed task keeps refusing its old lease. *)
Lemma revoked_lease_is_fenced_forever_witness :
  is_ok (ensure_active_lease (record_stale_result_rejection sample_pool) "t5" (sample_lease "t5") 1
           "complete") = false.
Proof.
  apply (revoked_lease_is_fenced_forever sample_pool).
  - apply sample_pool_reachable.
  - eapply (retained_step _ _ OpStaleRejection); [vm_compute; by eexists|exact I|reflexivity|].
    apply retained_refl. vm_compute. by eexists.
  - eexists. split; [vm_compute; reflexivity|]. split; vm_compute; congruence.
  - vm_compute. reflexivity.
Defined.

Lemma indexes_equal_rebuild_witness :
  tp_pending_cancellations sample_pool = ∅ ∧
  tp_indexes sample_pool = rebuild_indexes_of (tp_tasks sample_pool).
Proof.
  split; [vm_compute; reflexivity|]. apply indexes_equal_rebuild; [apply sample_pool_reachable|].
  vm_compute. reflexivity.
Defined.

Lemma statistics_are_exact_witness :
  status_counter Running (tp_statistics sample_pool) = 2%N ∧ retained_terminal_records sample_pool = 1%N ∧
  status_count Running (tp_tasks sample_pool) = 2%nat.
Proof.
  destruct (statistics_are_exact sample_pool sample_pool_reachable) as [Hs Ht]. split_and!.
  - rewrite Hs by done. vm_compute. reflexivity.
  - rewrite Ht. vm_compute. reflexivity.
  - vm_compute. reflexivity.
Defined.

(** Why [indexes_equal_rebuild] asks for no pending cancellation: reclaiming drains the expiry index and
    then skips a task whose cancellation is pending, so the index loses the entry of
    a task that still runs. *)
Definition cancelling_pool : TaskPool :=
  run_history [OpRequestCancel "t1" 2 None; OpReclaim 9] sample_pool.

Example reclaim_drops_pending_expiry :
  reachable cancelling_pool ∧ status_of cancelling_pool "t1" = Some Running ∧
  ("t1" ∉ bucket (ix_leases_by_expiry (tp_indexes cancelling_pool)) 3%N) ∧
  "t1" ∈ bucket (ix_leases_by_expiry (rebuild_indexes_of (tp_tasks cancelling_pool))) 3%N.
Proof.
  split; [apply run_history_reachable, sample_pool_reachable|].
  split_and!; [vm_compute; reflexivity|apply (bool_decide_unpack _); vm_compute; exact I..].
Qed.

(** A cancellation that was requested while the task ran survives [wait_on_task]: the
    parent then waits, and a further request answers that its runner will finalize
    it, although no runner holds it. *)
Definition parked_pool : TaskPool :=
  run_history [OpRequestCancel "t1" 2 None; OpWaitOnTask (sample_lease "t1") 2 sample_await] sample_pool.

Example request_cancel_on_parked_task :
  reachable parked_pool ∧ status_of parked_pool "t1" = Some Waiting ∧
  request_cancel_by_core parked_pool "t1" 3 None = Done (parked_pool, Ok false).
Proof.
  split; [apply run_history_reachable, sample_pool_reachable|].
  split; vm_compute; reflexivity.
Qed.
