(* ===== verification/TaskTransitionTheorems.v ===== *)
(** * TaskTransitionTheorems: what each transition of the pool does

    Lease-guarded transitions, completion, expiry, waking, admission, history,
    wait links, cancellation and aborting, on every reachable pool. *)
From S2P Require Import Prelude Contracts TaskIndexes TaskIndexSpec TaskPool TaskClaiming.
From S2P Require Import TaskMerge TaskPoolInv TaskHistory TaskStates TaskPoolSafety.
From S2P Require Import TaskPoolSweep TaskCandidates TaskSelection TaskLeasing TaskPoolOps.
From S2P Require Import TaskPoolSamples.

Section transitions.
Context {serde : Serde}.
Implicit Types (p : TaskPool) (r : TaskRecord).

(** ** Leases *)

(** [lease] is the lease its task runs under, and it has not expired. *)
Definition active_leaseb p (lease : TaskLease) (step : N) : bool :=
  match tp_tasks p !! tl_task_id lease with
  | Some r => bool_decide (rec_lease r = Some lease) && negb (task_lease_expired lease step)
  | None => false
  end.

(** A record with a lease runs under it. *)
Lemma running_of_lease p x r lease :
  pool_wf p → tp_tasks p !! x = Some r → rec_lease r = Some lease →
  rec_status r = Running ∧ tl_task_id lease = x ∧ rec_claimed_by r = Some (tl_runner_id lease).
Proof.
  intros Hwf Hx Hl. destruct (wf_records _ _ _ _ _ Hwf _ _ Hx) as [_ _ Hrun Hidle].
  assert (rec_status r = Running) as Hst.
  { destruct (decide (rec_status r = Running)); [done|]. destruct Hidle; congruence. }
  destruct (Hrun Hst) as (l & Hl' & Htid & _ & Hcl & _). rewrite Hl in Hl'. by injection Hl' as <-.
Qed.

(** Only the indexes differ, and they describe the same records. *)
Definition refreshed p p' : Prop := ∃ ix, p' = set_tp_indexes ix p.

Lemma validate_active p r lease step action :
  pool_wf p → tp_tasks p !! tl_task_id lease = Some r →
  is_ok (validate_record_lease r lease step action) = active_leaseb p lease step.
Proof.
  intros Hwf Hr. unfold active_leaseb. rewrite Hr.
  destruct (validate_record_lease_cases r lease step action) as [Hv|[e Hv]]; rewrite Hv; simpl.
  - apply validate_record_lease_Ok in Hv as (_ & _ & Hl & ->). by rewrite bool_decide_eq_true_2.
  - symmetry. apply andb_false_iff. destruct (task_lease_expired lease step) eqn:He; [by right|left].
    apply bool_decide_eq_false. intros Hl.
    destruct (running_of_lease p _ r lease Hwf Hr Hl) as (? & _ & ?).
    assert (validate_record_lease r lease step action = Ok tt); [|congruence].
    by apply validate_record_lease_Ok.
Qed.

(** The guarded mutation answers whether the lease is active; when it is not, the
    records are as before. *)
Lemma mutate_validated_spec p lease step action f :
  pool_wf p →
  let o := mutate_record_indexed p (tl_task_id lease) (validated lease step action f) in
  is_ok o.2 = active_leaseb p lease step ∧
  (active_leaseb p lease step = false → refreshed p o.1) ∧
  (active_leaseb p lease step = true → ∃ r, tp_tasks p !! tl_task_id lease = Some r ∧
     rec_lease r = Some lease ∧ rec_status r = Running ∧
     o = (put_record p (tl_task_id lease) r (f r), Ok tt)).
Proof.
  intros Hwf. simpl.
  destruct (mutate_validated_cases p lease step action f)
    as [[Hx ->]|[(r & e & Hx & Hv & ->)|(r & Hx & Hv & ->)]]; simpl.
  - assert (active_leaseb p lease step = false) as -> by (unfold active_leaseb; by rewrite Hx).
    split_and!; [done| |done]. intros _. exists (tp_indexes p). by destruct p.
  - rewrite <-(validate_active p r lease step action Hwf Hx), Hv. split_and!; [done| |done].
    intros _. eexists. unfold put_record. rewrite insert_id by done. by destruct p.
  - rewrite <-(validate_active p r lease step action Hwf Hx), Hv. split_and!; [done|done|].
    intros _. apply validate_record_lease_Ok in Hv as (? & _ & ? & _). by exists r.
Qed.

(** An answer and a pool: accepted exactly under an active lease, and otherwise
    nothing but the indexes is written. *)
Definition fenced {A} p (lease : TaskLease) (step : N) (o : outcome (TaskPool * RuntimeResult A)) : Prop :=
  ∃ p' res, o = Done (p', res) ∧ is_ok res = active_leaseb p lease step ∧
    (is_ok res = false → refreshed p p').

Lemma fenced_pure {A} p lease step action f (k : TaskPool → TaskPool * RuntimeResult A) :
  pool_wf p → (∀ p, is_ok (k p).2 = true) →
  fenced p lease step (Done (match mutate_record_indexed p (tl_task_id lease) (validated lease step action f) with
                             | (p, Err e) => (p, Err e)
                             | (p, Ok _) => k p
                             end)).
Proof.
  intros Hwf Hk. destruct (mutate_validated_spec p lease step action f Hwf) as (Hok & Hno & _).
  destruct (mutate_record_indexed _ _ _) as [p1 [u|e]]; simpl in *.
  - exists (k p1).1, (k p1).2. rewrite Hk, <-Hok. split_and!; [by destruct (k p1)|done|done].
  - do 2 eexists. split; [done|]. split; [done|]. rewrite <-Hok in Hno. auto.
Qed.

Lemma fenced_safe {A} p lease step action f (k : TaskPool → outcome (TaskPool * RuntimeResult A)) :
  pool_wf p →
  let o := match mutate_record_indexed p (tl_task_id lease) (validated lease step action f) with
           | (p, Err e) => Done (p, Err e)
           | (p, Ok _) => k p
           end in
  safe p o → (∀ p p' res, k p = Done (p', res) → is_ok res = true) → fenced p lease step o.
Proof.
  intros Hwf. destruct (mutate_validated_spec p lease step action f Hwf) as (Hok & Hno & _).
  destruct (mutate_record_indexed _ _ _) as [p1 [u|e]]; simpl in *; intros Hsafe Hk.
  - destruct Hsafe as (p' & res & Hres & _). exists p', res. split; [done|].
    rewrite (Hk _ _ _ Hres), <-Hok. done.
  - do 2 eexists. split; [done|]. split; [done|]. rewrite <-Hok in Hno. auto.
Qed.

Lemma bind_record_terminal_ok {A} p x (a : A) p' (res : RuntimeResult A) :
  (q ← record_terminal_task p x; Done (q, Ok a)) = Done (p', res) → is_ok res = true.
Proof. destruct (record_terminal_task p x); simpl; [|done]. by intros [= _ <-]. Qed.

(** C15: lease fencing of every transition a runner can ask for: completing, failing,
    waiting, deferring, blocking and cancelling return [Ok] exactly when the
    presented lease is the one the task runs under and has not expired; otherwise
    they return an error and change no record, counter, wait link, pending
    cancellation or history entry. *)
Theorem transitions_are_fenced p lease step output failure ready_at_step :
  reachable p →
  fenced p lease step (complete p lease step output) ∧
  fenced p lease step (fail p lease step failure) ∧
  fenced p lease step (cancel_task p lease step) ∧
  fenced p lease step (Done (wait p lease step ready_at_step)) ∧
  fenced p lease step (Done (defer_leased p lease step)) ∧
  fenced p lease step (Done (block p lease step)).
Proof.
  intros Hp. pose proof (reachable_pool_wf p Hp) as Hwf. split_and!.
  - apply fenced_safe; [done|by apply complete_safe|]. intros q. apply bind_record_terminal_ok.
  - apply fenced_safe; [done|by apply fail_safe|]. intros q. apply bind_record_terminal_ok.
  - apply fenced_safe; [done|by apply cancel_task_safe|]. intros q. apply bind_record_terminal_ok.
  - by apply fenced_pure.
  - by apply fenced_pure.
  - by apply fenced_pure.
Qed.

(** ** Completion *)

(** Only terminal records that no wait link references may have disappeared. *)
Definition evicts_only_history p p' : Prop :=
  ∀ y r, tp_tasks p !! y = Some r → tp_tasks p' !! y = None →
    is_terminal_status (rec_status r) = true ∧ is_protected p y = false.

Lemma complete_effect p lease step output r :
  pool_wf p → active_leaseb p lease step = true → tp_tasks p !! tl_task_id lease = Some r →
  ∃ p' p1, complete p lease step output = Done (p', Ok tt) ∧
    tp_tasks p1 = <[tl_task_id lease :=
      mark_terminal_record (set_rec_output output r) Completed None]> (tp_tasks p) ∧
    tp_tasks p' ⊆ tp_tasks p1 ∧ evicts_only_history p1 p' ∧
    tp_waits_by_child p1 = tp_waits_by_child p ∧ tp_waits_by_parent p1 = tp_waits_by_parent p ∧
    (∀ ret, tp_history_retention p = Some ret → compaction_done ret p') ∧
    (tp_tasks p' !! tl_task_id lease = None → crowded_out p' (tp_history_retention p)).
Proof.
  intros Hwf Hact Hr. unfold complete.
  destruct (mutate_validated_spec p lease step "complete"
    (λ r, mark_terminal_record (set_rec_output output r) Completed None) Hwf) as (_ & _ & Hyes).
  destruct (Hyes Hact) as (r' & Hr' & _ & Hrun & ->). rewrite Hr in Hr'. injection Hr' as <-.
  pose proof (wf_records _ _ _ _ _ Hwf _ _ Hr) as Hrec.
  set (r' := mark_terminal_record (set_rec_output output r) Completed None).
  assert (record_wf (tl_task_id lease) r') as Hr'
    by (apply record_wf_terminal; [by destruct Hrec|done]).
  set (p1 := record_attempt_finished (remove_pending
    (with_statistics (record_status_transition (Some Running) (Some Completed))
       (put_record p (tl_task_id lease) r r')) (tl_task_id lease)) lease step).
  assert (pool_wf_gap ∅ ∅ (∅ ∪ {[tl_task_id lease]}) ∅ p1) as Hwf1.
  { rewrite (left_id_L ∅ (∪)). apply wf_attempt_finished, wf_remove_pending.
    - by apply (wf_finish_running p _ r r').
    - by eapply not_running_terminal; [|apply lookup_put]. }
  assert (is_terminal (tp_tasks p1) (tl_task_id lease)) as Hterm
    by (exists r'; split; [apply lookup_insert_eq|done]).
  destruct (wf_record_terminal ∅ ∅ ∅ ∅ p1 (tl_task_id lease)) as (p' & Hp' & _ & Hsub & _ & Hdone & _ & Hev);
    [done|done|set_solver|].
  cbv zeta. fold r' p1. rewrite Hp'. exists p', p1. split_and!; try done.
  - intros y ry Hy Hy'. by destruct (Hev y ry Hy Hy') as (? & ? & _).
  - by apply (record_terminal_newest ∅ ∅ ∅ ∅ p1).
Qed.

(** C16: an accepted completion: the task is stored as [Completed] with the given output, no
    failure and no lease, unless the terminal history is bounded, at its bound and nothing
    else in it can be evicted; every other task is untouched, or was terminal and referenced
    by no wait link and is gone; and afterwards the history fits its bound or every entry of
    it is referenced. *)
Theorem complete_finishes_the_task p lease step output r :
  reachable p → active_leaseb p lease step = true → tp_tasks p !! tl_task_id lease = Some r →
  ∃ p', complete p lease step output = Done (p', Ok tt) ∧
    match tp_tasks p' !! tl_task_id lease with
    | Some r' =>
        r' = mkTaskRecord (set_t_lease_id None (rec_task r)) output Completed None None None None
               (rec_attempt_generation r) (rec_ready_since_step r)
    | None => crowded_out p' (tp_history_retention p)
    end ∧
    (∀ y, y ≠ tl_task_id lease →
       tp_tasks p' !! y = tp_tasks p !! y ∨
       ∃ ry, tp_tasks p !! y = Some ry ∧ tp_tasks p' !! y = None ∧
         is_terminal_status (rec_status ry) = true ∧ is_protected p y = false) ∧
    (∀ ret, tp_history_retention p = Some ret → compaction_done ret p').
Proof.
  intros Hp Hact Hr. pose proof (reachable_pool_wf p Hp) as Hwf.
  destruct (complete_effect p lease step output r Hwf Hact Hr)
    as (p' & p1 & -> & Ht1 & Hsub & Hev & Hc & Hq & Hdone & Hgone).
  exists p'. split; [done|]. split_and!; [..|done].
  - destruct (tp_tasks p' !! tl_task_id lease) as [r'|] eqn:Hr'; [|auto].
    eapply lookup_weaken in Hr'; [|done]. rewrite Ht1, lookup_insert_eq in Hr'. by injection Hr' as <-.
  - intros y Hne. assert (tp_tasks p1 !! y = tp_tasks p !! y) as Hy by (by rewrite Ht1, lookup_insert_ne).
    rewrite <- Hy. destruct (tp_tasks p' !! y) as [r'|] eqn:Hy'.
    + left. symmetry. by eapply lookup_weaken.
    + destruct (tp_tasks p1 !! y) as [ry|] eqn:Hy1; [right|by left]. exists ry.
      destruct (Hev y ry Hy1 Hy') as [? Hprot]. split_and!; [done..|].
      unfold is_protected in *. by rewrite Hc, Hq in Hprot.
Qed.

(** ** Expiry and waking *)

(** C17: reclaiming at [step] puts back to [Ready], without a lease, exactly the
    running tasks whose lease has expired and whose cancellation is not pending,
    returns their leases, and leaves every other task as it was. *)
Theorem reclaim_is_exact p step :
  reachable p →
  ∃ p' ids, reclaim_expired_task_leases p step
      = Done (p', omap (λ x, r ← tp_tasks p !! x; rec_lease r) ids) ∧
    NoDup ids ∧
    (∀ x, x ∈ ids ↔ tp_pending_cancellations p !! x = None ∧
       ∃ r lease, tp_tasks p !! x = Some r ∧ rec_status r = Running ∧ rec_lease r = Some lease ∧
         task_lease_expired lease step = true) ∧
    (∀ x, tp_tasks p' !! x
       = if decide (x ∈ ids) then make_ready step <$> tp_tasks p !! x else tp_tasks p !! x).
Proof.
  intros Hp. destruct (reclaim_expired_spec p step (reachable_pool_wf p Hp))
    as (p' & ids & ? & _ & ? & Hch & _ & Hids). exists p', ids. split_and!; auto.
Qed.

(** Waking at [step] puts back to [Ready] every waiting or blocked task whose
    wake step has come, and no task whose wake step is still ahead; all other tasks
    are as before. *)
Theorem wake_due_is_exact p step :
  reachable p → (step < u64_max)%N →
  ∃ p' due, wake_due_tasks p step = Done (p', due) ∧ NoDup due.*1 ∧
    (∀ x s, (x, s) ∈ due ↔ (s ≤ step)%N ∧ ∃ r, tp_tasks p !! x = Some r ∧
       (rec_status r = Waiting ∨ rec_status r = Blocked) ∧ t_ready_at_step (rec_task r) = Some s) ∧
    (∀ x, tp_tasks p' !! x
       = if decide (x ∈ due.*1) then make_ready step <$> tp_tasks p !! x else tp_tasks p !! x).
Proof.
  intros Hp Hw. destruct (wake_due_spec p step (reachable_pool_wf p Hp))
    as (p' & due & ? & _ & ? & Hch & Hdue & Hcomp). exists p', due. split_and!; [done|done| |done].
  intros x s. split.
  - intros Hx. destruct (Hdue x s Hx) as (r & ? & [? ?] & [|]); [|lia]. eauto.
  - intros (? & r & ? & ? & ?). by eapply Hcomp.
Qed.

(** ** Admission *)

(** An accepted submission was neither stored nor in the eviction window; the
    pool then holds it as a [Ready] record of attempt 0 under its id, every other
    task is as before, and the id is taken: any further submission under it is
    refused and leaves the pool unchanged. *)
Theorem admission_is_unique p task step p' x :
  enqueue_at p task step = (p', Ok x) →
  x = t_task_id task ∧ tp_tasks p !! x = None ∧ (x ∉ tp_evicted_task_ids p) ∧
  (∃ r, tp_tasks p' !! x = Some r ∧ rec_status r = Ready ∧ rec_attempt_generation r = 0%N ∧
     rec_ready_since_step r = step ∧ t_payload (rec_task r) = t_payload task ∧ record_id r = x) ∧
  (∀ y, y ≠ x → tp_tasks p' !! y = tp_tasks p !! y) ∧
  (∀ task' step', t_task_id task' = x →
     ∃ e, enqueue_at p' task' step' = (p', Err e) ∧ err_code e = ERR_TASK_DUPLICATE).
Proof.
  unfold enqueue_at at 1.
  destruct (contains_task_id p (t_task_id task)) eqn:Hc; [done|].
  apply contains_task_id_false in Hc as [Hx Hev].
  destruct (try_wire_len (t_payload task)) as [bytes|]; [|done].
  unfold insert_record_indexes, update_record_indexes. simpl. rewrite lookup_insert_eq. simpl.
  intros [= <- <-]. simpl. split_and!; [done|done|done|..].
  - rewrite lookup_insert_eq. eexists. split; [done|]. simpl. split_and!; try done; by case_decide.
  - intros y Hne. by rewrite lookup_insert_ne.
  - intros task' step' Hid. unfold enqueue_at, contains_task_id. simpl.
    rewrite Hid, lookup_insert_eq. simpl. by eexists.
Qed.

(** ** Terminal history *)

Lemma compact_loop_fifo ret fuel : ∀ p,
  pool_wf p → tp_history_retention p = Some ret →
  tp_waits_by_child p = ∅ → tp_waits_by_parent p = ∅ → (length (tp_terminal_order p) ≤ fuel)%nat →
  ∃ p', compact_loop fuel ret 0 p = Done p' ∧
    let n := (length (tp_terminal_order p) - N.to_nat (max_terminal_records ret))%nat in
    tp_terminal_order p' = drop n (tp_terminal_order p) ∧
    (∀ x, tp_tasks p' !! x
       = if decide (x ∈ take n (tp_terminal_order p)) then None else tp_tasks p !! x).
Proof.
  induction fuel as [|fuel IH]; intros p Hwf Hret Hc Hq Hfuel; cbn [compact_loop];
    (case_decide as Hgo;
     [|exists p; split; [done|]; replace (length (tp_terminal_order p) - _)%nat with 0%nat by lia;
       split; [done|]; intros x; by rewrite decide_False by (simpl; apply not_elem_of_nil)]).
  - lia.
  - destruct (tp_terminal_order p) as [|x order] eqn:Ho; [simpl in *; lia|].
    assert (is_protected p x = false) as Hx by (apply not_protected; by rewrite Hc, Hq, !lookup_empty).
    rewrite (is_protected_links p) by done. rewrite Hx.
    destruct (wf_evict_head ∅ ∅ ∅ ∅ p x order ret Hwf Hret Ho Hx) as (p1 & -> & Hwf1 & [Hl _ _ _ _] & Ho1 & Ht1).
    cbn [mbind outcome_bind].
    destruct (IH p1) as (p' & -> & Ho' & Ht').
    + done.
    + by rewrite (links_retention _ _ Hl).
    + by rewrite (links_child _ _ Hl).
    + by rewrite (links_parent _ _ Hl).
    + rewrite Ho1. simpl in Hfuel. lia.
    + exists p'. split; [done|]. rewrite Ho1 in *. simpl in Hgo |- *.
      replace (S (length order) - N.to_nat (max_terminal_records ret))%nat
        with (S (length order - N.to_nat (max_terminal_records ret))) by lia. simpl.
      split; [done|]. intros y. rewrite Ht', Ht1, lookup_delete.
      destruct (decide (x = y)) as [->|Hne]; [rewrite (decide_True (P := y ∈ y :: _)) by set_solver;
        by case_decide|].
      destruct (decide (y ∈ take _ order)).
      * by rewrite decide_True by set_solver.
      * by rewrite decide_False by set_solver.
Qed.

(** The history is first-in first-out: when no task waits on another, bounding
    the history evicts the oldest terminal records beyond the bound, in submission
    order, and keeps everything else. *)
Theorem compaction_is_fifo p ret :
  reachable p → tp_waits_by_child p = ∅ → tp_waits_by_parent p = ∅ →
  ∃ p', configure_history_retention p (Some ret) = Done p' ∧
    let order := terminal_ids (tp_tasks p) in
    let n := (length order - N.to_nat (max_terminal_records ret))%nat in
    tp_terminal_order p' = drop n order ∧
    (∀ x, tp_tasks p' !! x = if decide (x ∈ take n order) then None else tp_tasks p !! x).
Proof.
  intros Hp Hc Hq. rewrite configure_Some. unfold compact_terminal_history.
  destruct (configured_fields p ret) as (Ht & Ho & Hr & Hc' & Hq'). rewrite Hr, <-Ho, <-Ht.
  apply compact_loop_fifo; [by apply wf_configured, reachable_pool_wf|done|congruence|congruence|].
  unfold compact_fuel. nia.
Qed.

(** C33: bounding the history with wait links present: it ends, evicts only terminal
    records that no link references, keeps every link, and stops only when the
    history fits its bound or all of it is referenced. *)
Theorem compaction_respects_links p ret :
  reachable p →
  ∃ p', configure_history_retention p (Some ret) = Done p' ∧ pool_wf p' ∧
    tp_tasks p' ⊆ tp_tasks p ∧
    (∀ x r, tp_tasks p !! x = Some r → tp_tasks p' !! x = None →
       is_terminal_status (rec_status r) = true ∧ is_protected p x = false) ∧
    tp_waits_by_child p' = tp_waits_by_child p ∧ tp_waits_by_parent p' = tp_waits_by_parent p ∧
    ((N.of_nat (length (tp_terminal_order p')) ≤ max_terminal_records ret)%N ∨
     ∀ x, x ∈ tp_terminal_order p' → is_protected p' x = true).
Proof.
  intros Hp. rewrite configure_Some.
  destruct (configured_fields p ret) as (Ht & _ & Hr & Hc & Hq).
  destruct (wf_compact _ _ _ _ _ (wf_configured p ret (reachable_pool_wf p Hp)))
    as (p' & -> & Hwf' & [[Hc' Hq' _ _ _] Hsub _ _ Hev] & Hdone).
  exists p'. split_and!; [done|done|by rewrite <-Ht| |congruence|congruence|].
  - intros x r Hx Hx'. rewrite <-Ht in Hx. destruct (Hev x r Hx Hx') as (_ & ? & Hprot).
    split; [done|]. unfold is_protected in *. by rewrite Hc, Hq in Hprot.
  - destruct (Hdone ret Hr) as [|Hall]; [by left|right]. by apply Forall_forall.
Qed.

(** ** Wait links *)

(** Taking the waits of a child returns exactly the awaits on it, and afterwards
    no link to that child is left on either side while every other link is kept. *)
Theorem take_waits_is_exact p child :
  reachable p →
  ∃ p' waits, take_waits_for_child p child = Done (p', waits) ∧
    (∀ a, a ∈ waits ↔ await_child a = child ∧ a ∈ awaits_for_parent p (ta_parent_task_id a)) ∧
    waits_at (tp_waits_by_child p') child = [] ∧
    (∀ q, awaits_for_parent p' q
       = filter (λ a, await_child a ≠ child) (awaits_for_parent p q)).
Proof.
  intros Hp. pose proof (reachable_pool_wf p Hp) as Hwf. pose proof (wf_waits _ _ _ _ _ Hwf) as Hw.
  unfold take_waits_for_child.
  pose proof (wf_take_waits _ _ _ _ _ child Hwf) as Hwf1. rewrite awaits_take_waits_for_child_eq in *.
  simpl in Hwf1. destruct (wf_compact _ _ _ _ _ Hwf1) as (p' & -> & _ & [[Hc Hq _ _ _] _ _ _ _] & _).
  do 2 eexists. split; [done|]. simpl in Hc, Hq. split_and!.
  - intros a. split.
    + intros Ha. by apply (mirror_l _ _ _ _ Hw) in Ha as [<- Ha].
    + intros [<- Ha]. by apply (mirror_r _ _ _ _ Hw) in Ha as [_ Ha].
  - rewrite Hc, waits_at_delete. by rewrite decide_True by done.
  - intros q. unfold awaits_for_parent. fold (waits_at (tp_waits_by_parent p') q).
    rewrite Hq. apply mirrored_sym in Hw. by apply (mirrored_drop _ _ _ _ child Hw).
Qed.

(** The pool an accepted wait leaves. *)
Lemma wait_on_task_Ok p lease step a p' :
  wait_on_task p lease step a = (p', Ok tt) →
  ta_parent_task_id a = tl_task_id lease ∧
  waits_at (tp_waits_by_child p') (await_child a) = waits_at (tp_waits_by_child p) (await_child a) ++ [a] ∧
  (∃ r, tp_tasks p' !! tl_task_id lease = Some r ∧ rec_status r = Waiting ∧ rec_lease r = None ∧
     t_ready_at_step (rec_task r) = ready_step_for_wait a) ∧
  (∃ rc, tp_tasks p !! await_child a = Some rc ∧ is_terminal_status (rec_status rc) = false).
Proof.
  unfold wait_on_task. case_decide as Hpar; [done|].
  destruct (record_of_cases p (tl_task_id lease)) as [(r0 & Hr0 & ->)|(_ & e & ->)]; [|done].
  destruct (validate_record_lease r0 lease step "wait") as [[]|] eqn:Hv; [|done].
  destruct (record_of_cases p (th_task_id (ta_child a))) as [(rc & Hc & ->)|(_ & e & ->)]; [|done].
  destruct (validate_task_await_child r0 rc a) as [[]|] eqn:Hva; [|done].
  rewrite mutate_record_indexed_eq, Hr0. unfold validated. rewrite Hv. cbv beta iota zeta. cbn [fst snd].
  intros [= <-]. split_and!; [done|..].
  - simpl. rewrite waits_at_add. by rewrite decide_True by done.
  - simpl. rewrite lookup_insert_eq. by eexists.
  - exists rc. split; [done|]. unfold validate_task_await_child in Hva.
    by destruct (is_terminal_status (rec_status rc)).
Qed.

(** C31: waiting on a child and its wake-up fit together: an accepted
    [wait_on_task] parks the parent without a lease until the child, which is not
    terminal, is done; taking the waits of the child then returns this await. *)
Theorem await_round_trip p lease step a p1 :
  reachable p → wait_on_task p lease step a = (p1, Ok tt) →
  (∃ r, tp_tasks p1 !! ta_parent_task_id a = Some r ∧ rec_status r = Waiting ∧ rec_lease r = None) ∧
  (∃ rc, tp_tasks p !! await_child a = Some rc ∧ is_terminal_status (rec_status rc) = false) ∧
  ∃ p2 waits, take_waits_for_child p1 (await_child a) = Done (p2, waits) ∧ a ∈ waits.
Proof.
  intros Hp Hw. pose proof (reachable_pool_wf p Hp) as Hwf.
  destruct (wait_on_task_Ok p lease step a p1 Hw) as (Hpar & Hl & (r & Hr & Hst & Hle & _) & Hc).
  split_and!; [rewrite Hpar; eauto|done|].
  destruct (wait_on_task_safe p lease step a Hwf) as (p1' & res & Heq & Hwf1 & _).
  rewrite Hw in Heq. injection Heq as <- <-.
  destruct (take_waits_for_child_safe p1 (await_child a) Hwf1) as (p2 & waits & Htake & _).
  exists p2, waits. split; [done|]. unfold take_waits_for_child in Htake.
  rewrite awaits_take_waits_for_child_eq in Htake.
  destruct (compact_terminal_history _); [|done]. injection Htake as _ <-. rewrite Hl. set_solver.
Qed.

(** ** Cancellation and abort *)

(** Aborting leaves no task that could still be dispatched: every stored task is
    terminal, or runs with its cancellation pending; the reported ids are exactly
    the tasks that were not terminal. *)
Theorem abort_stops_everything p step failure :
  reachable p →
  ∃ p' ids, abort_all p step failure = Done (p', ids) ∧
    (∀ x r, tp_tasks p' !! x = Some r →
       is_terminal_status (rec_status r) = true ∨
       (rec_status r = Running ∧
        tp_pending_cancellations p' !! x = Some (mkPendingCancellation (Some failure)))) ∧
    (∀ x, x ∈ ids ↔ ∃ r, tp_tasks p !! x = Some r ∧ is_terminal_status (rec_status r) = false) ∧
    StronglySorted String.le ids.
Proof.
  intros Hp. pose proof (reachable_pool_wf p Hp) as Hwf.
  destruct (abort_all_spec p step failure Hwf) as (p' & -> & _ & Hsub & Hpend).
  do 2 eexists. split; [done|]. split_and!.
  - intros x r Hx. pose proof (lookup_weaken _ _ _ _ Hx Hsub) as Hr.
    apply lookup_fmap_Some in Hr as (r0 & <- & Hr0).
    destruct (is_terminal_status (rec_status (abort_one failure r0))) eqn:Ht; [by left|right].
    assert (rec_status (abort_one failure r0) = Running) as Hrun; [|by eauto].
    revert Ht. unfold abort_one. case_decide as Hab; [done|].
    unfold abortable in Hab. destruct (decide (rec_status r0 = Running)); [done|]. tauto.
  - intros x. rewrite merge_sort_Permutation.
    apply (elem_of_ids_where (λ r, is_terminal_status (rec_status r) = false)). by destruct Hwf.
  - apply StronglySorted_merge_sort; apply _.
Qed.

Lemma finalize_effect p lease step r c :
  pool_wf p → tp_pending_cancellations p !! tl_task_id lease = Some c →
  tp_tasks p !! tl_task_id lease = Some r → rec_lease r = Some lease →
  ∃ p', finalize_requested_cancellation p lease step = Done (p', Ok (Some c)) ∧
    let tasks := <[tl_task_id lease := mark_terminal_record r Cancelled (pc_failure c)]> (tp_tasks p) in
    tp_tasks p' ⊆ tasks ∧ (tp_history_retention p = None → tp_tasks p' = tasks).
Proof.
  intros Hwf Hc Hx Hl. destruct (running_of_lease p _ r lease Hwf Hx Hl) as (Hst & Htid & Hcl).
  pose proof (wf_records _ _ _ _ _ Hwf _ _ Hx) as Hr.
  unfold finalize_requested_cancellation. rewrite Hc, mutate_record_indexed_eq, Hx.
  rewrite !bool_decide_eq_true_2 by done. cbn [andb fst snd].
  set (r' := mark_terminal_record r Cancelled (pc_failure c)).
  match goal with |- context [record_terminal_task ?q _] => set (p1 := q) end.
  assert (tp_tasks p1 = <[tl_task_id lease := r']> (tp_tasks p)) as Htasks
    by (subst p1; by rewrite tasks_remove_waits).
  destruct (wf_record_terminal ∅ ∅ ∅ ∅ p1 (tl_task_id lease)) as (p' & Hp' & _ & Hsub & _).
  - rewrite (left_id_L ∅ (∪)). subst p1. rewrite <-(empty_difference {[tl_task_id lease]}) at 3.
    apply wf_remove_waits, wf_attempt_finished.
    apply (wf_remove_pending _ _ _ _ (with_statistics
      (record_status_transition (Some Running) (Some Cancelled)) (put_record p (tl_task_id lease) r r'))).
    + apply (wf_finish_running p _ r); [done|done| |done|done]. by apply record_wf_terminal.
    + by eapply not_running_terminal; [|apply lookup_put].
  - exists r'. by rewrite Htasks, lookup_insert_eq.
  - set_solver.
  - exists p'. rewrite Hp'. rewrite Htasks in Hsub. split_and!; [done|done|]. intros Hret.
    unfold record_terminal_task in Hp'. replace (tp_history_retention p1) with (tp_history_retention p) in Hp'
      by (subst p1; by rewrite remove_waits_for_parent_eq).
    rewrite Hret in Hp'. injection Hp' as <-. done.
Qed.

(** C32: cooperative cancellation: a request on a running task changes no record and
    only marks it; the runner that holds the lease then finalizes it, expired or
    not, and the task ends [Cancelled] with the requested failure.  (plans/contracts.md and
    plans/local-task-lifecycle.md describe the task as [Cancelled] from the request on and
    its lease as refused; the code keeps both until the runner answers.) *)
Theorem cancellation_is_cooperative p x r lease step step' failure :
  reachable p → tp_tasks p !! x = Some r → rec_lease r = Some lease →
  tp_pending_cancellations p !! x = None →
  ∃ p1, request_cancel_by_core p x step failure = Done (p1, Ok false) ∧
    tp_tasks p1 = tp_tasks p ∧ cancellation_requested p1 x = true ∧
    ∃ p2, finalize_requested_cancellation p1 lease step'
        = Done (p2, Ok (Some (mkPendingCancellation failure))) ∧
      (∀ r', tp_tasks p2 !! x = Some r' →
         rec_status r' = Cancelled ∧ rec_failure r' = failure ∧ rec_lease r' = None) ∧
      (tp_history_retention p = None → is_Some (tp_tasks p2 !! x)).
Proof.
  intros Hp Hx Hl Hnone. pose proof (reachable_pool_wf p Hp) as Hwf.
  destruct (running_of_lease p x r lease Hwf Hx Hl) as (Hst & Htid & Hcl).
  unfold request_cancel_by_core, record_of. rewrite Hnone, Hx, decide_True by done.
  eexists. split; [done|]. split; [done|]. split.
  { unfold cancellation_requested. simpl. rewrite lookup_insert_eq. done. }
  assert (pool_wf (set_tp_pending_cancellations
    (<[x := mkPendingCancellation failure]> (tp_pending_cancellations p)) p)) as Hwf1
    by (apply wf_insert_pending; eauto).
  set (p1 := set_tp_pending_cancellations _ p) in *.
  destruct (finalize_effect p1 lease step' r (mkPendingCancellation failure)) as (p2 & -> & Hsub & Hkeep);
    [done|by simpl; rewrite Htid, lookup_insert_eq|by rewrite Htid|done|].
  exists p2. split; [done|]. rewrite Htid in *. split.
  - intros r' Hr'. eapply lookup_weaken in Hr'; [|done]. rewrite lookup_insert_eq in Hr'. by injection Hr' as <-.
  - intros Hret. rewrite (Hkeep Hret), lookup_insert_eq. eauto.
Qed.

End transitions.

(** ** The theorems on concrete histories *)

#[local] Existing Instance sample_serde.

Lemma transitions_are_fenced_witness :
  fenced sample_pool (sample_lease "t1") 2 (complete sample_pool (sample_lease "t1") 2 None) ∧
  active_leaseb sample_pool (sample_lease "t1") 2 = true ∧
  fenced sample_pool (sample_lease "t5") 2 (complete sample_pool (sample_lease "t5") 2 None) ∧
  active_leaseb sample_pool (sample_lease "t5") 2 = false.
Proof.
  split_and!; [|vm_compute; reflexivity| |vm_compute; reflexivity].
  - destruct (transitions_are_fenced sample_pool (sample_lease "t1") 2 None sample_error None
      sample_pool_reachable) as [H _]. exact H.
  - destruct (transitions_are_fenced sample_pool (sample_lease "t5") 2 None sample_error None
      sample_pool_reachable) as [H _]. exact H.
Defined.

Lemma complete_finishes_the_task_witness :
  ∃ p' r', complete sample_pool (sample_lease "t1") 2 (Some "out") = Done (p', Ok tt) ∧
    tp_tasks p' !! "t1" = Some r' ∧ rec_status r' = Completed ∧ rec_output r' = Some "out".
Proof.
  destruct (complete_finishes_the_task sample_pool (sample_lease "t1") 2 (Some "out") (record_at sample_pool "t1")
    sample_pool_reachable) as (p' & Hp' & Ht & _); [vm_compute; reflexivity..|].
  assert (match complete sample_pool (sample_lease "t1") 2 (Some "out") with
          | Done (q, _) => bool_decide (is_Some (tp_tasks q !! "t1")) | Panic _ => false end = true) as Hkept
    by (vm_compute; reflexivity).
  rewrite Hp' in Hkept. apply bool_decide_eq_true in Hkept as [r' Hr'].
  change (tl_task_id (sample_lease "t1")) with "t1" in Ht. rewrite Hr' in Ht.
  exists p', r'. subst r'. split_and!; [exact Hp'|exact Hr'|reflexivity..].
Defined.

Lemma reclaim_is_exact_witness :
  ∃ p' ids, reclaim_expired_task_leases sample_pool 3
      = Done (p', omap (λ x, r ← tp_tasks sample_pool !! x; rec_lease r) ids) ∧ "t1" ∈ ids.
Proof.
  destruct (reclaim_is_exact sample_pool 3 sample_pool_reachable) as (p' & ids & Hp' & _ & Hids & _).
  exists p', ids. split; [exact Hp'|]. apply Hids. split; [vm_compute; reflexivity|].
  exists (record_at sample_pool "t1"), (sample_lease "t1"). split_and!; vm_compute; reflexivity.
Defined.

(** [t1] waits until step 5 and [t2] until step 8. *)
Definition timer_pool : TaskPool :=
  run_history [OpWait (sample_lease "t1") 2 (Some 5%N); OpWait (sample_lease "t2") 2 (Some 8%N)] sample_pool.

Lemma wake_due_is_exact_witness :
  ∃ p' due, wake_due_tasks timer_pool 6 = Done (p', due) ∧ ("t1", 5%N) ∈ due ∧ (("t2", 8%N) ∉ due).
Proof.
  destruct (wake_due_is_exact timer_pool 6) as (p' & due & Hp' & _ & Hdue & _).
  - apply run_history_reachable, sample_pool_reachable.
  - vm_compute. reflexivity.
  - exists p', due. split_and!; [exact Hp'| |].
    + apply Hdue. split; [lia|]. exists (record_at timer_pool "t1").
      split_and!; [vm_compute; reflexivity|left; vm_compute; reflexivity|vm_compute; reflexivity].
    + rewrite Hdue. intros [? _]. lia.
Defined.

Lemma admission_is_unique_witness :
  ∃ p' e, enqueue_at sample_pool (sample_task "t9" "echo") 2 = (p', Ok "t9") ∧
    enqueue_at p' (sample_task "t9" "mail") 3 = (p', Err e) ∧ err_code e = ERR_TASK_DUPLICATE.
Proof.
  set (p' := (enqueue_at sample_pool (sample_task "t9" "echo") 2).1).
  assert (enqueue_at sample_pool (sample_task "t9" "echo") 2 = (p', Ok "t9")) as Hp'
    by (vm_compute; reflexivity).
  destruct (admission_is_unique _ _ _ _ _ Hp') as (_ & _ & _ & _ & _ & Hdup).
  destruct (Hdup (sample_task "t9" "mail") 3%N eq_refl) as (e & He & Hcode).
  exists p', e. split_and!; [exact Hp'|exact He|exact Hcode].
Defined.

(** A bound of one record evicts the two oldest, [a] and [b]. *)
Lemma compaction_is_fifo_witness :
  ∃ p', configure_history_retention history_pool (Some (mkTaskHistoryRetention 1 8)) = Done p' ∧
    tp_terminal_order p' = ["c"] ∧ tp_tasks p' !! "a" = None ∧
    tp_tasks p' !! "c" = tp_tasks history_pool !! "c".
Proof.
  destruct (compaction_is_fifo history_pool (mkTaskHistoryRetention 1 8) history_pool_reachable)
    as (p' & Hp' & Ho & Ht); [vm_compute; reflexivity..|].
  exists p'. split_and!; [exact Hp'|rewrite Ho; vm_compute; reflexivity|..].
  - rewrite Ht. vm_compute. reflexivity.
  - rewrite Ht. vm_compute. reflexivity.
Defined.

Lemma compaction_respects_links_witness :
  ∃ p', configure_history_retention waiting_pool (Some (mkTaskHistoryRetention 0 8)) = Done p' ∧
    pool_wf p' ∧ tp_waits_by_child p' = tp_waits_by_child waiting_pool.
Proof.
  destruct (compaction_respects_links waiting_pool (mkTaskHistoryRetention 0 8) waiting_pool_reachable)
    as (p' & Hp' & Hwf & _ & _ & Hc & _).
  exists p'. split_and!; assumption.
Defined.

Lemma take_waits_is_exact_witness :
  ∃ p' waits, take_waits_for_child waiting_pool "t2" = Done (p', waits) ∧ sample_await ∈ waits.
Proof.
  destruct (take_waits_is_exact waiting_pool "t2" waiting_pool_reachable) as (p' & waits & Hp' & Hw & _).
  exists p', waits. split; [exact Hp'|]. apply Hw. split; [reflexivity|]. vm_compute. left.
Defined.

Lemma await_round_trip_witness :
  ∃ p2 waits, take_waits_for_child waiting_pool "t2" = Done (p2, waits) ∧ sample_await ∈ waits.
Proof.
  destruct (await_round_trip sample_pool (sample_lease "t1") 2 sample_await waiting_pool
    sample_pool_reachable ltac:(vm_compute; reflexivity)) as (_ & _ & H). exact H.
Defined.

Lemma abort_stops_everything_witness :
  ∃ p' ids, abort_all sample_pool 2 sample_error = Done (p', ids) ∧ "t3" ∈ ids.
Proof.
  destruct (abort_stops_everything sample_pool 2 sample_error sample_pool_reachable)
    as (p' & ids & Hp' & _ & Hids & _).
  exists p', ids. split; [exact Hp'|]. apply Hids. exists (record_at sample_pool "t3").
  split; vm_compute; reflexivity.
Defined.

Lemma cancellation_is_cooperative_witness :
  ∃ p1 p2, request_cancel_by_core sample_pool "t1" 2 (Some sample_error) = Done (p1, Ok false) ∧
    finalize_requested_cancellation p1 (sample_lease "t1") 9
    = Done (p2, Ok (Some (mkPendingCancellation (Some sample_error)))).
Proof.
  destruct (cancellation_is_cooperative sample_pool "t1" (record_at sample_pool "t1") (sample_lease "t1") 2 9
    (Some sample_error) sample_pool_reachable) as (p1 & Hp1 & _ & _ & p2 & Hp2 & _);
    [vm_compute; reflexivity..|].
  exists p1, p2. split; assumption.
Defined.
