(* ===== verification/TaskDispatchTheorems.v ===== *)
(** * TaskDispatchTheorems: what a runner is given, and when

    The k-way merge, the candidates of a runner, the budgets and the leases of a
    claim, and the next step at which the pool has work. *)
From S2P Require Import Prelude Contracts TaskIndexes TaskIndexSpec TaskPool TaskClaiming.
From S2P Require Import TaskMerge TaskPoolInv TaskHistory TaskStates TaskPoolSafety.
From S2P Require Import TaskPoolSweep TaskCandidates TaskSelection TaskLeasing TaskCounts.
From S2P Require Import TaskPoolOps TaskPoolSamples.

Section dispatch.
Context {serde : Serde}.
Implicit Types (p : TaskPool) (r : TaskRecord) (runner : RunnerDescriptor).

(** ** Ids of the leases of a claim *)

Lemma handout_ids runner executor_id step gen expires p ids :
  pool_wf p → (∀ x, x ∈ ids → is_Some (tp_tasks p !! x)) →
  tl_task_id <$> (handout runner executor_id step gen expires <$> omap (λ x, tp_tasks p !! x) ids).*1
  = ids.
Proof.
  intros Hwf Hids. rewrite <-!list_fmap_compose. induction ids as [|x ids IH]; [done|].
  destruct (Hids x) as [r Hr]; [set_solver|]. csimpl. rewrite Hr. csimpl.
  f_equal; [|apply IH; set_solver]. by destruct (wf_records _ _ _ _ _ Hwf x r Hr).
Qed.

Lemma elem_of_handout runner executor_id step gen expires p (ids : list TaskId) l t :
  (l, t) ∈ handout runner executor_id step gen expires <$> omap (λ x, tp_tasks p !! x) ids ↔
  ∃ x r, x ∈ ids ∧ tp_tasks p !! x = Some r ∧ l = new_lease runner executor_id step gen expires r ∧
    t = rec_task (claimed runner executor_id step gen expires r).
Proof.
  rewrite list_elem_of_fmap. setoid_rewrite list_elem_of_omap. split.
  - intros (r & [= -> ->] & x & ? & ?). eauto 10.
  - intros (x & r & ? & ? & -> & ->). exists r. eauto.
Qed.

(** ** Theorems *)

(** C19: the k-way merge over the ready queues, a heap of queue heads, visits the
    due keys of all queues in key order, each once, until the visitor stops: it is
    the walk over the sorted list of all due keys, for every list of queues, and
    the number of queued keys is fuel enough. *)
Theorem merge_is_sorted_walk {A} (visit : A → TaskRecord → outcome (A * bool)) p step gen
    (queues : list (gset ReadyKey)) acc :
  visit_queues visit p step gen queues acc
  = visit_keys visit p gen
      (merge_sort ready_key_le (due_keys step (mjoin (btree_iter ready_key_le <$> queues)))) 0 acc.
Proof. apply visit_queues_spec. Qed.

(** C18: the index-driven walk of a runner visits exactly the eligible records of the
    pool (ready, due, of an accepted protocol, hinted to and owned by no other
    runner, of a matching registry generation), sorted by ready step, priority,
    submission sequence and id. *)
Theorem candidates_are_the_eligible_records {A} (visit : A → TaskRecord → outcome (A * bool)) p runner
    step gen acc :
  reachable p → NoDup (rd_accepted_protocol_ids runner) →
  ∃ p', cached p p' ∧
    visit_candidate_records visit p runner step gen acc
    = ('(acc, visited) ← visit_records visit (candidates p runner step gen DispatchLane_ALL) 0 acc;
       Done (acc, visited, p')) ∧
    (∀ r, r ∈ candidates p runner step gen DispatchLane_ALL ↔
       tp_tasks p !! record_id r = Some r ∧ eligible runner step gen r) ∧
    StronglySorted ready_key_le (record_ready_key <$> candidates p runner step gen DispatchLane_ALL).
Proof.
  intros Hp Hprot. pose proof (reachable_pool_wf p Hp) as Hwf.
  destruct (visit_candidate_records_spec visit p runner step gen acc Hwf Hprot) as (p' & Hc & ->).
  exists p'. split_and!; [done|done| |].
  - intros r. rewrite elem_of_candidates by done. split; [tauto|]. intros [? ?]. split_and!; [done..|].
    unfold in_lanes. destruct (t_dispatch_lane _); set_solver.
  - rewrite candidate_keys_of by done. apply StronglySorted_merge_sort; apply _.
Qed.

(** C20: a claim respects every limit: the tasks it leases are distinct and eligible,
    at most [limit] and at most the budget's entries; their payload bytes, up to
    the saturation value, stay within the byte budget; and no lane exceeds its lane
    budget.  It returns unless a buffer for so many entries cannot be allocated. *)
Theorem claim_respects_budgets p runner executor_id step gen limit budget expires :
  reachable p → NoDup (rd_accepted_protocol_ids runner) → expiry_width expires →
  match claim_ready_for_executor_with_budget p runner executor_id step gen limit budget expires with
  | Panic message => message = VEC_CAPACITY_OVERFLOW ∧ selection_fits limit budget = false
  | Done (p', leased) =>
    let ids := tl_task_id <$> leased.*1 in
    NoDup ids ∧
    (∀ x, x ∈ ids → ∃ r, tp_tasks p !! x = Some r ∧ eligible runner step gen r) ∧
    (N.of_nat (length leased) ≤ limit)%N ∧
    (∀ b, budget = Some b →
       (N.of_nat (length leased) ≤ db_max_entries b)%N ∧
       (N.min (total_bytes p ids) u64_max ≤ db_max_bytes b)%N ∧
       (∀ lane lb, db_lane_budget b !! lane = Some lb →
          (N.of_nat (lane_count p lane ids) ≤ lb_max_entries lb)%N))
  end.
Proof.
  intros Hp Hprot Hw. pose proof (reachable_pool_wf p Hp) as Hwf.
  destruct (selection_fits limit budget) eqn:Hfits; [|by rewrite claim_overflow].
  destruct (claim_spec runner executor_id step gen expires p limit budget Hwf Hprot Hw Hfits)
    as (p' & ids & -> & _ & _ & [Hnd Hel Hlim Hent Hby Hlanes] & _). cbv zeta.
  assert (∀ x, x ∈ ids → is_Some (tp_tasks p !! x)) as Hin
    by (intros x Hx; destruct (Hel x Hx) as (r & ? & _); eauto).
  pose proof (handout_ids runner executor_id step gen expires p ids Hwf Hin) as Hids.
  assert (length (handout runner executor_id step gen expires <$> omap (λ x, tp_tasks p !! x) ids)
    = length ids) as Hlen by (rewrite <-Hids at 2; by rewrite !length_fmap).
  rewrite Hids, Hlen. split_and!; [done|done|done|]. intros b Hb. split_and!; [auto|auto|]. intros. by eapply Hlanes.
Qed.

(** A claim hands out exclusive leases: each returned lease is the active lease
    of its task, which now runs for this runner and executor, in the next attempt;
    the returned task is the stored one; and every task that was not leased is
    untouched. *)
Theorem claim_hands_out_active_leases p runner executor_id step gen limit budget expires p' leased :
  reachable p → NoDup (rd_accepted_protocol_ids runner) → expiry_width expires →
  claim_ready_for_executor_with_budget p runner executor_id step gen limit budget expires
    = Done (p', leased) →
  (∀ l t, (l, t) ∈ leased → ∃ r r', tp_tasks p !! tl_task_id l = Some r ∧ rec_status r = Ready ∧
     tp_tasks p' !! tl_task_id l = Some r' ∧ rec_status r' = Running ∧ rec_lease r' = Some l ∧
     rec_task r' = t ∧ rec_claimed_by r' = Some (rd_runner_id runner) ∧
     tl_executor_id l = executor_id ∧ tl_acquired_at_step l = step ∧
     tl_attempt_generation l = sat_add (rec_attempt_generation r) 1) ∧
  (∀ x, x ∉ tl_task_id <$> leased.*1 → tp_tasks p' !! x = tp_tasks p !! x).
Proof.
  intros Hp Hprot Hw. pose proof (reachable_pool_wf p Hp) as Hwf.
  intros (ids & -> & _ & _ & [Hnd Hel _ _ _ _] & Ht)%claim_returned; [|done..].
  assert (∀ x, x ∈ ids → is_Some (tp_tasks p !! x)) as Hin
    by (intros x Hx; destruct (Hel x Hx) as (r & ? & _); eauto). split.
  - intros l t (x & r & Hx & Hr & -> & ->)%elem_of_handout.
    assert (tl_task_id (new_lease runner executor_id step gen expires r) = x) as Hid
      by (by destruct (wf_records _ _ _ _ _ Hwf x r Hr)).
    rewrite Hid, Ht, lookup_claimed_tasks, decide_True, Hr by done.
    exists r. eexists. split; [done|]. split; [|by split_and!].
    destruct (Hel x Hx) as (r1 & ? & [? _]). congruence.
  - rewrite handout_ids by done. intros x Hx. by rewrite Ht, lookup_claimed_tasks, decide_False by done.
Qed.

(** Without a budget a claim takes the first [limit] candidates, in order. *)
Theorem claim_takes_the_first_candidates p runner executor_id step gen limit expires :
  reachable p → NoDup (rd_accepted_protocol_ids runner) → expiry_width expires →
  selection_fits limit None = true →
  ∃ p' leased, claim_ready_for_executor_with_budget p runner executor_id step gen limit None expires
      = Done (p', leased) ∧
    tl_task_id <$> leased.*1
    = take (N.to_nat limit) (record_id <$> candidates p runner step gen DispatchLane_ALL).
Proof.
  intros Hp Hprot Hw Hfits. pose proof (reachable_pool_wf p Hp) as Hwf.
  destruct (claim_spec runner executor_id step gen expires p limit None Hwf Hprot Hw Hfits)
    as (p' & ids & Hclaim & Hsel & _ & [_ Hel _ _ _ _] & _).
  do 2 eexists. split; [exact Hclaim|].
  rewrite handout_ids by (try done; intros x Hx; destruct (Hel x Hx) as (r & ? & _); eauto).
  by apply (select_plain_ids p runner step gen limit ids Hwf Hprot).
Qed.

(** The queue length a runner reports, summed from the incremental count index
    without touching the queues, is the number of its candidates. *)
Theorem queued_count_is_exact p runner step gen :
  reachable p → NoDup (rd_accepted_protocol_ids runner) →
  (ready_dispatch_count p runner step gen).1
  = N.of_nat (length (candidates p runner step gen DispatchLane_ALL)).
Proof.
  intros Hp Hprot. destruct (ready_dispatch_count_spec p runner step gen (reachable_pool_wf p Hp) Hprot)
    as (p' & _ & ->). done.
Qed.

(** ** The next step with work *)

(** A record changes on its own at step [s]: it becomes due, wakes up or loses its
    lease. *)
Definition timed r (s : N) : Prop := at_ready_step r s ∨ at_wake r s ∨ at_lease r s.

Lemma timed_index p x r s :
  pool_wf p → tp_tasks p !! x = Some r → timed r s →
  (at_lease r s → tp_pending_cancellations p !! x = None) →
  x ∈ bucket (ix_ready_by_step (tp_indexes p)) s ∨ x ∈ bucket (ix_wake_by_step (tp_indexes p)) s ∨
  x ∈ bucket (ix_leases_by_expiry (tp_indexes p)) s.
Proof.
  intros Hwf Hx Ht Hp. destruct (wf_index _ _ _ _ _ Hwf) as (lgap & [] & Hgap).
  pose proof (wf_rec_id _ _ (wf_records _ _ _ _ _ Hwf x r Hx)) as Hid.
  destruct Ht as [Ha|[Ha|Ha]]; [left|right; left|right; right].
  - apply (spec_ready_step s x). split; [set_solver|]. by exists r.
  - apply (spec_wake s x). split; [set_solver|]. by exists r.
  - apply (spec_lease s x). split; [|by exists r]. intros Hg. destruct Ha as [Hrun He].
    destruct (Hgap x r Hg Hx Hrun) as [[c Hc]|]; [|set_solver]. rewrite (Hp ltac:(done)) in Hc. done.
Qed.

Lemma index_timed p x s :
  pool_wf p →
  x ∈ bucket (ix_ready_by_step (tp_indexes p)) s ∨ x ∈ bucket (ix_wake_by_step (tp_indexes p)) s ∨
  x ∈ bucket (ix_leases_by_expiry (tp_indexes p)) s →
  ∃ r, tp_tasks p !! x = Some r ∧ timed r s.
Proof.
  intros Hwf Hx. destruct (wf_index _ _ _ _ _ Hwf) as (lgap & [] & Hgap). unfold timed.
  destruct Hx as [Hx|[Hx|Hx]].
  - destruct (proj1 (spec_ready_step s x) Hx) as (_ & r & ? & ? & _). eauto.
  - destruct (proj1 (spec_wake s x) Hx) as (_ & r & ? & ? & _). eauto.
  - destruct (proj1 (spec_lease s x) Hx) as (_ & r & ? & ? & _). eauto.
Qed.

Lemma min_option_Some a b s :
  min_option a b = Some s →
  (a = Some s ∨ b = Some s) ∧ (∀ x, a = Some x → (s ≤ x)%N) ∧ (∀ x, b = Some x → (s ≤ x)%N).
Proof.
  destruct a as [x|], b as [y|]; simpl; intros [= <-]; split_and!; intros; simplify_eq; try lia; auto.
  destruct (N.min_spec x y) as [[_ ->]|[_ ->]]; auto.
Qed.

Lemma min_option_None a b : min_option a b = None → a = None ∧ b = None.
Proof. by destruct a, b. Qed.

(** The bucket index says that no entry lies between [current_step] and [s]. *)
Lemma next_bucket_bound b current_step s x s' :
  all_values (.≠ ∅) b → (∀ n, next_bucket_after b current_step = Some n → (s ≤ n)%N) →
  x ∈ bucket b s' → (current_step < s')%N → (s ≤ s')%N.
Proof.
  intros Hb Hmin Hx Hlt. destruct (next_bucket_after b current_step) as [n|] eqn:Hn.
  - destruct (next_bucket_after_Some b current_step n Hb Hn) as (_ & _ & Hle).
    specialize (Hmin n eq_refl). specialize (Hle x s' Hx Hlt). lia.
  - pose proof (next_bucket_after_None b current_step x s' Hn Hx). lia.
Qed.

(** The wake-up step the pool asks for is the earliest one at which something
    happens: it lies ahead, some task becomes due, wakes up or loses its lease then,
    and no task does so earlier (the lease of a task whose cancellation is pending
    is not waited for); when no step is asked for, nothing is ahead. *)
Theorem next_required_step_is_earliest p current_step :
  reachable p →
  match pool_next_required_step_after p current_step with
  | Some s =>
      (current_step < s)%N ∧ (∃ x r, tp_tasks p !! x = Some r ∧ timed r s) ∧
      (∀ x r s', tp_tasks p !! x = Some r → timed r s' →
         (at_lease r s' → tp_pending_cancellations p !! x = None) →
         (current_step < s')%N → (s ≤ s')%N)
  | None =>
      ∀ x r s', tp_tasks p !! x = Some r → timed r s' →
        (at_lease r s' → tp_pending_cancellations p !! x = None) → (s' ≤ current_step)%N
  end.
Proof.
  intros Hp. pose proof (reachable_pool_wf p Hp) as Hwf. destruct (wf_canon _ _ _ _ _ Hwf).
  unfold pool_next_required_step_after, next_required_step_after.
  destruct (min_option _ _) as [s|] eqn:Hmin.
  - apply min_option_Some in Hmin as (Hs & Hmin1 & Hmin2).
    set (o := min_option _ _) in *.
    assert (∀ n, next_bucket_after (ix_wake_by_step (tp_indexes p)) current_step = Some n ∨
      next_bucket_after (ix_leases_by_expiry (tp_indexes p)) current_step = Some n → (s ≤ n)%N) as Hmin3.
    { intros n Hn. destruct o as [m|] eqn:Ho.
      - apply min_option_Some in Ho as (_ & H1 & H2). specialize (Hmin2 m eq_refl).
        destruct Hn as [Hn|Hn]; [specialize (H1 n Hn)|specialize (H2 n Hn)]; lia.
      - apply min_option_None in Ho as [H1 H2]. destruct Hn; congruence. }
    assert (∃ b, (b = ix_ready_by_step (tp_indexes p) ∨ b = ix_wake_by_step (tp_indexes p) ∨
      b = ix_leases_by_expiry (tp_indexes p)) ∧ next_bucket_after b current_step = Some s ∧
      all_values (.≠ ∅) b) as (b & Hb & Hnext & Hcan).
    { destruct Hs as [Hs|Hs]; [eauto 10|]. apply min_option_Some in Hs as ([Hs|Hs] & _); eauto 10. }
    destruct (next_bucket_after_Some b current_step s Hcan Hnext) as (Hlt & (x & Hx) & _).
    split_and!; [done| |].
    + destruct (index_timed p x s Hwf) as (r & ? & ?); [destruct Hb as [->|[->| ->]]; auto|eauto].
    + intros y r s' Hy Ht Hpd Hlt'.
      destruct (timed_index p y r s' Hwf Hy Ht Hpd) as [Hi|[Hi|Hi]];
        (eapply next_bucket_bound; [| |exact Hi|exact Hlt']; [done|]); intros n Hn; auto.
  - apply min_option_None in Hmin as [H1 [H2 H3]%min_option_None].
    intros x r s' Hx Ht Hpd. destruct (timed_index p x r s' Hwf Hx Ht Hpd) as [Hi|[Hi|Hi]];
      by eapply next_bucket_after_None in Hi.
Qed.

End dispatch.

(** ** The theorems on a concrete history *)

#[local] Existing Instance sample_serde.

(** The first three tasks again, all of them ready. *)
Definition ready_pool : TaskPool :=
  run_history
    [ OpEnqueue (sample_task "a" "echo") 0; OpEnqueue (sample_task "b" "mail") 0;
      OpEnqueue (set_t_ready_at_step (Some 4%N) (sample_task "c" "echo")) 0 ] TaskPool_default.

Lemma ready_pool_reachable : reachable ready_pool.
Proof. apply run_history_reachable, reachable_default. Qed.

Lemma sample_protocols : NoDup (rd_accepted_protocol_ids sample_runner).
Proof. apply (bool_decide_unpack _). vm_compute. exact I. Qed.

(** A visitor that collects the ids. *)
Definition collect (acc : list TaskId) (r : TaskRecord) : outcome (list TaskId * bool) :=
  Done (acc ++ [record_id r], true).

Lemma candidates_are_the_eligible_records_witness :
  ∃ p', visit_candidate_records collect ready_pool sample_runner 1 0 []
    = ('(acc, visited) ← visit_records collect
         (candidates ready_pool sample_runner 1 0 DispatchLane_ALL) 0 [];
       Done (acc, visited, p')) ∧
  record_id <$> candidates ready_pool sample_runner 1 0 DispatchLane_ALL = ["a"; "b"].
Proof.
  destruct (candidates_are_the_eligible_records collect ready_pool sample_runner 1 0 []
    ready_pool_reachable sample_protocols) as (p' & _ & Hv & _).
  exists p'. split; [exact Hv|]. vm_compute. reflexivity.
Defined.

Lemma claim_respects_budgets_witness :
  ∃ p' leased, claim_ready_for_executor_with_budget ready_pool sample_runner "exec" 1 0 8
      (Some (single_batch 1)) (Some 3%N) = Done (p', leased) ∧ (N.of_nat (length leased) ≤ 8)%N.
Proof.
  assert (expiry_width (Some 3%N)) as Hw by (intros e [= <-]; vm_compute; congruence).
  pose proof (claim_respects_budgets ready_pool sample_runner "exec" 1 0 8 (Some (single_batch 1)) (Some 3%N)
    ready_pool_reachable sample_protocols Hw) as H.
  destruct (claim_ready_for_executor_with_budget _ _ _ _ _ _ _ _) as [[p' leased]|message].
  - exists p', leased. destruct H as (_ & _ & Hlim & _). split; [reflexivity|exact Hlim].
  - destruct H as [_ Hfits]. vm_compute in Hfits. discriminate Hfits.
Defined.

Lemma claim_hands_out_active_leases_witness :
  ∃ p' leased, claim_ready_for_executor_with_budget ready_pool sample_runner "exec" 1 0 1 None (Some 3%N)
      = Done (p', leased) ∧ tl_task_id <$> leased.*1 = ["a"] ∧
    tp_tasks p' !! "b" = tp_tasks ready_pool !! "b".
Proof.
  set (o := claim_ready_for_executor_with_budget _ _ _ _ _ _ _ _).
  assert (match o with Done (_, l) => tl_task_id <$> l.*1 | Panic _ => [] end = ["a"]) as Hids
    by (vm_compute; reflexivity).
  destruct o as [[p' leased]|] eqn:Hclaim; [|discriminate].
  destruct (claim_hands_out_active_leases ready_pool sample_runner "exec" 1 0 1 None (Some 3%N) p' leased
    ready_pool_reachable sample_protocols) as [_ Hother].
  - intros e [= <-]. vm_compute. congruence.
  - exact Hclaim.
  - exists p', leased. split_and!; [reflexivity|exact Hids|]. apply Hother. rewrite Hids.
    intros H%list_elem_of_singleton. discriminate.
Defined.

Lemma claim_takes_the_first_candidates_witness :
  ∃ p' leased, claim_ready_for_executor_with_budget ready_pool sample_runner "exec" 1 0 1 None (Some 3%N)
      = Done (p', leased) ∧ tl_task_id <$> leased.*1 = ["a"].
Proof.
  destruct (claim_takes_the_first_candidates ready_pool sample_runner "exec" 1 0 1 (Some 3%N)
    ready_pool_reachable sample_protocols) as (p' & leased & Hp' & Hids).
  - intros e [= <-]. vm_compute. congruence.
  - vm_compute. reflexivity.
  - exists p', leased. split; [exact Hp'|]. rewrite Hids. vm_compute. reflexivity.
Defined.

Lemma queued_count_is_exact_witness : (ready_dispatch_count ready_pool sample_runner 1 0).1 = 2%N.
Proof.
  rewrite (queued_count_is_exact ready_pool sample_runner 1 0 ready_pool_reachable sample_protocols).
  vm_compute. reflexivity.
Defined.

Lemma next_required_step_is_earliest_witness :
  match pool_next_required_step_after ready_pool 1 with
  | Some s => s = 4%N ∧ ∃ x r, tp_tasks ready_pool !! x = Some r ∧ timed r s
  | None => False
  end.
Proof.
  pose proof (next_required_step_is_earliest ready_pool 1 ready_pool_reachable) as H.
  assert (pool_next_required_step_after ready_pool 1 = Some 4%N) as Heq by (vm_compute; reflexivity).
  rewrite Heq in H |- *. destruct H as (_ & H & _). split; [reflexivity|exact H].
Defined.
