(* ===== verification/StateStore.v ===== *)
(** * StateStore: versioned state with bounded history

    Models [crates/mutsuki-runtime-core/src/state_store.rs], with the deltas and
    rollbacks of [contracts/src/task.rs] and the history profile of
    [contracts/src/observability.rs].  An operation takes and returns the store;
    [&mut self] operations that fail still return the store they leave, because a
    failing rollback prunes. *)
From S2P Require Import Prelude Contracts.

(** ** Contracts *)

Inductive ConflictPolicy : Type := Retry | Merge | Discard | FailPolicy | EmitConflictTask.

Record StateRollback : Type := mkStateRollback {
  rb_target_ref : RefId;
  rb_to_version : N;
}.

Record StateHistoryProfile : Type := mkStateHistoryProfile {
  capacity_per_ref : N;
  retain_steps : N;
}.

Definition StateHistoryProfile_default : StateHistoryProfile := mkStateHistoryProfile 0 0.

Definition is_enabled (profile : StateHistoryProfile) : bool :=
  bool_decide (0 < capacity_per_ref profile)%N.

Section state_store.
Context {serde : Serde}.

Record StateDelta : Type := mkStateDelta {
  sd_target_ref : RefId;
  sd_expected_version : N;
  sd_patch : Value;
  sd_conflict_policy : ConflictPolicy;
}.

Record StateRevision : Type := mkStateRevision {
  rev_version : N;
  rev_value : Value;
  rev_committed_at_step : N;
}.

Record StateStore : Type := mkStateStore {
  ss_values : gmap RefId (N * Value);
  ss_history : gmap RefId (list StateRevision);
  ss_profile : StateHistoryProfile;
}.

Definition StateStore_default : StateStore := mkStateStore ∅ ∅ StateHistoryProfile_default.

(** ** Operations *)

Definition with_profile (profile : StateHistoryProfile) : StateStore :=
  mkStateStore (ss_values StateStore_default) (ss_history StateStore_default) profile.

Definition state_get (s : StateStore) (ref_id : RefId) : option (N * Value) := ss_values s !! ref_id.

Definition current_version (s : StateStore) (ref_id : RefId) : N :=
  default 0%N (fst <$> ss_values s !! ref_id).

(** [while history.len() > capacity { history.pop_front() }]. *)
Fixpoint pop_while_over (capacity : N) (history : list StateRevision) : list StateRevision :=
  match history with
  | [] => []
  | _ :: rest =>
      if decide (capacity < N.of_nat (length history))%N then pop_while_over capacity rest else history
  end.

(** [while history.front().is_some_and(expired) { history.pop_front() }]. *)
Fixpoint pop_while_expired (retain_steps current_step : N) (history : list StateRevision)
  : list StateRevision :=
  match history with
  | [] => []
  | revision :: rest =>
      if decide (retain_steps ≤ sat_sub current_step (rev_committed_at_step revision))%N
      then pop_while_expired retain_steps current_step rest else history
  end.

Definition pruned (profile : StateHistoryProfile) (current_step : N) (history : list StateRevision)
  : list StateRevision :=
  let history := pop_while_over (capacity_per_ref profile) history in
  if decide (0 < retain_steps profile)%N
  then pop_while_expired (retain_steps profile) current_step history else history.

Definition prune_ref (s : StateStore) (ref_id : RefId) (current_step : N) : StateStore :=
  match ss_history s !! ref_id with
  | None => s
  | Some history =>
      let history := pruned (ss_profile s) current_step history in
      mkStateStore (ss_values s)
        (if decide (history = []) then delete ref_id (ss_history s)
         else <[ref_id := history]> (ss_history s)) (ss_profile s)
  end.

Definition state_prune (s : StateStore) (current_step : N) : StateStore :=
  if is_enabled (ss_profile s) then
    foldl (λ s ref_id, prune_ref s ref_id current_step) s
      (btree_iter String.le (dom (ss_history s)))
  else mkStateStore (ss_values s) ∅ (ss_profile s).

Definition configure (s : StateStore) (profile : StateHistoryProfile) (current_step : N) : StateStore :=
  let s := mkStateStore (ss_values s) (ss_history s) profile in
  if is_enabled (ss_profile s) then state_prune s current_step
  else mkStateStore (ss_values s) ∅ (ss_profile s).

Definition state_apply (s : StateStore) (delta : StateDelta) (current_step : N)
  : StateStore * RuntimeResult () :=
  let target := sd_target_ref delta in
  let current := current_version s target in
  if decide (current ≠ sd_expected_version delta) then
    (s, Err (runtime_failure ERR_STATE_CONFLICT "runtime.state_store" ("state.commit." +:+ target)))
  else
    let next_version := wrap_add current 1 in
    let s := mkStateStore (<[target := (next_version, sd_patch delta)]> (ss_values s))
               (ss_history s) (ss_profile s) in
    if is_enabled (ss_profile s) then
      let s := mkStateStore (ss_values s)
                 (or_default [] target
                    (λ h, h ++ [mkStateRevision next_version (sd_patch delta) current_step])
                    (ss_history s)) (ss_profile s) in
      (prune_ref s target current_step, Ok tt)
    else (s, Ok tt).

Definition state_rollback (s : StateStore) (request : StateRollback) (current_step : N)
  : StateStore * RuntimeResult N :=
  let target := rb_target_ref request in
  let to_version := rb_to_version request in
  if is_enabled (ss_profile s) then
    let s := prune_ref s target current_step in
    if decide (current_version s target = to_version) then
      (s, if decide (is_Some (ss_values s !! target)) then Ok to_version
          else Err (runtime_failure ERR_STATE_HISTORY_UNAVAILABLE "runtime.state_store"
                      ("state.rollback.empty." +:+ target)))
    else
      match (history ← ss_history s !! target;
             snd <$> list_find (λ revision, rev_version revision = to_version) history) with
      | None =>
          (s, Err (runtime_failure ERR_STATE_HISTORY_UNAVAILABLE "runtime.state_store"
                     ("state.rollback." +:+ target)))
      | Some revision =>
          let s := mkStateStore (<[target := (to_version, rev_value revision)]> (ss_values s))
                     (ss_history s) (ss_profile s) in
          let history :=
            match ss_history s !! target with
            | Some history =>
                <[target := filter (λ revision, (rev_version revision ≤ to_version)%N) history]>
                  (ss_history s)
            | None => ss_history s
            end in
          (mkStateStore (ss_values s) history (ss_profile s), Ok to_version)
      end
  else
    (s, Err (runtime_failure ERR_STATE_HISTORY_DISABLED "runtime.state_store"
               ("state.rollback.disabled." +:+ target))).

Fixpoint validate_expectations (s : StateStore) (expectations : list VersionExpectation) (route : string)
  : RuntimeResult () :=
  match expectations with
  | [] => Ok tt
  | expectation :: rest =>
      let current := current_version s (ve_ref_id expectation) in
      if decide (current ≠ ve_expected_version expectation) then
        let error := RuntimeError_new ERR_STATE_CONFLICT "runtime.state_store" route in
        let error := set_err_evidence "ref_id" (ScalarString (ve_ref_id expectation)) error in
        let error := set_err_evidence "expected_version"
                       (ScalarInt (u64_as_i64 (ve_expected_version expectation))) error in
        let error := set_err_evidence "actual_version" (ScalarInt (u64_as_i64 current)) error in
        Err error
      else validate_expectations s rest route
  end.

End state_store.
