(* ===== verification/StateTimeline.v ===== *)
(** * StateTimeline: the state store implements a per-reference commit log

    The abstract state of a reference is the list of the values committed to it;
    its version is the length of the list.  A commit appends, a rollback truncates.
    The store keeps the last value and a bounded, ageing suffix of the list. *)
From S2P Require Import Prelude Contracts StateStore.

(** Per reference, the values committed to it, oldest first. *)
Abbreviation timeline := (gmap string (list Value)) (only parsing).

Section timeline.
Context {serde : Serde}.
Implicit Types (s : StateStore) (h : list StateRevision) (l : list Value).

(** ** The abstract store *)

Implicit Types (log : timeline).

Definition commits log (x : RefId) : list Value := default [] (log !! x).

(** The values of a log with their versions, from 1 on. *)
Definition versioned l : list (N * Value) := imap (λ i v, (N.of_nat (S i), v)) l.

Inductive StateOp : Type :=
| StApply (delta : StateDelta)
| StRollback (request : StateRollback)
| StPrune
| StConfigure (profile : StateHistoryProfile).

Inductive StateAnswer : Type :=
| Committed
| RolledBack (version : N)
| Rejected (code : string)
| NoAnswer.

(** What an operation may do to the logs, for each answer. *)
Inductive timeline_step log : StateOp → StateAnswer → timeline → Prop :=
| step_commit delta :
    N.of_nat (length (commits log (sd_target_ref delta))) = sd_expected_version delta →
    timeline_step log (StApply delta) Committed
      (<[sd_target_ref delta := commits log (sd_target_ref delta) ++ [sd_patch delta]]> log)
| step_conflict delta :
    N.of_nat (length (commits log (sd_target_ref delta))) ≠ sd_expected_version delta →
    timeline_step log (StApply delta) (Rejected ERR_STATE_CONFLICT) log
| step_rollback request :
    (1 ≤ rb_to_version request ≤ N.of_nat (length (commits log (rb_target_ref request))))%N →
    timeline_step log (StRollback request) (RolledBack (rb_to_version request))
      (<[rb_target_ref request :=
           take (N.to_nat (rb_to_version request)) (commits log (rb_target_ref request))]> log)
| step_no_history request code :
    code = ERR_STATE_HISTORY_DISABLED ∨ code = ERR_STATE_HISTORY_UNAVAILABLE →
    timeline_step log (StRollback request) (Rejected code) log
| step_prune : timeline_step log StPrune NoAnswer log
| step_configure profile : timeline_step log (StConfigure profile) NoAnswer log.

(** ** The concrete store *)

Definition run_state_op (op : StateOp) (step : N) s : StateStore * StateAnswer :=
  match op with
  | StApply delta =>
      let '(s, res) := state_apply s delta step in
      (s, match res with Ok _ => Committed | Err e => Rejected (err_code e) end)
  | StRollback request =>
      let '(s, res) := state_rollback s request step in
      (s, match res with Ok v => RolledBack v | Err e => Rejected (err_code e) end)
  | StPrune => (state_prune s step, NoAnswer)
  | StConfigure profile => (configure s profile step, NoAnswer)
  end.

(** ** The abstraction relation *)

Definition rev_pair (rev : StateRevision) : N * Value := (rev_version rev, rev_value rev).

(** [h] is a non-empty suffix of the log [l], within the capacity, in commit order. *)
Record revisions_ok (clock capacity : N) l h : Prop := {
  ho_ne : h ≠ [];
  ho_suffix : (rev_pair <$> h) `suffix_of` versioned l;
  ho_capacity : (N.of_nat (length h) ≤ capacity)%N;
  ho_sorted : StronglySorted (key_le rev_committed_at_step) h;
  ho_clock : Forall (λ rev, rev_committed_at_step rev ≤ clock)%N h;
}.

Record represents (clock : N) s log : Prop := {
  rp_values : ∀ x, ss_values s !! x = last (versioned (commits log x));
  rp_history : ∀ x h, ss_history s !! x = Some h →
    revisions_ok clock (capacity_per_ref (ss_profile s)) (commits log x) h;
}.

(** ** Logs *)

Lemma commits_insert log x l y : commits (<[x := l]> log) y = if decide (x = y) then l else commits log y.
Proof. unfold commits. rewrite lookup_insert. by case_decide. Qed.

Lemma length_versioned l : length (versioned l) = length l.
Proof. apply length_imap. Qed.

Lemma versioned_app l v : versioned (l ++ [v]) = versioned l ++ [(N.of_nat (S (length l)), v)].
Proof. unfold versioned. rewrite imap_app. simpl. by rewrite Nat.add_0_r. Qed.

Lemma last_versioned l v n : last (versioned l) = Some (n, v) → n = N.of_nat (length l) ∧ last l = Some v.
Proof.
  destruct l as [|v' l _] using rev_ind; [done|]. rewrite versioned_app, !last_snoc, length_app. simpl.
  intros [= <- <-]. split; [lia|done].
Qed.

Lemma last_versioned_is_Some l : is_Some (last (versioned l)) ↔ l ≠ [].
Proof. rewrite last_is_Some, <-!length_zero_iff_nil, length_versioned. done. Qed.

Lemma current_version_log clock s log x :
  represents clock s log → current_version s x = N.of_nat (length (commits log x)).
Proof.
  intros [Hv _]. unfold current_version. rewrite Hv.
  destruct (last (versioned (commits log x))) as [[n v]|] eqn:Hl; simpl.
  - by apply last_versioned in Hl as [-> _].
  - rewrite last_None in Hl. by rewrite <-length_versioned, Hl.
Qed.

(** A version of the log, looked up. *)
Lemma elem_of_versioned l n v :
  (n, v) ∈ versioned l ↔ (1 ≤ n)%N ∧ l !! (N.to_nat n - 1)%nat = Some v.
Proof.
  unfold versioned. rewrite list_elem_of_lookup. setoid_rewrite list_lookup_imap_Some. split.
  - intros (i & w & Hi & [= -> ->]). split; [lia|].
    by replace (N.to_nat (N.of_nat (S i)) - 1)%nat with i by lia.
  - intros [Hn Hl]. exists (N.to_nat n - 1)%nat, v. split; [done|]. f_equal. lia.
Qed.

Lemma versioned_take l n : versioned (take n l) = filter (λ nv, (nv.1 ≤ N.of_nat n)%N) (versioned l).
Proof.
  induction l as [|v l IH] using rev_ind; [by rewrite take_nil|].
  rewrite versioned_app, filter_app, filter_cons, filter_nil, <-IH. simpl.
  destruct (decide (S (length l) ≤ n)%nat).
  - rewrite decide_True by lia.
    by rewrite !take_ge, versioned_app by (rewrite ?length_app; simpl; lia).
  - rewrite decide_False by lia. by rewrite take_app_le, app_nil_r by lia.
Qed.

Lemma suffix_filter {A} (P : A → Prop) `{!∀ x, Decision (P x)} (l k : list A) :
  l `suffix_of` k → filter P l `suffix_of` filter P k.
Proof. intros [j ->]. rewrite filter_app. apply suffix_app_r. done. Qed.

Lemma filter_rev_pair n h :
  rev_pair <$> filter (λ rev, (rev_version rev ≤ n)%N) h = filter (λ nv, (nv.1 ≤ n)%N) (rev_pair <$> h).
Proof.
  induction h as [|rev h IH]; [done|]. rewrite fmap_cons, !filter_cons. simpl.
  case_decide; [|done]. by rewrite fmap_cons, IH.
Qed.

(** ** Pruning *)

Lemma pop_while_over_suffix capacity h : pop_while_over capacity h `suffix_of` h.
Proof.
  induction h as [|rev h IH]; cbn [pop_while_over]; [done|]. case_decide; [|done].
  by apply suffix_cons_r.
Qed.

Lemma pop_while_over_length capacity h : (N.of_nat (length (pop_while_over capacity h)) ≤ capacity)%N.
Proof. induction h as [|rev h IH]; cbn [pop_while_over]; [simpl; lia|]. case_decide; [done|lia]. Qed.

Lemma pop_while_over_id capacity h :
  (N.of_nat (length h) ≤ capacity)%N → pop_while_over capacity h = h.
Proof. destruct h; [done|]. intros Hh. cbn [pop_while_over]. by rewrite decide_False by lia. Qed.

Lemma pop_while_expired_suffix retain step h : pop_while_expired retain step h `suffix_of` h.
Proof.
  induction h as [|rev h IH]; cbn [pop_while_expired]; [done|]. case_decide; [|done].
  by apply suffix_cons_r.
Qed.

(** On a history in commit order, exactly the revisions that are too old go. *)
Lemma pop_while_expired_filter retain step h :
  StronglySorted (key_le rev_committed_at_step) h →
  pop_while_expired retain step h
  = filter (λ rev, (sat_sub step (rev_committed_at_step rev) < retain)%N) h.
Proof.
  induction 1 as [|rev h Hh IH Hrev]; cbn [pop_while_expired]; [done|]. rewrite filter_cons.
  case_decide as Hold; [rewrite decide_False by lia; done|rewrite decide_True by lia].
  f_equal. symmetry. apply list_filter_all. intros y Hy. rewrite Forall_forall in Hrev.
  specialize (Hrev y Hy). unfold key_le, sat_sub in *. lia.
Qed.

Lemma pruned_suffix profile step h : pruned profile step h `suffix_of` h.
Proof.
  unfold pruned. case_decide; [|apply pop_while_over_suffix].
  etrans; [apply pop_while_expired_suffix|apply pop_while_over_suffix].
Qed.

Lemma StronglySorted_suffix {A} (R : relation A) (l k : list A) :
  l `suffix_of` k → StronglySorted R k → StronglySorted R l.
Proof. intros [j ->]. apply StronglySorted_app_1_r. Qed.

(** A suffix of a history is one again, at any later time and within a capacity. *)
Lemma revisions_ok_suffix clock clock' capacity capacity' l h h' :
  revisions_ok clock capacity l h → h' `suffix_of` h → h' ≠ [] → (clock ≤ clock')%N →
  (N.of_nat (length h') ≤ capacity')%N → revisions_ok clock' capacity' l h'.
Proof.
  intros [_ Hsuf _ Hsort Hclk] Hs Hne Hle Hcap. split; [done| |done|by eapply StronglySorted_suffix|].
  - etrans; [|done]. destruct Hs as [j ->]. rewrite fmap_app. by eexists.
  - destruct Hs as [j ->]. apply Forall_app in Hclk as [_ Hclk].
    eapply Forall_impl; [exact Hclk|]. simpl. lia.
Qed.

Lemma pruned_length profile step h :
  (N.of_nat (length (pruned profile step h)) ≤ capacity_per_ref profile)%N.
Proof.
  pose proof (pop_while_over_length (capacity_per_ref profile) h) as Hlen. unfold pruned.
  case_decide; [|done]. destruct (pop_while_expired_suffix (retain_steps profile) step
    (pop_while_over (capacity_per_ref profile) h)) as [j Hj].
  rewrite Hj, length_app in Hlen. lia.
Qed.

Lemma revisions_ok_pruned clock step capacity profile l h :
  revisions_ok clock capacity l h → (clock ≤ step)%N → pruned profile step h ≠ [] →
  revisions_ok step (capacity_per_ref profile) l (pruned profile step h).
Proof. intros. eapply revisions_ok_suffix; eauto using pruned_suffix, pruned_length. Qed.

(** The histories after pruning one reference. *)
Lemma lookup_prune_ref s x step y :
  ss_history (prune_ref s x step) !! y
  = if decide (x = y) then
      h ← ss_history s !! x;
      if decide (pruned (ss_profile s) step h = []) then None else Some (pruned (ss_profile s) step h)
    else ss_history s !! y.
Proof.
  unfold prune_ref. destruct (ss_history s !! x) as [h|] eqn:Hx; simpl.
  - case_decide; [rewrite lookup_delete|rewrite lookup_insert]; by case_decide.
  - case_decide; by subst.
Qed.

Lemma values_prune_ref s x step : ss_values (prune_ref s x step) = ss_values s.
Proof. unfold prune_ref. by destruct (ss_history s !! x). Qed.

Lemma profile_prune_ref s x step : ss_profile (prune_ref s x step) = ss_profile s.
Proof. unfold prune_ref. by destruct (ss_history s !! x). Qed.

Lemma current_version_prune_ref s x step y : current_version (prune_ref s x step) y = current_version s y.
Proof. unfold current_version. by rewrite values_prune_ref. Qed.

(** Time may pass. *)
Lemma revisions_ok_later clock clock' capacity l h :
  revisions_ok clock capacity l h → (clock ≤ clock')%N → revisions_ok clock' capacity l h.
Proof. intros Hh ?. eapply revisions_ok_suffix; [done|done|by destruct Hh|done|by destruct Hh]. Qed.

Lemma represents_prune_ref clock step s log x :
  represents clock s log → (clock ≤ step)%N → represents step (prune_ref s x step) log.
Proof.
  intros [Hv Hh] Hle. split.
  - intros y. by rewrite values_prune_ref.
  - intros y h. rewrite lookup_prune_ref, profile_prune_ref. case_decide as Hxy; subst.
    + intros (h0 & Hx & Hif)%bind_Some. case_decide; [done|]. injection Hif as <-.
      eapply revisions_ok_pruned; eauto.
    + intros Hy. eapply revisions_ok_later; eauto.
Qed.

(** A fold of prunings, over any set of references: every reference of the list is
    pruned, the others are untouched. *)
Lemma lookup_prune_refs step xs : ∀ s y, NoDup xs →
  ss_history (foldl (λ s x, prune_ref s x step) s xs) !! y
  = if decide (y ∈ xs) then
      h ← ss_history s !! y;
      if decide (pruned (ss_profile s) step h = []) then None else Some (pruned (ss_profile s) step h)
    else ss_history s !! y.
Proof.
  induction xs as [|x xs IH]; intros s y Hnd; cbn [foldl].
  - rewrite decide_False by apply not_elem_of_nil. done.
  - apply NoDup_cons in Hnd as [Hx Hnd]. rewrite IH by done. rewrite profile_prune_ref, lookup_prune_ref.
    destruct (decide (x = y)) as [->|Hxy].
    + by rewrite decide_False, decide_True by set_solver.
    + destruct (decide (y ∈ xs)).
      * by rewrite decide_True by set_solver.
      * by rewrite decide_False by set_solver.
Qed.

Lemma fields_prune_refs step xs : ∀ s,
  ss_values (foldl (λ s x, prune_ref s x step) s xs) = ss_values s ∧
  ss_profile (foldl (λ s x, prune_ref s x step) s xs) = ss_profile s.
Proof.
  induction xs as [|x xs IH]; intros s; cbn [foldl]; [done|].
  destruct (IH (prune_ref s x step)) as [-> ->]. by rewrite values_prune_ref, profile_prune_ref.
Qed.

(** Pruning everything, as one lookup. *)
Lemma lookup_state_prune s step y :
  is_enabled (ss_profile s) = true →
  ss_history (state_prune s step) !! y
  = (h ← ss_history s !! y;
     if decide (pruned (ss_profile s) step h = []) then None else Some (pruned (ss_profile s) step h)).
Proof.
  intros He. unfold state_prune. rewrite He, lookup_prune_refs by apply NoDup_btree_iter.
  case_decide as Hy; [done|].
  rewrite elem_of_btree_iter in Hy. by apply not_elem_of_dom in Hy as ->.
Qed.

End timeline.
