(* ===== verification/StateTheorems.v ===== *)
(** * StateTheorems: the guarantees of the state store

    The refinement of the commit log, compare-and-swap, rollback, the bounds of the
    history and the check of version expectations. *)
From S2P Require Import Prelude Contracts StateStore StateTimeline TaskPoolSamples.

Section theorems.
Context {serde : Serde}.
Implicit Types (s : StateStore) (h : list StateRevision) (l : list Value) (log : timeline).

(** ** Simulation, operation by operation *)

Lemma represents_empty clock profile : represents clock (with_profile profile) ∅.
Proof. by split. Qed.

Lemma represents_clear clock s log profile :
  represents clock s log → ∀ step, represents step (mkStateStore (ss_values s) ∅ profile) log.
Proof. intros [Hv _] step. split; simpl; [done|]. intros x h. by rewrite lookup_empty. Qed.

(** The histories may have been kept under another profile. *)
Lemma represents_prune_all clock step s log :
  (∀ x, ss_values s !! x = last (versioned (commits log x))) →
  (∀ x h, ss_history s !! x = Some h → ∃ c, revisions_ok clock c (commits log x) h) →
  (clock ≤ step)%N → represents step (state_prune s step) log.
Proof.
  intros Hv Hh Hle. destruct (is_enabled (ss_profile s)) eqn:He.
  - assert (ss_values (state_prune s step) = ss_values s ∧
      ss_profile (state_prune s step) = ss_profile s) as [Hvs Hps]
      by (unfold state_prune; rewrite He; apply fields_prune_refs).
    split; [by rewrite Hvs|]. intros x h. rewrite Hps, lookup_state_prune by done.
    intros (h0 & Hx & Hif)%bind_Some. case_decide; [done|]. injection Hif as <-.
    destruct (Hh x h0 Hx) as [c Hc]. eapply revisions_ok_pruned; eauto.
  - unfold state_prune. rewrite He. split; simpl; [done|]. intros x h. by rewrite lookup_empty.
Qed.

Lemma represents_prune clock step s log :
  represents clock s log → (clock ≤ step)%N → represents step (state_prune s step) log.
Proof. intros [Hv Hh] Hle. apply (represents_prune_all clock); eauto. Qed.

Lemma represents_configure clock step s log profile :
  represents clock s log → (clock ≤ step)%N → represents step (configure s profile step) log.
Proof.
  intros Hr Hle. unfold configure. simpl. destruct (is_enabled profile) eqn:He.
  - destruct Hr as [Hv Hh]. apply (represents_prune_all clock); simpl; eauto.
  - by eapply represents_clear.
Qed.

(** Committing one more revision to a history. *)
Lemma revisions_ok_snoc clock step capacity l h v :
  (h = [] ∨ revisions_ok clock capacity l h) → (clock ≤ step)%N →
  revisions_ok step (capacity + 1) (l ++ [v]) (h ++ [mkStateRevision (N.of_nat (S (length l))) v step]).
Proof.
  intros Hh Hle.
  assert ((rev_pair <$> h) `suffix_of` versioned l ∧ (N.of_nat (length h) ≤ capacity)%N ∧
    StronglySorted (key_le rev_committed_at_step) h ∧
    Forall (λ rev, rev_committed_at_step rev ≤ step)%N h) as (Hs & Hc & Hsort & Hclk).
  { destruct Hh as [->|[_ ? ? ? Hclk]]; simpl.
    - split_and!; [apply suffix_nil|lia|constructor|constructor].
    - split_and!; try done. eapply Forall_impl; [exact Hclk|]. simpl. lia. }
  split.
  - by destruct h.
  - rewrite fmap_app, versioned_app. by apply suffix_app.
  - rewrite length_app. simpl. lia.
  - apply StronglySorted_app_2; [|done|repeat constructor]. intros a b Ha Hb%list_elem_of_singleton. subst b.
    rewrite Forall_forall in Hclk. apply Hclk, Ha.
  - apply Forall_app. split; [done|]. by repeat constructor.
Qed.

Lemma represents_commit clock step s log delta :
  represents clock s log → (clock ≤ step)%N →
  (N.of_nat (length (commits log (sd_target_ref delta))) < u64_max)%N →
  current_version s (sd_target_ref delta) = sd_expected_version delta →
  ∃ s', state_apply s delta step = (s', Ok tt) ∧
    represents step s' (<[sd_target_ref delta := commits log (sd_target_ref delta) ++ [sd_patch delta]]> log).
Proof.
  intros Hr Hle Hlt Hcur. pose proof (current_version_log _ _ _ (sd_target_ref delta) Hr) as Hver.
  unfold state_apply. rewrite decide_False by tauto.
  assert (wrap_add (current_version s (sd_target_ref delta)) 1
    = N.of_nat (S (length (commits log (sd_target_ref delta))))) as ->.
  { rewrite Hver. unfold wrap_add. rewrite N.mod_small; [lia|]. unfold u64_max, u64_modulus in *. lia. }
  set (x := sd_target_ref delta) in *. set (l := commits log x) in *. destruct Hr as [Hv Hh].
  assert (∀ y, <[x := (N.of_nat (S (length l)), sd_patch delta)]> (ss_values s) !! y
    = last (versioned (commits (<[x := l ++ [sd_patch delta]]> log) y))) as Hvals.
  { intros y. rewrite commits_insert, lookup_insert. case_decide; [|done].
    by rewrite versioned_app, last_snoc. }
  simpl. destruct (is_enabled (ss_profile s)) eqn:He; eexists; (split; [done|]).
  - set (h0 := default [] (ss_history s !! x)).
    assert (h0 = [] ∨ revisions_ok clock (capacity_per_ref (ss_profile s)) l h0) as Hh0.
    { subst h0. destruct (ss_history s !! x) as [h|] eqn:Hx; [right; by apply Hh|by left]. }
    split; [intros y; rewrite values_prune_ref; apply Hvals|].
    intros y h. rewrite lookup_prune_ref, profile_prune_ref, commits_insert. simpl.
    unfold or_default. fold h0. case_decide as Hxy.
    + rewrite lookup_insert_eq. simpl. case_decide; [done|]. intros [= <-].
      eapply revisions_ok_pruned; [by apply (revisions_ok_snoc clock)|lia|done].
    + rewrite lookup_insert_ne by done. intros Hy. eapply revisions_ok_later; eauto.
  - split; [apply Hvals|]. simpl. intros y h Hy. destruct (Hh y h Hy) as [Hne _ Hcap _ _].
    exfalso. unfold is_enabled in He. apply bool_decide_eq_false in He.
    destruct h; [done|]. simpl in Hcap. lia.
Qed.

(** The revision a rollback finds is a version of the log. *)
Lemma rollback_found clock s log x v :
  represents clock s log →
  (∀ rev, (h ← ss_history s !! x; snd <$> list_find (λ rev, rev_version rev = v) h) = Some rev →
     (v, rev_value rev) ∈ versioned (commits log x)).
Proof.
  intros [_ Hh] rev (h & Hx & Hf)%bind_Some. apply fmap_Some in Hf as ([i rev'] & Hf & ->).
  apply list_find_Some in Hf as (Hi & <- & _). destruct (Hh x h Hx) as [_ [k ->] _ _ _].
  apply elem_of_app. right. apply list_elem_of_fmap. exists rev'. split; [done|].
  by eapply list_elem_of_lookup_2.
Qed.

Lemma last_take_versioned l n v :
  (n, v) ∈ versioned l → last (versioned (take (N.to_nat n) l)) = Some (n, v).
Proof.
  intros [Hn Hl]%elem_of_versioned.
  replace (N.to_nat n) with (S (N.to_nat n - 1)) by lia.
  rewrite (take_S_r _ _ v) by done. rewrite versioned_app, last_snoc, length_take_le.
  - do 2 f_equal. lia.
  - apply lookup_lt_Some in Hl. lia.
Qed.

Lemma revisions_ok_rollback clock capacity l h v rev :
  revisions_ok clock capacity l h → rev ∈ h → rev_version rev = v →
  revisions_ok clock capacity (take (N.to_nat v) l) (filter (λ rev, (rev_version rev ≤ v)%N) h).
Proof.
  intros [Hne Hsuf Hcap Hsort Hclk] Hrev Hv. split.
  - intros Hnil. assert (rev ∈ filter (λ rev, (rev_version rev ≤ v)%N) h) as Hin
      by (apply list_elem_of_filter; split; [lia|done]). rewrite Hnil in Hin. by apply not_elem_of_nil in Hin.
  - rewrite filter_rev_pair, versioned_take, N2Nat.id. by apply suffix_filter.
  - pose proof (length_filter (λ rev, (rev_version rev ≤ v)%N) h). lia.
  - by apply StronglySorted_filter.
  - apply Forall_forall. intros y [_ Hy]%list_elem_of_filter. rewrite Forall_forall in Hclk. auto.
Qed.

Lemma represents_rollback clock step s log request :
  represents clock s log → (clock ≤ step)%N →
  let '(s', res) := state_rollback s request step in
  let x := rb_target_ref request in let v := rb_to_version request in
  match res with
  | Ok n => n = v ∧ (1 ≤ v ≤ N.of_nat (length (commits log x)))%N ∧
      represents step s' (<[x := take (N.to_nat v) (commits log x)]> log)
  | Err e => (err_code e = ERR_STATE_HISTORY_DISABLED ∨ err_code e = ERR_STATE_HISTORY_UNAVAILABLE) ∧
      represents step s' log
  end.
Proof.
  intros Hr Hle. unfold state_rollback.
  set (x := rb_target_ref request). set (v := rb_to_version request).
  destruct (is_enabled (ss_profile s)).
  2:{ split; [by left|]. destruct Hr as [Hv Hh]. split; [done|]. intros. eapply revisions_ok_later; eauto. }
  pose proof (represents_prune_ref _ _ _ _ x Hr Hle) as Hr1. set (s1 := prune_ref s x step) in *.
  pose proof (current_version_log _ _ _ x Hr1) as Hver.
  case_decide as Hcur; [|destruct (_ ≫= _) as [rev|] eqn:Hfind].
  - case_decide as Hex; [|split; [by right|done]]. split; [done|].
    rewrite (rp_values _ _ _ Hr1), last_versioned_is_Some in Hex.
    assert (commits log x ≠ []) as Hne by done. rewrite <-length_zero_iff_nil in Hne.
    split; [lia|]. rewrite take_ge by lia. destruct Hr1 as [Hv1 Hh1].
    split; intros y; rewrite commits_insert; (case_decide; [subst y|]); auto.
  - pose proof (rollback_found _ _ _ _ _ Hr1 rev Hfind) as Hin.
    pose proof (proj1 (elem_of_versioned _ _ _) Hin) as [Hge Hl]. apply lookup_lt_Some in Hl.
    split; [done|]. split; [lia|]. destruct Hr1 as [Hv1 Hh1]. split; simpl.
    + intros y. rewrite commits_insert, lookup_insert. case_decide; [|done].
      symmetry. by apply last_take_versioned.
    + apply bind_Some in Hfind as (h0 & Hx & Hfind). rewrite Hx.
      apply fmap_Some in Hfind as ([i rev'] & (Hi & Hrv & _)%list_find_Some & ->).
      intros y h. rewrite commits_insert, lookup_insert. case_decide; [|by apply Hh1].
      intros [= <-]. eapply revisions_ok_rollback; [by apply Hh1|by eapply list_elem_of_lookup_2|done].
  - split; [by right|done].
Qed.

Lemma simulation_step clock s log op step :
  represents clock s log → (clock ≤ step)%N → (∀ x, N.of_nat (length (commits log x)) < u64_max)%N →
  ∃ log', timeline_step log op (run_state_op op step s).2 log' ∧
    represents step (run_state_op op step s).1 log' ∧
    (∀ x, (length (commits log' x) ≤ S (length (commits log x)))%nat).
Proof.
  intros Hr Hle Hlt. destruct op as [delta|request| |profile]; simpl.
  - destruct (decide (current_version s (sd_target_ref delta) = sd_expected_version delta)) as [Heq|Hne].
    + destruct (represents_commit _ _ _ _ delta Hr Hle (Hlt _) Heq) as (s' & -> & Hr'). simpl.
      eexists. split_and!; [apply step_commit|done|].
      * by rewrite <-(current_version_log _ _ _ _ Hr).
      * intros x. rewrite commits_insert. case_decide; subst; [rewrite length_app; simpl|]; lia.
    + unfold state_apply. rewrite decide_True by done. simpl. exists log. split_and!; [..|lia].
      * apply step_conflict. by rewrite <-(current_version_log _ _ _ _ Hr).
      * destruct Hr as [Hv Hh]. split; [done|]. intros. eapply revisions_ok_later; eauto.
  - pose proof (represents_rollback _ _ _ _ request Hr Hle) as H.
    destruct (state_rollback s request step) as [s' [n|e]]; simpl in *.
    + destruct H as (-> & ? & ?). eexists. split_and!; [by apply step_rollback|done|].
      intros x. rewrite commits_insert. case_decide; subst; [rewrite length_take|]; lia.
    + destruct H as [? ?]. exists log. split_and!; [by apply step_no_history|done|lia].
  - exists log. split_and!; [constructor|by eapply represents_prune|lia].
  - exists log. split_and!; [constructor|by eapply represents_configure|lia].
Qed.

(** ** Histories of the store *)

(** The operations with the steps they run at; the answers, and the store left. *)
Fixpoint run_state_ops (ops : list (StateOp * N)) s : StateStore * list StateAnswer :=
  match ops with
  | [] => (s, [])
  | (op, step) :: ops =>
      let '(s, answer) := run_state_op op step s in
      let '(s, answers) := run_state_ops ops s in (s, answer :: answers)
  end.

Inductive timeline_run : timeline → list (StateOp * N) → list StateAnswer → timeline → Prop :=
| run_nil log : timeline_run log [] [] log
| run_cons log op step answer log1 ops answers log2 :
    timeline_step log op answer log1 → timeline_run log1 ops answers log2 →
    timeline_run log ((op, step) :: ops) (answer :: answers) log2.

Lemma simulation_run ops : ∀ clock s log,
  represents clock s log → StronglySorted N.le (clock :: ops.*2) →
  (∀ x, N.of_nat (length (commits log x) + length ops) ≤ u64_max)%N →
  ∃ log', timeline_run log ops (run_state_ops ops s).2 log' ∧
    represents (default clock (last ops.*2)) (run_state_ops ops s).1 log'.
Proof.
  induction ops as [|[op step] ops IH]; intros clock s log Hr Hs Hlt; cbn [run_state_ops].
  - exists log. split; [constructor|done].
  - apply StronglySorted_inv in Hs as [Hs Hle]. apply Forall_cons in Hle as [Hle _].
    destruct (simulation_step clock s log op step Hr Hle) as (log1 & Hst & Hr1 & Hlen).
    { intros x. specialize (Hlt x). simpl in Hlt. lia. }
    destruct (run_state_op op step s) as [s1 answer]. simpl in *.
    destruct (IH step s1 log1 Hr1 Hs) as (log2 & Hrun & Hr2).
    { intros x. specialize (Hlt x). specialize (Hlen x). lia. }
    destruct (run_state_ops ops s1) as [s2 answers]. simpl in *.
    exists log2. split; [by econstructor|].
    change (list_fmap _ _ snd ops) with (ops.*2). clear -Hr2.
    destruct (ops.*2) as [|step' steps]; [done|]. rewrite last_cons_cons.
    by destruct (proj2 (last_is_Some (step' :: steps)) ltac:(done)) as [n Hn]; rewrite Hn in *.
Qed.

(** A store after operations at non-decreasing steps, the last of them at [clock]. *)
Definition store_reachable (clock : N) s : Prop :=
  ∃ profile ops, StronglySorted N.le ops.*2 ∧ (N.of_nat (length ops) ≤ u64_max)%N ∧
    s = (run_state_ops ops (with_profile profile)).1 ∧ clock = default 0%N (last ops.*2).

Lemma simulation_from_empty profile ops :
  StronglySorted N.le ops.*2 → (N.of_nat (length ops) ≤ u64_max)%N →
  ∃ log, timeline_run ∅ ops (run_state_ops ops (with_profile profile)).2 log ∧
    represents (default 0%N (last ops.*2)) (run_state_ops ops (with_profile profile)).1 log.
Proof.
  intros Hs Hlen. apply simulation_run; [apply represents_empty| |].
  - constructor; [done|]. apply Forall_forall. lia.
  - intros x. unfold commits. rewrite lookup_empty. simpl. lia.
Qed.

Lemma store_reachable_represents clock s : store_reachable clock s → ∃ log, represents clock s log.
Proof.
  intros (profile & ops & Hs & Hlen & -> & ->).
  destruct (simulation_from_empty profile ops Hs Hlen) as (log & _ & ?). eauto.
Qed.

(** ** What a pruned history keeps *)

Definition fresh (profile : StateHistoryProfile) (step : N) (rev : StateRevision) : Prop :=
  (0 < retain_steps profile → sat_sub step (rev_committed_at_step rev) < retain_steps profile)%N.
#[global] Instance fresh_dec profile step rev : Decision (fresh profile step rev).
Proof. unfold fresh. apply _. Defined.

Lemma pop_while_over_drop capacity h :
  pop_while_over capacity h = drop (length h - N.to_nat capacity) h.
Proof.
  induction h as [|rev h IH]; cbn [pop_while_over]; [done|]. case_decide as Hlt.
  - rewrite IH. simpl in Hlt |- *.
    by replace (S (length h) - N.to_nat capacity)%nat with (S (length h - N.to_nat capacity)) by lia.
  - by replace (length (rev :: h) - N.to_nat capacity)%nat with 0%nat by lia.
Qed.

Lemma pruned_spec profile step h :
  StronglySorted (key_le rev_committed_at_step) h →
  pruned profile step h
  = filter (fresh profile step) (drop (length h - N.to_nat (capacity_per_ref profile)) h).
Proof.
  intros Hs. unfold pruned. rewrite pop_while_over_drop. case_decide as Hr.
  - rewrite pop_while_expired_filter.
    + apply list_filter_iff. intros rev. unfold fresh. tauto.
    + eapply StronglySorted_suffix; [|exact Hs]. apply suffix_drop.
  - symmetry. apply list_filter_all. intros rev _ ?. lia.
Qed.

Lemma rollback_available s x v step h rev :
  is_enabled (ss_profile s) = true → current_version s x ≠ v →
  ss_history (prune_ref s x step) !! x = Some h → rev ∈ h → rev_version rev = v →
  (state_rollback s (mkStateRollback x v) step).2 = Ok v.
Proof.
  intros He Hne Hh Hrev Hv. unfold state_rollback. rewrite He. simpl.
  rewrite current_version_prune_ref, decide_False, Hh by done. simpl.
  destruct (list_find (λ rev, rev_version rev = v) h) as [[i rev']|] eqn:Hf; [done|].
  apply list_find_None in Hf. rewrite Forall_forall in Hf. by destruct (Hf rev Hrev).
Qed.

(** After a commit the revision before it survives both prunings. *)
Lemma retained_after_commit clock step step' s log delta h rev :
  let x := sd_target_ref delta in
  represents clock s log → (clock ≤ step ≤ step')%N →
  ss_history s !! x = Some h → last h = Some rev → (2 ≤ capacity_per_ref (ss_profile s))%N →
  current_version s x = sd_expected_version delta → (current_version s x < u64_max)%N →
  fresh (ss_profile s) step' rev →
  ∀ s1, state_apply s delta step = (s1, Ok tt) →
  is_enabled (ss_profile s1) = true ∧
  ∃ h1, ss_history (prune_ref s1 x step') !! x = Some h1 ∧ rev ∈ h1 ∧
    rev_version rev = sd_expected_version delta.
Proof.
  intros x Hr Hstep Hx Hlast Hcap Hcur Hlt Hfresh s1.
  pose proof (current_version_log _ _ _ x Hr) as Hver.
  destruct (rp_history _ _ _ Hr x h Hx) as [Hne Hsuf Hlen Hsort Hclk].
  assert (is_enabled (ss_profile s) = true) as He by (apply bool_decide_eq_true; lia).
  unfold state_apply. fold x. rewrite decide_False by tauto. simpl. rewrite He. intros [= <-].
  rewrite profile_prune_ref. simpl. split; [done|].
  set (new := mkStateRevision _ _ _). unfold or_default. rewrite Hx. simpl.
  assert (StronglySorted (key_le rev_committed_at_step) (h ++ [new])) as Hsort1.
  { apply StronglySorted_app_2; [|done|repeat constructor].
    intros a b Ha Hb%list_elem_of_singleton. subst b. rewrite Forall_forall in Hclk.
    unfold key_le. simpl. specialize (Hclk a Ha). lia. }
  assert (fresh (ss_profile s) step rev) as Hfresh1
    by (unfold fresh, sat_sub in *; intros ?; specialize (Hfresh ltac:(done)); lia).
  set (h1 := pruned (ss_profile s) step (h ++ [new])).
  assert (rev ∈ h1) as Hin1.
  { subst h1. rewrite (pruned_spec _ _ _ Hsort1). apply list_elem_of_filter. split; [done|].
    apply last_Some in Hlast as [h' ->]. rewrite length_app. simpl.
    rewrite <-app_assoc, drop_app_le by (rewrite !length_app; simpl; lia). set_solver. }
  assert (StronglySorted (key_le rev_committed_at_step) h1) as Hsort2
    by (eapply StronglySorted_suffix; [apply pruned_suffix|done]).
  set (h2 := pruned (ss_profile s) step' h1).
  assert (rev ∈ h2) as Hin2.
  { subst h2. rewrite (pruned_spec _ _ _ Hsort2). apply list_elem_of_filter. split; [done|].
    pose proof (pruned_length (ss_profile s) step (h ++ [new])) as Hl1. fold h1 in Hl1.
    by replace (length h1 - _)%nat with 0%nat by lia. }
  exists h2. split_and!; [|done|].
  - rewrite lookup_prune_ref, decide_True, lookup_prune_ref, decide_True by done. simpl.
    rewrite lookup_insert_eq. simpl. fold h1. rewrite profile_prune_ref. simpl.
    rewrite decide_False by (intros Hnil; rewrite Hnil in Hin1; by apply not_elem_of_nil in Hin1). simpl.
    fold h2. by rewrite decide_False by (intros Hnil; rewrite Hnil in Hin2; by apply not_elem_of_nil in Hin2).
  - rewrite <-Hcur, Hver. apply last_Some in Hlast as [h' ->]. destruct Hsuf as [k Hk].
    rewrite fmap_app, app_assoc in Hk. simpl in Hk.
    assert (last (versioned (commits log x)) = Some (rev_pair rev)) as Hl by (by rewrite Hk, last_snoc).
    by apply last_versioned in Hl as [? _].
Qed.

(** ** Theorems *)

(** C8: the state store implements the commit log: for every sequence of commits,
    rollbacks, prunings and reconfigurations at non-decreasing steps, the answers of
    the store are answers of the log, and in the end the store holds for every
    reference exactly the version and value of the log, and in its history only
    revisions of the log, consecutive and ending with the current one. *)
Theorem state_store_refines_timeline profile ops :
  StronglySorted N.le ops.*2 → (N.of_nat (length ops) ≤ u64_max)%N →
  let '(s, answers) := run_state_ops ops (with_profile profile) in
  ∃ log, timeline_run ∅ ops answers log ∧
    (∀ x, state_get s x = last (versioned (commits log x))) ∧
    (∀ x h, ss_history s !! x = Some h → h ≠ [] ∧ (rev_pair <$> h) `suffix_of` versioned (commits log x)).
Proof.
  intros Hs Hlen. destruct (simulation_from_empty profile ops Hs Hlen) as (log & Hrun & [Hv Hh]).
  destruct (run_state_ops ops (with_profile profile)) as [s answers]. exists log. split_and!; [done|done|].
  intros x h Hx. by destruct (Hh x h Hx).
Qed.

(** A commit is a compare-and-swap on the version: it is accepted exactly when
    the expected version is the current one; then the value is the patch under the
    next version and no other reference changes; a refused commit reports a conflict
    and leaves the store as it was. *)
Theorem state_commit_is_compare_and_swap s delta step :
  let '(s', res) := state_apply s delta step in
  if decide (current_version s (sd_target_ref delta) = sd_expected_version delta) then
    res = Ok tt ∧
    state_get s' (sd_target_ref delta) = Some (wrap_add (sd_expected_version delta) 1, sd_patch delta) ∧
    (∀ y, y ≠ sd_target_ref delta →
       state_get s' y = state_get s y ∧ ss_history s' !! y = ss_history s !! y)
  else s' = s ∧ ∃ e, res = Err e ∧ err_code e = ERR_STATE_CONFLICT.
Proof.
  unfold state_apply. destruct (decide (current_version _ _ = _)) as [Heq|Hne].
  - rewrite decide_False by tauto. rewrite Heq. simpl. unfold state_get.
    destruct (is_enabled (ss_profile s)).
    + rewrite values_prune_ref. simpl. rewrite lookup_insert_eq. split_and!; [done|done|].
      intros y Hy. rewrite lookup_prune_ref, lookup_insert_ne, decide_False by done. simpl.
      unfold or_default. by rewrite lookup_insert_ne.
    + simpl. rewrite lookup_insert_eq. split_and!; [done|done|].
      intros y Hy. by rewrite lookup_insert_ne by done.
  - rewrite decide_True by done. split; [done|]. by eexists.
Qed.

(** C34: a commit can be undone: while the history keeps at least two revisions, and
    the revision before the commit is retained and not too old when the rollback
    comes, rolling back to the version before the commit succeeds and every
    reference has the version and value it had. *)
Theorem commit_can_be_rolled_back clock s delta h rev step step' :
  let x := sd_target_ref delta in
  store_reachable clock s → (2 ≤ capacity_per_ref (ss_profile s))%N →
  current_version s x = sd_expected_version delta → (current_version s x < u64_max)%N →
  ss_history s !! x = Some h → last h = Some rev →
  (clock ≤ step ≤ step')%N → fresh (ss_profile s) step' rev →
  ∃ s1 s2, state_apply s delta step = (s1, Ok tt) ∧
    state_rollback s1 (mkStateRollback x (sd_expected_version delta)) step'
      = (s2, Ok (sd_expected_version delta)) ∧
    ∀ y, state_get s2 y = state_get s y.
Proof.
  intros x [log Hr]%store_reachable_represents Hcap Hcur Hlt Hx Hlast Hstep Hfresh.
  pose proof (current_version_log _ _ _ x Hr) as Hver.
  destruct (represents_commit clock step s log delta Hr ltac:(lia) ltac:(fold x; lia) Hcur)
    as (s1 & Happ & Hr1). fold x in Hr1.
  pose proof (current_version_log _ _ _ x Hr1) as Hver1.
  rewrite commits_insert, decide_True, length_app in Hver1 by done. simpl in Hver1.
  destruct (retained_after_commit clock step step' s log delta h rev Hr ltac:(lia) Hx Hlast Hcap Hcur Hlt
    Hfresh s1 Happ) as (He1 & h1 & Hh1 & Hin & Hv).
  pose proof (rollback_available s1 x (sd_expected_version delta) step' h1 rev He1 ltac:(lia) Hh1 Hin
    ltac:(rewrite Hv; done)) as Hok.
  pose proof (represents_rollback step step' s1 _ (mkStateRollback x (sd_expected_version delta)) Hr1
    ltac:(lia)) as Hrb.
  destruct (state_rollback s1 _ step') as [s2 res] eqn:Heq. simpl in Hok, Hrb. subst res.
  destruct Hrb as (_ & _ & [Hv2 _]). exists s1, s2. split_and!; [done|done|]. intros y. unfold state_get.
  rewrite Hv2, (rp_values _ _ _ Hr), !commits_insert. destruct (decide (x = y)) as [<-|]; [|done].
  rewrite decide_True by done. rewrite take_app_le, take_ge by lia. done.
Qed.

(** Pruning at a step removes exactly the revisions that are too old then; and
    the history of every reference always fits the configured capacity. *)
Theorem pruning_is_exact clock s step x :
  store_reachable clock s → (clock ≤ step)%N →
  default [] (ss_history (state_prune s step) !! x)
    = filter (fresh (ss_profile s) step) (default [] (ss_history s !! x)) ∧
  (N.of_nat (length (default [] (ss_history s !! x))) ≤ capacity_per_ref (ss_profile s))%N.
Proof.
  intros [log [_ Hh]]%store_reachable_represents Hle.
  destruct (ss_history s !! x) as [h|] eqn:Hx; simpl.
  - destruct (Hh x h Hx) as [Hne _ Hcap Hsort _]. split; [|done].
    rewrite lookup_state_prune, Hx.
    2:{ apply bool_decide_eq_true. destruct h; [done|]. simpl in Hcap. lia. }
    simpl. rewrite (pruned_spec _ _ _ Hsort).
    replace (length h - N.to_nat (capacity_per_ref (ss_profile s)))%nat with 0%nat by lia.
    rewrite drop_0. by case_decide as Hnil; [rewrite Hnil|].
  - split; [|lia]. destruct (is_enabled (ss_profile s)) eqn:He.
    + by rewrite lookup_state_prune, Hx.
    + unfold state_prune. by rewrite He.
Qed.

(** Version expectations pass exactly when every one names the current version
    of its reference. *)
Theorem expectations_are_checked s expectations route :
  is_ok (validate_expectations s expectations route) = true ↔
  Forall (λ e, current_version s (ve_ref_id e) = ve_expected_version e) expectations.
Proof.
  induction expectations as [|e rest IH]; simpl; [by split|]. rewrite Forall_cons. case_decide as Hne.
  - split; [done|]. by intros [? _].
  - rewrite IH. split; [|tauto]. intros ?. split; [|done].
    destruct (decide (current_version s (ve_ref_id e) = ve_expected_version e)); tauto.
Qed.

End theorems.

(** ** The theorems on a concrete store *)

#[local] Existing Instance sample_serde.

Definition sample_delta (version : N) (v : string) : StateDelta := mkStateDelta "x" version v FailPolicy.

Definition sample_state_ops : list (StateOp * N) :=
  [ (StApply (sample_delta 0 "a"), 1%N); (StApply (sample_delta 1 "b"), 2%N);
    (StApply (sample_delta 1 "c"), 3%N); (StRollback (mkStateRollback "x" 1), 4%N);
    (StApply (sample_delta 1 "d"), 5%N) ].

Definition sample_profile : StateHistoryProfile := mkStateHistoryProfile 2 10.

Definition sample_store : StateStore := (run_state_ops sample_state_ops (with_profile sample_profile)).1.

Lemma sample_steps : StronglySorted N.le sample_state_ops.*2.
Proof.
  apply Sorted_StronglySorted; [intros ?; lia|]. simpl.
  repeat (apply Sorted_cons; [|first [apply HdRel_nil|apply HdRel_cons; lia]]). apply Sorted_nil.
Qed.

Lemma sample_store_reachable : store_reachable 5 sample_store.
Proof.
  exists sample_profile, sample_state_ops. split_and!; [apply sample_steps|vm_compute; congruence|done|done].
Qed.

Lemma state_store_refines_timeline_witness :
  (run_state_ops sample_state_ops (with_profile sample_profile)).2
    = [Committed; Committed; Rejected ERR_STATE_CONFLICT; RolledBack 1; Committed] ∧
  ∃ log, timeline_run ∅ sample_state_ops
      (run_state_ops sample_state_ops (with_profile sample_profile)).2 log ∧
    state_get sample_store "x" = last (versioned (commits log "x")).
Proof.
  split; [vm_compute; reflexivity|]. unfold sample_store.
  pose proof (state_store_refines_timeline sample_profile sample_state_ops sample_steps
    ltac:(vm_compute; congruence)) as H.
  destruct (run_state_ops sample_state_ops (with_profile sample_profile)) as [s answers].
  destruct H as (log & Hrun & Hv & _). exists log. split; [exact Hrun|apply Hv].
Defined.

Lemma commit_can_be_rolled_back_witness :
  state_get sample_store "x" = Some (2%N, "d") ∧
  ∃ s1 s2, state_apply sample_store (sample_delta 2 "e") 6 = (s1, Ok tt) ∧
    state_rollback s1 (mkStateRollback "x" 2) 7 = (s2, Ok 2%N) ∧
    ∀ y, state_get s2 y = state_get sample_store y.
Proof.
  split; [vm_compute; reflexivity|].
  eapply (commit_can_be_rolled_back 5 sample_store (sample_delta 2 "e") _ _ 6 7).
  - apply sample_store_reachable.
  - vm_compute. congruence.
  - vm_compute. reflexivity.
  - vm_compute. reflexivity.
  - vm_compute. reflexivity.
  - reflexivity.
  - lia.
  - vm_compute. reflexivity.
Defined.

Lemma pruning_is_exact_witness :
  default [] (ss_history (state_prune sample_store 12) !! "x")
    = filter (fresh sample_profile 12) (default [] (ss_history sample_store !! "x")) ∧
  default [] (ss_history (state_prune sample_store 12) !! "x") = [mkStateRevision 2 "d" 5].
Proof.
  split; [|vm_compute; reflexivity].
  destruct (pruning_is_exact 5 sample_store 12 "x" sample_store_reachable ltac:(lia)) as [H _]. exact H.
Defined.
