(* ===== verification/Resources.v ===== *)
(** * Resources: resource descriptors, plans and receipts

    Models the records of [crates/mutsuki-runtime-contracts/src/resource/core.rs]
    that the resource manager stores or builds, the surface records of
    [contracts/src/plugin.rs] and the id source of [runtime-core/src/id.rs]. *)
From Stdlib Require Import Ascii.
From S2P Require Import Prelude Contracts.

(** ** Identifiers *)

Record SequentialIdSource : Type := mkSequentialIdSource { ids_next : N }.

Definition SequentialIdSource_new : SequentialIdSource := mkSequentialIdSource 0.

(** [format!("{prefix}-{:026}", n)]. *)
Definition id_string (prefix : string) (n : N) : string := prefix +:+ "-" +:+ pad_left 26 (pretty n).

(** The trait [IdSource]. *)
Class IdSource (S : Type) := next_id : S → string → S * string.

#[global] Instance SequentialIdSource_id_source : IdSource SequentialIdSource := λ ids prefix,
  let next := wrap_add (ids_next ids) 1 in
  (mkSequentialIdSource next, id_string prefix next).

(** What the users of an id source rely on: while ids are available, the next one
    has not been issued before, and what was issued stays issued. *)
Class FreshIds (S : Type) `{!IdSource S} := {
  issued : S → string → string → Prop;
  available : S → Prop;
  next_id_fresh s prefix : available s → ¬ issued s prefix (next_id s prefix).2;
  next_id_issued s prefix : available s → issued (next_id s prefix).1 prefix (next_id s prefix).2;
  issued_mono s prefix prefix' id :
    available s → issued s prefix id → issued (next_id s prefix').1 prefix id;
}.

(** ** Leases and cells *)

Record ExclusiveWriteLease : Type := mkExclusiveWriteLease { ewl_token : LeaseToken }.

Record ResourceCellRef : Type := mkResourceCellRef {
  cell_cell_id : ResourceCellId;
  cell_resource_kind : string;
  cell_owner_plugin_id : PluginId;
  cell_schema : string;
  cell_generation : N;
  cell_health : string;
  cell_reload_policy : string;
}.

Record ResourceLease : Type := mkResourceLease {
  rl_lease_id : ResourceLeaseId;
  rl_cell_id : ResourceCellId;
  rl_borrower_task_id : TaskId;
  rl_borrower_executor_id : ExecutorId;
  rl_mode : string;
  rl_expires_at_step : option N;
  rl_generation : N;
}.

#[global] Instance ResourceLease_eq_dec : EqDecision ResourceLease.
Proof. solve_decision. Defined.

(** ** Values *)

Inductive ValueStorage : Type := InlineSmall | LocalValueStore | StorageBlob | StorageStream | StorageProviderRpc.

Record ValueRef : Type := mkValueRef {
  vr_ref_id : RefId;
  vr_provider_id : string;
  vr_schema : string;
  vr_version : N;
  vr_generation : N;
  vr_size_hint : option N;
  vr_content_hash : option string;
  vr_lifetime : ResourceLifetime;
  vr_storage : ValueStorage;
}.

Record SnapshotDescriptor : Type := mkSnapshotDescriptor {
  sn_snapshot_ref : ResourceRef;
  sn_source_ref : ResourceRef;
  sn_source_version : N;
  sn_snapshot_version : N;
  sn_is_stale : bool;
  sn_is_latest : bool;
}.

Record ResourceDescriptorInvalidation : Type := mkResourceDescriptorInvalidation {
  inv_provider_id : string;
  inv_ref_id : RefId;
  inv_generation : N;
}.

(** ** Surfaces *)

Inductive ContractSurfaceKind : Type :=
| KindRunner | KindTaskProtocol | KindSchema | KindResourceSchema | KindResourceProvider
| KindHostExtension | KindPluginBackend | KindCodec | KindBridge | KindSchedulerPolicy
| KindWorkflow | KindEffect | KindStream | KindSubscription | KindTimer | KindProtocol
| KindHandlerBinding | KindPluginExtension | KindStateSchema | KindLifecycle | KindPermission
| KindCapability | KindService.

Record ContractSurface : Type := mkContractSurface {
  sf_surface_id : SurfaceId;
  sf_kind : ContractSurfaceKind;
  sf_owner_plugin_id : PluginId;
  sf_fingerprint : string;
  sf_deprecated : bool;
}.

Inductive SurfaceOccupancyHandleKind : Type := HandleStream | HandleSubscription | HandleTimer.

Record SurfaceOccupancyHandle : Type := mkSurfaceOccupancyHandle {
  oh_handle_id : string;
  oh_surface_id : SurfaceId;
  oh_owner_plugin_id : PluginId;
  oh_plugin_generation : N;
  oh_registry_generation : N;
  oh_kind : SurfaceOccupancyHandleKind;
}.

Definition SurfaceOccupancy_is_zero (o : SurfaceOccupancy) : bool :=
  bool_decide (so_ready_tasks o = 0%N) && bool_decide (so_running_invocations o = 0%N) &&
  bool_decide (so_resource_refs o = 0%N) && bool_decide (so_state_refs o = 0%N) &&
  bool_decide (so_active_leases o = 0%N) && bool_decide (so_open_streams o = 0%N) &&
  bool_decide (so_subscriptions o = 0%N) && bool_decide (so_timers o = 0%N) &&
  bool_decide (so_effect_inflight o = 0%N).

Definition zero_occupancy (surface_id : SurfaceId) : SurfaceOccupancy :=
  mkSurfaceOccupancy surface_id 0 0 0 0 0 0 0 0 0.

(** ** Plans and receipts *)

Section plans.
Context {serde : Serde}.

Inductive ResourceValue : Type :=
| ValueInline (schema : string) (value : Value) (version : N)
| ValueByRef (value_ref : ValueRef)
| ValueByResource (resource : ResourceRef).

Inductive PackedValue : Type :=
| PackedInline (value : ResourceValue)
| PackedRef (value_ref : ValueRef)
| PackedResource (resource : ResourceRef).

Record PatchDescriptor : Type := mkPatchDescriptor {
  pd_patch_id : string;
  pd_target_ref : ResourceRef;
  pd_base_version : N;
  pd_conflict_policy : string;
  pd_operations : Value;
}.

Record ReadPlan : Type := mkReadPlan {
  rp_plan_id : string;
  rp_resource : ResourceRef;
  rp_operation : string;
  rp_args : Value;
}.

Record WritePlan : Type := mkWritePlan {
  wp_plan_id : string;
  wp_resource : ResourceRef;
  wp_base_version : N;
  wp_conflict_policy : string;
  wp_patch : PatchDescriptor;
  wp_returning : option ReadPlan;
}.

Record StreamPlan : Type := mkStreamPlan {
  sp_plan_id : string;
  sp_resource : ResourceRef;
  sp_operation : string;
  sp_args : Value;
}.

Record ExportPlan : Type := mkExportPlan {
  ep_plan_id : string;
  ep_resource : ResourceRef;
  ep_target : string;
  ep_args : Value;
}.

Record CommandPlan : Type := mkCommandPlan {
  cp_plan_id : string;
  cp_capability : ResourceRef;
  cp_operation : string;
  cp_args : Value;
  cp_idempotency_key : option string;
}.

Record PlanReceipt : Type := mkPlanReceipt {
  rc_plan_id : string;
  rc_status : string;
  rc_resource_ref : option ResourceRef;
  rc_snapshot : option SnapshotDescriptor;
  rc_descriptor_updates : list ResourceRef;
  rc_descriptor_removals : list string;
  rc_new_version : option N;
  rc_output : Value;
}.

End plans.

(** ** Lemmas on ids *)

(** Reads a string as a decimal number, from the value of what precedes it. *)
Fixpoint decimal (acc : N) (s : string) : N :=
  match s with
  | "" => acc
  | String c s => decimal (acc * 10 + (N_of_ascii c - 48)) s
  end.

Lemma decimal_pretty_char x : (x < 10)%N → (N_of_ascii (pretty_N_char x) - 48)%N = x.
Proof.
  intros Hx. assert (x = 0 ∨ x = 1 ∨ x = 2 ∨ x = 3 ∨ x = 4 ∨ x = 5 ∨ x = 6 ∨ x = 7 ∨ x = 8 ∨ x = 9)%N
    as Hcases by lia. by repeat destruct Hcases as [->|Hcases]; [..|subst x].
Qed.

Lemma decimal_go x s : decimal 0 (pretty_N_go x s) = decimal x s.
Proof.
  revert s. induction (N.lt_wf_0 x) as [x _ IH]. intros s.
  destruct (decide (x = 0%N)) as [->|Hx]; [by rewrite pretty_N_go_0|].
  rewrite pretty_N_go_step by lia. rewrite IH by (apply N.div_lt; lia). simpl.
  rewrite decimal_pretty_char by (apply N.mod_lt; lia). f_equal.
  pose proof (N.div_mod x 10). lia.
Qed.

Lemma decimal_pretty n : decimal 0 (pretty n) = n.
Proof.
  unfold pretty, pretty_N. destruct (decide (n = 0%N)) as [->|Hn]; [done|].
  by rewrite decimal_go.
Qed.


Lemma decimal_pad_left w s : decimal 0 (pad_left w s) = decimal 0 s.
Proof. unfold pad_left. by induction (w - String.length s)%nat. Qed.

(** Ids of one prefix are told apart by their number. *)
#[global] Instance id_string_inj prefix : Inj (=) (=) (id_string prefix).
Proof.
  intros a b Hab. unfold id_string in Hab. apply (inj (String.append prefix)), (inj (String.append "-")) in Hab.
  by rewrite <-(decimal_pretty a), <-(decimal_pretty b), <-(decimal_pad_left 26), Hab, decimal_pad_left.
Qed.

(** The counter is such a source until it runs out. *)
#[global] Program Instance SequentialIdSource_fresh : FreshIds SequentialIdSource := {|
  issued ids prefix id := ∃ k, (k ≤ ids_next ids)%N ∧ id = id_string prefix k;
  available ids := (ids_next ids < u64_max)%N;
|}.
Next Obligation.
  simpl. intros ids prefix Hlt (k & Hk & Heq). rewrite wrap_add_1 in Heq by done.
  apply (inj (id_string prefix)) in Heq. lia.
Qed.
Next Obligation. simpl. intros ids prefix Hlt. by exists (wrap_add (ids_next ids) 1). Qed.
Next Obligation.
  simpl. intros ids prefix prefix' id Hlt (k & Hk & ->). exists k. split; [|done].
  rewrite wrap_add_1 by done. lia.
Qed.
