(* ===== verification/ResourceManager.v ===== *)
(** * ResourceManager: descriptors, leases, values and occupancy

    Models [crates/mutsuki-runtime-core/src/resource_manager.rs] and its modules
    [hub.rs], [leases.rs], [occupancy.rs], [plans.rs], [resources.rs] and
    [values.rs].  An operation takes the manager and returns the one it leaves with
    its answer; failing operations leave the manager unchanged unless written
    otherwise. *)
From S2P Require Import Prelude Contracts Resources.

(** ** The hub *)

Record ResourceEntry : Type := mkResourceEntry {
  entry_descriptor : ResourceRef;
  entry_writer : option LeaseToken;
}.

Definition ResourceEntry_new (descriptor : ResourceRef) : ResourceEntry := mkResourceEntry descriptor None.

Record ResourceHub : Type := mkResourceHub { hub_entries : gmap RefId ResourceEntry }.

Definition ResourceHub_default : ResourceHub := mkResourceHub ∅.

Definition hub_insert (h : ResourceHub) (entry : ResourceEntry) : ResourceHub :=
  mkResourceHub (<[rr_ref_id (entry_descriptor entry) := entry]> (hub_entries h)).

Definition hub_get (h : ResourceHub) (ref_id : RefId) : option ResourceEntry := hub_entries h !! ref_id.

Definition hub_remove (h : ResourceHub) (ref_id : RefId) : ResourceHub :=
  mkResourceHub (delete ref_id (hub_entries h)).

(** Iteration over the values of the hash map. *)
Definition hub_list (h : ResourceHub) : list ResourceEntry := (map_to_list (hub_entries h)).*2.

Definition semantic_store_name (semantic : ResourceSemantic) : string :=
  match semantic with
  | FrozenValue => "frozen"
  | VersionedSnapshot => "snapshots"
  | ReadOnlyFact => "facts"
  | CowVersionedState => "cow"
  | CapabilityResource => "capabilities"
  | StreamResource => "streams"
  | TransactionResource => "transactions"
  end.

Definition hub_store_name (h : ResourceHub) (ref_id : RefId) : option string :=
  (λ entry, semantic_store_name (rr_semantic (entry_descriptor entry))) <$> hub_entries h !! ref_id.

(** ** The manager *)

Record ResourceCellEntry : Type := mkResourceCellEntry {
  ce_descriptor : ResourceCellRef;
  ce_active_leases : gmap ResourceLeaseId ResourceLease;
}.

Definition ResourceCellEntry_new (descriptor : ResourceCellRef) : ResourceCellEntry :=
  mkResourceCellEntry descriptor ∅.

Section manager.
Context {serde : Serde}.

Record ResourceManager : Type := mkResourceManager {
  rm_values : gmap RefId (ValueRef * Value);
  rm_hub : ResourceHub;
  rm_resource_cells : gmap ResourceCellId ResourceCellEntry;
  rm_occupancy_handles : gmap string SurfaceOccupancyHandle;
  rm_id_source : SequentialIdSource;
  rm_inline_value_max_bytes : N;
}.

Definition ResourceManager_new : ResourceManager :=
  mkResourceManager ∅ ResourceHub_default ∅ ∅ SequentialIdSource_new 4096.

Definition set_rm_values v m :=
  mkResourceManager v (rm_hub m) (rm_resource_cells m) (rm_occupancy_handles m) (rm_id_source m)
    (rm_inline_value_max_bytes m).
Definition set_rm_hub h m :=
  mkResourceManager (rm_values m) h (rm_resource_cells m) (rm_occupancy_handles m) (rm_id_source m)
    (rm_inline_value_max_bytes m).
Definition set_rm_resource_cells c m :=
  mkResourceManager (rm_values m) (rm_hub m) c (rm_occupancy_handles m) (rm_id_source m)
    (rm_inline_value_max_bytes m).
Definition set_rm_occupancy_handles o m :=
  mkResourceManager (rm_values m) (rm_hub m) (rm_resource_cells m) o (rm_id_source m)
    (rm_inline_value_max_bytes m).
Definition set_rm_id_source i m :=
  mkResourceManager (rm_values m) (rm_hub m) (rm_resource_cells m) (rm_occupancy_handles m) i
    (rm_inline_value_max_bytes m).

(** [self.id_source.next_id(prefix)]. *)
Definition mint (m : ResourceManager) (prefix : string) : ResourceManager * string :=
  let '(ids, id) := next_id (rm_id_source m) prefix in (set_rm_id_source ids m, id).

Definition rm_failure (code route : string) : RuntimeFailure :=
  runtime_failure code "runtime.resource_manager" route.

Definition resource_not_found (route : string) : RuntimeFailure := rm_failure ERR_RESOURCE_NOT_FOUND route.
Definition resource_generation_mismatch (route : string) : RuntimeFailure :=
  rm_failure ERR_RESOURCE_GENERATION_MISMATCH route.
Definition capability_exhausted (route : string) : RuntimeFailure :=
  rm_failure ERR_CAPABILITY_EXHAUSTED route.

(** ** Values (values.rs) *)

(** [serde_json::to_vec(value)], as the length of the bytes. *)
Definition to_vec_len (value : Value) : result N string :=
  match value_to_writer value with
  | Ok chunks => Ok (foldl N.add 0%N chunks)
  | Err message => Err message
  end.

Definition pack_value (m : ResourceManager) (schema : string) (value : Value)
  : ResourceManager * RuntimeResult PackedValue :=
  match to_vec_len value with
  | Err message => (m, Err (rm_failure ERR_RESOURCE_ENCODE_FAILED message))
  | Ok bytes =>
      if decide (bytes ≤ rm_inline_value_max_bytes m)%N then
        (m, Ok (PackedInline (ValueInline schema value 1)))
      else
        let '(m, ref_id) := mint m "value" in
        let value_ref :=
          {| vr_ref_id := ref_id; vr_provider_id := "runtime.resource_manager"; vr_schema := schema;
             vr_version := 1; vr_generation := 1; vr_size_hint := Some bytes;
             vr_content_hash := None; vr_lifetime := Persistent; vr_storage := LocalValueStore |} in
        (set_rm_values (<[ref_id := (value_ref, value)]> (rm_values m)) m, Ok (PackedRef value_ref))
  end.

Definition get_value (m : ResourceManager) (value_ref : ValueRef) : RuntimeResult Value :=
  match rm_values m !! vr_ref_id value_ref with
  | None => Err (rm_failure ERR_RESOURCE_NOT_FOUND ("value." +:+ vr_ref_id value_ref))
  | Some (stored, value) =>
      if decide (vr_generation stored ≠ vr_generation value_ref) then
        Err (rm_failure ERR_RESOURCE_GENERATION_MISMATCH ("value." +:+ vr_ref_id value_ref))
      else Ok value
  end.

(** ** Descriptors (resources.rs) *)

Definition validate_descriptor_identity (descriptor : ResourceRef) (route : string) : RuntimeResult () :=
  if bool_decide (rr_generation descriptor = 0%N) || bool_decide (rr_version descriptor = 0%N) ||
     bool_decide (rid_generation (rr_resource_id descriptor) ≠ rr_generation descriptor) ||
     bool_decide (rid_version (rr_resource_id descriptor) ≠ rr_version descriptor)
  then Err (resource_generation_mismatch (route +:+ "." +:+ rr_ref_id descriptor))
  else Ok tt.

(** The first loop of [invalidate_resource_descriptors]. *)
Fixpoint check_invalidations (m : ResourceManager) (provider_id : string)
    (invalidations : list ResourceDescriptorInvalidation) : RuntimeResult () :=
  match invalidations with
  | [] => Ok tt
  | removed :: rest =>
      let mismatch := Err (resource_generation_mismatch ("resource.invalidate." +:+ inv_ref_id removed)) in
      if bool_decide (inv_provider_id removed ≠ provider_id) || bool_decide (inv_generation removed = 0%N)
      then mismatch
      else
        match hub_get (rm_hub m) (inv_ref_id removed) with
        | Some entry =>
            if bool_decide (rr_provider_id (entry_descriptor entry) ≠ provider_id) ||
               bool_decide (rr_generation (entry_descriptor entry) ≠ inv_generation removed)
            then mismatch
            else check_invalidations m provider_id rest
        | None => check_invalidations m provider_id rest
        end
  end.

Definition invalidate_resource_descriptors (m : ResourceManager) (provider_id : string)
    (invalidations : list ResourceDescriptorInvalidation) : ResourceManager * RuntimeResult () :=
  match check_invalidations m provider_id invalidations with
  | Err e => (m, Err e)
  | Ok _ =>
      (set_rm_hub (foldl (λ h removed, hub_remove h (inv_ref_id removed)) (rm_hub m) invalidations) m,
       Ok tt)
  end.

Definition open_resource (m : ResourceManager) (ref_id : RefId) : RuntimeResult ResourceRef :=
  match hub_get (rm_hub m) ref_id with
  | Some entry => Ok (entry_descriptor entry)
  | None => Err (resource_not_found ("resource.open." +:+ ref_id))
  end.

(** [left.ref_id.cmp(&right.ref_id)]. *)
Definition ref_id_le (left right : ResourceRef) : Prop := String.le (rr_ref_id left) (rr_ref_id right).
#[global] Instance ref_id_le_dec : RelDecision ref_id_le.
Proof. intros left right. unfold ref_id_le. apply _. Defined.

Definition list_descriptors (m : ResourceManager) : list ResourceRef :=
  merge_sort ref_id_le (entry_descriptor <$> hub_list (rm_hub m)).

Definition register_resource_descriptor (m : ResourceManager) (descriptor : ResourceRef)
  : ResourceManager * RuntimeResult ResourceRef :=
  match validate_descriptor_identity descriptor "resource.register" with
  | Err e => (m, Err e)
  | Ok _ =>
      if decide (is_Some (hub_get (rm_hub m) (rr_ref_id descriptor))) then
        (m, Err (rm_failure ERR_CAPABILITY_EXHAUSTED ("resource.register." +:+ rr_ref_id descriptor)))
      else (set_rm_hub (hub_insert (rm_hub m) (ResourceEntry_new descriptor)) m, Ok descriptor)
  end.

Definition unregister_resource (m : ResourceManager) (ref_id : RefId)
  : ResourceManager * RuntimeResult () :=
  (set_rm_hub (hub_remove (rm_hub m) ref_id) m, Ok tt).

Definition sync_resource_descriptor (m : ResourceManager) (descriptor : ResourceRef)
  : ResourceManager * RuntimeResult ResourceRef :=
  match validate_descriptor_identity descriptor "resource.sync" with
  | Err e => (m, Err e)
  | Ok _ =>
      let mismatch := Err (resource_generation_mismatch ("resource.sync." +:+ rr_ref_id descriptor)) in
      match hub_get (rm_hub m) (rr_ref_id descriptor) with
      | Some existing =>
          let current := entry_descriptor existing in
          if bool_decide (rr_generation descriptor < rr_generation current)%N ||
             (bool_decide (rr_generation descriptor = rr_generation current) &&
              bool_decide (rr_version descriptor < rr_version current)%N)
          then (m, mismatch)
          else if (match entry_writer existing with
                   | Some writer => bool_decide (tok_generation writer ≠ rr_generation descriptor)
                   | None => false
                   end)
          then (m, mismatch)
          else
            let writer := entry_writer existing in
            let hub := hub_remove (rm_hub m) (rr_ref_id descriptor) in
            let entry := mkResourceEntry (entry_descriptor (ResourceEntry_new descriptor)) writer in
            (set_rm_hub (hub_insert hub entry) m, Ok descriptor)
      | None => (set_rm_hub (hub_insert (rm_hub m) (ResourceEntry_new descriptor)) m, Ok descriptor)
      end
  end.

Definition merge_descriptor (descriptors : gmap RefId ResourceRef) (descriptor : ResourceRef)
  : gmap RefId ResourceRef :=
  match descriptors !! rr_ref_id descriptor with
  | Some current =>
      if bool_decide (rr_generation current < rr_generation descriptor)%N ||
         (bool_decide (rr_generation descriptor = rr_generation current) &&
          bool_decide (rr_version current ≤ rr_version descriptor)%N)
      then <[rr_ref_id descriptor := descriptor]> descriptors
      else descriptors
  | None => <[rr_ref_id descriptor := descriptor]> descriptors
  end.

(** The values of the B-tree, in key order. *)
Definition receipt_descriptors (receipt : PlanReceipt) : list ResourceRef :=
  let descriptors := ∅ in
  let descriptors :=
    match rc_resource_ref receipt with
    | Some resource => merge_descriptor descriptors resource
    | None => descriptors
    end in
  let descriptors :=
    match rc_snapshot receipt with
    | Some snapshot => merge_descriptor descriptors (sn_snapshot_ref snapshot)
    | None => descriptors
    end in
  let descriptors := foldl merge_descriptor descriptors (rc_descriptor_updates receipt) in
  omap (λ k, descriptors !! k) (btree_iter String.le (dom descriptors)).

(** [iter.map(|d| self.sync_resource_descriptor(d)).collect::<Result<Vec<_>>>()]:
    the first error ends it, and what was synced before it stays. *)
Fixpoint sync_descriptors (m : ResourceManager) (descriptors : list ResourceRef)
  : ResourceManager * RuntimeResult (list ResourceRef) :=
  match descriptors with
  | [] => (m, Ok [])
  | descriptor :: rest =>
      match sync_resource_descriptor m descriptor with
      | (m, Err e) => (m, Err e)
      | (m, Ok synced) =>
          match sync_descriptors m rest with
          | (m, Err e) => (m, Err e)
          | (m, Ok all) => (m, Ok (synced :: all))
          end
      end
  end.

Definition sync_plan_receipt (m : ResourceManager) (receipt : PlanReceipt)
  : ResourceManager * RuntimeResult (list ResourceRef) :=
  sync_descriptors m (receipt_descriptors receipt).

Definition invalidate_legacy_receipt_removals (m : ResourceManager) (provider_id : string)
    (ref_ids : list string) : ResourceManager * RuntimeResult () :=
  if decide (ref_ids = []) then (m, Ok tt)
  else
    let invalidations :=
      (λ entry, mkResourceDescriptorInvalidation (rr_provider_id (entry_descriptor entry))
                  (rr_ref_id (entry_descriptor entry)) (rr_generation (entry_descriptor entry)))
      <$> omap (hub_get (rm_hub m)) ref_ids in
    invalidate_resource_descriptors m provider_id invalidations.

Definition create_stream_resource (m : ResourceManager) (stream_id schema provider_id endpoint : string)
  : ResourceManager * ResourceRef :=
  let '(m, ref_id) := mint m "resource" in
  let descriptor :=
    {| rr_resource_id := mkResourceId stream_id ref_id 1 1; rr_ref_id := ref_id;
       rr_semantic := StreamResource; rr_provider_id := provider_id; rr_resource_kind := stream_id;
       rr_schema := schema; rr_version := 1; rr_generation := 1;
       rr_access := AccessStream endpoint; rr_size_hint := None; rr_content_hash := None;
       rr_lifetime := ExternalManaged; rr_lease := None; rr_seal_state := Sealed |} in
  (set_rm_hub (hub_insert (rm_hub m) (ResourceEntry_new descriptor)) m, descriptor).

Definition is_stream (access : ResourceAccess) : bool :=
  match access with AccessStream _ => true | _ => false end.

Definition close_stream_resource (m : ResourceManager) (ref_id : RefId)
  : outcome (ResourceManager * RuntimeResult ResourceRef) :=
  let not_found := Done (m, Err (resource_not_found ("resource.stream.close." +:+ ref_id))) in
  match hub_get (rm_hub m) ref_id with
  | Some entry =>
      if is_stream (rr_access (entry_descriptor entry)) then
        removed ← expect (hub_get (rm_hub m) ref_id) "stream resource was checked before remove";
        Done (set_rm_hub (hub_remove (rm_hub m) ref_id) m, Ok (entry_descriptor removed))
      else not_found
  | None => not_found
  end.

Definition resource_store_name (m : ResourceManager) (ref_id : RefId) : option string :=
  hub_store_name (rm_hub m) ref_id.

(** ** Plans (plans.rs) *)

Definition build_read_plan (m : ResourceManager) (ref_id : RefId) (operation : string)
  : RuntimeResult ReadPlan :=
  match open_resource m ref_id with
  | Err e => Err e
  | Ok resource =>
      Ok (mkReadPlan ("read-plan:" +:+ ref_id +:+ ":" +:+ operation) resource operation Value_null)
  end.

Definition open_stream_plan (plan : ReadPlan) : RuntimeResult StreamPlan :=
  if decide (rr_semantic (rp_resource plan) ≠ StreamResource) then
    Err (rm_failure ERR_RESOURCE_SEMANTIC_MISMATCH
           ("resource.stream_plan." +:+ rr_ref_id (rp_resource plan)))
  else
    Ok (mkStreamPlan ("stream-plan:" +:+ rr_ref_id (rp_resource plan)) (rp_resource plan) "open_stream"
          Value_null).

Definition build_export_plan (m : ResourceManager) (ref_id : RefId) (target : string)
  : RuntimeResult ExportPlan :=
  match open_resource m ref_id with
  | Err e => Err e
  | Ok resource =>
      Ok (mkExportPlan ("export-plan:" +:+ ref_id +:+ ":" +:+ target) resource target Value_null)
  end.

Definition build_command_plan (m : ResourceManager) (ref_id : RefId) (operation : string) (args : Value)
    (idempotency_key : option string) : RuntimeResult CommandPlan :=
  match open_resource m ref_id with
  | Err e => Err e
  | Ok capability =>
      Ok (mkCommandPlan ("command-plan:" +:+ ref_id +:+ ":" +:+ operation) capability operation args
            idempotency_key)
  end.

Definition build_write_plan (m : ResourceManager) (ref_id : RefId) (conflict_policy : string)
    (operations : Value) : RuntimeResult WritePlan :=
  match open_resource m ref_id with
  | Err e => Err e
  | Ok resource =>
      let patch := mkPatchDescriptor ("patch:" +:+ ref_id +:+ ":" +:+ pretty (rr_version resource)) resource
                     (rr_version resource) conflict_policy operations in
      Ok (mkWritePlan ("write-plan:" +:+ ref_id +:+ ":" +:+ pretty (pd_base_version patch)) resource
            (pd_base_version patch) (pd_conflict_policy patch) patch None)
  end.

(** ** Leases (leases.rs) *)

Definition create_resource_cell (m : ResourceManager) (cell_id resource_kind owner_plugin_id schema
    reload_policy : string) : ResourceManager * ResourceCellRef :=
  let descriptor := mkResourceCellRef cell_id resource_kind owner_plugin_id schema 1 "healthy" reload_policy in
  (set_rm_resource_cells
     (<[cell_cell_id descriptor := ResourceCellEntry_new descriptor]> (rm_resource_cells m)) m, descriptor).

Definition lease_values (cell : ResourceCellEntry) : list ResourceLease :=
  (map_to_list (ce_active_leases cell)).*2.

Definition acquire_resource_lease (m : ResourceManager) (cell_id borrower_task_id borrower_executor_id mode
    : string) (expires_at_step : option N) : ResourceManager * RuntimeResult ResourceLease :=
  match rm_resource_cells m !! cell_id with
  | None => (m, Err (rm_failure ERR_RESOURCE_NOT_FOUND ("resource_cell.lease." +:+ cell_id)))
  | Some cell =>
      if bool_decide (mode = "exclusive") && negb (map_is_empty (ce_active_leases cell)) then
        (m, Err (rm_failure ERR_CAPABILITY_EXHAUSTED ("resource_cell.lease." +:+ cell_id)))
      else if bool_decide (mode ≠ "shared") && bool_decide (mode ≠ "exclusive") then
        (m, Err (rm_failure ERR_RESOURCE_LEASE_MODE_INVALID
                   ("resource_cell.lease." +:+ cell_id +:+ "." +:+ mode)))
      else if bool_decide (mode = "shared") &&
              existsb (λ lease, bool_decide (rl_mode lease = "exclusive")) (lease_values cell) then
        (m, Err (rm_failure ERR_CAPABILITY_EXHAUSTED ("resource_cell.lease." +:+ cell_id)))
      else
        let '(m, lease_id) := mint m "resource-lease" in
        let lease := mkResourceLease lease_id cell_id borrower_task_id borrower_executor_id mode
                       expires_at_step (cell_generation (ce_descriptor cell)) in
        let cell := mkResourceCellEntry (ce_descriptor cell)
                      (<[rl_lease_id lease := lease]> (ce_active_leases cell)) in
        (set_rm_resource_cells (<[cell_id := cell]> (rm_resource_cells m)) m, Ok lease)
  end.

Definition resource_lease_expired (lease : ResourceLease) (current_step : N) : bool :=
  match rl_expires_at_step lease with
  | Some expires_at => bool_decide (expires_at ≤ current_step)%N
  | None => false
  end.

Definition validate_resource_lease (cell : ResourceCellEntry) (lease : ResourceLease)
    (current_step : option N) (action : string) : RuntimeResult () :=
  let route := "resource_cell." +:+ action +:+ "." +:+ rl_lease_id lease in
  match ce_active_leases cell !! rl_lease_id lease with
  | None => Err (rm_failure ERR_RESOURCE_NOT_FOUND route)
  | Some active =>
      if bool_decide (active ≠ lease) ||
         bool_decide (rl_generation lease ≠ cell_generation (ce_descriptor cell))
      then Err (rm_failure ERR_RESOURCE_GENERATION_MISMATCH route)
      else if (match current_step with
               | Some step => resource_lease_expired lease step
               | None => false
               end)
      then Err (rm_failure ERR_RESOURCE_LEASE_EXPIRED route)
      else Ok tt
  end.

Definition release_resource_lease_checked (m : ResourceManager) (lease : ResourceLease)
    (current_step : option N) : ResourceManager * RuntimeResult () :=
  match rm_resource_cells m !! rl_cell_id lease with
  | None => (m, Err (rm_failure ERR_RESOURCE_NOT_FOUND ("resource_cell.release." +:+ rl_cell_id lease)))
  | Some cell =>
      match validate_resource_lease cell lease current_step "release" with
      | Err e => (m, Err e)
      | Ok _ =>
          match ce_active_leases cell !! rl_lease_id lease with
          | None =>
              (m, Err (rm_failure ERR_RESOURCE_NOT_FOUND ("resource_cell.release." +:+ rl_lease_id lease)))
          | Some _ =>
              let cell := mkResourceCellEntry (ce_descriptor cell)
                            (delete (rl_lease_id lease) (ce_active_leases cell)) in
              (set_rm_resource_cells (<[rl_cell_id lease := cell]> (rm_resource_cells m)) m, Ok tt)
          end
      end
  end.

Definition release_resource_lease (m : ResourceManager) (lease : ResourceLease) :=
  release_resource_lease_checked m lease None.
Definition release_resource_lease_at (m : ResourceManager) (lease : ResourceLease) (current_step : N) :=
  release_resource_lease_checked m lease (Some current_step).

Definition lease_id_le (a b : ResourceLease) : Prop := String.le (rl_lease_id a) (rl_lease_id b).
#[global] Instance lease_id_le_dec : RelDecision lease_id_le.
Proof. intros a b. unfold lease_id_le. apply _. Defined.

(** [retain] of every cell, in one pass over the cells. *)
Definition reclaim_expired_resource_leases (m : ResourceManager) (current_step : N)
  : ResourceManager * list ResourceLease :=
  let expired := filter (λ lease, resource_lease_expired lease current_step = true) in
  let reclaimed := mjoin ((λ cell, expired (lease_values cell)) <$> (map_to_list (rm_resource_cells m)).*2) in
  let retain cell := mkResourceCellEntry (ce_descriptor cell)
    (filter (λ kv, resource_lease_expired kv.2 current_step = false) (ce_active_leases cell)) in
  (set_rm_resource_cells (retain <$> rm_resource_cells m) m, merge_sort lease_id_le reclaimed).

Definition active_mutable_lease_routes_for_task (m : ResourceManager) (task_id : TaskId) : list string :=
  let cells := mjoin ((λ cell,
      (λ lease, "resource_cell.lease." +:+ rl_lease_id lease) <$>
        filter (λ lease, rl_borrower_task_id lease = task_id ∧ rl_mode lease = "exclusive")
          (lease_values cell)) <$> (map_to_list (rm_resource_cells m)).*2) in
  let writers := omap (λ entry,
      match entry_writer entry with
      | Some writer =>
          if decide (tok_owner writer = task_id)
          then Some ("resource.write_lease." +:+ tok_token_id writer) else None
      | None => None
      end) (hub_list (rm_hub m)) in
  merge_sort String.le (cells ++ writers).

Definition acquire_write_lease (m : ResourceManager) (ref_id : RefId) (owner : string)
    (expires_at_step : option N) : ResourceManager * RuntimeResult ExclusiveWriteLease :=
  match hub_get (rm_hub m) ref_id with
  | None => (m, Err (rm_failure ERR_RESOURCE_NOT_FOUND ("resource.lease." +:+ ref_id)))
  | Some entry =>
      match entry_writer entry with
      | Some _ => (m, Err (rm_failure ERR_CAPABILITY_EXHAUSTED ("resource.lease." +:+ ref_id)))
      | None =>
          let '(m, token_id) := mint m "lease" in
          let token := mkLeaseToken token_id ref_id owner "exclusive_write" expires_at_step
                         (rr_generation (entry_descriptor entry)) in
          let entry := mkResourceEntry (entry_descriptor entry) (Some token) in
          (set_rm_hub (mkResourceHub (<[ref_id := entry]> (hub_entries (rm_hub m)))) m,
           Ok (mkExclusiveWriteLease token))
      end
  end.

Definition release_write_lease_checked (m : ResourceManager) (lease : ExclusiveWriteLease)
    (current_step : option N) : ResourceManager * RuntimeResult () :=
  let token := ewl_token lease in
  let route := "resource.write_lease.release." +:+ tok_ref_id token in
  match hub_get (rm_hub m) (tok_ref_id token) with
  | None => (m, Err (rm_failure ERR_RESOURCE_NOT_FOUND route))
  | Some entry =>
      if (match tok_expires_at_step token, current_step with
          | Some expires, Some step => bool_decide (expires ≤ step)%N
          | _, _ => false
          end)
      then (m, Err (rm_failure ERR_RESOURCE_LEASE_EXPIRED route))
      else if decide (entry_writer entry ≠ Some token) then
        (m, Err (rm_failure ERR_RESOURCE_GENERATION_MISMATCH route))
      else
        let entry := mkResourceEntry (entry_descriptor entry) None in
        (set_rm_hub (mkResourceHub (<[tok_ref_id token := entry]> (hub_entries (rm_hub m)))) m, Ok tt)
  end.

Definition release_write_lease (m : ResourceManager) (lease : ExclusiveWriteLease) :=
  release_write_lease_checked m lease None.
Definition release_write_lease_at (m : ResourceManager) (lease : ExclusiveWriteLease) (current_step : N) :=
  release_write_lease_checked m lease (Some current_step).

(** ** Occupancy (occupancy.rs) *)

Record HandleCounts : Type := mkHandleCounts {
  hc_streams : N;
  hc_subscriptions : N;
  hc_timers : N;
}.
Definition HandleCounts_default : HandleCounts := mkHandleCounts 0 0 0.

Definition register_surface_occupancy (m : ResourceManager) (handle : SurfaceOccupancyHandle)
  : ResourceManager * RuntimeResult () :=
  if decide (is_Some (rm_occupancy_handles m !! oh_handle_id handle)) then
    (m, Err (capability_exhausted ("surface.occupancy." +:+ oh_handle_id handle)))
  else
    (set_rm_occupancy_handles (<[oh_handle_id handle := handle]> (rm_occupancy_handles m)) m, Ok tt).

Definition release_surface_occupancy (m : ResourceManager) (handle_id : string)
  : ResourceManager * RuntimeResult SurfaceOccupancyHandle :=
  match rm_occupancy_handles m !! handle_id with
  | Some handle =>
      (set_rm_occupancy_handles (delete handle_id (rm_occupancy_handles m)) m, Ok handle)
  | None => (m, Err (resource_not_found ("surface.occupancy." +:+ handle_id)))
  end.

(** The counters count entries held in memory and stay far below 2^64. *)
Definition increment_count (counts : gmap SurfaceId N) (key : SurfaceId) : gmap SurfaceId N :=
  or_default 0%N key (λ n, n + 1)%N counts.

Definition increment_active_lease_count (counts : gmap SurfaceId (N * N)) (surface_id : SurfaceId)
    (active_leases : N) : gmap SurfaceId (N * N) :=
  or_default (0, 0)%N surface_id (λ item, (item.1, item.2 + active_leases)%N) counts.

Definition increment_resource_count (counts : gmap SurfaceId (N * N)) (surface_id : SurfaceId)
    (entry : ResourceEntry) : gmap SurfaceId (N * N) :=
  or_default (0, 0)%N surface_id
    (λ item, (item.1 + 1, if decide (is_Some (entry_writer entry)) then item.2 + 1 else item.2)%N) counts.

Definition count_resource_surface (counts : gmap SurfaceId (N * N)) (value : string)
    (kind : ContractSurfaceKind) (entry : ResourceEntry) : gmap SurfaceId (N * N) :=
  let go prefix :=
    let counts := increment_resource_count counts value entry in
    increment_resource_count counts (prefix +:+ ":" +:+ value) entry in
  match kind with
  | KindResourceSchema => go "resource_schema"
  | KindResourceProvider => go "resource_provider"
  | _ => counts
  end.

Definition resource_surface_counts (m : ResourceManager) : gmap SurfaceId (N * N) :=
  let counts := foldl (λ counts entry,
      let counts := count_resource_surface counts (rr_schema (entry_descriptor entry))
                      KindResourceSchema entry in
      count_resource_surface counts (rr_provider_id (entry_descriptor entry)) KindResourceProvider entry)
    ∅ (hub_list (rm_hub m)) in
  foldl (λ counts cell,
      let active_leases := N.of_nat (size (ce_active_leases cell)) in
      if decide (0 < active_leases)%N then
        let counts := increment_active_lease_count counts (cell_schema (ce_descriptor cell)) active_leases in
        increment_active_lease_count counts ("resource_schema:" +:+ cell_schema (ce_descriptor cell))
          active_leases
      else counts)
    counts (map_to_list (rm_resource_cells m)).*2.

Definition stream_surface_counts (m : ResourceManager) : gmap SurfaceId N :=
  foldl (λ counts entry,
      let counts := increment_count counts (rr_resource_kind (entry_descriptor entry)) in
      increment_count counts ("stream:" +:+ rr_resource_kind (entry_descriptor entry)))
    ∅ (filter (λ entry, is_stream (rr_access (entry_descriptor entry)) = true) (hub_list (rm_hub m))).

Definition count_handle (item : HandleCounts) (kind : SurfaceOccupancyHandleKind) : HandleCounts :=
  match kind with
  | HandleStream => mkHandleCounts (hc_streams item + 1) (hc_subscriptions item) (hc_timers item)
  | HandleSubscription => mkHandleCounts (hc_streams item) (hc_subscriptions item + 1) (hc_timers item)
  | HandleTimer => mkHandleCounts (hc_streams item) (hc_subscriptions item) (hc_timers item + 1)
  end.

Definition handle_surface_counts (m : ResourceManager) : gmap SurfaceId HandleCounts :=
  foldl (λ counts handle,
      or_default HandleCounts_default (oh_surface_id handle) (λ item, count_handle item (oh_kind handle))
        counts)
    ∅ (map_to_list (rm_occupancy_handles m)).*2.

Definition surface_occupancy_item (m : ResourceManager) (resource_counts : gmap SurfaceId (N * N))
    (stream_counts : gmap SurfaceId N) (handle_counts : gmap SurfaceId HandleCounts)
    (surface : ContractSurface) : SurfaceOccupancy :=
  let id := sf_surface_id surface in
  let handles := default HandleCounts_default (handle_counts !! id) in
  match sf_kind surface with
  | KindResourceSchema | KindResourceProvider =>
      match resource_counts !! id with
      | Some (resource_refs, active_leases) =>
          mkSurfaceOccupancy id 0 0 resource_refs 0 active_leases 0 0 0 0
      | None => zero_occupancy id
      end
  | KindSchema =>
      let matching := filter (λ v, id = "schema:" +:+ vr_schema v.1 ∨ id = vr_schema v.1)
                        (map_to_list (rm_values m)).*2 in
      mkSurfaceOccupancy id 0 0 (N.of_nat (length matching)) 0 0 0 0 0 0
  | KindStream =>
      mkSurfaceOccupancy id 0 0 0 0 0 (default 0%N (stream_counts !! id) + hc_streams handles) 0 0 0
  | KindSubscription => mkSurfaceOccupancy id 0 0 0 0 0 0 (hc_subscriptions handles) 0 0
  | KindTimer => mkSurfaceOccupancy id 0 0 0 0 0 0 0 (hc_timers handles) 0
  | _ => zero_occupancy id
  end.

Definition surface_occupancy (m : ResourceManager) (surfaces : list ContractSurface)
  : list SurfaceOccupancy :=
  let resource_counts := resource_surface_counts m in
  let stream_counts := stream_surface_counts m in
  let handle_counts := handle_surface_counts m in
  filter (λ item, SurfaceOccupancy_is_zero item = false)
    (surface_occupancy_item m resource_counts stream_counts handle_counts <$> surfaces).

End manager.
