(* ===== verification/ResourceInv.v ===== *)
(** * ResourceInv: the invariant of the resource manager

    What every reachable resource manager satisfies, the exact branches of the
    operations on leases and descriptors, and that each operation keeps the
    invariant. *)
From S2P Require Import Prelude Contracts Resources ResourceManager.

Section inv.
Context {serde : Serde}.
Implicit Types (m : ResourceManager) (cell : ResourceCellEntry) (entry : ResourceEntry).

(** ** Invariant *)

(** An id this manager has handed out under [prefix]. *)
Definition minted m (prefix id : string) : Prop :=
  issued (rm_id_source m) prefix id.

Definition lease_mode (mode : string) : Prop := mode = "shared" ∨ mode = "exclusive".

Record lease_wf m (c : ResourceCellId) (g : N) (id : ResourceLeaseId) (lease : ResourceLease) : Prop := {
  lw_id : rl_lease_id lease = id;
  lw_cell : rl_cell_id lease = c;
  lw_mode : lease_mode (rl_mode lease);
  lw_generation : rl_generation lease = g;
  lw_minted : minted m "resource-lease" id;
}.

(** An exclusive lease is alone in its cell. *)
Definition exclusive_alone cell : Prop :=
  ∀ id lease, ce_active_leases cell !! id = Some lease → rl_mode lease = "exclusive" →
    ce_active_leases cell = {[id := lease]}.

Record cell_wf m (c : ResourceCellId) cell : Prop := {
  cw_id : cell_cell_id (ce_descriptor cell) = c;
  cw_leases : map_Forall (lease_wf m c (cell_generation (ce_descriptor cell))) (ce_active_leases cell);
  cw_exclusive : exclusive_alone cell;
}.

(** The identity fields of a stored descriptor agree and are not zero. *)
Definition identity_ok (d : ResourceRef) : Prop :=
  rr_generation d ≠ 0%N ∧ rr_version d ≠ 0%N ∧
  rid_generation (rr_resource_id d) = rr_generation d ∧ rid_version (rr_resource_id d) = rr_version d.

Record token_wf m (x : RefId) (g : N) (token : LeaseToken) : Prop := {
  tw_ref : tok_ref_id token = x;
  tw_generation : tok_generation token = g;
  tw_minted : minted m "lease" (tok_token_id token);
}.

Record entry_wf m (x : RefId) entry : Prop := {
  ew_id : rr_ref_id (entry_descriptor entry) = x;
  ew_identity : identity_ok (entry_descriptor entry);
  ew_writer : ∀ token, entry_writer entry = Some token →
    token_wf m x (rr_generation (entry_descriptor entry)) token;
}.

Record value_wf m (x : RefId) (v : ValueRef * Value) : Prop := {
  vw_id : vr_ref_id v.1 = x;
  vw_generation : vr_generation v.1 = 1%N;
  vw_minted : minted m "value" x;
}.

Record rm_wf m : Prop := {
  rw_cells : map_Forall (cell_wf m) (rm_resource_cells m);
  rw_hub : map_Forall (entry_wf m) (hub_entries (rm_hub m));
  rw_values : map_Forall (value_wf m) (rm_values m);
  rw_handles : map_Forall (λ id handle, oh_handle_id handle = id) (rm_occupancy_handles m);
}.

(** ** The invariant under a larger id counter *)

Definition ids_le m m' : Prop := (ids_next (rm_id_source m) ≤ ids_next (rm_id_source m'))%N.

Lemma minted_mono m m' prefix id : ids_le m m' → minted m prefix id → minted m' prefix id.
Proof. intros Hle (k & Hk & ->). exists k. split; [|done]. unfold ids_le in Hle. lia. Qed.

Lemma cell_wf_mono m m' c cell : ids_le m m' → cell_wf m c cell → cell_wf m' c cell.
Proof.
  intros Hle [? Hl ?]. split; [done| |done]. intros id lease Hid. destruct (Hl id lease Hid).
  split; try done. by eapply minted_mono.
Qed.

Lemma entry_wf_mono m m' x entry : ids_le m m' → entry_wf m x entry → entry_wf m' x entry.
Proof.
  intros Hle [? ? Hw]. split; [done|done|]. intros token Ht. destruct (Hw token Ht). split; try done.
  by eapply minted_mono.
Qed.

Lemma value_wf_mono m m' x v : ids_le m m' → value_wf m x v → value_wf m' x v.
Proof. intros Hle []. split; try done. by eapply minted_mono. Qed.

(** Any manager whose parts are well formed for an earlier counter. *)
Lemma rm_wf_intro m m' :
  ids_le m m' →
  map_Forall (cell_wf m) (rm_resource_cells m') → map_Forall (entry_wf m) (hub_entries (rm_hub m')) →
  map_Forall (value_wf m) (rm_values m') →
  map_Forall (λ id handle, oh_handle_id handle = id) (rm_occupancy_handles m') → rm_wf m'.
Proof.
  intros Hle Hc He Hv Hh. split; [..|done].
  - eapply map_Forall_impl; [exact Hc|]. intros. by eapply cell_wf_mono.
  - eapply map_Forall_impl; [exact He|]. intros. by eapply entry_wf_mono.
  - eapply map_Forall_impl; [exact Hv|]. intros. by eapply value_wf_mono.
Qed.

Lemma rm_wf_mono m m' :
  rm_wf m → ids_le m m' → rm_resource_cells m' = rm_resource_cells m → rm_hub m' = rm_hub m →
  rm_values m' = rm_values m → rm_occupancy_handles m' = rm_occupancy_handles m → rm_wf m'.
Proof. intros [] Hle Hc Hh Hv Ho. apply (rm_wf_intro m); by rewrite ?Hc, ?Hh, ?Hv, ?Ho. Qed.

(** Minting: the counter goes up, the id is new. *)
Lemma mint_spec m prefix :
  (ids_next (rm_id_source m) < u64_max)%N →
  ∃ m1, mint m prefix = (m1, id_string prefix (ids_next (rm_id_source m) + 1)) ∧
    m1 = set_rm_id_source (mkSequentialIdSource (ids_next (rm_id_source m) + 1)) m.
Proof.
  intros Hlt. eexists. split; [|done]. unfold mint, next_id, SequentialIdSource_id_source.
  by rewrite wrap_add_1.
Qed.

Lemma mint_fresh m prefix : ¬ minted m prefix (id_string prefix (ids_next (rm_id_source m) + 1)).
Proof. intros (k & Hk & Heq%(inj (id_string prefix))). lia. Qed.

(** ** Replacing one part *)

(** The parts an update does not touch. *)
Ltac rm_parts m := apply (rm_wf_intro m); [unfold ids_le; simpl; lia|simpl; try done..].

Lemma rm_wf_put_entry m x entry :
  rm_wf m → entry_wf m x entry →
  rm_wf (set_rm_hub (mkResourceHub (<[x := entry]> (hub_entries (rm_hub m)))) m).
Proof. intros [] He. rm_parts m. by apply map_Forall_insert_2. Qed.

Lemma rm_wf_put_cell m c cell :
  rm_wf m → cell_wf m c cell → rm_wf (set_rm_resource_cells (<[c := cell]> (rm_resource_cells m)) m).
Proof. intros [] Hc. rm_parts m. by apply map_Forall_insert_2. Qed.

Lemma rm_wf_sub_hub m h :
  rm_wf m → hub_entries h ⊆ hub_entries (rm_hub m) → rm_wf (set_rm_hub h m).
Proof.
  intros [] Hsub. rm_parts m. intros x entry Hx. by eapply rw_hub0, lookup_weaken.
Qed.

Lemma hub_insert_wf m d :
  rm_wf m → identity_ok d → rm_wf (set_rm_hub (hub_insert (rm_hub m) (ResourceEntry_new d)) m).
Proof. intros Hwf Hd. apply rm_wf_put_entry; [done|]. by split. Qed.

Lemma validate_identity_Ok d route : is_ok (validate_descriptor_identity d route) = true ↔ identity_ok d.
Proof.
  unfold validate_descriptor_identity, identity_ok.
  destruct (_ || _) eqn:H; simpl.
  - split; [done|]. intros (? & ? & ? & ?). exfalso.
    rewrite !orb_true_iff, !bool_decide_eq_true in H. tauto.
  - split; [|done]. intros _. rewrite !orb_false_iff, !bool_decide_eq_false in H.
    destruct H as [[[? ?] H1] H2]. split_and!; try done.
    + destruct (decide (rid_generation (rr_resource_id d) = rr_generation d)); tauto.
    + destruct (decide (rid_version (rr_resource_id d) = rr_version d)); tauto.
Qed.

(** ** Each operation keeps the invariant *)

Definition ids_left m : Prop := available (rm_id_source m).

Lemma pack_value_wf m schema v : rm_wf m → ids_left m → rm_wf (pack_value m schema v).1.
Proof.
  intros Hwf Hids. unfold pack_value. destruct (to_vec_len v); [|done]. case_decide; [done|].
  destruct (mint_spec m "value" Hids) as (m1 & -> & ->). simpl.
  assert (rm_wf (set_rm_id_source (mkSequentialIdSource (ids_next (rm_id_source m) + 1)) m)) as Hwf1
    by (eapply rm_wf_mono; [done|unfold ids_le; simpl; lia|done..]).
  set (m1 := set_rm_id_source _ m) in *. destruct Hwf1. rm_parts m1.
  apply map_Forall_insert_2; [|done]. split; [done|done|]. eexists. split; [|done]. done.
Qed.

Lemma register_wf m d : rm_wf m → rm_wf (register_resource_descriptor m d).1.
Proof.
  intros Hwf. unfold register_resource_descriptor.
  pose proof (validate_identity_Ok d "resource.register") as Hv.
  destruct (validate_descriptor_identity d _); [|done]. case_decide; [done|].
  apply hub_insert_wf; [done|]. by apply Hv.
Qed.

Lemma hub_insert_remove h entry :
  hub_insert (hub_remove h (rr_ref_id (entry_descriptor entry))) entry = hub_insert h entry.
Proof. unfold hub_insert, hub_remove. simpl. by rewrite insert_delete_eq. Qed.

(** What a sync does, with its two guards as one condition. *)
Definition sync_allowed (d : ResourceRef) entry : Prop :=
  (rr_generation (entry_descriptor entry) < rr_generation d ∨
   rr_generation (entry_descriptor entry) = rr_generation d ∧
   rr_version (entry_descriptor entry) ≤ rr_version d)%N ∧
  (∀ token, entry_writer entry = Some token → tok_generation token = rr_generation d).

Lemma sync_cases m d :
  ((sync_resource_descriptor m d).1 = m ∧ is_ok (sync_resource_descriptor m d).2 = false ∧
   (¬ identity_ok d ∨ ∃ entry, hub_get (rm_hub m) (rr_ref_id d) = Some entry ∧ ¬ sync_allowed d entry)) ∨
  (identity_ok d ∧ ∃ writer,
   sync_resource_descriptor m d
     = (set_rm_hub (hub_insert (rm_hub m) (mkResourceEntry d writer)) m, Ok d) ∧
   ((hub_get (rm_hub m) (rr_ref_id d) = None ∧ writer = None) ∨
    ∃ entry, hub_get (rm_hub m) (rr_ref_id d) = Some entry ∧ sync_allowed d entry ∧
      writer = entry_writer entry)).
Proof.
  unfold sync_resource_descriptor. pose proof (validate_identity_Ok d "resource.sync") as Hv.
  destruct (validate_descriptor_identity d _).
  2:{ left. split_and!; [done|done|]. left. intros Hd. by apply Hv in Hd. }
  assert (identity_ok d) as Hd by (by apply Hv).
  destruct (hub_get (rm_hub m) (rr_ref_id d)) as [entry|] eqn:Hx.
  2:{ right. split; [done|]. exists None. split; [done|]. by left. }
  destruct (_ || _) eqn:Hold; [|destruct (match entry_writer entry with Some _ => _ | None => _ end) eqn:Hwr].
  - left. split_and!; [done|done|]. right. exists entry. split; [done|]. intros [Hle _].
    rewrite orb_true_iff, andb_true_iff, !bool_decide_eq_true in Hold. lia.
  - left. split_and!; [done|done|]. right. exists entry. split; [done|]. intros [_ Hw].
    destruct (entry_writer entry) as [token|]; [|done]. apply bool_decide_eq_true in Hwr. by apply Hwr, Hw.
  - right. split; [done|]. exists (entry_writer entry). split.
    + do 2 f_equal. apply (hub_insert_remove (rm_hub m) (mkResourceEntry d (entry_writer entry))).
    + right. exists entry. split_and!; [done| |done]. split.
      * rewrite orb_false_iff, andb_false_iff, !bool_decide_eq_false in Hold. lia.
      * intros token Ht. rewrite Ht in Hwr. apply bool_decide_eq_false in Hwr. by apply dec_stable.
Qed.

Lemma sync_wf m d : rm_wf m → rm_wf (sync_resource_descriptor m d).1.
Proof.
  intros Hwf. destruct (sync_cases m d) as [[-> _]|(Hd & writer & -> & Hw)]; [done|].
  apply rm_wf_put_entry; [done|]. split; [done|done|]. simpl. intros token Ht.
  destruct Hw as [[_ ->]|(entry & Hx & [_ Hgen] & ->)]; [done|].
  destruct (rw_hub _ Hwf _ _ Hx) as [_ _ Hwr]. destruct (Hwr token Ht). split; auto.
Qed.

Lemma sync_descriptors_wf ds : ∀ m, rm_wf m → rm_wf (sync_descriptors m ds).1.
Proof.
  induction ds as [|d ds IH]; intros m Hwf; simpl; [done|].
  pose proof (sync_wf m d Hwf) as Hwf1. destruct (sync_resource_descriptor m d) as [m1 [?|?]]; [|done].
  specialize (IH m1 Hwf1). by destruct (sync_descriptors m1 ds) as [m2 [?|?]].
Qed.

Lemma sync_receipt_wf m receipt : rm_wf m → rm_wf (sync_plan_receipt m receipt).1.
Proof. apply sync_descriptors_wf. Qed.

Lemma hub_removes_sub rs : ∀ h,
  hub_entries (foldl (λ h removed, hub_remove h (inv_ref_id removed)) h rs) ⊆ hub_entries h.
Proof.
  induction rs as [|r rs IH]; intros h; simpl; [done|]. etrans; [apply IH|]. apply delete_subseteq.
Qed.

Lemma invalidate_wf m provider rs : rm_wf m → rm_wf (invalidate_resource_descriptors m provider rs).1.
Proof.
  intros Hwf. unfold invalidate_resource_descriptors. destruct (check_invalidations m provider rs); [|done].
  apply rm_wf_sub_hub; [done|]. apply hub_removes_sub.
Qed.

Lemma invalidate_legacy_wf m provider ids : rm_wf m → rm_wf (invalidate_legacy_receipt_removals m provider ids).1.
Proof.
  intros Hwf. unfold invalidate_legacy_receipt_removals. case_decide; [done|]. by apply invalidate_wf.
Qed.

Lemma unregister_wf m x : rm_wf m → rm_wf (unregister_resource m x).1.
Proof. intros Hwf. apply rm_wf_sub_hub; [done|]. apply delete_subseteq. Qed.

Lemma create_stream_wf m stream_id schema provider endpoint :
  rm_wf m → ids_left m → rm_wf (create_stream_resource m stream_id schema provider endpoint).1.
Proof.
  intros Hwf Hids. unfold create_stream_resource. destruct (mint_spec m "resource" Hids) as (m1 & -> & ->).
  apply hub_insert_wf; [|done]. eapply rm_wf_mono; [done|unfold ids_le; simpl; lia|done..].
Qed.

Lemma close_stream_wf m x :
  rm_wf m → ∃ m' res, close_stream_resource m x = Done (m', res) ∧ rm_wf m'.
Proof.
  intros Hwf. unfold close_stream_resource.
  destruct (hub_get (rm_hub m) x) as [entry|] eqn:Hx; [destruct (is_stream _)|]; simpl; eauto.
  do 2 eexists. split; [done|]. apply rm_wf_sub_hub; [done|]. apply delete_subseteq.
Qed.

Lemma create_cell_wf m c kind owner schema policy :
  rm_wf m → rm_wf (create_resource_cell m c kind owner schema policy).1.
Proof.
  intros Hwf. apply rm_wf_put_cell; [done|]. split; [done|..]; simpl.
  - intros id lease. by rewrite lookup_empty.
  - intros id lease. simpl. by rewrite lookup_empty.
Qed.

(** ** Cell leases *)

(** The reader-writer condition for one more lease. *)
Definition cell_free (mode : string) cell : Prop :=
  (mode = "exclusive" ∧ ce_active_leases cell = ∅) ∨
  (mode = "shared" ∧ ∀ id lease, ce_active_leases cell !! id = Some lease → rl_mode lease ≠ "exclusive").

Lemma any_exclusive cell :
  existsb (λ lease, bool_decide (rl_mode lease = "exclusive")) (lease_values cell) = true ↔
  ∃ id lease, ce_active_leases cell !! id = Some lease ∧ rl_mode lease = "exclusive".
Proof.
  unfold lease_values. rewrite existsb_exists. split.
  - intros (lease & Hin & Hmode%bool_decide_eq_true). apply list_elem_of_In, list_elem_of_fmap in Hin.
    destruct Hin as ([id lease'] & -> & Hid%elem_of_map_to_list). eauto.
  - intros (id & lease & Hid & Hmode). exists lease. split; [|by apply bool_decide_eq_true].
    apply list_elem_of_In, list_elem_of_fmap. exists (id, lease). split; [done|]. by apply elem_of_map_to_list.
Qed.

(** The lease a grant hands out, and the manager it leaves. *)
Definition granted_lease m (c t e mode : string) exp cell : ResourceLease :=
  mkResourceLease (id_string "resource-lease" (ids_next (rm_id_source m) + 1)) c t e mode exp
    (cell_generation (ce_descriptor cell)).

Definition granted m (c : ResourceCellId) cell (lease : ResourceLease) : ResourceManager :=
  set_rm_resource_cells
    (<[c := mkResourceCellEntry (ce_descriptor cell)
              (<[rl_lease_id lease := lease]> (ce_active_leases cell))]> (rm_resource_cells m))
    (set_rm_id_source (mkSequentialIdSource (ids_next (rm_id_source m) + 1)) m).

Lemma acquire_cases m c t e mode exp :
  ids_left m →
  ((acquire_resource_lease m c t e mode exp).1 = m ∧
   is_ok (acquire_resource_lease m c t e mode exp).2 = false ∧
   (∀ cell, rm_resource_cells m !! c = Some cell → ¬ cell_free mode cell)) ∨
  (∃ cell, rm_resource_cells m !! c = Some cell ∧ cell_free mode cell ∧
     acquire_resource_lease m c t e mode exp
     = (granted m c cell (granted_lease m c t e mode exp cell), Ok (granted_lease m c t e mode exp cell))).
Proof.
  intros Hids. unfold acquire_resource_lease, cell_free.
  destruct (rm_resource_cells m !! c) as [cell|] eqn:Hc; [|by left].
  destruct (_ && _) eqn:H1; [|destruct (_ && _) eqn:H2 in |- *; [|destruct (_ && _) eqn:H3 in |- *]].
  - apply andb_true_iff in H1 as [H1%bool_decide_eq_true He%negb_true_iff%map_is_empty_false].
    left. split_and!; [done|done|]. intros cell' [= <-] [[_ ?]|[? _]]; congruence.
  - rewrite andb_true_iff, !bool_decide_eq_true in H2.
    left. split_and!; [done|done|]. intros cell' [= <-]. tauto.
  - apply andb_true_iff in H3 as [H3%bool_decide_eq_true (id & lease & Hid & Hm)%any_exclusive].
    left. split_and!; [done|done|]. intros cell' [= <-] [[? _]|[_ Hno]]; [congruence|]. by eapply Hno.
  - right. exists cell. split; [done|]. destruct (mint_spec m "resource-lease" Hids) as (m1 & -> & ->).
    split; [|done]. destruct (decide (mode = "exclusive")) as [->|Hx].
    + left. split; [done|]. by apply andb_false_iff in H1 as [?|?%negb_false_iff%map_is_empty_true].
    + right. assert (mode = "shared") as ->.
      { rewrite andb_false_iff, !bool_decide_eq_false in H2. destruct H2 as [H2|H2]; [by apply dec_stable|].
        by apply dec_stable in H2. }
      split; [done|]. intros id lease Hid Hm. apply andb_false_iff in H3 as [H3|H3]; [done|].
      assert (existsb (λ lease, bool_decide (rl_mode lease = "exclusive")) (lease_values cell) = true)
        by (apply any_exclusive; eauto). congruence.
Qed.

(** No active lease has the id that is minted next. *)
Lemma fresh_lease_id m c cell :
  rm_wf m → rm_resource_cells m !! c = Some cell →
  ce_active_leases cell !! id_string "resource-lease" (ids_next (rm_id_source m) + 1) = None.
Proof.
  intros Hwf Hc. destruct (ce_active_leases cell !! _) as [lease|] eqn:Hid; [|done]. exfalso.
  destruct (cw_leases _ _ _ (rw_cells _ Hwf c cell Hc) _ _ Hid) as [_ _ _ _ Hm]. by apply mint_fresh in Hm.
Qed.

Lemma granted_wf m c t e mode exp cell :
  rm_wf m → rm_resource_cells m !! c = Some cell → cell_free mode cell →
  rm_wf (granted m c cell (granted_lease m c t e mode exp cell)).
Proof.
  intros Hwf Hc Hfree. unfold granted. set (m1 := set_rm_id_source _ m).
  assert (rm_wf m1) as Hwf1 by (eapply rm_wf_mono; [done|unfold ids_le; simpl; lia|done..]).
  apply (rm_wf_put_cell m1); [done|]. destruct (rw_cells _ Hwf1 c cell Hc) as [Hid Hl Hex].
  split; [done| |].
  - apply map_Forall_insert_2; [|done]. split; [done|done| |done|].
    + destruct Hfree as [[-> _]|[-> _]]; [by right|by left].
    + eexists. split; [|done]. done.
  - intros id lease. simpl. rewrite lookup_insert. case_decide as Hne.
    + intros [= <-] Hm. simpl in Hm. destruct Hfree as [[_ ->]|[? _]]; [|congruence].
      by rewrite <-Hne, insert_empty.
    + intros Hlk Hm. destruct Hfree as [[_ He]|[_ Hno]]; [|by destruct (Hno id lease)].
      by rewrite He, lookup_empty in Hlk.
Qed.

Lemma acquire_wf m c t e mode exp :
  rm_wf m → ids_left m → rm_wf (acquire_resource_lease m c t e mode exp).1.
Proof.
  intros Hwf Hids. destruct (acquire_cases m c t e mode exp Hids) as [[-> _]|(cell & Hc & Hf & ->)]; [done|].
  by apply granted_wf.
Qed.

(** Fewer leases in a cell. *)
Lemma cell_wf_sub m c cell leases :
  cell_wf m c cell → leases ⊆ ce_active_leases cell →
  cell_wf m c (mkResourceCellEntry (ce_descriptor cell) leases).
Proof.
  intros [Hid Hl Hex] Hsub. split; [done|..]; simpl.
  - intros id lease Hlk. by eapply Hl, lookup_weaken.
  - intros id lease Hlk Hm. simpl in *. apply map_eq. intros id'.
    pose proof (Hex id lease (lookup_weaken _ _ _ _ Hlk Hsub) Hm) as Hall.
    destruct (decide (id = id')) as [<-|Hne]; [by rewrite Hlk, lookup_singleton_eq|].
    rewrite lookup_singleton_ne by done. destruct (leases !! id') as [l'|] eqn:Hl'; [|done].
    eapply lookup_weaken in Hl'; [|done]. by rewrite Hall, lookup_singleton_ne in Hl'.
Qed.

(** [lease] is held in its cell and not expired at the step, if one is given. *)
Definition held m (lease : ResourceLease) (step : option N) : Prop :=
  ∃ cell, rm_resource_cells m !! rl_cell_id lease = Some cell ∧
    ce_active_leases cell !! rl_lease_id lease = Some lease ∧
    match step with Some step => resource_lease_expired lease step = false | None => True end.

Definition released m cell (lease : ResourceLease) : ResourceManager :=
  set_rm_resource_cells
    (<[rl_cell_id lease := mkResourceCellEntry (ce_descriptor cell)
         (delete (rl_lease_id lease) (ce_active_leases cell))]> (rm_resource_cells m)) m.

Lemma release_cases m lease step :
  rm_wf m →
  (¬ held m lease step ∧ (release_resource_lease_checked m lease step).1 = m ∧
   is_ok (release_resource_lease_checked m lease step).2 = false) ∨
  (held m lease step ∧ ∃ cell, rm_resource_cells m !! rl_cell_id lease = Some cell ∧
   release_resource_lease_checked m lease step = (released m cell lease, Ok tt)).
Proof.
  intros Hwf. unfold release_resource_lease_checked, validate_resource_lease, held.
  destruct (rm_resource_cells m !! rl_cell_id lease) as [cell|] eqn:Hc;
    [|left; split; [by intros (? & ? & _)|done]].
  destruct (ce_active_leases cell !! rl_lease_id lease) as [active|] eqn:Hid;
    [|left; split; [intros (cell' & [= <-] & ? & _); congruence|done]].
  destruct (_ || _) eqn:Hneq; [left|].
  - split; [|done]. intros (cell' & [= <-] & Hl & _). simplify_eq.
    destruct (cw_leases _ _ _ (rw_cells _ Hwf _ _ Hc) _ _ Hid) as [_ _ _ Hg _].
    rewrite orb_true_iff, !bool_decide_eq_true in Hneq. tauto.
  - rewrite orb_false_iff, !bool_decide_eq_false in Hneq. destruct Hneq as [Ha _].
    apply dec_stable in Ha as ->.
    destruct (match step with Some _ => _ | None => _ end) eqn:Hexp.
    + left. split; [|done]. intros (cell' & _ & _ & Hne). destruct step; congruence.
    + right. split; [|by exists cell]. exists cell. split_and!; [done|done|]. by destruct step.
Qed.

Lemma release_wf m lease step : rm_wf m → rm_wf (release_resource_lease_checked m lease step).1.
Proof.
  intros Hwf. destruct (release_cases m lease step Hwf) as [(_ & -> & _)|(_ & cell & Hc & ->)]; [done|].
  apply rm_wf_put_cell; [done|]. apply cell_wf_sub; [by eapply rw_cells|]. apply delete_subseteq.
Qed.

Lemma reclaim_wf m step : rm_wf m → rm_wf (reclaim_expired_resource_leases m step).1.
Proof.
  intros Hwf. destruct Hwf as [Hc Hh Hv Ho]. simpl. rm_parts m. intros c cell'.
  rewrite lookup_fmap, fmap_Some. intros (cell & Hcell & ->).
  apply cell_wf_sub; [by apply Hc|]. apply map_filter_subseteq.
Qed.

(** ** Write leases *)

Lemma acquire_write_wf m x owner exp : rm_wf m → ids_left m → rm_wf (acquire_write_lease m x owner exp).1.
Proof.
  intros Hwf Hids. unfold acquire_write_lease. destruct (hub_get (rm_hub m) x) as [entry|] eqn:Hx; [|done].
  destruct (entry_writer entry) eqn:Hwr; [done|].
  destruct (mint_spec m "lease" Hids) as (m1 & -> & ->). simpl. set (m1 := set_rm_id_source _ m).
  assert (rm_wf m1) as Hwf1 by (eapply rm_wf_mono; [done|unfold ids_le; simpl; lia|done..]).
  apply (rm_wf_put_entry m1); [done|]. destruct (rw_hub _ Hwf1 x entry Hx) as [Hid Hd _].
  split; [done|done|]. simpl. intros token [= <-]. split; [done|done|]. eexists. split; [|done]. done.
Qed.

Lemma release_write_wf m lease step : rm_wf m → rm_wf (release_write_lease_checked m lease step).1.
Proof.
  intros Hwf. unfold release_write_lease_checked.
  destruct (hub_get (rm_hub m) _) as [entry|] eqn:Hx; [|done].
  destruct (match tok_expires_at_step _ with Some _ => _ | None => _ end); [done|]. case_decide; [done|].
  apply rm_wf_put_entry; [done|]. destruct (rw_hub _ Hwf _ entry Hx). by split.
Qed.

(** ** Occupancy handles *)

Lemma register_occupancy_wf m handle : rm_wf m → rm_wf (register_surface_occupancy m handle).1.
Proof.
  intros Hwf. unfold register_surface_occupancy. case_decide; [done|]. destruct Hwf. rm_parts m.
  by apply map_Forall_insert_2.
Qed.

Lemma release_occupancy_wf m id : rm_wf m → rm_wf (release_surface_occupancy m id).1.
Proof.
  intros Hwf. unfold release_surface_occupancy. destruct (rm_occupancy_handles m !! id); [|done].
  destruct Hwf. rm_parts m. by apply map_Forall_delete.
Qed.

End inv.

#[export] Hint Resolve pack_value_wf register_wf unregister_wf sync_wf sync_receipt_wf invalidate_wf
  invalidate_legacy_wf create_stream_wf create_cell_wf acquire_wf release_wf reclaim_wf acquire_write_wf
  release_write_wf register_occupancy_wf release_occupancy_wf : mutsuki.
