(* ===== verification/ResourceHistory.v ===== *)
(** * ResourceHistory: histories of the resource manager

    The operations as one type, reachable managers, and how leases move from one
    manager to the next: only an acquisition adds one, under a new id. *)
From S2P Require Import Prelude Contracts Resources ResourceManager ResourceInv.

Section history.
Context {serde : Serde}.
Implicit Types (m : ResourceManager) (cell : ResourceCellEntry) (entry : ResourceEntry).

Inductive RmOp : Type :=
| RmPack (schema : string) (value : Value)
| RmRegister (descriptor : ResourceRef)
| RmUnregister (ref_id : RefId)
| RmSync (descriptor : ResourceRef)
| RmSyncReceipt (receipt : PlanReceipt)
| RmInvalidate (provider_id : string) (invalidations : list ResourceDescriptorInvalidation)
| RmInvalidateLegacy (provider_id : string) (ref_ids : list string)
| RmCreateStream (stream_id schema provider_id endpoint : string)
| RmCloseStream (ref_id : RefId)
| RmCreateCell (cell_id resource_kind owner_plugin_id schema reload_policy : string)
| RmAcquire (cell_id task_id executor_id mode : string) (expires_at_step : option N)
| RmRelease (lease : ResourceLease) (step : option N)
| RmReclaim (step : N)
| RmAcquireWrite (ref_id : RefId) (owner : string) (expires_at_step : option N)
| RmReleaseWrite (lease : ExclusiveWriteLease) (step : option N)
| RmRegisterOccupancy (handle : SurfaceOccupancyHandle)
| RmReleaseOccupancy (handle_id : string).

(** The manager an operation leaves; its answer is dropped. *)
Definition run_rm_op (op : RmOp) m : outcome ResourceManager :=
  match op with
  | RmPack schema value => Done (pack_value m schema value).1
  | RmRegister d => Done (register_resource_descriptor m d).1
  | RmUnregister x => Done (unregister_resource m x).1
  | RmSync d => Done (sync_resource_descriptor m d).1
  | RmSyncReceipt receipt => Done (sync_plan_receipt m receipt).1
  | RmInvalidate provider rs => Done (invalidate_resource_descriptors m provider rs).1
  | RmInvalidateLegacy provider xs => Done (invalidate_legacy_receipt_removals m provider xs).1
  | RmCreateStream stream_id schema provider endpoint =>
      Done (create_stream_resource m stream_id schema provider endpoint).1
  | RmCloseStream x => r ← close_stream_resource m x; Done r.1
  | RmCreateCell c kind owner schema policy => Done (create_resource_cell m c kind owner schema policy).1
  | RmAcquire c t e mode exp => Done (acquire_resource_lease m c t e mode exp).1
  | RmRelease lease step => Done (release_resource_lease_checked m lease step).1
  | RmReclaim step => Done (reclaim_expired_resource_leases m step).1
  | RmAcquireWrite x owner exp => Done (acquire_write_lease m x owner exp).1
  | RmReleaseWrite lease step => Done (release_write_lease_checked m lease step).1
  | RmRegisterOccupancy handle => Done (register_surface_occupancy m handle).1
  | RmReleaseOccupancy id => Done (release_surface_occupancy m id).1
  end.

(** Every manager reached while the id counter has not run out. *)
Inductive rm_reachable : ResourceManager → Prop :=
| rm_reachable_new : rm_reachable ResourceManager_new
| rm_reachable_step m op m' :
    rm_reachable m → ids_left m → run_rm_op op m = Done m' → rm_reachable m'.

Lemma run_rm_op_wf m op : rm_wf m → ids_left m → ∃ m', run_rm_op op m = Done m' ∧ rm_wf m'.
Proof.
  intros Hwf Hids. destruct op; cbn [run_rm_op]; try (eexists; split; [reflexivity|auto with mutsuki; fail]).
  destruct (close_stream_wf m ref_id Hwf) as (m' & res & -> & ?). eauto.
Qed.

Lemma rm_reachable_wf m : rm_reachable m → rm_wf m.
Proof.
  induction 1 as [|m op m' _ IH Hids Hrun].
  - by split; intros x y; simpl; rewrite lookup_empty.
  - destruct (run_rm_op_wf m op IH Hids) as (m1 & Hrun1 & ?). congruence.
Qed.

(** ** Write tokens *)

Definition writer_of m (x : RefId) : option LeaseToken := hub_get (rm_hub m) x ≫= entry_writer.

(** No token appears in [m'] that was not in [m]. *)
Definition writers_kept m m' : Prop :=
  ∀ x token, writer_of m' x = Some token → writer_of m x = Some token.

#[local] Instance writers_kept_preorder : PreOrder writers_kept.
Proof. split; [by intros m x token|]. intros m1 m2 m3 H1 H2 x token H. by apply H1, H2. Qed.

Lemma writers_kept_hub m m' : rm_hub m' = rm_hub m → writers_kept m m'.
Proof. intros Hh x token. unfold writer_of. by rewrite Hh. Qed.

Lemma writers_kept_put m x entry :
  (∀ token, entry_writer entry = Some token → writer_of m x = Some token) →
  writers_kept m (set_rm_hub (mkResourceHub (<[x := entry]> (hub_entries (rm_hub m)))) m).
Proof.
  intros He y token. unfold writer_of, hub_get. simpl. rewrite lookup_insert. case_decide as Hxy; [|done].
  subst y. simpl. apply He.
Qed.

Lemma writers_kept_sub m h : hub_entries h ⊆ hub_entries (rm_hub m) → writers_kept m (set_rm_hub h m).
Proof.
  intros Hsub x token. unfold writer_of, hub_get. simpl. intros (entry & Hx & Hw)%bind_Some.
  rewrite (lookup_weaken _ _ _ _ Hx Hsub). done.
Qed.

Lemma writers_sync m d : writers_kept m (sync_resource_descriptor m d).1.
Proof.
  destruct (sync_cases m d) as [[-> _]|(_ & writer & -> & Hw)]; [done|].
  apply writers_kept_put. simpl. unfold writer_of. intros token Ht.
  destruct Hw as [[_ ->]|(entry & -> & _ & ->)]; [done|]. done.
Qed.

Lemma writers_syncs ds : ∀ m, writers_kept m (sync_descriptors m ds).1.
Proof.
  induction ds as [|d ds IH]; intros m; simpl; [done|]. pose proof (writers_sync m d) as H1.
  destruct (sync_resource_descriptor m d) as [m1 [?|?]]; [|done].
  specialize (IH m1). destruct (sync_descriptors m1 ds) as [m2 [?|?]]; by etrans.
Qed.

Lemma writers_invalidate m provider rs : writers_kept m (invalidate_resource_descriptors m provider rs).1.
Proof.
  unfold invalidate_resource_descriptors. destruct (check_invalidations m provider rs); [|done].
  apply writers_kept_sub, hub_removes_sub.
Qed.

(** Only a write lease adds a token. *)
Lemma writers_kept_op m op m' :
  ids_left m → match op with RmAcquireWrite _ _ _ => False | _ => True end →
  run_rm_op op m = Done m' → writers_kept m m'.
Proof.
  intros Hids Hno Hrun.
  destruct op; cbn [run_rm_op] in Hrun; try injection Hrun as <-.
  - unfold pack_value. destruct (to_vec_len value); [|done]. case_decide; [done|]. by apply writers_kept_hub.
  - unfold register_resource_descriptor. destruct (validate_descriptor_identity _ _); [|done].
    case_decide; [done|]. by apply writers_kept_put.
  - apply writers_kept_sub, delete_subseteq.
  - apply writers_sync.
  - apply writers_syncs.
  - apply writers_invalidate.
  - unfold invalidate_legacy_receipt_removals. case_decide; [done|]. apply writers_invalidate.
  - etrans; [|by apply (writers_kept_put (set_rm_id_source _ m))]. by apply writers_kept_hub.
  - unfold close_stream_resource in Hrun.
    destruct (hub_get (rm_hub m) ref_id) as [entry|] eqn:Hx; [destruct (is_stream _)|];
      simpl in Hrun; injection Hrun as <-; [|done..]. apply writers_kept_sub, delete_subseteq.
  - by apply writers_kept_hub.
  - apply writers_kept_hub. destruct (acquire_cases m cell_id task_id executor_id mode expires_at_step Hids)
      as [[-> _]|(cell & _ & _ & ->)]; done.
  - apply writers_kept_hub. unfold release_resource_lease_checked.
    destruct (rm_resource_cells m !! _) as [cell|]; [|done].
    destruct (validate_resource_lease _ _ _ _); [|done]. by destruct (ce_active_leases cell !! _).
  - by apply writers_kept_hub.
  - done.
  - unfold release_write_lease_checked. destruct (hub_get (rm_hub m) _) as [entry|]; [|done].
    destruct (match tok_expires_at_step _ with Some _ => _ | None => _ end); [done|].
    case_decide; [done|]. by apply writers_kept_put.
  - unfold register_surface_occupancy. case_decide; [done|]. by apply writers_kept_hub.
  - unfold release_surface_occupancy. destruct (rm_occupancy_handles m !! _); [|done].
    by apply writers_kept_hub.
Qed.

(** A token of the manager after an operation was there before, or is new. *)
Lemma writers_step m op m' x token :
  ids_left m → run_rm_op op m = Done m' → writer_of m' x = Some token →
  writer_of m x = Some token ∨ tok_token_id token = id_string "lease" (ids_next (rm_id_source m) + 1).
Proof.
  intros Hids Hrun Hw.
  destruct op as [| | | | | | | | | | | | |y owner exp| | |];
    try (left; by eapply writers_kept_op in Hrun; [apply Hrun|..]).
  revert Hw. simpl in Hrun. injection Hrun as <-. unfold acquire_write_lease.
  destruct (hub_get (rm_hub m) y) as [entry|] eqn:Hy; [|by left].
  destruct (entry_writer entry); [by left|].
  destruct (mint_spec m "lease" Hids) as (m1 & -> & ->). unfold writer_of at 1, hub_get. simpl.
  rewrite lookup_insert. case_decide as Hxy; simpl; [|by left]. intros [= <-]. by right.
Qed.

(** ** Cell leases *)

(** Runs through the branches of the operations that do not touch the cells. *)
Ltac rm_branches :=
  unfold pack_value, register_resource_descriptor, invalidate_legacy_receipt_removals,
    invalidate_resource_descriptors, acquire_write_lease, release_write_lease_checked,
    register_surface_occupancy, release_surface_occupancy, mint, next_id, SequentialIdSource_id_source in *;
  repeat first
    [ done
    | progress simpl
    | case_decide
    | match goal with |- context [match ?x with _ => _ end] => destruct x end ].

Definition active m (lease : ResourceLease) : Prop := held m lease None.

Lemma sync_cells m d : rm_resource_cells (sync_resource_descriptor m d).1 = rm_resource_cells m.
Proof. by destruct (sync_cases m d) as [[-> _]|(_ & writer & -> & _)]. Qed.

Lemma syncs_cells ds : ∀ m, rm_resource_cells (sync_descriptors m ds).1 = rm_resource_cells m.
Proof.
  induction ds as [|d ds IH]; intros m; simpl; [done|]. pose proof (sync_cells m d) as H1.
  destruct (sync_resource_descriptor m d) as [m1 [?|?]]; [|done].
  specialize (IH m1). destruct (sync_descriptors m1 ds) as [m2 [?|?]]; simpl in *; congruence.
Qed.

(** The operations on cells. *)
Definition on_cells (op : RmOp) : bool :=
  match op with
  | RmCreateCell _ _ _ _ _ | RmAcquire _ _ _ _ _ | RmRelease _ _ | RmReclaim _ => true
  | _ => false
  end.

Lemma cells_kept_op m op m' :
  on_cells op = false → run_rm_op op m = Done m' → rm_resource_cells m' = rm_resource_cells m.
Proof.
  intros Hno Hrun. destruct op; try done; cbn [run_rm_op] in Hrun; try injection Hrun as <-; try (rm_branches; fail).
  - apply sync_cells.
  - apply syncs_cells.
  - unfold close_stream_resource in Hrun.
    destruct (hub_get (rm_hub m) ref_id) as [entry|]; [destruct (is_stream _)|]; simpl in Hrun;
      by injection Hrun as <-.
Qed.

(** The cells of [m'] hold only leases that the cells of [m] hold. *)
Lemma active_cells m m' lease :
  (∀ c cell', rm_resource_cells m' !! c = Some cell' → ce_active_leases cell' = ∅ ∨
     ∃ cell, rm_resource_cells m !! c = Some cell ∧ ce_active_leases cell' ⊆ ce_active_leases cell) →
  active m' lease → active m lease.
Proof.
  intros Hsub (cell' & Hc & Hid & _). destruct (Hsub _ _ Hc) as [He|(cell & Hcell & Hs)].
  - by rewrite He, lookup_empty in Hid.
  - exists cell. split_and!; [done| |done]. by eapply lookup_weaken.
Qed.

(** A lease held after an operation was held before, or is new. *)
Lemma leases_step m op m' lease :
  rm_wf m → ids_left m → run_rm_op op m = Done m' → active m' lease →
  active m lease ∨ rl_lease_id lease = id_string "resource-lease" (ids_next (rm_id_source m) + 1).
Proof.
  intros Hwf Hids Hrun Hact. destruct (on_cells op) eqn:Hon.
  2:{ left. unfold active, held in *. by rewrite (cells_kept_op m op m' Hon Hrun) in Hact. }
  destruct op as [| | | | | | | | |c kind owner schema policy|c t e mode exp|l step|step| | | |]; try done;
    cbn [run_rm_op] in Hrun; injection Hrun as <-.
  - left. revert Hact. apply active_cells. intros c' cell'. simpl. rewrite lookup_insert.
    case_decide; [intros [= <-]; by left|]. eauto.
  - destruct (acquire_cases m c t e mode exp Hids) as [[Heq _]|(cell & Hc & _ & Heq)]; rewrite Heq in Hact.
    + by left.
    + destruct Hact as (cell' & Hc' & Hid & _). simpl in Hc'. rewrite lookup_insert in Hc'.
      destruct (decide (c = rl_cell_id lease)) as [->|Hne].
      * injection Hc' as <-. simpl in Hid. rewrite lookup_insert in Hid.
        case_decide as Hnew; [by right|]. left. exists cell. by split_and!.
      * left. by exists cell'.
  - left. revert Hact.
    destruct (release_cases m l step Hwf) as [(_ & -> & _)|(_ & cell & Hc & ->)]; [done|].
    apply active_cells. intros c' cell'. simpl. rewrite lookup_insert. case_decide as Hcc; [|eauto].
    intros [= <-]. right. subst c'. exists cell. split; [done|]. apply delete_subseteq.
  - left. revert Hact. apply active_cells. intros c' cell'. simpl. rewrite lookup_fmap, fmap_Some.
    intros (cell & Hc & ->). right. exists cell. split; [done|]. apply map_filter_subseteq.
Qed.

(** ** The id counter *)

Lemma sync_ids m d : rm_id_source (sync_resource_descriptor m d).1 = rm_id_source m.
Proof. by destruct (sync_cases m d) as [[-> _]|(_ & writer & -> & _)]. Qed.

Lemma syncs_ids ds : ∀ m, rm_id_source (sync_descriptors m ds).1 = rm_id_source m.
Proof.
  induction ds as [|d ds IH]; intros m; simpl; [done|]. pose proof (sync_ids m d) as H1.
  destruct (sync_resource_descriptor m d) as [m1 [?|?]]; [|done].
  specialize (IH m1). destruct (sync_descriptors m1 ds) as [m2 [?|?]]; simpl in *; congruence.
Qed.

(** The counter never goes back. *)
Lemma ids_step m op m' : rm_wf m → ids_left m → run_rm_op op m = Done m' → ids_le m m'.
Proof.
  intros Hwf Hids Hrun. unfold ids_le.
  pose proof (wrap_add_1 _ Hids) as Hwrap.
  destruct op; cbn [run_rm_op] in Hrun; try injection Hrun as <-;
    try (rm_branches; simpl; rewrite ?Hwrap; lia).
  - by rewrite sync_ids.
  - unfold sync_plan_receipt. by rewrite syncs_ids.
  - unfold close_stream_resource in Hrun.
    destruct (hub_get (rm_hub m) ref_id) as [entry|]; [destruct (is_stream _)|]; simpl in Hrun;
      by injection Hrun as <-.
  - destruct (acquire_cases m cell_id task_id executor_id mode expires_at_step Hids)
      as [[-> _]|(cell & _ & _ & ->)]; simpl; lia.
  - by destruct (release_cases m lease step Hwf) as [(_ & -> & _)|(_ & cell & _ & ->)].
Qed.

(** ** Packed values *)

Lemma sync_values m d : rm_values (sync_resource_descriptor m d).1 = rm_values m.
Proof. by destruct (sync_cases m d) as [[-> _]|(_ & writer & -> & _)]. Qed.

Lemma syncs_values ds : ∀ m, rm_values (sync_descriptors m ds).1 = rm_values m.
Proof.
  induction ds as [|d ds IH]; intros m; simpl; [done|]. pose proof (sync_values m d) as H1.
  destruct (sync_resource_descriptor m d) as [m1 [?|?]]; [|done].
  specialize (IH m1). destruct (sync_descriptors m1 ds) as [m2 [?|?]]; simpl in *; congruence.
Qed.

Lemma fresh_value_id m : rm_wf m → rm_values m !! id_string "value" (ids_next (rm_id_source m) + 1) = None.
Proof.
  intros Hwf. destruct (rm_values m !! _) as [v|] eqn:Hv; [|done]. exfalso.
  destruct (rw_values _ Hwf _ _ Hv) as [_ _ Hm]. by apply mint_fresh in Hm.
Qed.

(** A packed value is never dropped or replaced. *)
Lemma values_step m op m' : rm_wf m → ids_left m → run_rm_op op m = Done m' → rm_values m ⊆ rm_values m'.
Proof.
  intros Hwf Hids Hrun. destruct op; cbn [run_rm_op] in Hrun; try injection Hrun as <-;
    try (rm_branches; fail).
  - unfold pack_value. destruct (to_vec_len value); [|done]. case_decide; [done|].
    destruct (mint_spec m "value" Hids) as (m1 & -> & ->). simpl. by apply insert_subseteq, fresh_value_id.
  - by rewrite sync_values.
  - unfold sync_plan_receipt. by rewrite syncs_values.
  - unfold close_stream_resource in Hrun.
    destruct (hub_get (rm_hub m) ref_id) as [entry|]; [destruct (is_stream _)|]; simpl in Hrun;
      by injection Hrun as <-.
  - by destruct (acquire_cases m cell_id task_id executor_id mode expires_at_step Hids)
      as [[-> _]|(cell & _ & _ & ->)].
  - by destruct (release_cases m lease step Hwf) as [(_ & -> & _)|(_ & cell & _ & ->)].
Qed.

(** Histories from one manager to a later one. *)
Inductive rm_later : ResourceManager → ResourceManager → Prop :=
| rm_later_refl m : rm_later m m
| rm_later_step m op m1 m' :
    ids_left m → run_rm_op op m = Done m1 → rm_later m1 m' → rm_later m m'.

Lemma rm_later_wf m m' : rm_later m m' → rm_wf m → rm_wf m'.
Proof.
  induction 1 as [|m op m1 m' Hids Hrun _ IH]; [done|]. intros Hwf. apply IH.
  destruct (run_rm_op_wf m op Hwf Hids) as (m2 & ? & ?). congruence.
Qed.

Lemma values_later m m' : rm_later m m' → rm_wf m → rm_values m ⊆ rm_values m'.
Proof.
  induction 1 as [|m op m1 m' Hids Hrun _ IH]; [done|]. intros Hwf.
  etrans; [by eapply values_step|]. apply IH.
  destruct (run_rm_op_wf m op Hwf Hids) as (m2 & ? & ?). congruence.
Qed.

(** A token that was issued and is no longer the writer never is again. *)
Lemma token_stays_revoked m m' token :
  rm_later m m' → rm_wf m → minted m "lease" (tok_token_id token) →
  writer_of m (tok_ref_id token) ≠ Some token → writer_of m' (tok_ref_id token) ≠ Some token.
Proof.
  induction 1 as [|m op m1 m' Hids Hrun _ IH]; [done|]. intros Hwf Hm Hno. apply IH.
  - destruct (run_rm_op_wf m op Hwf Hids) as (m2 & ? & ?). congruence.
  - by eapply minted_mono; [eapply ids_step|].
  - intros Hw. destruct (writers_step m op m1 _ _ Hids Hrun Hw) as [?|Heq]; [done|].
    rewrite Heq in Hm. by apply mint_fresh in Hm.
Qed.

Lemma lease_stays_revoked m m' lease :
  rm_later m m' → rm_wf m → minted m "resource-lease" (rl_lease_id lease) →
  ¬ active m lease → ¬ active m' lease.
Proof.
  induction 1 as [|m op m1 m' Hids Hrun _ IH]; [done|]. intros Hwf Hm Hno. apply IH.
  - destruct (run_rm_op_wf m op Hwf Hids) as (m2 & ? & ?). congruence.
  - by eapply minted_mono; [eapply ids_step|].
  - intros Ha. destruct (leases_step m op m1 lease Hwf Hids Hrun Ha) as [?|Heq]; [done|].
    rewrite Heq in Hm. by apply mint_fresh in Hm.
Qed.

End history.
