(* ===== verification/ResourceTheorems.v ===== *)
(** * ResourceTheorems: the guarantees of the resource manager

    The invariant, the reader-writer leases of cells, write leases, fencing over
    histories, descriptor synchronisation and invalidation, and packed values. *)
From S2P Require Import Prelude Contracts Resources ResourceManager ResourceInv.
From S2P Require Import ResourceHistory TaskPoolSamples.

Section theorems.
Context {serde : Serde}.
Implicit Types (m : ResourceManager) (cell : ResourceCellEntry) (entry : ResourceEntry).

(** Every reachable resource manager satisfies its invariant (leases, tokens,
    descriptors and values are stored under their own ids, in a consistent
    generation, under ids that were minted; an exclusive lease is alone in its
    cell), and no operation panics on it. *)
Theorem resource_manager_invariant m :
  rm_reachable m → rm_wf m ∧ ∀ op, ids_left m → ∃ m', run_rm_op op m = Done m'.
Proof.
  intros Hm. pose proof (rm_reachable_wf m Hm) as Hwf. split; [done|].
  intros op Hids. destruct (run_rm_op_wf m op Hwf Hids) as (m' & ? & _). eauto.
Qed.

(** ** Cell leases *)

Lemma active_exclusive m l1 l2 :
  rm_wf m → active m l1 → active m l2 → rl_cell_id l1 = rl_cell_id l2 → rl_mode l1 = "exclusive" → l1 = l2.
Proof.
  intros Hwf (c1 & Hc1 & H1 & _) (c2 & Hc2 & H2 & _) Hc Hm. rewrite Hc, Hc2 in Hc1. injection Hc1 as ->.
  pose proof (cw_exclusive _ _ _ (rw_cells _ Hwf _ _ Hc2) _ _ H1 Hm) as Hall. rewrite Hall in H2.
  by apply lookup_singleton_Some in H2 as [_ ?].
Qed.

Lemma active_granted m c t e mode exp cell lease :
  rm_wf m → rm_resource_cells m !! c = Some cell →
  let new := granted_lease m c t e mode exp cell in
  active (granted m c cell new) lease ↔ active m lease ∨ lease = new.
Proof.
  intros Hwf Hc new. unfold active, held. simpl. setoid_rewrite lookup_insert. split.
  - intros (cell' & Hc' & Hid & _). case_decide as Hcc.
    + injection Hc' as <-. simpl in Hid. rewrite lookup_insert in Hid.
      destruct (decide (id_string "resource-lease" (ids_next (rm_id_source m) + 1) = rl_lease_id lease)).
      * right. congruence.
      * left. exists cell. by rewrite <-Hcc.
    + left. eauto.
  - intros [(cell' & Hc' & Hid & _)| ->].
    + case_decide as Hcc; [|eauto]. eexists. split_and!; [done| |done]. simpl.
      rewrite <-Hcc, Hc in Hc'. injection Hc' as <-. rewrite lookup_insert_ne; [done|]. intros Heq.
      rewrite <-Heq in Hid. by rewrite (fresh_lease_id m c cell) in Hid.
    + rewrite decide_True by done. eexists. split_and!; [done| |done]. apply lookup_insert_eq.
Qed.

(** C21: cells grant leases like a reader-writer lock: a request succeeds exactly
    when the mode is shared and no exclusive lease is active, or it is exclusive and
    none is; a refused one changes nothing; a granted lease has an id that no
    active lease of the cell has, and becomes the only new active lease; and at any
    time an exclusive lease is the only active lease of its cell. *)
Theorem cell_leases_are_reader_writer m c t e mode exp :
  rm_reachable m → ids_left m →
  let '(m', res) := acquire_resource_lease m c t e mode exp in
  (is_ok res = true ↔ ∃ cell, rm_resource_cells m !! c = Some cell ∧ cell_free mode cell) ∧
  match res with
  | Err _ => m' = m
  | Ok new => (∀ lease, active m' lease ↔ active m lease ∨ lease = new) ∧ ¬ active m new ∧
      rl_cell_id new = c ∧ rl_borrower_task_id new = t ∧ rl_mode new = mode
  end ∧
  (∀ l1 l2, active m' l1 → active m' l2 → rl_cell_id l1 = rl_cell_id l2 → rl_mode l1 = "exclusive" →
     l1 = l2).
Proof.
  intros Hm Hids. pose proof (rm_reachable_wf m Hm) as Hwf.
  pose proof (acquire_wf m c t e mode exp Hwf Hids) as Hwf'.
  destruct (acquire_cases m c t e mode exp Hids) as [(Heq & Herr & Hno)|(cell & Hc & Hfree & Heq)].
  - destruct (acquire_resource_lease m c t e mode exp) as [m' res]. simpl in *. subst m'. rewrite Herr.
    destruct res; [done|]. split_and!; [split; [done|]|done|intros; by eapply active_exclusive].
    intros (cell & Hc & ?). by destruct (Hno cell Hc).
  - rewrite Heq in *. simpl in Hwf'. split; [split; eauto|].
    split; [split_and!; try done|intros; by eapply active_exclusive].
    + intros lease. by apply active_granted.
    + intros (cell' & Hc' & Hid & _). simpl in Hc', Hid. rewrite Hc in Hc'. injection Hc' as <-.
      by rewrite (fresh_lease_id m c cell) in Hid.
Qed.

(** A granted lease can be given back once: releasing it before it expires
    succeeds, restores the active leases of before the grant, and a second release
    of it is refused. *)
Theorem cell_lease_round_trip m c t e mode exp m1 lease step :
  rm_reachable m → ids_left m → acquire_resource_lease m c t e mode exp = (m1, Ok lease) →
  resource_lease_expired lease step = false →
  ∃ m2, release_resource_lease_at m1 lease step = (m2, Ok tt) ∧
    rm_resource_cells m2 = rm_resource_cells m ∧ rm_hub m2 = rm_hub m ∧ rm_values m2 = rm_values m ∧
    ∃ err, release_resource_lease m2 lease = (m2, Err err).
Proof.
  intros Hm Hids Hacq Hexp. pose proof (rm_reachable_wf m Hm) as Hwf.
  pose proof (acquire_wf m c t e mode exp Hwf Hids) as Hwf1. rewrite Hacq in Hwf1. simpl in Hwf1.
  destruct (acquire_cases m c t e mode exp Hids) as [(_ & Herr & _)|(cell & Hc & Hfree & Heq)];
    [by rewrite Hacq in Herr|].
  rewrite Hacq in Heq. injection Heq as -> ->. set (l := granted_lease m c t e mode exp cell) in *.
  assert (held (granted m c cell l) l (Some step)) as Hheld.
  { eexists. simpl. rewrite lookup_insert_eq. split_and!; [done| |done]. apply lookup_insert_eq. }
  unfold release_resource_lease_at.
  destruct (release_cases _ l (Some step) Hwf1) as [[? _]|(_ & cell1 & Hc1 & ->)]; [done|].
  simpl in Hc1. rewrite lookup_insert_eq in Hc1. injection Hc1 as <-.
  set (m2 := released _ _ l). assert (rm_resource_cells m2 = rm_resource_cells m) as Hcells.
  { simpl. rewrite insert_insert_eq, delete_insert_id by (by apply (fresh_lease_id m c)).
    apply insert_id. rewrite Hc. by destruct cell. }
  exists m2. split_and!; [done|done|done|done|].
  unfold release_resource_lease, release_resource_lease_checked. rewrite Hcells. simpl. rewrite Hc.
  unfold validate_resource_lease. simpl. rewrite (fresh_lease_id m c cell) by done. by eexists.
Qed.

(** ** Reclaiming *)

Lemma active_lookup m lease :
  rm_wf m → active m lease ↔
  ∃ c cell id, rm_resource_cells m !! c = Some cell ∧ ce_active_leases cell !! id = Some lease.
Proof.
  intros Hwf. split.
  - intros (cell & Hc & Hid & _). eauto.
  - intros (c & cell & id & Hc & Hid).
    destruct (cw_leases _ _ _ (rw_cells _ Hwf c cell Hc) _ _ Hid) as [<- <- _ _ _]. by exists cell.
Qed.

(** The leases of a list of cells that satisfy [P]. *)
Lemma NoDup_cell_leases m (P : ResourceLease → Prop) `{!∀ l, Decision (P l)} :
  rm_wf m →
  NoDup (mjoin ((λ cell, filter P (lease_values cell)) <$> (map_to_list (rm_resource_cells m)).*2)).
Proof.
  intros Hwf.
  assert (∀ c cell, (c, cell) ∈ map_to_list (rm_resource_cells m) → cell_wf m c cell) as Hall
    by (intros c cell Hc%elem_of_map_to_list; by apply Hwf).
  pose proof (NoDup_fst_map_to_list (rm_resource_cells m)) as Hnd. revert Hall Hnd.
  induction (map_to_list (rm_resource_cells m)) as [|[c cell] cells IH]; intros Hall Hnd; csimpl;
    [constructor|].
  apply NoDup_cons in Hnd as [Hc Hnd]. apply NoDup_app. split_and!.
  - apply NoDup_filter. unfold lease_values. apply (NoDup_fmap_1 rl_lease_id).
    rewrite <-list_fmap_compose.
    replace (_ <$> map_to_list (ce_active_leases cell)) with (map_to_list (ce_active_leases cell)).*1;
      [apply NoDup_fst_map_to_list|].
    apply list_fmap_ext. intros i [id l] Hi. simpl. apply list_elem_of_lookup_2, elem_of_map_to_list in Hi.
    by destruct (cw_leases _ _ _ (Hall c cell ltac:(set_solver)) id l Hi).
  - intros l [_ Hl]%list_elem_of_filter (ls & Hin & Hls)%list_elem_of_join.
    apply list_elem_of_fmap in Hls as (cell' & -> & ([c' cell''] & -> & Hc')%list_elem_of_fmap).
    apply list_elem_of_filter in Hin as [_ Hl'].
    unfold lease_values in Hl, Hl'. apply list_elem_of_fmap in Hl as ([id l0] & -> & Hl%elem_of_map_to_list).
    apply list_elem_of_fmap in Hl' as ([id' l1] & Heq & Hl'%elem_of_map_to_list). simpl in *. subst l1.
    destruct (cw_leases _ _ _ (Hall c cell ltac:(set_solver)) _ _ Hl) as [_ <- _ _ _].
    destruct (cw_leases _ _ _ (Hall c' cell'' ltac:(set_solver)) _ _ Hl') as [_ <- _ _ _].
    apply Hc, list_elem_of_fmap. by exists (rl_cell_id l0, cell'').
  - apply IH; [|done]. intros. apply Hall. set_solver.
Qed.

#[local] Instance lease_id_le_total : Total lease_id_le.
Proof. intros a b. apply (total String.le). Qed.
#[local] Instance lease_id_le_trans : Transitive lease_id_le.
Proof. intros a b c. unfold lease_id_le. apply transitivity. Qed.

(** Reclaiming at a step takes away exactly the active leases that have expired
    then, from whatever cell, and reports each of them once, in id order. *)
Theorem lease_reclaim_is_exact m step :
  rm_reachable m →
  let '(m', leases) := reclaim_expired_resource_leases m step in
  (∀ lease, lease ∈ leases ↔ active m lease ∧ resource_lease_expired lease step = true) ∧
  (∀ lease, active m' lease ↔ active m lease ∧ resource_lease_expired lease step = false) ∧
  NoDup leases ∧ StronglySorted lease_id_le leases.
Proof.
  intros Hm. pose proof (rm_reachable_wf m Hm) as Hwf. unfold reclaim_expired_resource_leases.
  split_and!.
  - intros lease. rewrite merge_sort_Permutation, list_elem_of_join, active_lookup by done.
    setoid_rewrite list_elem_of_fmap. split.
    + intros (ls & Hin & cell & -> & Hcell).
      apply list_elem_of_fmap in Hcell as ([c cell'] & -> & Hc%elem_of_map_to_list).
      apply list_elem_of_filter in Hin as [? ([id l] & -> & Hid%elem_of_map_to_list)%list_elem_of_fmap].
      split; [|done]. eauto.
    + intros [(c & cell & id & Hc & Hid) Hexp]. eexists. split; [|exists cell; split; [done|]].
      * apply list_elem_of_filter. split; [done|]. apply list_elem_of_fmap. exists (id, lease).
        split; [done|]. by apply elem_of_map_to_list.
      * apply list_elem_of_fmap. exists (c, cell). split; [done|]. by apply elem_of_map_to_list.
  - intros lease. unfold active, held. simpl. setoid_rewrite lookup_fmap. split.
    + intros (cell' & (cell & Hc & ->)%fmap_Some & [Hid ?]%map_lookup_filter_Some & _). eauto 10.
    + intros [(cell & Hc & Hid & _) ?]. rewrite Hc. eexists. split_and!; [done| |done].
      by apply map_lookup_filter_Some.
  - rewrite merge_sort_Permutation. by apply NoDup_cell_leases.
  - apply StronglySorted_merge_sort; apply _.
Qed.

(** ** Write leases *)

(** At most one write lease per resource: acquiring succeeds exactly when the
    resource is registered and has no writer, and makes the new token its writer;
    releasing succeeds exactly when the presented token is the writer and has not
    expired at the given step, and clears the writer; whatever is refused changes
    nothing. *)
Theorem write_leases_are_exclusive m x owner exp lease step :
  (let '(m', res) := acquire_write_lease m x owner exp in
   (is_ok res = true ↔ (∃ entry, hub_get (rm_hub m) x = Some entry) ∧ writer_of m x = None) ∧
   match res with
   | Ok l => writer_of m' x = Some (ewl_token l) ∧ tok_owner (ewl_token l) = owner
   | Err _ => m' = m
   end) ∧
  (let '(m', res) := release_write_lease_checked m lease step in
   let token := ewl_token lease in
   (is_ok res = true ↔ writer_of m (tok_ref_id token) = Some token ∧
      (∀ e s, tok_expires_at_step token = Some e → step = Some s → (s < e)%N)) ∧
   match res with
   | Ok _ => writer_of m' (tok_ref_id token) = None
   | Err _ => m' = m
   end).
Proof.
  split.
  - unfold acquire_write_lease, writer_of. destruct (hub_get (rm_hub m) x) as [entry|] eqn:Hx; simpl.
    2:{ split; [|done]. split; [done|]. by intros [[? ?] _]. }
    destruct (entry_writer entry) as [token|] eqn:Hw; simpl.
    + split; [|done]. split; [done|]. by intros [_ ?].
    + split; [split; eauto|]. unfold hub_get. simpl. by rewrite lookup_insert_eq.
  - unfold release_write_lease_checked, writer_of. set (token := ewl_token lease).
    destruct (hub_get (rm_hub m) (tok_ref_id token)) as [entry|] eqn:Hx; simpl.
    2:{ split; [|done]. split; [done|]. by intros [? _]. }
    destruct (match tok_expires_at_step token with Some _ => _ | None => _ end) eqn:Hexp.
    + split; [|done]. split; [done|]. intros [_ Hlt].
      destruct (tok_expires_at_step token) as [e|], step as [s|]; try done.
      apply bool_decide_eq_true in Hexp. specialize (Hlt e s eq_refl eq_refl). lia.
    + case_decide as Hne.
      * split; [|done]. split; [done|]. by intros [? _].
      * split; [|unfold hub_get; simpl; by rewrite lookup_insert_eq].
        split; [|done]. intros _. split; [done|]. intros e s He Hs. rewrite He, Hs in Hexp.
        apply bool_decide_eq_false in Hexp. lia.
Qed.

(** C22: fencing over histories: a write token or a cell lease that this manager
    issued and that is no longer in force (released, reclaimed, or its resource or
    cell removed or replaced) is refused by every later release, whatever happens
    in between. *)
Theorem revoked_resource_leases_are_fenced m m' wlease clease step :
  rm_reachable m → rm_later m m' →
  minted m "lease" (tok_token_id (ewl_token wlease)) → minted m "resource-lease" (rl_lease_id clease) →
  writer_of m (tok_ref_id (ewl_token wlease)) ≠ Some (ewl_token wlease) → ¬ active m clease →
  is_ok (release_write_lease_checked m' wlease step).2 = false ∧
  is_ok (release_resource_lease_checked m' clease step).2 = false.
Proof.
  intros Hm Hlater Hmw Hmc Hw Hc. pose proof (rm_reachable_wf m Hm) as Hwf. split.
  - pose proof (token_stays_revoked m m' _ Hlater Hwf Hmw Hw) as Hno.
    unfold release_write_lease_checked, writer_of in *.
    destruct (hub_get (rm_hub m') _) as [entry|]; [|done].
    destruct (match tok_expires_at_step _ with Some _ => _ | None => _ end); [done|].
    by rewrite decide_True by done.
  - pose proof (lease_stays_revoked m m' clease Hlater Hwf Hmc Hc) as Hno.
    destruct (release_cases m' clease step (rm_later_wf m m' Hlater Hwf)) as [(_ & _ & ?)|[Hheld _]]; [done|].
    destruct Hno. destruct Hheld as (cell & ? & ? & _). by exists cell.
Qed.

(** ** Descriptors *)

(** The order of (generation, version). *)
Definition descriptor_le (a b : ResourceRef) : Prop :=
  (rr_generation a < rr_generation b ∨
   rr_generation a = rr_generation b ∧ rr_version a ≤ rr_version b)%N.

(** Synchronising a descriptor never moves a resource back: it is accepted
    exactly when its identity fields are consistent and, if the resource is known,
    its (generation, version) is not older and the generation of a held write lease
    does not change; an accepted one replaces the descriptor and keeps the writer,
    a refused one changes nothing, and no other resource is touched. *)
Theorem sync_is_monotone m d :
  let '(m', res) := sync_resource_descriptor m d in
  let x := rr_ref_id d in
  (is_ok res = true ↔ identity_ok d ∧
     ∀ entry, hub_get (rm_hub m) x = Some entry →
       descriptor_le (entry_descriptor entry) d ∧
       (∀ token, entry_writer entry = Some token → tok_generation token = rr_generation d)) ∧
  (if is_ok res then
     open_resource m' x = Ok d ∧ writer_of m' x = writer_of m x ∧
     (∀ y, y ≠ x → hub_get (rm_hub m') y = hub_get (rm_hub m) y)
   else m' = m).
Proof.
  destruct (sync_cases m d) as [(Hm & Herr & Hwhy)|(Hd & writer & Heq & Hw)].
  - destruct (sync_resource_descriptor m d) as [m' res]. simpl in *. subst m'. rewrite Herr.
    split; [|done]. split; [done|]. intros [Hd Hall]. destruct Hwhy as [?|(entry & Hx & Hno)]; [done|].
    destruct Hno. by apply Hall.
  - rewrite Heq. cbv zeta. simpl. split; [split; [|done]; intros _|].
    + split; [done|]. intros entry Hx. destruct Hw as [[? _]|(entry' & Hx' & Hall & _)]; [congruence|].
      rewrite Hx in Hx'. by injection Hx' as <-.
    + unfold open_resource, writer_of, hub_get in *. simpl. rewrite lookup_insert_eq. split_and!; [done| |].
      * destruct Hw as [[-> ->]|(entry & -> & _ & ->)]; done.
      * intros y Hy. by rewrite lookup_insert_ne.
Qed.

Lemma check_invalidations_Ok m provider rs :
  is_ok (check_invalidations m provider rs) = true ↔
  Forall (λ r, inv_provider_id r = provider ∧ inv_generation r ≠ 0%N ∧
    ∀ entry, hub_get (rm_hub m) (inv_ref_id r) = Some entry →
      rr_provider_id (entry_descriptor entry) = provider ∧
      rr_generation (entry_descriptor entry) = inv_generation r) rs.
Proof.
  induction rs as [|r rs IH]; simpl; [by split|]. rewrite Forall_cons.
  destruct (_ || _) eqn:H1.
  - split; [done|]. intros [(? & ? & _) _]. rewrite orb_true_iff, !bool_decide_eq_true in H1. tauto.
  - rewrite orb_false_iff, !bool_decide_eq_false in H1. destruct H1 as [Hp%dec_stable Hg].
    destruct (hub_get (rm_hub m) (inv_ref_id r)) as [entry|].
    + destruct (_ || _) eqn:H2.
      * split; [done|]. intros [(_ & _ & Hall) _]. destruct (Hall entry eq_refl).
        rewrite orb_true_iff, !bool_decide_eq_true in H2. tauto.
      * rewrite orb_false_iff, !bool_decide_eq_false in H2. destruct H2 as [H2%dec_stable H3%dec_stable].
        rewrite IH. split; [|tauto]. intros ?. split; [|done]. split_and!; [done|done|].
        by intros ? [= <-].
    + rewrite IH. split; [|tauto]. intros ?. by split.
Qed.

Lemma lookup_hub_removes (rs : list ResourceDescriptorInvalidation) x : ∀ h,
  hub_get (foldl (λ h removed, hub_remove h (inv_ref_id removed)) h rs) x
  = if decide (x ∈ inv_ref_id <$> rs) then None else hub_get h x.
Proof.
  induction rs as [|r rs IH]; intros h; cbn [foldl].
  - by rewrite decide_False by apply not_elem_of_nil.
  - rewrite IH, fmap_cons. unfold hub_get, hub_remove. cbn [hub_entries]. rewrite lookup_delete.
    destruct (decide (inv_ref_id r = x)) as [->|Hne].
    + rewrite (decide_True (P := x ∈ x :: _)) by set_solver. by case_decide.
    + destruct (decide (x ∈ inv_ref_id <$> rs)).
      * by rewrite decide_True by set_solver.
      * by rewrite decide_False by set_solver.
Qed.

(** A set of invalidations is applied as a whole or not at all: it is accepted
    exactly when each names the calling provider, a non-zero generation and, if the
    resource is known, that provider's resource in its current generation; then
    exactly the named resources are gone, and otherwise the manager is unchanged. *)
Theorem invalidation_is_atomic m provider rs :
  let '(m', res) := invalidate_resource_descriptors m provider rs in
  (is_ok res = true ↔
   Forall (λ r, inv_provider_id r = provider ∧ inv_generation r ≠ 0%N ∧
     ∀ entry, hub_get (rm_hub m) (inv_ref_id r) = Some entry →
       rr_provider_id (entry_descriptor entry) = provider ∧
       rr_generation (entry_descriptor entry) = inv_generation r) rs) ∧
  (if is_ok res then
     ∀ x, hub_get (rm_hub m') x = if decide (x ∈ inv_ref_id <$> rs) then None else hub_get (rm_hub m) x
   else m' = m).
Proof.
  unfold invalidate_resource_descriptors. pose proof (check_invalidations_Ok m provider rs) as Hok.
  destruct (check_invalidations m provider rs); (split; [exact Hok|]); [|done]. intros x.
  apply lookup_hub_removes.
Qed.

(** ** Values *)

(** Packed values can be read back at any later time: a value whose encoding fits
    the inline limit is returned inside the packed value and stores nothing; a
    larger one is stored under a new id, and its reference yields the same value
    from every later manager. *)
Theorem value_round_trip m schema v bytes :
  rm_reachable m → ids_left m → to_vec_len v = Ok bytes →
  let '(m1, res) := pack_value m schema v in
  if decide (bytes ≤ rm_inline_value_max_bytes m)%N then
    m1 = m ∧ res = Ok (PackedInline (ValueInline schema v 1))
  else ∃ r, res = Ok (PackedRef r) ∧ rm_values m !! vr_ref_id r = None ∧ vr_size_hint r = Some bytes ∧
    ∀ m', rm_later m1 m' → get_value m' r = Ok v.
Proof.
  intros Hm Hids Hlen. pose proof (rm_reachable_wf m Hm) as Hwf.
  pose proof (pack_value_wf m schema v Hwf Hids) as Hwf1. revert Hwf1.
  unfold pack_value. rewrite Hlen. case_decide; [done|].
  destruct (mint_spec m "value" Hids) as (m1 & -> & ->). simpl. intros Hwf1.
  eexists. split_and!; [done|by apply fresh_value_id|done|]. intros m' Hlater.
  pose proof (values_later _ m' Hlater Hwf1) as Hsub. unfold get_value. simpl.
  rewrite (lookup_weaken _ _ _ _ (lookup_insert_eq _ _ _) Hsub). done.
Qed.

End theorems.

(** ** The theorems on a concrete manager *)

#[local] Existing Instance sample_serde.

Fixpoint run_rm_ops (ops : list RmOp) (m : ResourceManager) : ResourceManager :=
  match ops with
  | [] => m
  | op :: ops =>
      if decide (ids_next (rm_id_source m) < u64_max)%N then
        match run_rm_op op m with Done m' => run_rm_ops ops m' | Panic _ => m end
      else m
  end.

Lemma run_rm_ops_reachable ops : ∀ m, rm_reachable m → rm_reachable (run_rm_ops ops m).
Proof.
  induction ops as [|op ops IH]; intros m Hm; simpl; [done|]. case_decide; [|done].
  destruct (run_rm_op op m) as [m'|] eqn:Hrun; [|done]. apply IH. by eapply rm_reachable_step.
Qed.

(** A cell with one shared lease until step 5, and a written resource. *)
Definition sample_resource_ops : list RmOp :=
  [ RmCreateCell "cell" "kind" "plugin" "schema" "restart";
    RmAcquire "cell" "t1" "exec" "shared" (Some 5%N);
    RmCreateStream "stream" "schema" "provider" "endpoint";
    RmAcquireWrite (id_string "resource" 2) "t1" None ].

Definition sample_manager : ResourceManager := run_rm_ops sample_resource_ops ResourceManager_new.

Lemma sample_manager_reachable : rm_reachable sample_manager.
Proof. apply run_rm_ops_reachable, rm_reachable_new. Qed.

Lemma sample_manager_ids : ids_left sample_manager.
Proof. vm_compute. reflexivity. Qed.

Definition sample_cell_lease (id : N) (exp : option N) : ResourceLease :=
  mkResourceLease (id_string "resource-lease" id) "cell" "t1" "exec" "shared" exp 1.

Lemma resource_manager_invariant_witness :
  rm_wf sample_manager ∧ ∃ m', run_rm_op (RmReclaim 5) sample_manager = Done m'.
Proof.
  destruct (resource_manager_invariant sample_manager sample_manager_reachable) as [Hwf Hrun].
  split; [exact Hwf|]. apply Hrun, sample_manager_ids.
Defined.

(** A second reader is let in, a writer is not. *)
Lemma cell_leases_are_reader_writer_witness :
  is_ok (acquire_resource_lease sample_manager "cell" "t1" "exec" "shared" None).2 = true ∧
  is_ok (acquire_resource_lease sample_manager "cell" "t1" "exec" "exclusive" None).2 = false ∧
  (acquire_resource_lease sample_manager "cell" "t1" "exec" "exclusive" None).1 = sample_manager.
Proof.
  split_and!; [vm_compute; reflexivity..|].
  pose proof (cell_leases_are_reader_writer sample_manager "cell" "t1" "exec" "exclusive" None
    sample_manager_reachable sample_manager_ids) as H.
  assert (is_ok (acquire_resource_lease sample_manager "cell" "t1" "exec" "exclusive" None).2 = false) as He
    by (vm_compute; reflexivity).
  destruct (acquire_resource_lease sample_manager "cell" "t1" "exec" "exclusive" None) as [m' [l|e]];
    [discriminate|]. destruct H as (_ & H & _). exact H.
Defined.

Lemma cell_lease_round_trip_witness :
  ∃ m1 m2, acquire_resource_lease sample_manager "cell" "t1" "exec" "shared" (Some 9%N)
      = (m1, Ok (sample_cell_lease 4 (Some 9%N))) ∧
    release_resource_lease_at m1 (sample_cell_lease 4 (Some 9%N)) 6 = (m2, Ok tt) ∧
    rm_resource_cells m2 = rm_resource_cells sample_manager.
Proof.
  set (m1 := (acquire_resource_lease sample_manager "cell" "t1" "exec" "shared" (Some 9%N)).1).
  assert (acquire_resource_lease sample_manager "cell" "t1" "exec" "shared" (Some 9%N)
    = (m1, Ok (sample_cell_lease 4 (Some 9%N)))) as Hacq by (vm_compute; reflexivity).
  destruct (cell_lease_round_trip sample_manager _ _ _ _ _ m1 _ 6 sample_manager_reachable
    sample_manager_ids Hacq) as (m2 & Hrel & Hcells & _); [vm_compute; reflexivity|].
  exists m1, m2. split_and!; [exact Hacq|exact Hrel|exact Hcells].
Defined.

Lemma lease_reclaim_is_exact_witness :
  (reclaim_expired_resource_leases sample_manager 5).2 = [sample_cell_lease 1 (Some 5%N)] ∧
  active sample_manager (sample_cell_lease 1 (Some 5%N)).
Proof.
  pose proof (lease_reclaim_is_exact sample_manager 5 sample_manager_reachable) as H.
  assert ((reclaim_expired_resource_leases sample_manager 5).2 = [sample_cell_lease 1 (Some 5%N)]) as Hr
    by (vm_compute; reflexivity).
  split; [exact Hr|]. destruct (reclaim_expired_resource_leases sample_manager 5) as [m' leases].
  simpl in Hr. subst leases. destruct H as [H _]. apply H. left.
Defined.

(** The lease and the write token given back. *)
Definition sample_write_lease : ExclusiveWriteLease :=
  mkExclusiveWriteLease
    (mkLeaseToken (id_string "lease" 3) (id_string "resource" 2) "t1" "exclusive_write" None 1).

Definition released_manager : ResourceManager :=
  run_rm_ops [RmReleaseWrite sample_write_lease None; RmReclaim 5] sample_manager.

Lemma revoked_resource_leases_are_fenced_witness :
  is_ok (release_write_lease_checked (unregister_resource released_manager "y").1 sample_write_lease None).2
    = false ∧
  is_ok (release_resource_lease_checked (unregister_resource released_manager "y").1
           (sample_cell_lease 1 (Some 5%N)) None).2 = false.
Proof.
  apply (revoked_resource_leases_are_fenced released_manager).
  - apply run_rm_ops_reachable, sample_manager_reachable.
  - apply (rm_later_step _ (RmUnregister "y") (unregister_resource released_manager "y").1);
      [vm_compute; reflexivity|cbn [run_rm_op]; reflexivity|apply rm_later_refl].
  - exists 3%N. split; [vm_compute; congruence|reflexivity].
  - exists 1%N. split; [vm_compute; congruence|reflexivity].
  - vm_compute. congruence.
  - intros (cell & Hc & Hid & _). vm_compute in Hc. injection Hc as <-. vm_compute in Hid. discriminate.
Defined.

(** A value of 5000 characters is stored. *)
Definition large_value : string := Nat.iter 5000 (String.append "x") "".

Lemma value_round_trip_witness :
  ∃ m1 r, pack_value sample_manager "schema" large_value = (m1, Ok (PackedRef r)) ∧
    get_value m1 r = Ok large_value.
Proof.
  pose proof (value_round_trip sample_manager "schema" large_value 5000 sample_manager_reachable
    sample_manager_ids ltac:(vm_compute; reflexivity)) as H.
  destruct (pack_value sample_manager "schema" large_value) as [m1 res].
  rewrite decide_False in H by (vm_compute; congruence).
  destruct H as (r & -> & _ & _ & Hget). exists m1, r. split; [reflexivity|]. apply Hget, rm_later_refl.
Defined.
