(* ===== verification/Logs.v ===== *)
(** * Logs: the bounded event and trace logs

    Models [core/src/logs.rs] (the generic [BoundedLog] and the two outlets built on
    it), the outlet records of [contracts/src/observability.rs], [event.rs] and
    [trace.rs].  [VecDeque]s are lists, front first; the allocation behind them
    ([shrink_to], [allocated_capacity]) is not modelled. *)
From S2P Require Import Prelude Contracts Floats.

(** ** Outlet profiles and pages *)

Inductive ObservabilityOverflowPolicy : Type := DropOldest | DropNew.

#[global] Instance ObservabilityOverflowPolicy_eq_dec : EqDecision ObservabilityOverflowPolicy.
Proof. solve_decision. Defined.

Record ObservabilityOutletProfile : Type := mkOutletProfile {
  op_capacity : N;
  op_overflow_policy : ObservabilityOverflowPolicy;
}.

Definition DEFAULT_EVENT_CAPACITY : N := 4096.
Definition DEFAULT_TRACE_CAPACITY : N := 4096.

Record ObservabilityPage (T : Type) : Type := mkObservabilityPage {
  pg_items : list T;
  pg_next_sequence : N;
  pg_earliest_available_sequence : option N;
  pg_latest_sequence : N;
  pg_lost : N;
  pg_truncated : bool;
  pg_dropped : N;
}.
Arguments mkObservabilityPage {_} _ _ _ _ _ _ _.
Arguments pg_items {_} _.
Arguments pg_next_sequence {_} _.
Arguments pg_earliest_available_sequence {_} _.
Arguments pg_latest_sequence {_} _.
Arguments pg_lost {_} _.
Arguments pg_truncated {_} _.
Arguments pg_dropped {_} _.

Definition cursor_lost {T} (page : ObservabilityPage T) : bool := bool_decide (0 < pg_lost page)%N.

(** ** The bounded log *)

Record BoundedLog (T : Type) : Type := mkBoundedLog {
  bl_records : list T;
  bl_next_sequence : N;
  bl_profile : ObservabilityOutletProfile;
  bl_dropped : N;
}.
Arguments mkBoundedLog {_} _ _ _ _.
Arguments bl_records {_} _.
Arguments bl_next_sequence {_} _.
Arguments bl_profile {_} _.
Arguments bl_dropped {_} _.

Section bounded_log.
Context {T : Type}.
Implicit Types (log : BoundedLog T).

Definition bl_len log : N := N.of_nat (length (bl_records log)).
Definition bl_capacity log : N := op_capacity (bl_profile log).

(** The log [new] builds. *)
Definition empty_log (profile : ObservabilityOutletProfile) : BoundedLog T :=
  mkBoundedLog [] 0 profile 0.

(** The ring buffer is allocated at once, for items of [size_of] bytes. *)
Definition bounded_log_new (size_of : N) (profile : ObservabilityOutletProfile) : outcome (BoundedLog T) :=
  _ ← (if decide (op_capacity profile = 0%N) then Done tt
       else vec_with_capacity size_of (op_capacity profile));
  Done (empty_log profile).

(** One turn of the trimming loop: the end the policy names loses a record. *)
Definition pop_overflow (policy : ObservabilityOverflowPolicy) (records : list T) : list T :=
  match policy with
  | DropOldest => tail records
  | DropNew => removelast records
  end.

(** [while records.len() > capacity]; the fuel is the number of records. *)
Fixpoint log_trim_loop (fuel : nat) log : BoundedLog T :=
  if decide (bl_capacity log < bl_len log)%N then
    match fuel with
    | O => log
    | S fuel' =>
        log_trim_loop fuel' (mkBoundedLog
          (pop_overflow (op_overflow_policy (bl_profile log)) (bl_records log))
          (bl_next_sequence log) (bl_profile log) (sat_add (bl_dropped log) 1))
    end
  else log.

Definition log_configure (profile : ObservabilityOutletProfile) log : BoundedLog T :=
  let log := mkBoundedLog (bl_records log) (bl_next_sequence log) profile (bl_dropped log) in
  log_trim_loop (length (bl_records log)) log.

Definition log_set_capacity (capacity : N) log : BoundedLog T :=
  log_configure (mkOutletProfile capacity (op_overflow_policy (bl_profile log))) log.

Definition advance_sequence log : BoundedLog T * N :=
  let next := sat_add (bl_next_sequence log) 1 in
  (mkBoundedLog (bl_records log) next (bl_profile log) (bl_dropped log), next).

Definition log_is_enabled log : bool := bool_decide (0 < bl_capacity log)%N.

Definition will_retain_next log : bool :=
  log_is_enabled log
  && (bool_decide (bl_len log < bl_capacity log)%N
      || bool_decide (op_overflow_policy (bl_profile log) = DropOldest)).

Definition count_dropped log : BoundedLog T :=
  mkBoundedLog (bl_records log) (bl_next_sequence log) (bl_profile log)
    (sat_add (bl_dropped log) 1).

Definition make_room log : BoundedLog T * bool :=
  if negb (will_retain_next log) then (count_dropped log, false)
  else if decide (bl_len log = bl_capacity log) then
    (mkBoundedLog (tail (bl_records log)) (bl_next_sequence log) (bl_profile log)
       (sat_add (bl_dropped log) 1), true)
  else (log, true).

Definition retain (record : T) log : BoundedLog T :=
  let '(log, roomy) := make_room log in
  if negb roomy then log
  else mkBoundedLog (bl_records log ++ [record]) (bl_next_sequence log) (bl_profile log)
         (bl_dropped log).

Definition bounded_record_with (build : N → T) log : BoundedLog T * option T :=
  let '(log, sequence) := advance_sequence log in
  if negb (will_retain_next log) then (count_dropped log, None)
  else
    let record := build sequence in
    (retain record log, Some record).

Definition bounded_page_after (sequence limit : N) (item_sequence : T → N) log
    : ObservabilityPage T :=
  let items :=
    take (N.to_nat limit) (filter (λ item, (sequence < item_sequence item)%N) (bl_records log)) in
  let next :=
    if decide (limit = 0%N) then sequence
    else default (N.max sequence (bl_next_sequence log)) (item_sequence <$> last items) in
  let lost :=
    if decide (limit = 0%N) then 0%N
    else sat_sub (sat_sub next sequence) (N.of_nat (length items)) in
  {| pg_items := items;
     pg_next_sequence := next;
     pg_earliest_available_sequence := item_sequence <$> head (bl_records log);
     pg_latest_sequence := bl_next_sequence log;
     pg_lost := lost;
     pg_truncated := bool_decide (next < bl_next_sequence log)%N;
     pg_dropped := bl_dropped log |}.

(** [records.drain(..)]. *)
Definition bounded_drain log : BoundedLog T * list T :=
  (mkBoundedLog [] (bl_next_sequence log) (bl_profile log) (bl_dropped log), bl_records log).

End bounded_log.

(** ** Memory layout

    The compiler chooses the size of an event and of a span. *)
Record Layout : Type := mkLayout {
  size_of_RuntimeEvent : N;
  size_of_TraceSpan : N;
}.

(** ** Events *)

Inductive RuntimeEventKind : Type :=
| EventLifecycle | EventPlugin | EventResource | EventTrace | EventHost | EventTask | EventRunner
| EventState | EventEffect | EventReload.

Record RuntimeEvent : Type := mkRuntimeEvent {
  ev_sequence : N;
  ev_kind : RuntimeEventKind;
  ev_name : string;
  ev_subject_id : option string;
  ev_attributes : gmap string ScalarValue;
  ev_error : option RuntimeError;
}.

Record EventLog : Type := mkEventLog { el_inner : BoundedLog RuntimeEvent }.

Definition event_log_with_profile (layout : Layout) (profile : ObservabilityOutletProfile)
    : outcome EventLog :=
  inner ← bounded_log_new (size_of_RuntimeEvent layout) profile;
  Done (mkEventLog inner).
Definition event_log_default (layout : Layout) : outcome EventLog :=
  event_log_with_profile layout (mkOutletProfile DEFAULT_EVENT_CAPACITY DropNew).

Definition event_record_with (build : N → RuntimeEvent) (log : EventLog)
    : EventLog * option RuntimeEvent :=
  let '(inner, r) := bounded_record_with build (el_inner log) in (mkEventLog inner, r).

Definition event_record (kind : RuntimeEventKind) (name : string) (subject_id : option string)
    (attributes : gmap string ScalarValue) (error : option RuntimeError) (log : EventLog)
    : EventLog * option RuntimeEvent :=
  event_record_with (λ sequence, mkRuntimeEvent sequence kind name subject_id attributes error)
    log.

Definition event_page_after (sequence limit : N) (log : EventLog) : ObservabilityPage RuntimeEvent :=
  bounded_page_after sequence limit ev_sequence (el_inner log).

Definition event_drain (log : EventLog) : EventLog * list RuntimeEvent :=
  let '(inner, events) := bounded_drain (el_inner log) in (mkEventLog inner, events).

(** ** Spans *)

Inductive SpanStatus : Type := SpanOk | SpanError.

Record TraceSpan : Type := mkTraceSpan {
  sp_sequence : N;
  sp_trace_id : string;
  sp_span_id : string;
  sp_parent_span_id : option string;
  sp_name : string;
  sp_start : f64;
  sp_end : option f64;
  sp_attributes : gmap string ScalarValue;
  sp_status : SpanStatus;
}.

Record TraceLog : Type := mkTraceLog { trl_inner : BoundedLog TraceSpan }.

Definition trace_log_with_profile (layout : Layout) (profile : ObservabilityOutletProfile)
    : outcome TraceLog :=
  inner ← bounded_log_new (size_of_TraceSpan layout) profile;
  Done (mkTraceLog inner).
Definition trace_log_with_capacity (layout : Layout) (capacity : N) : outcome TraceLog :=
  trace_log_with_profile layout (mkOutletProfile capacity DropOldest).
Definition trace_log_default (layout : Layout) : outcome TraceLog :=
  trace_log_with_profile layout (mkOutletProfile DEFAULT_TRACE_CAPACITY DropOldest).

Definition trace_record_with (build : N → TraceSpan) (log : TraceLog)
    : TraceLog * option TraceSpan :=
  let '(inner, r) := bounded_record_with build (trl_inner log) in (mkTraceLog inner, r).

Definition span_of (trace_id name : string) (parent_span_id : option string) (status : SpanStatus)
    (attributes : gmap string ScalarValue) (sequence : N) : TraceSpan :=
  {| sp_sequence := sequence; sp_trace_id := trace_id;
     sp_span_id := "span-" +:+ pretty sequence; sp_parent_span_id := parent_span_id;
     sp_name := name; sp_start := f64_of_u64 sequence; sp_end := Some (f64_of_u64 sequence);
     sp_attributes := attributes; sp_status := status |}.

Definition trace_record (trace_id name : string) (parent_span_id : option string)
    (status : SpanStatus) (attributes : gmap string ScalarValue) (log : TraceLog)
    : TraceLog * option TraceSpan :=
  trace_record_with (span_of trace_id name parent_span_id status attributes) log.

Definition trace_page_after (sequence limit : N) (log : TraceLog) : ObservabilityPage TraceSpan :=
  bounded_page_after sequence limit sp_sequence (trl_inner log).

(** ** Closure of a set of spans, [core/src/trace.rs] *)

Inductive TraceClosureIssue : Type :=
| DuplicateSpanId (span_id : string)
| MissingParent (span_id parent_span_id : string)
| ParentTraceMismatch (span_id parent_span_id : string)
| InvalidInterval (span_id : string).

Definition closes_before_it_starts (span : TraceSpan) : bool :=
  match sp_end span with Some e => f64_ltb e (sp_start span) | None => false end.

(** The first loop: [seen], [by_span_id] and the issues it pushes. *)
Fixpoint index_spans (spans : list TraceSpan) (seen : gset string)
    (by_span_id : gmap string TraceSpan) : list TraceClosureIssue * gmap string TraceSpan :=
  match spans with
  | [] => ([], by_span_id)
  | span :: rest =>
      let id := sp_span_id span in
      let duplicate := if decide (id ∈ seen) then [DuplicateSpanId id] else [] in
      let by_span_id :=
        match by_span_id !! id with Some _ => by_span_id | None => <[id := span]> by_span_id end in
      let interval := if closes_before_it_starts span then [InvalidInterval id] else [] in
      let '(issues, by_span_id) := index_spans rest ({[id]} ∪ seen) by_span_id in
      (duplicate ++ interval ++ issues, by_span_id)
  end.

(** The body of the second loop. *)
Definition parent_issues (by_span_id : gmap string TraceSpan) (span : TraceSpan)
    : list TraceClosureIssue :=
  match sp_parent_span_id span with
  | None => []
  | Some parent_span_id =>
      match by_span_id !! parent_span_id with
      | None => [MissingParent (sp_span_id span) parent_span_id]
      | Some parent =>
          if decide (sp_trace_id parent ≠ sp_trace_id span)
          then [ParentTraceMismatch (sp_span_id span) parent_span_id] else []
      end
  end.

Definition validate_trace_closure (spans : list TraceSpan) : list TraceClosureIssue :=
  let '(issues, by_span_id) := index_spans spans ∅ ∅ in
  issues ++ (spans ≫= parent_issues by_span_id).
