(* ===== verification/LogTheorems.v ===== *)
(** * LogTheorems: what the bounded logs promise

    The invariant of a log whose records carry the sequence they were built with,
    its accounting, the equivalence with a sliding window and a prefix, and the
    protocol of a reader that follows the pages by their cursor. *)
From S2P Require Import Prelude Contracts Floats Logs.

(** ** Histories of a log *)

Section history.
Context {T : Type} (item_sequence : T → N).
Implicit Types (log : BoundedLog T).

(** The operations that change a log; [LogRecord] carries the caller's [build]. *)
Inductive LogOp : Type :=
| LogRecord (build : N → T)
| LogConfigure (profile : ObservabilityOutletProfile)
| LogSetCapacity (capacity : N)
| LogDrain.

(** The builders of the two outlets store the sequence they are given. *)
Definition stamps (op : LogOp) : Prop :=
  match op with LogRecord build => ∀ n, item_sequence (build n) = n | _ => True end.

(** One operation: the log it leaves, and the records it handed out for good. *)
Definition log_step (op : LogOp) log : BoundedLog T * list T :=
  match op with
  | LogRecord build => ((bounded_record_with build log).1, [])
  | LogConfigure profile => (log_configure profile log, [])
  | LogSetCapacity capacity => (log_set_capacity capacity log, [])
  | LogDrain => bounded_drain log
  end.

Fixpoint log_run (ops : list LogOp) log : BoundedLog T * list T :=
  match ops with
  | [] => (log, [])
  | op :: ops =>
      let '(log, taken) := log_step op log in
      let '(log, rest) := log_run ops log in
      (log, taken ++ rest)
  end.

Definition is_record (op : LogOp) : bool := match op with LogRecord _ => true | _ => false end.

(** How many records were offered. *)
Definition offered (ops : list LogOp) : N := N.of_nat (length (filter is_record ops)).

Definition seq_lt (x y : T) : Prop := (item_sequence x < item_sequence y)%N.

(** The records are in the order of their sequences, none is from the future, and
    they fit the capacity. *)
Record log_wf log : Prop := {
  wf_sorted : StronglySorted seq_lt (bl_records log);
  wf_range : ∀ x, x ∈ bl_records log → (0 < item_sequence x ≤ bl_next_sequence log)%N;
  wf_capacity : (bl_len log ≤ bl_capacity log)%N;
}.

(** What is stored, was dropped, or was drained, against what was offered. *)
Definition balanced (n taken : N) log : Prop :=
  (bl_next_sequence log = n ∧ bl_len log + bl_dropped log + taken = n)%N.

(** ** Each operation *)

Lemma StronglySorted_app_single (R : relation T) (l : list T) x :
  StronglySorted R l → (∀ y, y ∈ l → R y x) → StronglySorted R (l ++ [x]).
Proof.
  induction 1 as [|y l Hl IH Hy]; intros Hx; simpl; [repeat constructor|].
  constructor; [apply IH; intros; apply Hx; by right|].
  apply Forall_app; split; [done|]. constructor; [apply Hx; by left|constructor].
Qed.

Lemma removelast_take (l : list T) : removelast l = take (length l - 1) l.
Proof. by rewrite removelast_firstn_len, Nat.sub_1_r. Qed.

Lemma StronglySorted_sublist (R : relation T) (l k : list T) :
  l `sublist_of` k → StronglySorted R k → StronglySorted R l.
Proof.
  induction 1 as [|x l k Hlk IH|x l k Hlk IH]; intros Hs; [done| |].
  - inversion_clear Hs as [|?? Hk Hx]. constructor; [auto|].
    rewrite Forall_forall in *. intros y Hy. apply Hx. by eapply elem_of_sublist.
  - inversion_clear Hs. auto.
Qed.

Lemma pop_overflow_sublist policy (l : list T) : pop_overflow policy l `sublist_of` l.
Proof.
  destruct policy; simpl; [|rewrite removelast_take; apply sublist_take].
  destruct l; simpl; [done|by constructor].
Qed.

Lemma pop_overflow_length policy (l : list T) : length (pop_overflow policy l) = (length l - 1)%nat.
Proof.
  destruct policy; simpl; [by rewrite length_tl, ?Nat.sub_1_r|].
  rewrite removelast_take, length_take. lia.
Qed.

(** What trimming does, whatever the fuel. *)
Record trimmed log log' : Prop := {
  trim_sublist : bl_records log' `sublist_of` bl_records log;
  trim_next : bl_next_sequence log' = bl_next_sequence log;
  trim_profile : bl_profile log' = bl_profile log;
  trim_balance : ((bl_len log + bl_dropped log ≤ u64_max) →
                  bl_len log' + bl_dropped log' = bl_len log + bl_dropped log)%N;
}.

Lemma trim_loop_trimmed fuel log : trimmed log (log_trim_loop fuel log).
Proof.
  revert log. induction fuel as [|fuel IH]; intros log; simpl; case_decide; try done.
  match goal with |- trimmed _ (log_trim_loop _ ?l) => destruct (IH l) as [Hsub Hnext Hprof Hbal] end.
  unfold bl_len in *; simpl in *. split; try done.
  - etrans; [exact Hsub|apply pop_overflow_sublist].
  - rewrite pop_overflow_length in Hbal. intros Hmax.
    unfold bl_len, sat_add in *. lia.
Qed.

Lemma trim_loop_fits fuel log :
  (length (bl_records log) ≤ fuel)%nat → (bl_len (log_trim_loop fuel log) ≤ bl_capacity log)%N.
Proof.
  revert log. induction fuel as [|fuel IH]; intros log Hf; simpl; case_decide; try lia.
  - unfold bl_len in *. lia.
  - etrans; [apply IH|done]. simpl. rewrite pop_overflow_length. lia.
Qed.

Lemma configure_trimmed profile log :
  trimmed (mkBoundedLog (bl_records log) (bl_next_sequence log) profile (bl_dropped log))
    (log_configure profile log).
Proof. apply trim_loop_trimmed. Qed.

Lemma configure_wf profile log : log_wf log → log_wf (log_configure profile log).
Proof.
  intros [Hs Hr Hc]. destruct (configure_trimmed profile log) as [Hsub Hnext Hprof _].
  simpl in *. split.
  - by eapply StronglySorted_sublist.
  - intros x Hx. rewrite Hnext. apply Hr. by eapply elem_of_sublist.
  - unfold bl_capacity at 1. rewrite Hprof. by apply trim_loop_fits.
Qed.

Lemma configure_balanced n taken profile log :
  (n ≤ u64_max)%N → balanced n taken log → balanced n taken (log_configure profile log).
Proof.
  intros Hn [Hnext Hbal]. destruct (configure_trimmed profile log) as [_ Hn' _ Hb].
  unfold bl_len in *. simpl in *. split; [congruence|]. unfold bl_len. rewrite Hb; lia.
Qed.

(** What [record_with] leaves, by cases: the record is stored in free room, stored
    in place of the oldest one, or refused. *)
Lemma record_cases build log :
  let next := sat_add (bl_next_sequence log) 1 in
  let recs := bl_records log in
  (bl_len log ≤ bl_capacity log)%N →
  ((bl_len log < bl_capacity log)%N ∧
     bounded_record_with build log
     = (mkBoundedLog (recs ++ [build next]) next (bl_profile log) (bl_dropped log),
        Some (build next)))
  ∨ ((0 < bl_len log)%N ∧ bl_len log = bl_capacity log
     ∧ op_overflow_policy (bl_profile log) = DropOldest ∧
     bounded_record_with build log
     = (mkBoundedLog (tail recs ++ [build next]) next (bl_profile log)
          (sat_add (bl_dropped log) 1), Some (build next)))
  ∨ (bl_len log = bl_capacity log
     ∧ (bl_capacity log = 0%N ∨ op_overflow_policy (bl_profile log) = DropNew) ∧
     bounded_record_with build log
     = (mkBoundedLog recs next (bl_profile log) (sat_add (bl_dropped log) 1), None)).
Proof.
  intros next recs Hcap.
  unfold bounded_record_with, advance_sequence. fold next. cbn zeta.
  unfold retain, make_room.
  set (log1 := mkBoundedLog _ _ _ _).
  assert (bl_len log1 = bl_len log) as El by done.
  assert (bl_capacity log1 = bl_capacity log) as Ec by done.
  destruct (will_retain_next log1) eqn:Hw; simpl.
  - unfold will_retain_next, log_is_enabled in Hw. rewrite El, Ec in *.
    rewrite andb_true_iff, orb_true_iff, !bool_decide_eq_true in Hw. simpl in Hw.
    destruct Hw as [Hpos Hor]. case_decide as Heq; simpl.
    + right; left. repeat split; try done; [lia|]. destruct Hor; [lia|done].
    + left. repeat split; try done. lia.
  - right; right. unfold will_retain_next, log_is_enabled in Hw. rewrite El, Ec in *.
    rewrite andb_false_iff, orb_false_iff, !bool_decide_eq_false in Hw. simpl in Hw.
    split; [lia|]. split; [|done]. destruct Hw as [?|[_ Hp]]; [left; lia|right].
    by destruct (op_overflow_policy (bl_profile log)).
Qed.

Lemma record_wf build log :
  (∀ n, item_sequence (build n) = n) → (bl_next_sequence log < u64_max)%N →
  log_wf log → log_wf (bounded_record_with build log).1.
Proof.
  intros Hb Hmax [Hs Hr Hc].
  assert (sat_add (bl_next_sequence log) 1 = bl_next_sequence log + 1)%N as Enext
    by (apply sat_add_exact; lia).
  destruct (record_cases build log Hc) as [[Hlt ->]|[(Hpos & Heq & Hp & ->)|(Heq & Hp & ->)]];
    simpl; rewrite Enext in *.
  - split; simpl.
    + apply StronglySorted_app_single; [done|]. intros y Hy%Hr.
      unfold seq_lt. rewrite Hb. lia.
    + intros x [Hx%Hr|Hx%list_elem_of_singleton]%elem_of_app; simpl; [lia|].
      subst x. rewrite Hb. lia.
    + unfold bl_len, bl_capacity in *. simpl in *. rewrite length_app. simpl. lia.
  - assert (∀ x, x ∈ tail (bl_records log) → x ∈ bl_records log) as Htl
      by (destruct (bl_records log); [done|by right]).
    split; simpl.
    + apply StronglySorted_app_single.
      * destruct (bl_records log); [done|by inversion_clear Hs].
      * intros y Hy%Htl%Hr. unfold seq_lt. rewrite Hb. lia.
    + intros x [Hx%Htl%Hr|Hx%list_elem_of_singleton]%elem_of_app; simpl; [lia|].
      subst x. rewrite Hb. lia.
    + unfold bl_len, bl_capacity in *. simpl in *.
      rewrite length_app, length_tl. simpl. lia.
  - split; simpl; [done| |done]. intros x Hx%Hr. lia.
Qed.

Lemma record_balanced n taken build log :
  (n < u64_max)%N → (bl_len log ≤ bl_capacity log)%N → balanced n taken log →
  balanced (n + 1) taken (bounded_record_with build log).1.
Proof.
  intros Hn Hc [Hnext Hbal].
  assert (sat_add (bl_next_sequence log) 1 = n + 1)%N as En
    by (rewrite Hnext; apply sat_add_exact; lia).
  assert (sat_add (bl_dropped log) 1 = bl_dropped log + 1)%N as Ed by (apply sat_add_exact; lia).
  destruct (record_cases build log Hc) as [[Hlt ->]|[(Hpos & Heq & Hp & ->)|(Heq & Hp & ->)]];
    unfold balanced, bl_len in *; simpl; rewrite ?En, ?Ed, ?length_app, ?length_tl; simpl;
    (split; [done|lia]).
Qed.

Lemma log_step_wf op log :
  stamps op → (bl_next_sequence log < u64_max)%N → log_wf log → log_wf (log_step op log).1.
Proof.
  intros Hop Hmax Hwf. destruct op; simpl.
  - by apply record_wf.
  - by apply configure_wf.
  - by apply configure_wf.
  - split; simpl; [constructor|by intros x ?%elem_of_nil|unfold bl_len; simpl; lia].
Qed.

Lemma offered_cons op ops :
  offered (op :: ops) = ((if is_record op then 1 else 0) + offered ops)%N.
Proof. unfold offered. rewrite filter_cons. destruct (is_record op); simpl; lia. Qed.

Lemma log_step_balanced op n taken log :
  let '(log', out) := log_step op log in
  log_wf log → (n + (if is_record op then 1 else 0) ≤ u64_max)%N → balanced n taken log →
  balanced (n + (if is_record op then 1 else 0)) (taken + N.of_nat (length out)) log'.
Proof.
  destruct op; simpl; intros Hwf Hn Hb; rewrite ?N.add_0_r.
  - apply record_balanced; [lia|by destruct Hwf|done].
  - apply configure_balanced; [lia|done].
  - apply configure_balanced; [lia|done].
  - destruct Hb as [Hx Hy]. split; simpl; [done|]. unfold bl_len in *. simpl. lia.
Qed.

Lemma log_run_inv ops n taken log :
  Forall stamps ops → (n + offered ops ≤ u64_max)%N → log_wf log → balanced n taken log →
  log_wf (log_run ops log).1
  ∧ balanced (n + offered ops) (taken + N.of_nat (length (log_run ops log).2)) (log_run ops log).1.
Proof.
  revert n taken log. induction ops as [|op ops IH]; intros n taken log Hops Hn Hwf Hb; simpl.
  { unfold offered; simpl. by rewrite !N.add_0_r. }
  rewrite offered_cons in *. inversion_clear Hops as [|?? Hop Hrest].
  pose proof (log_step_balanced op n taken log) as Hstep.
  assert (log_wf (log_step op log).1) as Hwf'.
  { destruct (is_record op) eqn:Hr; [apply log_step_wf; try done; destruct Hb; lia|].
    destruct op; try done; simpl; [by apply configure_wf..|].
    split; simpl; [constructor|by intros x ?%elem_of_nil|unfold bl_len; simpl; lia]. }
  destruct (log_step op log) as [log1 out] eqn:E1. simpl in *.
  destruct (log_run ops log1) as [log2 rest] eqn:E2. simpl in *.
  specialize (Hstep Hwf ltac:(lia) Hb).
  destruct (IH (n + (if is_record op then 1 else 0))%N (taken + N.of_nat (length out))%N log1)
    as [Hw Hbal]; [done|lia|done|done|].
  rewrite E2 in *. simpl in *. split; [done|].
  rewrite length_app. replace (n + ((if is_record op then 1 else 0) + offered ops))%N
    with (n + (if is_record op then 1 else 0) + offered ops)%N by lia.
  replace (taken + N.of_nat (length out + length rest))%N
    with (taken + N.of_nat (length out) + N.of_nat (length rest))%N by lia. done.
Qed.

Lemma new_wf profile : log_wf (empty_log profile).
Proof. split; simpl; [constructor|by intros x ?%elem_of_nil|unfold bl_len; simpl; lia]. Qed.

End history.

(** ** Reading by pages *)

Section paging.
Context {T : Type} (item_sequence : T → N).
Implicit Types (log : BoundedLog T).

(** The records a reader at [cursor] has not seen. *)
Definition unread (cursor : N) (records : list T) : list T :=
  filter (λ item, (cursor < item_sequence item)%N) records.

(** A reader that asks for pages of at most [limit] records, each from the cursor
    the page before gave, until a page is not truncated: the records it got, the
    records it was told it lost, its last cursor.  [None] stands for still reading
    after [fuel] pages. *)
Fixpoint follow (fuel : nat) (limit cursor : N) log : option (list T * N * N) :=
  match fuel with
  | O => None
  | S fuel =>
      let page := bounded_page_after cursor limit item_sequence log in
      if pg_truncated page then
        '(items, lost, last) ← follow fuel limit (pg_next_sequence page) log;
        Some (pg_items page ++ items, (pg_lost page + lost)%N, last)
      else Some (pg_items page, pg_lost page, pg_next_sequence page)
  end.

Lemma sorted_length_range (l : list T) a b :
  StronglySorted (seq_lt item_sequence) l →
  (∀ x, x ∈ l → a < item_sequence x ≤ b)%N → (a ≤ b → a + N.of_nat (length l) ≤ b)%N.
Proof.
  intros Hs. revert a. induction Hs as [|x l Hl IH Hx]; intros a Hr Hab; simpl; [lia|].
  assert (a < item_sequence x ≤ b)%N by (apply Hr; by left).
  assert (item_sequence x + N.of_nat (length l) ≤ b)%N; [|lia].
  apply IH; [|lia]. intros y Hy. rewrite Forall_forall in Hx.
  split; [by apply Hx|apply Hr; by right].
Qed.

Lemma sorted_last_split (l k : list T) x :
  StronglySorted (seq_lt item_sequence) (l ++ k) → last l = Some x →
  filter (λ item, (item_sequence x < item_sequence item)%N) (l ++ k) = k.
Proof.
  intros Hs [l' ->]%last_Some. rewrite <-app_assoc in *. simpl in *.
  rewrite filter_app, filter_cons_False by lia.
  assert (∀ y, y ∈ k → item_sequence x < item_sequence y)%N as Hk.
  { apply StronglySorted_app in Hs as (_ & _ & Hs). inversion_clear Hs as [|??? Hx].
    rewrite Forall_forall in Hx. exact Hx. }
  rewrite (list_filter_all _ k) by done.
  assert (filter (λ item, (item_sequence x < item_sequence item)%N) l' = []) as ->; [|done].
  apply StronglySorted_app in Hs as (Hlx & _ & _).
  induction l' as [|y l' IH]; [done|]. rewrite filter_cons_False; [apply IH|].
  - intros; apply Hlx; [by right|done].
  - specialize (Hlx y x). unfold seq_lt in Hlx. rewrite !elem_of_cons in Hlx.
    specialize (Hlx (or_introl eq_refl) (or_introl eq_refl)). lia.
Qed.

Lemma unread_unread (a b : N) (l : list T) : (a ≤ b)%N → unread b (unread a l) = unread b l.
Proof.
  intros Hab. unfold unread. rewrite list_filter_filter. apply list_filter_iff. intros x. lia.
Qed.

(** What one page says about the log it was taken from. *)
Record page_exact (cursor : N) log (page : ObservabilityPage T) : Prop := {
  page_moves : (cursor ≤ pg_next_sequence page ≤ bl_next_sequence log)%N;
  page_splits : pg_items page ++ unread (pg_next_sequence page) (bl_records log)
                = unread cursor (bl_records log);
  page_counts : (pg_lost page + N.of_nat (length (pg_items page))
                 = pg_next_sequence page - cursor)%N;
  page_progress : pg_truncated page = true → pg_items page ≠ [];
  page_final : pg_truncated page = false → pg_next_sequence page = bl_next_sequence log;
}.

Lemma page_after_exact cursor limit log :
  log_wf item_sequence log → (0 < limit)%N → (cursor ≤ bl_next_sequence log)%N →
  page_exact cursor log (bounded_page_after cursor limit item_sequence log).
Proof.
  intros [Hs Hr _] Hlim Hc. unfold bounded_page_after.
  rewrite !decide_False by lia. fold (unread cursor (bl_records log)).
  set (F := unread cursor (bl_records log)). set (k := N.to_nat limit).
  assert (StronglySorted (seq_lt item_sequence) F) as HF by by apply StronglySorted_filter.
  assert (∀ x, x ∈ F → cursor < item_sequence x ≤ bl_next_sequence log)%N as HFr.
  { intros x [Hlt Hx]%list_elem_of_filter. split; [done|by apply Hr]. }
  destruct (last (take k F)) as [x|] eqn:Hlast; simpl.
  - assert (x ∈ take k F) as Hx by (apply last_Some_elem_of in Hlast; done).
    assert (x ∈ F) as HxF by (exact (elem_of_sublist _ _ _ Hx (sublist_take F k))).
    pose proof (HFr x HxF) as Hrange.
    assert (unread (item_sequence x) (bl_records log) = drop k F) as Hrest.
    { rewrite <-(unread_unread cursor) by lia. fold F. unfold unread.
      rewrite <-(take_drop k F) at 1. apply sorted_last_split; [by rewrite take_drop|done]. }
    assert (cursor + N.of_nat (length (take k F)) ≤ item_sequence x)%N as Hlen.
    { apply sorted_length_range; [|intros y Hy; split|lia].
      - by eapply StronglySorted_sublist, HF; apply sublist_take.
      - apply HFr. exact (elem_of_sublist _ _ _ Hy (sublist_take F k)).
      - apply last_Some in Hlast as [l' El]. rewrite El in *.
        assert (StronglySorted (seq_lt item_sequence) (l' ++ [x])) as Hl.
        { rewrite <-El. eapply StronglySorted_sublist, HF; apply sublist_take. }
        apply StronglySorted_app in Hl as (Hl & _ & _).
        apply elem_of_app in Hy as [Hy|Hy%list_elem_of_singleton]; [|subst; lia].
        specialize (Hl y x Hy). unfold seq_lt in Hl. rewrite list_elem_of_singleton in Hl.
        specialize (Hl eq_refl). lia. }
    split; simpl; unfold sat_sub in *.
    + lia.
    + by rewrite Hrest, take_drop.
    + lia.
    + intros _ E. by rewrite E in Hx; apply elem_of_nil in Hx.
    + rewrite bool_decide_eq_false. lia.
  - apply last_None in Hlast.
    assert (F = []) as EF.
    { destruct F as [|y F']; [done|]. destruct k eqn:Ek; [lia|done]. }
    rewrite EF, take_nil. split; simpl; unfold sat_sub.
    + lia.
    + assert (unread (N.max cursor (bl_next_sequence log)) (bl_records log) = []) as ->; [|done].
      rewrite <-(unread_unread cursor) by lia. fold F. by rewrite EF.
    + lia.
    + rewrite bool_decide_eq_true. lia.
    + lia.
Qed.

Lemma follow_exact fuel limit cursor log :
  log_wf item_sequence log → (0 < limit)%N → (cursor ≤ bl_next_sequence log)%N →
  (length (unread cursor (bl_records log)) < fuel)%nat →
  ∃ items lost, follow fuel limit cursor log = Some (items, lost, bl_next_sequence log)
    ∧ items = unread cursor (bl_records log)
    ∧ (lost + N.of_nat (length items) = bl_next_sequence log - cursor)%N.
Proof.
  intros Hwf Hlim. revert cursor. induction fuel as [|fuel IH]; intros cursor Hc Hf; [lia|].
  pose proof (page_after_exact cursor limit log Hwf Hlim Hc) as [Hmv Hsp Hct Hpr Hfi].
  cbn [follow]. cbv zeta. set (page := bounded_page_after _ _ _ _) in *.
  destruct (pg_truncated page).
  - specialize (Hpr eq_refl).
    destruct (IH (pg_next_sequence page)) as (items & lost & -> & -> & Hl); [lia| |].
    { rewrite <-Hsp, length_app in Hf. destruct (pg_items page); [done|]. simpl in *. lia. }
    eexists _, _. split; [reflexivity|]. split; [exact Hsp|]. rewrite length_app. lia.
  - specialize (Hfi eq_refl). rewrite Hfi in Hsp, Hct |- *. eexists _, _. split; [reflexivity|]. split; [|exact Hct].
    assert (unread (bl_next_sequence log) (bl_records log) = []) as Hnil;
      [|by rewrite <-Hsp, Hnil, app_nil_r].
    destruct (unread (bl_next_sequence log) (bl_records log)) as [|y l] eqn:E; [reflexivity|].
    assert (y ∈ unread (bl_next_sequence log) (bl_records log)) as Hy by (rewrite E; by left).
    apply list_elem_of_filter in Hy as [Hlt Hy]. destruct Hwf as [_ Hr _].
    specialize (Hr y Hy). lia.
Qed.

End paging.

(** ** The retained window *)

Section window.
Context {T : Type}.
Implicit Types (log : BoundedLog T).

Definition record_all (builds : list (N → T)) log : BoundedLog T :=
  foldl (λ log build, (bounded_record_with build log).1) log builds.

(** The records offered, numbered from one. *)
Definition numbered (builds : list (N → T)) : list T :=
  imap (λ i build, build (N.of_nat (S i))) builds.

(** The reference: the newest [capacity] records, or the oldest ones. *)
Definition log_window (profile : ObservabilityOutletProfile) (all : list T) : list T :=
  match op_overflow_policy profile with
  | DropOldest => drop (length all - N.to_nat (op_capacity profile)) all
  | DropNew => take (N.to_nat (op_capacity profile)) all
  end.

Lemma window_length profile all :
  N.of_nat (length (log_window profile all)) = N.min (N.of_nat (length all)) (op_capacity profile).
Proof. unfold log_window. destruct (op_overflow_policy profile); rewrite ?length_drop, ?length_take; lia. Qed.

Lemma window_snoc_room profile all x :
  (N.of_nat (length all) < op_capacity profile)%N →
  log_window profile (all ++ [x]) = log_window profile all ++ [x].
Proof.
  intros Hlt. unfold log_window. rewrite length_app. simpl.
  destruct (op_overflow_policy profile).
  - rewrite !(proj2 (Nat.sub_0_le _ _)) by lia. done.
  - rewrite !take_ge by (rewrite ?length_app; simpl; lia). done.
Qed.

Lemma window_snoc_oldest profile all x :
  (0 < op_capacity profile ≤ N.of_nat (length all))%N → op_overflow_policy profile = DropOldest →
  log_window profile (all ++ [x]) = tail (log_window profile all) ++ [x].
Proof.
  intros [Hpos Hle] Hp. unfold log_window. rewrite Hp, length_app. simpl.
  rewrite drop_app_le by lia. f_equal.
  replace (length all + 1 - N.to_nat (op_capacity profile))%nat
    with (1 + (length all - N.to_nat (op_capacity profile)))%nat by lia.
  rewrite Nat.add_comm, <-drop_drop. by destruct (drop _ all).
Qed.

Lemma window_snoc_full profile all x :
  (op_capacity profile ≤ N.of_nat (length all))%N →
  op_capacity profile = 0%N ∨ op_overflow_policy profile = DropNew →
  log_window profile (all ++ [x]) = log_window profile all.
Proof.
  intros Hle Hp. unfold log_window. rewrite length_app. simpl.
  destruct (op_overflow_policy profile) eqn:E.
  - destruct Hp as [Hz|?]; [|done]. rewrite Hz. simpl.
    rewrite !drop_ge by (rewrite ?length_app; simpl; lia). done.
  - by rewrite take_app_le by lia.
Qed.

Lemma record_all_window profile builds :
  (N.of_nat (length builds) ≤ u64_max)%N →
  let log := record_all builds (empty_log profile) in
  bl_records log = log_window profile (numbered builds)
  ∧ bl_next_sequence log = N.of_nat (length builds) ∧ bl_profile log = profile.
Proof.
  induction builds as [|build builds IH] using rev_ind; intros Hmax.
  { simpl. unfold log_window, numbered. simpl. destruct (op_overflow_policy profile);
      by rewrite ?drop_nil, ?take_nil. }
  rewrite length_app in Hmax. simpl in Hmax. destruct IH as (Hr & Hn & Hp); [lia|].
  unfold record_all in *. rewrite foldl_snoc. set (log := foldl _ _ builds) in *.
  assert (sat_add (bl_next_sequence log) 1 = N.of_nat (S (length builds))) as En.
  { rewrite Hn, sat_add_exact; lia. }
  assert (length (numbered builds) = length builds) as El by apply length_imap.
  assert (bl_len log = N.min (N.of_nat (length builds)) (bl_capacity log)) as Elen.
  { unfold bl_len, bl_capacity. by rewrite Hr, Hp, window_length, El. }
  assert (bl_capacity log = op_capacity profile) as Ecap by (unfold bl_capacity; by rewrite Hp).
  assert (numbered (builds ++ [build]) = numbered builds ++ [build (N.of_nat (S (length builds)))])
    as Enum.
  { unfold numbered. rewrite imap_app. simpl. by rewrite Nat.add_0_r. }
  rewrite Enum, length_app. simpl.
  destruct (record_cases build log) as [[Hlt ->]|[(Hpos & Heq & Hpol & ->)|(Heq & Hpol & ->)]];
    [lia|..]; simpl; rewrite Hr, Hp, En; (split; [|split; [lia|done]]).
  - rewrite window_snoc_room; [done|]. rewrite El. lia.
  - rewrite window_snoc_oldest; [done| |by rewrite <-Hp]. rewrite El. lia.
  - rewrite window_snoc_full; [done| |]; rewrite ?El; [lia|]. by rewrite <-Ecap, <-Hp.
Qed.

End window.

(** ** Closure of spans *)

(** The first span with an id, as the index of the validator keeps it. *)
Definition first_span (id : string) (spans : list TraceSpan) : option TraceSpan :=
  snd <$> list_find (λ span, sp_span_id span = id) spans.

Lemma first_span_cons id span spans :
  first_span id (span :: spans)
  = if decide (sp_span_id span = id) then Some span else first_span id spans.
Proof.
  unfold first_span. cbn [list_find]. case_decide; [done|].
  by destruct (list_find _ spans) as [[]|].
Qed.

Lemma index_spans_lookup spans seen by_id id :
  (index_spans spans seen by_id).2 !! id
  = match by_id !! id with Some span => Some span | None => first_span id spans end.
Proof.
  revert seen by_id. induction spans as [|span spans IH]; intros seen by_id; simpl.
  { by destruct (by_id !! id). }
  destruct (index_spans spans _ _) as [issues idx] eqn:E. simpl.
  assert (idx = (index_spans spans ({[sp_span_id span]} ∪ seen)
    (match by_id !! sp_span_id span with
     | Some _ => by_id | None => <[sp_span_id span := span]> by_id end)).2) as -> by by rewrite E.
  rewrite IH, first_span_cons. destruct (by_id !! sp_span_id span) eqn:Es.
  - destruct (by_id !! id) eqn:Ei; [done|]. case_decide; [congruence|done].
  - rewrite lookup_insert. case_decide as Hid.
    + subst. by rewrite Es.
    + done.
Qed.

Lemma index_spans_clean spans seen by_id :
  (index_spans spans seen by_id).1 = []
  ↔ NoDup (sp_span_id <$> spans) ∧ (∀ span, span ∈ spans → sp_span_id span ∉ seen)
    ∧ (∀ span, span ∈ spans → closes_before_it_starts span = false).
Proof.
  revert seen by_id. induction spans as [|span spans IH]; intros seen by_id; csimpl.
  { split; [|done]. intros _. split; [constructor|]. by split; intros ? ?%elem_of_nil. }
  destruct (index_spans spans _ _) as [issues idx] eqn:E. simpl.
  assert (issues = (index_spans spans ({[sp_span_id span]} ∪ seen)
    (match by_id !! sp_span_id span with
     | Some _ => by_id | None => <[sp_span_id span := span]> by_id end)).1) as -> by by rewrite E.
  rewrite !app_nil, IH, NoDup_cons. clear E.
  setoid_rewrite elem_of_cons. setoid_rewrite elem_of_union. setoid_rewrite elem_of_singleton.
  rewrite list_elem_of_fmap.
  destruct (closes_before_it_starts span) eqn:Ec; case_decide as Hs.
  - split; [naive_solver|]. intros (_ & H & _). destruct (H span); auto.
  - split; [naive_solver|]. intros (_ & _ & H). specialize (H span (or_introl eq_refl)). congruence.
  - split; [naive_solver|]. intros (_ & H & _). destruct (H span); auto.
  - split.
    + intros (_ & _ & Hnd & Hseen & Hok). repeat split; [|done| |].
      * intros (s & Heq & Hin). apply (Hseen s Hin). by left.
      * intros s [->|Hin]; [done|]. intros ?. apply (Hseen s Hin). by right.
      * intros s [->|Hin]; auto.
    + intros ((Hnin & Hnd) & Hseen & Hok). repeat split; [done| |auto].
      intros s Hin [Heq|?]; [apply Hnin; eauto|]. by apply (Hseen s); auto.
Qed.

Lemma first_span_NoDup id spans parent :
  NoDup (sp_span_id <$> spans) →
  (first_span id spans = Some parent ↔ parent ∈ spans ∧ sp_span_id parent = id).
Proof.
  induction spans as [|span spans IH]; csimpl.
  { split; [done|]. by intros [?%elem_of_nil _]. }
  intros [Hnin Hnd]%NoDup_cons. rewrite first_span_cons, elem_of_cons. case_decide as Hid.
  - split; [intros [= <-]; auto|]. intros [[->|Hin] Heq]; [done|].
    destruct Hnin. apply list_elem_of_fmap. exists parent. by rewrite Hid, Heq.
  - rewrite IH by done. naive_solver.
Qed.

(** What a closed set of spans is: ids are distinct, no span ends before it starts,
    and every parent is in the set, in the same trace. *)
Definition closed_trace (spans : list TraceSpan) : Prop :=
  NoDup (sp_span_id <$> spans)
  ∧ (∀ span, span ∈ spans → closes_before_it_starts span = false)
  ∧ (∀ span parent_id, span ∈ spans → sp_parent_span_id span = Some parent_id →
     ∃ parent, parent ∈ spans ∧ sp_span_id parent = parent_id
               ∧ sp_trace_id parent = sp_trace_id span).

Lemma parent_issues_clean index span :
  parent_issues index span = []
  ↔ (∀ parent_id, sp_parent_span_id span = Some parent_id →
     ∃ parent, index !! parent_id = Some parent ∧ sp_trace_id parent = sp_trace_id span).
Proof.
  unfold parent_issues. destruct (sp_parent_span_id span) as [pid|]; [|naive_solver].
  destruct (index !! pid) as [parent|] eqn:E.
  - case_decide as Ht; split; [done| | |done].
    + intros H. destruct (H pid eq_refl) as (? & ? & ?). congruence.
    + intros _ ? [= <-]. exists parent. split; [done|].
      destruct (decide (sp_trace_id parent = sp_trace_id span)); [done|by destruct Ht].
  - split; [done|]. intros H. destruct (H pid eq_refl) as (? & ? & ?). congruence.
Qed.

Lemma bind_nil {A B} (f : A → list B) (l : list A) : l ≫= f = [] ↔ ∀ x, x ∈ l → f x = [].
Proof.
  induction l as [|x l IH]; csimpl; [split; [by intros _ ? ?%elem_of_nil|done]|].
  rewrite app_nil, IH. setoid_rewrite elem_of_cons. naive_solver.
Qed.

(** ** Properties *)

(** C36: every log reached from a new one by recording, reconfiguring and draining
    keeps its records within the capacity, in the order of their distinct sequences,
    none newer than the last sequence; and every record offered is accounted for: it
    is stored, was drained, or is counted as dropped.  (A new log whose buffer would
    exceed [isize::MAX] bytes is not built: its allocation panics.) *)
Theorem log_accounts_for_every_record {T} (item_sequence : T → N) (size_of : N)
    (profile : ObservabilityOutletProfile) (ops : list (LogOp (T := T))) :
  Forall (stamps item_sequence) ops → (offered ops ≤ u64_max)%N →
  match bounded_log_new size_of profile with
  | Panic message =>
      message = VEC_CAPACITY_OVERFLOW ∧ (isize_max < size_of * op_capacity profile)%N
  | Done log0 =>
      let '(log, drained) := log_run ops log0 in
      log_wf item_sequence log
      ∧ bl_next_sequence log = offered ops
      ∧ (bl_len log + bl_dropped log + N.of_nat (length drained) = offered ops)%N
  end.
Proof.
  intros Hops Hmax.
  assert (let '(log, drained) := log_run ops (empty_log profile) in
    log_wf item_sequence log ∧ bl_next_sequence log = offered ops
    ∧ (bl_len log + bl_dropped log + N.of_nat (length drained) = offered ops)%N) as Hrun;
    [|unfold bounded_log_new; case_decide; [exact Hrun|]; unfold vec_with_capacity; by case_decide].
  destruct (log_run_inv item_sequence ops 0 0 (empty_log profile)) as [Hwf [Hn Hb]];
    [done|done|apply new_wf|done|].
  destruct (log_run ops _) as [log drained]. simpl in *. split; [done|]. lia.
Qed.

(** The log keeps exactly a window of what was offered to it: with [DropOldest]
    the newest [capacity] records, with [DropNew] the oldest [capacity] ones. *)
Theorem log_retains_a_window {T} (profile : ObservabilityOutletProfile) (builds : list (N → T)) :
  (N.of_nat (length builds) ≤ u64_max)%N →
  bl_records (record_all builds (empty_log profile)) = log_window profile (numbered builds).
Proof. intros H. by destruct (record_all_window profile builds H) as (-> & _). Qed.

(** C37: following the pages of a log ends and misses nothing: a reader that asks for
    pages of a positive size from any cursor up to the latest sequence, each from the
    cursor the page before gave it, gets within one page more than there are unread
    records a page that is not truncated; it then has received every unread record
    once and in order, stands at the latest sequence, and the losses it was told add
    up with what it received to all the sequences it passed. *)
Theorem paging_terminates_and_is_complete {T} (item_sequence : T → N) (log : BoundedLog T)
    (limit cursor : N) :
  log_wf item_sequence log → (0 < limit)%N → (cursor ≤ bl_next_sequence log)%N →
  ∃ lost, follow item_sequence (S (length (unread item_sequence cursor (bl_records log))))
            limit cursor log
          = Some (unread item_sequence cursor (bl_records log), lost, bl_next_sequence log)
    ∧ (lost + N.of_nat (length (unread item_sequence cursor (bl_records log)))
       = bl_next_sequence log - cursor)%N.
Proof.
  intros Hwf Hlim Hc.
  destruct (follow_exact item_sequence _ limit cursor log Hwf Hlim Hc (Nat.lt_succ_diag_r _))
    as (items & lost & Hf & -> & Hl). by exists lost.
Qed.

(** C38: the closure check reports nothing exactly on closed sets of spans: distinct
    ids, no span that ends before it starts, every parent present and in the same
    trace. *)
Theorem trace_closure_is_exact (spans : list TraceSpan) :
  validate_trace_closure spans = [] ↔ closed_trace spans.
Proof.
  unfold validate_trace_closure, closed_trace.
  pose proof (index_spans_clean spans ∅ ∅) as Hclean.
  pose proof (index_spans_lookup spans ∅ ∅) as Hlook.
  destruct (index_spans spans ∅ ∅) as [issues index]. simpl in *.
  rewrite app_nil, Hclean, bind_nil. setoid_rewrite parent_issues_clean.
  setoid_rewrite Hlook. setoid_rewrite lookup_empty.
  split.
  - intros [(Hnd & _ & Hok) Hp]. split; [done|]. split; [done|].
    intros span pid Hin Hpid. destruct (Hp span Hin pid Hpid) as (parent & Hf & Ht).
    apply first_span_NoDup in Hf as [? ?]; [|done]. by exists parent.
  - intros (Hnd & Hok & Hp). split; [split; [done|split; [set_solver|done]]|].
    intros span Hin pid Hpid. destruct (Hp span pid Hin Hpid) as (parent & ? & ? & ?).
    exists parent. split; [|done]. by apply first_span_NoDup.
Qed.

(** ** Witnesses *)

(** Records that are their own sequence. *)
Definition sample_ops : list (LogOp (T := N)) :=
  [LogRecord id; LogRecord id; LogRecord id; LogSetCapacity 1; LogRecord id; LogDrain;
   LogRecord id].

Lemma log_accounts_for_every_record_witness :
  let '(log, drained) := log_run sample_ops (empty_log (mkOutletProfile 2 DropOldest)) in
  log_wf id log ∧ bl_next_sequence log = offered sample_ops
  ∧ (bl_len log + bl_dropped log + N.of_nat (length drained) = offered sample_ops)%N.
Proof.
  apply (log_accounts_for_every_record id 64 (mkOutletProfile 2 DropOldest) sample_ops).
  - repeat constructor.
  - by vm_compute.
Defined.

Lemma log_retains_a_window_witness :
  bl_records (record_all [id; id; id; id] (empty_log (mkOutletProfile 3 DropOldest)))
  = [2%N; 3%N; 4%N].
Proof.
  rewrite (log_retains_a_window (mkOutletProfile 3 DropOldest) [id; id; id; id]).
  - reflexivity.
  - by vm_compute.
Defined.

(** A log of capacity 2 under [DropNew] that was offered five records. *)
Definition sample_log : BoundedLog N := mkBoundedLog [1%N; 2%N] 5 (mkOutletProfile 2 DropNew) 3.

Lemma paging_terminates_and_is_complete_witness :
  ∃ lost, follow id 3 1 0 sample_log = Some ([1%N; 2%N], lost, 5%N) ∧ (lost + 2 = 5)%N.
Proof.
  apply (paging_terminates_and_is_complete id sample_log 1 0).
  - split; [repeat constructor| |by vm_compute].
    simpl. intros x [->|[->|Hx]%elem_of_cons]%elem_of_cons;
      [by vm_compute|by vm_compute|by apply elem_of_nil in Hx].
  - by vm_compute.
  - by vm_compute.
Defined.
