(* ===== verification/ExecutionPolicy.v ===== *)
(** * ExecutionPolicy: execution variants and fixed-capacity profiling

    Models [crates/mutsuki-runtime-execution-policy/src/lib.rs]: the policy and
    capability records, the selection of an execution variant, and the profile
    accumulator (latency ring, histogram, throughput average).  [u8], [u32] and
    [u64] fields are [N]; a fixed-size array is a list whose length the type of the
    source fixes, and an index outside it panics. *)
From Stdlib Require Import SpecFloat.
From S2P Require Import Prelude Contracts Floats.

(** ** Policies *)

Inductive LatencyClass : Type :=
| HardRealtime | SoftRealtime | LatencyInteractive | LatencyBatch | LatencyBackground.
Inductive Criticality : Type :=
| SafetyCritical | MissionCritical | UserVisible | CriticalityNormal | Deferrable.
Inductive FailureMode : Type := FailureFail | FailureWait | FailureFallback.
Inductive NoPlacementPolicy : Type := PlacementFail | PlacementWait | UseFallback.
Inductive CachePolicy : Type := CacheDisabled | FreshOnly | AllowStale (max_age_ms : N).
Inductive PartialResultPolicy : Type := PartialReject | PartialAllow.

#[global] Instance NoPlacementPolicy_eq_dec : EqDecision NoPlacementPolicy.
Proof. solve_decision. Defined.

Record QualityPolicy : Type := mkQualityPolicy {
  qp_requested_level : N;
  qp_minimum_level : N;
}.

Definition u8_max : N := 255.
Definition QualityPolicy_default : QualityPolicy := mkQualityPolicy u8_max u8_max.

Definition permits_degradation (q : QualityPolicy) : bool :=
  bool_decide (qp_minimum_level q < qp_requested_level q)%N.

Record DeadlinePolicy : Type := mkDeadlinePolicy {
  dp_deadline_after_ms : option N;
  dp_max_queue_ms : option N;
}.

Record LocalSchedulingHint : Type := mkLocalSchedulingHint {
  lsh_criticality : Criticality;
  lsh_base_priority : Z;
  lsh_preemptible : bool;
  lsh_pausable : bool;
}.

Record ExecutionPolicy : Type := mkExecutionPolicy {
  xp_latency_class : LatencyClass;
  xp_deadline : DeadlinePolicy;
  xp_failure_mode : FailureMode;
  xp_quality : QualityPolicy;
  xp_cache : CachePolicy;
  xp_partial_results : PartialResultPolicy;
  xp_no_placement : NoPlacementPolicy;
  xp_scheduling : LocalSchedulingHint;
}.

Definition ExecutionPolicy_default : ExecutionPolicy :=
  {| xp_latency_class := LatencyBatch; xp_deadline := mkDeadlinePolicy None None;
     xp_failure_mode := FailureFallback; xp_quality := QualityPolicy_default;
     xp_cache := CacheDisabled; xp_partial_results := PartialReject;
     xp_no_placement := UseFallback;
     xp_scheduling := mkLocalSchedulingHint CriticalityNormal 0 false false |}.

(** ** Capabilities and requirements *)

Record CapabilitySet : Type := mkCapabilitySet {
  cs_architectures : gset string;
  cs_instruction_sets : gset string;
  cs_compute_backends : gset string;
  cs_precisions : gset string;
  cs_memory_classes : gset string;
  cs_available_memory_bytes : option N;
  cs_runner_versions : gmap string string;
  cs_plugin_versions : gmap string string;
  cs_custom : gset string;
}.

Record RequirementSet : Type := mkRequirementSet {
  rs_architectures : gset string;
  rs_instruction_sets : gset string;
  rs_compute_backends : gset string;
  rs_precisions : gset string;
  rs_memory_classes : gset string;
  rs_minimum_memory_bytes : option N;
  rs_runner_versions : gmap string string;
  rs_plugin_versions : gmap string string;
  rs_custom : gset string;
}.

Definition versions_match (required available : gmap string string) : bool :=
  forallb (λ '(id, version), bool_decide (available !! id = Some version))
    (map_to_list required).

Definition is_satisfied_by (r : RequirementSet) (c : CapabilitySet) : bool :=
  bool_decide (rs_architectures r ⊆ cs_architectures c)
  && bool_decide (rs_instruction_sets r ⊆ cs_instruction_sets c)
  && bool_decide (rs_compute_backends r ⊆ cs_compute_backends c)
  && bool_decide (rs_precisions r ⊆ cs_precisions c)
  && bool_decide (rs_memory_classes r ⊆ cs_memory_classes c)
  && match rs_minimum_memory_bytes r with
     | None => true
     | Some required =>
         match cs_available_memory_bytes c with
         | Some available => bool_decide (required ≤ available)%N
         | None => false
         end
     end
  && versions_match (rs_runner_versions r) (cs_runner_versions c)
  && versions_match (rs_plugin_versions r) (cs_plugin_versions c)
  && bool_decide (rs_custom r ⊆ cs_custom c).

(** ** Variants and their selection *)

Record ExecutionVariant : Type := mkExecutionVariant {
  xv_variant_id : string;
  xv_task_type : ProtocolId;
  xv_runner_id : RunnerId;
  xv_plugin_id : PluginId;
  xv_implementation_version : string;
  xv_requirements : RequirementSet;
  xv_quality_level : N;
  xv_preference : N;
}.

Record ExecutionVariantCatalog : Type := mkExecutionVariantCatalog {
  xc_variants : list ExecutionVariant;
}.

Record ExecutionOutcomeMetadata : Type := mkExecutionOutcomeMetadata {
  xo_requested_variant_id : option string;
  xo_executed_variant_id : option string;
  xo_quality_level : N;
  xo_partial : bool;
  xo_stale : bool;
  xo_fallback_used : bool;
  xo_degradation_reasons : list string;
}.

Record VariantSelection : Type := mkVariantSelection {
  vs_variant : ExecutionVariant;
  vs_outcome : ExecutionOutcomeMetadata;
}.

Definition ERR_EXECUTION_NO_VARIANT : string := "execution.no_variant".

Definition variant_order (left right : ExecutionVariant) : comparison :=
  then_with (N.compare (xv_preference left) (xv_preference right))
    (then_with (N.compare (xv_quality_level right) (xv_quality_level left))
       (String.compare (xv_variant_id left) (xv_variant_id right))).

(** [iter().find]. *)
Definition find_quality (level : N) (variants : list ExecutionVariant) : option ExecutionVariant :=
  find (λ variant, bool_decide (level ≤ xv_quality_level variant)%N) variants.

Definition no_variant_error (task_type : string) (policy : ExecutionPolicy) (compatible : nat)
    : RuntimeError :=
  {| err_code := ERR_EXECUTION_NO_VARIANT; err_source := "runtime.execution_policy";
     err_route := "execution.select." +:+ task_type; err_lost_capability := None;
     err_recovery :=
       match xp_no_placement policy with
       | PlacementWait => Some "wait_for_local_capability"
       | UseFallback => Some "provide_explicit_fallback"
       | PlacementFail => None
       end;
     err_cause := None;
     err_evidence := {["compatible_variants" := ScalarInt (u64_as_i64 (N.of_nat compatible))]} |}.

Definition select_local (catalog : ExecutionVariantCatalog) (task_type : string)
    (capabilities : CapabilitySet) (policy : ExecutionPolicy)
    : result VariantSelection RuntimeError :=
  let all := sort_by variant_order
    (filter (λ variant, xv_task_type variant = task_type) (xc_variants catalog)) in
  let preferred_variant_id := xv_variant_id <$> head all in
  let compatible := sort_by variant_order
    (filter (λ variant, is_satisfied_by (xv_requirements variant) capabilities = true) all) in
  let selected :=
    match find_quality (qp_requested_level (xp_quality policy)) compatible with
    | Some variant => Some variant
    | None =>
        if bool_decide (xp_no_placement policy = UseFallback)
           && permits_degradation (xp_quality policy)
        then find_quality (qp_minimum_level (xp_quality policy)) compatible
        else None
    end in
  match selected with
  | None => Err (no_variant_error task_type policy (length compatible))
  | Some selected =>
      let fallback_used := bool_decide (preferred_variant_id ≠ Some (xv_variant_id selected)) in
      let degraded :=
        bool_decide (xv_quality_level selected < qp_requested_level (xp_quality policy))%N in
      Ok {| vs_variant := selected;
            vs_outcome :=
              {| xo_requested_variant_id := preferred_variant_id;
                 xo_executed_variant_id := Some (xv_variant_id selected);
                 xo_quality_level := xv_quality_level selected;
                 xo_partial := false; xo_stale := false;
                 xo_fallback_used := fallback_used;
                 xo_degradation_reasons :=
                   (if fallback_used then ["preferred_variant_unavailable"] else [])
                   ++ (if degraded then ["requested_quality_unavailable"] else []) |} |}
  end.

(** ** Profiling *)

Definition EXECUTION_PROFILE_WINDOW_CAPACITY : nat := 32.
Definition EXECUTION_PROFILE_HISTOGRAM_BUCKETS : nat := 16.

(** [0.2] and [1.0]. *)
Definition f64_one_fifth : f64 := S754_finite false 7205759403792794 (-55).
Definition f64_one : f64 := S754_finite false 4503599627370496 (-52).

Record FixedEwma : Type := mkFixedEwma {
  ew_alpha : f64;
  ew_value : f64;
  ew_initialized : bool;
}.
Definition FixedEwma_default : FixedEwma := mkFixedEwma f64_one_fifth f64_zero false.

Definition ewma_record (sample : f64) (e : FixedEwma) : FixedEwma :=
  if ew_initialized e then
    mkFixedEwma (ew_alpha e)
      (f64_add (f64_mul (ew_alpha e) sample)
         (f64_mul (f64_sub f64_one (ew_alpha e)) (ew_value e))) true
  else mkFixedEwma (ew_alpha e) sample true.

(** An element of a fixed-size array is read or updated in place, or the index panics. *)
Definition array_get (a : list N) (i : nat) : outcome N := expect (a !! i) "index out of bounds".
Definition array_set (a : list N) (i : nat) (x : N) : outcome (list N) :=
  if decide (i < length a)%nat then Done (<[i := x]> a) else Panic "index out of bounds".

Record FixedHistogram : Type := mkFixedHistogram {
  fh_upper_bounds_ms : list N;
  fh_counts : list N;
  fh_total : N;
}.
Definition FixedHistogram_default : FixedHistogram :=
  {| fh_upper_bounds_ms :=
       [1; 2; 4; 8; 16; 32; 64; 128; 256; 512; 1000; 2000; 4000; 8000; 16000; 32000]%N;
     fh_counts := replicate (EXECUTION_PROFILE_HISTOGRAM_BUCKETS + 1) 0%N;
     fh_total := 0 |}.

Definition histogram_index (h : FixedHistogram) (sample_ms : N) : nat :=
  default EXECUTION_PROFILE_HISTOGRAM_BUCKETS
    (fst <$> list_find (λ bound, (sample_ms ≤ bound)%N) (fh_upper_bounds_ms h)).

Definition histogram_record (sample_ms : N) (h : FixedHistogram) : outcome FixedHistogram :=
  let index := histogram_index h sample_ms in
  old ← array_get (fh_counts h) index;
  counts ← array_set (fh_counts h) index (sat_add old 1);
  Done (mkFixedHistogram (fh_upper_bounds_ms h) counts (sat_add (fh_total h) 1)).

Record FixedSampleWindow : Type := mkFixedSampleWindow {
  fw_samples : list N;
  fw_next : N;
  fw_len : N;
}.
Definition FixedSampleWindow_default : FixedSampleWindow :=
  mkFixedSampleWindow (replicate EXECUTION_PROFILE_WINDOW_CAPACITY 0%N) 0 0.

Definition u8_sat_add (a b : N) : N := N.min (a + b) u8_max.

Definition window_record (sample : N) (w : FixedSampleWindow) : outcome FixedSampleWindow :=
  samples ← array_set (fw_samples w) (N.to_nat (fw_next w)) sample;
  Done {| fw_samples := samples;
          fw_next := (fw_next w + 1) mod N.of_nat EXECUTION_PROFILE_WINDOW_CAPACITY;
          fw_len := N.min (u8_sat_add (fw_len w) 1) (N.of_nat EXECUTION_PROFILE_WINDOW_CAPACITY) |}.

Definition window_is_empty (w : FixedSampleWindow) : bool := bool_decide (fw_len w = 0%N).

(** [usize::div_ceil]. *)
Definition div_ceil (a b : N) : N := if decide (a mod b = 0)%N then a / b else a / b + 1.

(** The sorted copy is as long as the window; its tail past [len] stays zero.
    [sort_unstable] on integers is [sort_by] by their order. *)
Definition window_quantile (percentile : N) (w : FixedSampleWindow) : outcome (option N) :=
  if window_is_empty w then Done None
  else
    let len := N.to_nat (fw_len w) in
    if decide (EXECUTION_PROFILE_WINDOW_CAPACITY < len)%nat then Panic "range end out of bounds"
    else
      let sorted :=
        sort_by N.compare (take len (fw_samples w))
        ++ replicate (EXECUTION_PROFILE_WINDOW_CAPACITY - len) 0%N in
      let rank := div_ceil (N.min percentile 100 * (fw_len w - 1)) 100 in
      v ← array_get sorted (N.to_nat rank);
      Done (Some v).

Record ExecutionSample : Type := mkExecutionSample {
  xs_latency_ms : N;
  xs_throughput_per_second : f64;
  xs_peak_memory_bytes : N;
  xs_succeeded : bool;
}.

Record ExecutionProfileAccumulator : Type := mkExecutionProfileAccumulator {
  xa_task_type : ProtocolId;
  xa_variant_id : string;
  xa_input_bucket : string;
  xa_latency_window : FixedSampleWindow;
  xa_latency_histogram : FixedHistogram;
  xa_throughput : FixedEwma;
  xa_peak_memory_bytes : N;
  xa_failures : N;
  xa_sample_count : N;
}.

Definition accumulator_new (task_type variant_id input_bucket : string)
    : ExecutionProfileAccumulator :=
  {| xa_task_type := task_type; xa_variant_id := variant_id; xa_input_bucket := input_bucket;
     xa_latency_window := FixedSampleWindow_default;
     xa_latency_histogram := FixedHistogram_default;
     xa_throughput := FixedEwma_default; xa_peak_memory_bytes := 0; xa_failures := 0;
     xa_sample_count := 0 |}.

Definition accumulator_record (sample : ExecutionSample) (a : ExecutionProfileAccumulator)
    : outcome ExecutionProfileAccumulator :=
  latency_window ← window_record (xs_latency_ms sample) (xa_latency_window a);
  latency_histogram ← histogram_record (xs_latency_ms sample) (xa_latency_histogram a);
  Done {| xa_task_type := xa_task_type a; xa_variant_id := xa_variant_id a;
          xa_input_bucket := xa_input_bucket a;
          xa_latency_window := latency_window;
          xa_latency_histogram := latency_histogram;
          xa_throughput := ewma_record (xs_throughput_per_second sample) (xa_throughput a);
          xa_peak_memory_bytes := N.max (xa_peak_memory_bytes a) (xs_peak_memory_bytes sample);
          xa_failures :=
            if negb (xs_succeeded sample) then sat_add (xa_failures a) 1 else xa_failures a;
          xa_sample_count := sat_add (xa_sample_count a) 1 |}.

Record ExecutionProfile : Type := mkExecutionProfile {
  pr_task_type : ProtocolId;
  pr_variant_id : string;
  pr_input_bucket : string;
  pr_p50_ms : N;
  pr_p95_ms : N;
  pr_p99_ms : N;
  pr_throughput_per_second : f64;
  pr_peak_memory_bytes : N;
  pr_failure_rate : f64;
  pr_sample_count : N;
}.

Definition snapshot (a : ExecutionProfileAccumulator) : outcome ExecutionProfile :=
  p50 ← window_quantile 50 (xa_latency_window a);
  p95 ← window_quantile 95 (xa_latency_window a);
  p99 ← window_quantile 99 (xa_latency_window a);
  Done {| pr_task_type := xa_task_type a; pr_variant_id := xa_variant_id a;
          pr_input_bucket := xa_input_bucket a;
          pr_p50_ms := default 0%N p50; pr_p95_ms := default 0%N p95;
          pr_p99_ms := default 0%N p99;
          pr_throughput_per_second := ew_value (xa_throughput a);
          pr_peak_memory_bytes := xa_peak_memory_bytes a;
          pr_failure_rate :=
            if decide (xa_sample_count a = 0%N) then f64_zero
            else f64_div (f64_of_u64 (xa_failures a)) (f64_of_u64 (xa_sample_count a));
          pr_sample_count := xa_sample_count a |}.
