(* ===== verification/PolicyTheorems.v ===== *)
(** * PolicyTheorems: variant selection is optimal, profiles are exact *)
From S2P Require Import Prelude Contracts Floats ExecutionPolicy.

#[global] Instance variant_order_total : TotalCmp variant_order.
Proof.
  unfold variant_order.
  apply (cmp_then_total (λ x y, N.compare (xv_preference x) (xv_preference y))
    (λ x y, then_with (N.compare (xv_quality_level y) (xv_quality_level x))
       (String.compare (xv_variant_id x) (xv_variant_id y)))).
  { apply (cmp_on_total xv_preference), _. }
  apply (cmp_then_total (λ x y, N.compare (xv_quality_level y) (xv_quality_level x))
    (λ x y, String.compare (xv_variant_id x) (xv_variant_id y))).
  - apply (cmp_rev_total (λ x y, N.compare (xv_quality_level x) (xv_quality_level y))).
    apply (cmp_on_total xv_quality_level), _.
  - apply (cmp_on_total xv_variant_id), _.
Qed.

(** ** Selection *)

Section selection.
Context (variants : list ExecutionVariant) (task_type : string) (capabilities : CapabilitySet).

(** The variants of the catalog that could run the task here at a quality level. *)
Definition eligible (level : N) (v : ExecutionVariant) : Prop :=
  v ∈ variants ∧ xv_task_type v = task_type
  ∧ is_satisfied_by (xv_requirements v) capabilities = true ∧ (level ≤ xv_quality_level v)%N.

(** The first choice among them: no other one comes before it in the order of
    preference, then quality, then id. *)
Definition first_choice (level : N) (v : ExecutionVariant) : Prop :=
  eligible level v ∧ ∀ v', eligible level v' → cmp_le variant_order v v'.

Definition compatible_variants : list ExecutionVariant :=
  sort_by variant_order
    (filter (λ variant, is_satisfied_by (xv_requirements variant) capabilities = true)
       (sort_by variant_order (filter (λ variant, xv_task_type variant = task_type) variants))).

Lemma elem_of_compatible v level :
  v ∈ compatible_variants ∧ (level ≤ xv_quality_level v)%N ↔ eligible level v.
Proof.
  unfold compatible_variants, eligible. rewrite sort_by_Permutation, list_elem_of_filter.
  rewrite sort_by_Permutation, list_elem_of_filter. tauto.
Qed.

Lemma find_quality_sorted level l :
  StronglySorted (cmp_le variant_order) l →
  match find_quality level l with
  | Some v => v ∈ l ∧ (level ≤ xv_quality_level v)%N
              ∧ ∀ v', v' ∈ l → (level ≤ xv_quality_level v')%N → cmp_le variant_order v v'
  | None => ∀ v', v' ∈ l → ¬ (level ≤ xv_quality_level v')%N
  end.
Proof.
  unfold find_quality. induction 1 as [|x l Hl IH Hx]; simpl; [by intros v' ?%elem_of_nil|].
  rewrite Forall_forall in Hx. case_bool_decide as Hq.
  - split; [by left|]. split; [done|].
    intros v' [->|Hin]%elem_of_cons _; [exact (cmp_le_refl variant_order _)|by apply Hx].
  - destruct (find _ l) as [v|].
    + destruct IH as (? & ? & Hmin). split; [by right|]. split; [done|].
      intros v' [->|Hin]%elem_of_cons ?; [done|auto].
    + intros v' [->|Hin]%elem_of_cons; auto.
Qed.

Lemma find_quality_compatible level :
  match find_quality level compatible_variants with
  | Some v => first_choice level v
  | None => ∀ v', ¬ eligible level v'
  end.
Proof.
  pose proof (find_quality_sorted level compatible_variants (sort_by_sorted _ _)) as H.
  destruct (find_quality _ _) as [v|].
  - destruct H as (Hin & Hq & Hmin). split; [by apply elem_of_compatible|].
    intros v' [Hin' Hq']%elem_of_compatible. auto.
  - intros v' [Hin Hq]%elem_of_compatible. by apply (H v').
Qed.

(** Variants with distinct ids have at most one first choice. *)
Lemma first_choice_unique level v v' :
  (∀ a b, a ∈ variants → b ∈ variants → xv_variant_id a = xv_variant_id b → a = b) →
  first_choice level v → first_choice level v' → v = v'.
Proof.
  intros Hid [He Hmin] [He' Hmin'].
  pose proof (cmp_le_antisym variant_order v v' (Hmin v' He') (Hmin' v He)) as Heq.
  apply Hid; [by destruct He|by destruct He'|].
  unfold variant_order, then_with in Heq.
  destruct (N.compare (xv_preference v) _); try done.
  destruct (N.compare (xv_quality_level v') _); try done.
  by apply String.compare_eq_iff.
Qed.

End selection.

Definition may_degrade (policy : ExecutionPolicy) : Prop :=
  xp_no_placement policy = UseFallback
  ∧ (qp_minimum_level (xp_quality policy) < qp_requested_level (xp_quality policy))%N.

(** The selected variant of a catalog, before the report around it. *)
Definition choice (variants : list ExecutionVariant) (task_type : string)
    (capabilities : CapabilitySet) (policy : ExecutionPolicy) (v : ExecutionVariant) : Prop :=
  first_choice variants task_type capabilities (qp_requested_level (xp_quality policy)) v
  ∨ (∀ v', ¬ eligible variants task_type capabilities (qp_requested_level (xp_quality policy)) v')
    ∧ may_degrade policy
    ∧ first_choice variants task_type capabilities (qp_minimum_level (xp_quality policy)) v.

Lemma select_local_cases catalog task_type capabilities policy :
  match select_local catalog task_type capabilities policy with
  | Ok s =>
      choice (xc_variants catalog) task_type capabilities policy (vs_variant s)
      ∧ xo_executed_variant_id (vs_outcome s) = Some (xv_variant_id (vs_variant s))
      ∧ xo_quality_level (vs_outcome s) = xv_quality_level (vs_variant s)
      ∧ ("requested_quality_unavailable" ∈ xo_degradation_reasons (vs_outcome s)
         ↔ (xv_quality_level (vs_variant s) < qp_requested_level (xp_quality policy))%N)
  | Err e =>
      err_code e = ERR_EXECUTION_NO_VARIANT
      ∧ (∀ v, ¬ choice (xc_variants catalog) task_type capabilities policy v)
  end.
Proof.
  unfold select_local. fold (compatible_variants (xc_variants catalog) task_type capabilities).
  set (compatible := compatible_variants _ _ _).
  pose proof (find_quality_compatible (xc_variants catalog) task_type capabilities
    (qp_requested_level (xp_quality policy))) as Hreq.
  pose proof (find_quality_compatible (xc_variants catalog) task_type capabilities
    (qp_minimum_level (xp_quality policy))) as Hmin. fold compatible in Hreq, Hmin.
  assert (∀ v (b : bool), "requested_quality_unavailable"
      ∈ (if b then ["preferred_variant_unavailable"] else [])
        ++ (if bool_decide (xv_quality_level v < qp_requested_level (xp_quality policy))%N
            then ["requested_quality_unavailable"] else [])
      ↔ (xv_quality_level v < qp_requested_level (xp_quality policy))%N) as Hreason.
  { intros v b. rewrite elem_of_app. case_bool_decide; destruct b; simpl;
      rewrite ?list_elem_of_singleton, ?elem_of_nil; naive_solver. }
  destruct (find_quality (qp_requested_level _) compatible) as [v|] eqn:E.
  { simpl. split; [by left|]. split; [done|]. split; [done|]. apply Hreason. }
  destruct (bool_decide (xp_no_placement policy = UseFallback)
    && permits_degradation (xp_quality policy)) eqn:Hd.
  - rewrite andb_true_iff in Hd. unfold permits_degradation in Hd.
    rewrite !bool_decide_eq_true in Hd. destruct (find_quality (qp_minimum_level _) compatible) as [v|] eqn:Em; cbn.
    + split; [right; split; [exact Hreq|by split]|]. split; [done|]. split; [done|]. apply Hreason.
    + split; [done|]. intros v [[He _]|(_ & _ & [He _])]; [by apply (Hreq v)|by apply (Hmin v)].
  - simpl. split; [done|]. intros v [[He _]|(_ & [Hp Hlt] & _)]; [by apply (Hreq v)|].
    rewrite andb_false_iff in Hd. unfold permits_degradation in Hd.
    rewrite !bool_decide_eq_false in Hd. naive_solver.
Qed.

(** ** The latency ring *)

Fixpoint run_all {A B} (f : A → B → outcome B) (l : list A) (b : B) : outcome B :=
  match l with [] => Done b | x :: l => b ← f x b; run_all f l b end.

Lemma run_all_snoc {A B} (f : A → B → outcome B) l x b :
  run_all f (l ++ [x]) b = (b ← run_all f l b; f x b).
Proof.
  revert b. induction l as [|y l IH]; intros b; simpl; [by destruct (f x b)|].
  destruct (f y b) as [b'|]; simpl; [apply IH|done].
Qed.

(** The last 32 samples. *)
Definition recent (samples : list N) : list N :=
  drop (length samples - EXECUTION_PROFILE_WINDOW_CAPACITY) samples.

Record ring_of (samples : list N) (w : FixedSampleWindow) : Prop := {
  ring_length : length (fw_samples w) = 32%nat;
  ring_next : fw_next w = (N.of_nat (length samples) mod 32)%N;
  ring_len : fw_len w = N.min (N.of_nat (length samples)) 32;
  ring_young : (length samples < 32)%nat → take (length samples) (fw_samples w) = samples;
  ring_old : (32 ≤ length samples)%nat →
    ∃ A B, fw_samples w = A ++ B ∧ B ++ A = recent samples
           ∧ length A = N.to_nat (N.of_nat (length samples) mod 32);
}.

Lemma recent_short samples : (length samples ≤ 32)%nat → recent samples = samples.
Proof.
  intros. unfold recent, EXECUTION_PROFILE_WINDOW_CAPACITY.
  by rewrite (proj2 (Nat.sub_0_le _ _)) by lia.
Qed.

Lemma recent_snoc samples x :
  (32 ≤ length samples)%nat → recent (samples ++ [x]) = tail (recent samples) ++ [x].
Proof.
  intros H. unfold recent, EXECUTION_PROFILE_WINDOW_CAPACITY. rewrite length_app. simpl.
  replace (length samples + 1 - 32)%nat with (length samples - 32 + 1)%nat by lia.
  rewrite drop_app_le by lia. f_equal. rewrite <-drop_drop. by destruct (drop _ samples).
Qed.

Lemma length_recent samples : length (recent samples) = (length samples `min` 32)%nat.
Proof. unfold recent, EXECUTION_PROFILE_WINDOW_CAPACITY. rewrite length_drop. lia. Qed.

Lemma mod32_succ n : ((n mod 32 + 1) mod 32 = (n + 1) mod 32)%N.
Proof. by rewrite N.Div0.add_mod_idemp_l. Qed.

Lemma ring_step_young samples w x :
  (length samples < 32)%nat → ring_of samples w →
  take (S (length samples)) (<[length samples := x]> (fw_samples w)) = samples ++ [x].
Proof.
  intros Hlt [Hl _ _ Hy _]. rewrite (take_S_r _ _ x).
  - rewrite take_insert_ge by lia. by rewrite Hy.
  - apply list_lookup_insert_eq. lia.
Qed.

Lemma window_record_ring samples w x :
  ring_of samples w → ∃ w', window_record x w = Done w' ∧ ring_of (samples ++ [x]) w'.
Proof.
  intros Hring. pose proof Hring as [Hl Hn Hlen Hy Ho].
  assert (fw_next w < 32)%N as Hlt by (rewrite Hn; apply N.mod_lt; lia).
  unfold window_record, array_set. rewrite decide_True by lia. simpl.
  eexists. split; [reflexivity|].
  assert (length (samples ++ [x]) = S (length samples)) as El by (rewrite length_app; simpl; lia).
  split; simpl; rewrite ?El.
  - by rewrite length_insert.
  - rewrite Hn, Nat2N.inj_succ, <-N.add_1_r. apply mod32_succ.
  - rewrite Hlen. unfold u8_sat_add, u8_max, EXECUTION_PROFILE_WINDOW_CAPACITY. lia.
  - intros Hs. rewrite Hn, N.mod_small, Nat2N.id by lia. by apply ring_step_young; [lia|].
  - intros Hs. destruct (decide (length samples = 31%nat)) as [E31|Hne].
    + exists [], (<[31%nat := x]> (fw_samples w)).
      rewrite Hn, E31. split; [done|]. split; [|done]. rewrite app_nil_r.
      rewrite recent_short by (rewrite El; lia). rewrite <-(ring_step_young samples w x), E31 by (done || lia).
      by rewrite take_ge by (rewrite length_insert; lia).
    + destruct Ho as (A & B & Es & Er & EA); [lia|].
      assert (length (A ++ B) = 32%nat) as Hab by congruence. rewrite length_app in Hab.
      rewrite Hn, <-EA, Es, recent_snoc, <-Er by lia.
      destruct B as [|b B]; [simpl in Hab; rewrite Hn in Hlt; lia|]. simpl in *.
      rewrite insert_app_r_alt, Nat.sub_diag by lia. simpl.
      assert (N.of_nat (S (length samples)) mod 32
              = N.of_nat (length A + 1) mod 32)%N as Emod.
      { rewrite <-Nat.add_1_r, !Nat2N.inj_add, EA, N2Nat.id.
        by rewrite N.Div0.add_mod_idemp_l. }
      rewrite Emod. destruct B as [|b' B].
      * exists [], (A ++ [x]). simpl in *. rewrite app_nil_r.
        assert (length A = 31%nat) as -> by lia. done.
      * exists (A ++ [x]), (b' :: B). simpl in *. rewrite <-app_assoc. split; [done|].
        split; [by rewrite <-app_assoc|]. rewrite length_app. simpl.
        rewrite N.mod_small by lia. lia.
Qed.

Lemma ring_of_default : ring_of [] FixedSampleWindow_default.
Proof. split; simpl; try done; lia. Qed.

Lemma ring_take samples w :
  ring_of samples w → take (N.to_nat (fw_len w)) (fw_samples w) ≡ₚ recent samples.
Proof.
  intros [Hl Hn Hlen Hy Ho]. rewrite Hlen.
  destruct (decide (length samples < 32)%nat) as [Hlt|Hge].
  - rewrite recent_short, N.min_l, Nat2N.id, Hy by lia. done.
  - destruct Ho as (A & B & Es & <- & _); [lia|].
    rewrite N.min_r, Es by lia. rewrite take_ge by (rewrite <-Es; lia). apply Permutation_app_comm.
Qed.

(** ** Quantiles *)

Definition quantile_rank (percentile : N) (len : nat) : nat :=
  N.to_nat (div_ceil (N.min percentile 100 * (N.of_nat len - 1)) 100).

Lemma div_ceil_le a b c : (0 < c → a ≤ c * b → div_ceil a c ≤ b)%N.
Proof.
  intros Hc Hle. unfold div_ceil. case_decide as Hm.
  - apply N.Div0.div_le_upper_bound. lia.
  - assert (a ≠ c * b)%N as Hne.
    { intros ->. apply Hm. rewrite N.mul_comm. apply N.Div0.mod_mul. }
    assert (a / c < b)%N by (apply N.Div0.div_lt_upper_bound; lia). lia.
Qed.

Lemma div_ceil_ge a c : (0 < c → a ≤ c * div_ceil a c)%N.
Proof.
  intros Hc. unfold div_ceil. pose proof (N.div_mod a c ltac:(lia)) as E.
  pose proof (N.mod_lt a c ltac:(lia)). case_decide; nia.
Qed.

Lemma quantile_rank_lt percentile len : (0 < len)%nat → (quantile_rank percentile len < len)%nat.
Proof.
  intros. unfold quantile_rank.
  assert (div_ceil (N.min percentile 100 * (N.of_nat len - 1)) 100 ≤ N.of_nat len - 1)%N; [|lia].
  apply div_ceil_le; [lia|]. nia.
Qed.

Lemma quantile_rank_mono p q len : (p ≤ q)%N → (quantile_rank p len ≤ quantile_rank q len)%nat.
Proof.
  intros. unfold quantile_rank.
  assert (div_ceil (N.min p 100 * (N.of_nat len - 1)) 100
          ≤ div_ceil (N.min q 100 * (N.of_nat len - 1)) 100)%N; [|lia].
  apply div_ceil_le; [lia|]. etrans; [|apply div_ceil_ge; lia]. nia.
Qed.

(** [v] stands at the rank of [percentile] in [l]: at least that many samples and
    one more are not above it, and the rest is not below it. *)
Definition is_quantile (percentile : N) (l : list N) (v : N) : Prop :=
  v ∈ l
  ∧ (quantile_rank percentile (length l) < length (filter (λ x, (x ≤ v)%N) l))%nat
  ∧ (length l - quantile_rank percentile (length l) ≤ length (filter (λ x, (v ≤ x)%N) l))%nat.

Lemma sorted_rank (s : list N) r v :
  StronglySorted (cmp_le N.compare) s → s !! r = Some v →
  (r < length (filter (λ x, (x ≤ v)%N) s))%nat
  ∧ (length s - r ≤ length (filter (λ x, (v ≤ x)%N) s))%nat.
Proof.
  intros Hs Hr. pose proof (lookup_lt_Some _ _ _ Hr) as Hlt.
  assert (length (take r s) = r) as Hlen by (rewrite length_take; lia).
  rewrite <-(take_drop_middle s r v Hr) in Hs |- *.
  apply StronglySorted_app in Hs as (Hab & _ & Hs). inversion_clear Hs as [|?? _ Hv].
  rewrite Forall_forall in Hv. unfold cmp_le in *. setoid_rewrite N.compare_le_iff in Hv.
  setoid_rewrite N.compare_le_iff in Hab. rewrite !filter_app, !length_app. split.
  - rewrite (list_filter_all _ (take r s)) by (intros x Hx; apply Hab; [done|by left]).
    rewrite filter_cons_True by lia. simpl. lia.
  - rewrite (list_filter_all _ (v :: drop (S r) s)); [lia|].
    intros x [->|Hx]%elem_of_cons; [lia|by apply Hv].
Qed.

#[local] Instance N_compare_antisym : AntiSymm (=) (cmp_le N.compare).
Proof. intros x y. unfold cmp_le. rewrite !N.compare_le_iff. lia. Qed.

Lemma sort_N_perm l k : l ≡ₚ k → sort_by N.compare l = sort_by N.compare k.
Proof.
  intros H. apply (StronglySorted_unique (cmp_le N.compare));
    [apply sort_by_sorted, _..|by rewrite !sort_by_Permutation].
Qed.

Lemma window_quantile_exact samples w percentile :
  ring_of samples w → samples ≠ [] →
  ∃ v, window_quantile percentile w = Done (Some v)
    ∧ sort_by N.compare (recent samples) !! quantile_rank percentile (length (recent samples))
      = Some v.
Proof.
  intros Hring Hne. pose proof (ring_take _ _ Hring) as Hp. destruct Hring as [Hl _ Hlen _ _].
  assert (0 < length samples)%nat as Hpos by (destruct samples; simpl; [done|lia]).
  assert (N.to_nat (fw_len w) = length (recent samples)) as En by (rewrite length_recent; lia).
  assert (0 < length (recent samples) ≤ 32)%nat as Hr by (rewrite length_recent; lia).
  unfold window_quantile, window_is_empty. rewrite bool_decide_false by lia.
  unfold EXECUTION_PROFILE_WINDOW_CAPACITY. rewrite decide_False by lia.
  assert (sort_by N.compare (take (N.to_nat (fw_len w)) (fw_samples w))
          = sort_by N.compare (recent samples)) as ->.
  { by apply sort_N_perm. }
  assert (length (sort_by N.compare (recent samples)) = length (recent samples)) as Es
    by (by rewrite sort_by_Permutation).
  assert (quantile_rank percentile (length (recent samples)) < length (recent samples))%nat as Hq
    by (apply quantile_rank_lt; lia).
  destruct (lookup_lt_is_Some_2 (sort_by N.compare (recent samples))
    (quantile_rank percentile (length (recent samples)))) as [v Hv]; [by rewrite Es|].
  exists v. split; [|done]. unfold array_get.
  rewrite lookup_app_l.
  - unfold quantile_rank in Hv. rewrite <-En, N2Nat.id in Hv. by rewrite Hv.
  - rewrite Es. unfold quantile_rank in Hq. rewrite <-En, N2Nat.id in Hq. by rewrite <-En.
Qed.

Lemma quantile_of_rank percentile l v :
  sort_by N.compare l !! quantile_rank percentile (length l) = Some v → is_quantile percentile l v.
Proof.
  intros Hv. pose proof (sorted_rank _ _ _ (sort_by_sorted N.compare l) Hv) as [H1 H2].
  rewrite !sort_by_Permutation in H1. rewrite !sort_by_Permutation in H2.
  split; [|done]. apply list_elem_of_lookup_2 in Hv. by rewrite sort_by_Permutation in Hv.
Qed.

Lemma sorted_lookup_mono (s : list N) i j v w :
  StronglySorted (cmp_le N.compare) s → (i ≤ j)%nat → s !! i = Some v → s !! j = Some w → (v ≤ w)%N.
Proof.
  intros Hs Hij Hi Hj. destruct (decide (i = j)) as [->|Hne]; [simplify_eq; lia|].
  rewrite <-(take_drop_middle s i v Hi) in Hs.
  apply StronglySorted_app in Hs as (_ & _ & Hs). inversion_clear Hs as [|?? _ Hv].
  rewrite Forall_forall in Hv. unfold cmp_le in Hv. setoid_rewrite N.compare_le_iff in Hv.
  apply Hv. apply list_elem_of_lookup_2 with (j - S i)%nat. rewrite lookup_drop.
  by replace (S i + (j - S i))%nat with j by lia.
Qed.

(** ** The histogram *)

(** The bucket of a sample: the number of bounds below it. *)
Definition bucket (sample : N) : nat :=
  length (filter (λ bound, (bound < sample)%N) (fh_upper_bounds_ms FixedHistogram_default)).

Lemma list_find_count (l : list N) s n :
  StronglySorted N.le l → length l = n →
  default n (fst <$> list_find (λ bound, (s ≤ bound)%N) l) = length (filter (λ bound, (bound < s)%N) l).
Proof.
  intros Hs. revert n. induction Hs as [|x l Hl IH Hx]; intros n Hn; simpl; [done|].
  case_decide as Hle; simpl.
  - rewrite filter_cons_False by lia.
    assert (filter (λ bound, (bound < s)%N) l = []) as ->; [|done].
    rewrite Forall_forall in Hx. clear IH Hl Hn.
    induction l as [|y l IH]; [done|]. rewrite filter_cons_False.
    + apply IH. intros z Hz. apply Hx. by right.
    + specialize (Hx y (list_elem_of_here _ _)). lia.
  - rewrite filter_cons_True by lia. simpl in *. rewrite <-(IH (length l) eq_refl).
    destruct (list_find _ l) as [[i y]|]; simpl; [done|]. lia.
Qed.

Record histogram_of (samples : list N) (h : FixedHistogram) : Prop := {
  hist_bounds : fh_upper_bounds_ms h = fh_upper_bounds_ms FixedHistogram_default;
  hist_length : length (fh_counts h) = 17%nat;
  hist_counts : ∀ i, (i < 17)%nat → fh_counts h !! i
    = Some (N.of_nat (length (filter (λ s, bucket s = i) samples)));
  hist_total : fh_total h = N.of_nat (length samples);
}.

Lemma bucket_lt s : (bucket s < 17)%nat.
Proof. unfold bucket. pose proof (length_filter (λ bound, (bound < s)%N) (fh_upper_bounds_ms FixedHistogram_default)). simpl in *. lia. Qed.

Lemma histogram_record_exact samples h x :
  histogram_of samples h → (N.of_nat (length samples) < u64_max)%N →
  ∃ h', histogram_record x h = Done h' ∧ histogram_of (samples ++ [x]) h'.
Proof.
  intros [Hb Hl Hc Ht] Hmax.
  assert (histogram_index h x = bucket x) as Ei.
  { unfold histogram_index. rewrite Hb. apply list_find_count; [|done].
    repeat (constructor; [|repeat constructor; by vm_compute]). constructor. }
  unfold histogram_record, array_get, array_set. rewrite Ei.
  pose proof (bucket_lt x) as Hlt. rewrite Hc by done. simpl. rewrite decide_True by lia. simpl.
  eexists. split; [reflexivity|].
  pose proof (length_filter (λ s, bucket s = bucket x) samples) as Hf.
  split; simpl; [done|by rewrite length_insert| |].
  - intros i Hi. rewrite filter_app, length_app. destruct (decide (bucket x = i)) as [<-|Hne].
    + rewrite list_lookup_insert_eq by lia. rewrite filter_cons_True by done. simpl. f_equal.
      rewrite sat_add_exact; lia.
    + rewrite list_lookup_insert_ne by done. rewrite filter_cons_False by done. simpl.
      rewrite Nat.add_0_r. by apply Hc.
  - rewrite Ht, length_app, sat_add_exact; simpl; lia.
Qed.

Lemma histogram_of_default : histogram_of [] FixedHistogram_default.
Proof.
  split; [done|done| |done]. intros i Hi. simpl.
  change (replicate 17 0%N !! i = Some 0%N). by apply lookup_replicate_2.
Qed.

(** ** The accumulator *)

Definition latencies (samples : list ExecutionSample) : list N := xs_latency_ms <$> samples.

Definition accumulate (samples : list ExecutionSample) (a : ExecutionProfileAccumulator)
    : outcome ExecutionProfileAccumulator := run_all accumulator_record samples a.

Record accumulates (samples : list ExecutionSample) (a : ExecutionProfileAccumulator) : Prop := {
  acc_ring : ring_of (latencies samples) (xa_latency_window a);
  acc_histogram : histogram_of (latencies samples) (xa_latency_histogram a);
  acc_peak : xa_peak_memory_bytes a = foldr N.max 0%N (xs_peak_memory_bytes <$> samples);
  acc_failures : xa_failures a = N.of_nat (length (filter (λ s, xs_succeeded s = false) samples));
  acc_count : xa_sample_count a = N.of_nat (length samples);
}.

Lemma foldr_max_snoc l x : foldr N.max 0%N (l ++ [x]) = N.max (foldr N.max 0%N l) x.
Proof. induction l as [|y l IH]; simpl; [lia|]. rewrite IH. lia. Qed.

Lemma accumulate_exact samples task_type variant_id input_bucket :
  (N.of_nat (length samples) ≤ u64_max)%N →
  ∃ a, accumulate samples (accumulator_new task_type variant_id input_bucket) = Done a
       ∧ accumulates samples a.
Proof.
  unfold accumulate. induction samples as [|s samples IH] using rev_ind; intros Hmax.
  { eexists. split; [reflexivity|].
    split; [apply ring_of_default|apply histogram_of_default|done..]. }
  rewrite length_app in Hmax. simpl in Hmax. destruct IH as (a & Ea & [Hr Hh Hp Hf Hc]); [lia|].
  rewrite run_all_snoc, Ea. simpl. unfold accumulator_record.
  destruct (window_record_ring _ _ (xs_latency_ms s) Hr) as (w & -> & Hw). simpl.
  destruct (histogram_record_exact _ _ (xs_latency_ms s) Hh) as (h & -> & Hh').
  { unfold latencies. rewrite length_fmap. lia. }
  simpl. eexists. split; [reflexivity|].
  pose proof (length_filter (λ s, xs_succeeded s = false) samples) as Hle.
  split; simpl; unfold latencies; rewrite ?fmap_app; try done.
  - csimpl. by rewrite foldr_max_snoc, Hp.
  - rewrite filter_app, length_app. destruct (xs_succeeded s) eqn:Es; simpl.
    + rewrite filter_cons_False by congruence. simpl. rewrite Nat.add_0_r. done.
    + rewrite filter_cons_True by done. simpl. rewrite Hf, sat_add_exact; lia.
  - rewrite Hc, length_app, sat_add_exact; simpl; lia.
Qed.

(** ** Properties *)

(** C39: the selection of a variant is optimal: it answers with a variant of the task
    type whose requirements the capabilities satisfy, the first in the order of
    preference, quality and id among those of the requested quality, or, when there
    is none and the policy lets it degrade, among those of the minimum quality; it
    reports a missing quality exactly when it had to degrade, and fails exactly when
    there is no such variant. *)
Theorem selection_is_optimal (catalog : ExecutionVariantCatalog) (task_type : string)
    (capabilities : CapabilitySet) (policy : ExecutionPolicy) :
  match select_local catalog task_type capabilities policy with
  | Ok s =>
      choice (xc_variants catalog) task_type capabilities policy (vs_variant s)
      ∧ xo_executed_variant_id (vs_outcome s) = Some (xv_variant_id (vs_variant s))
      ∧ xo_quality_level (vs_outcome s) = xv_quality_level (vs_variant s)
      ∧ ("requested_quality_unavailable" ∈ xo_degradation_reasons (vs_outcome s)
         ↔ ∀ v, ¬ eligible (xc_variants catalog) task_type capabilities
                    (qp_requested_level (xp_quality policy)) v)
  | Err e =>
      err_code e = ERR_EXECUTION_NO_VARIANT
      ∧ (∀ v, ¬ choice (xc_variants catalog) task_type capabilities policy v)
  end.
Proof.
  pose proof (select_local_cases catalog task_type capabilities policy) as H.
  destruct (select_local _ _ _ _) as [s|e]; [|done].
  destruct H as (Hc & He & Hq & Hr). split; [done|]. split; [done|]. split; [done|].
  rewrite Hr. destruct Hc as [[Hel Hmin]|(Hno & _ & [(Hin & Ht & Hs & _) _])].
  - split; [|intros Hno; by destruct (Hno _ Hel)]. destruct Hel as (_ & _ & _ & Hle). lia.
  - split; [done|]. intros _.
    destruct (decide (qp_requested_level (xp_quality policy) ≤ xv_quality_level (vs_variant s))%N)
      as [Hle|]; [|lia]. by destruct (Hno (vs_variant s)).
Qed.

(** The selection does not depend on the order of the catalog: permuting a
    catalog of variants with distinct ids selects the same variant, or fails on
    both. *)
Theorem selection_ignores_catalog_order (c1 c2 : ExecutionVariantCatalog) (task_type : string)
    (capabilities : CapabilitySet) (policy : ExecutionPolicy) :
  xc_variants c1 ≡ₚ xc_variants c2 → NoDup (xv_variant_id <$> xc_variants c1) →
  match select_local c1 task_type capabilities policy,
        select_local c2 task_type capabilities policy with
  | Ok s1, Ok s2 => vs_variant s1 = vs_variant s2
  | Err _, Err _ => True
  | _, _ => False
  end.
Proof.
  intros Hp Hnd.
  assert (∀ a b, a ∈ xc_variants c1 → b ∈ xc_variants c1 →
    xv_variant_id a = xv_variant_id b → a = b) as Hid.
  { intros a b [i Hi]%list_elem_of_lookup [j Hj]%list_elem_of_lookup Hab.
    assert (i = j) as ->; [|congruence].
    eapply (NoDup_lookup (xv_variant_id <$> xc_variants c1)); [done| |].
    - by rewrite list_lookup_fmap, Hi.
    - rewrite list_lookup_fmap, Hj. simpl. by rewrite Hab. }
  assert (∀ level v, eligible (xc_variants c2) task_type capabilities level v
    ↔ eligible (xc_variants c1) task_type capabilities level v) as Hel.
  { intros level v. unfold eligible. by rewrite Hp. }
  assert (∀ v, choice (xc_variants c2) task_type capabilities policy v
    ↔ choice (xc_variants c1) task_type capabilities policy v) as Hch.
  { intros v. unfold choice, first_choice. by setoid_rewrite Hel. }
  pose proof (select_local_cases c1 task_type capabilities policy) as H1.
  pose proof (select_local_cases c2 task_type capabilities policy) as H2.
  destruct (select_local c1 _ _ _) as [s1|e1], (select_local c2 _ _ _) as [s2|e2]; [| | |done].
  - destruct H1 as [H1 _], H2 as [H2 _]. apply Hch in H2.
    destruct H1 as [H1|(Hno1 & _ & H1)], H2 as [H2|(Hno2 & _ & H2)].
    + by eapply first_choice_unique.
    + by destruct H1 as [He _]; destruct (Hno2 _ He).
    + by destruct H2 as [He _]; destruct (Hno1 _ He).
    + by eapply first_choice_unique.
  - destruct H1 as [H1 _]. apply Hch in H1. by destruct H2 as [_ H2]; apply (H2 (vs_variant s1)).
  - destruct H2 as [H2 _]. apply Hch in H2. by destruct H1 as [_ H1]; apply (H1 (vs_variant s2)).
Qed.

(** C40: profiles are exact and never panic: after any samples the accumulator holds
    their number, the number of failures, the peak memory and, in each bucket of the
    histogram, the number of latencies between its bounds; the snapshot's
    percentiles are the percentiles of the last 32 latencies, in order. *)
Theorem profile_is_exact (samples : list ExecutionSample) (task_type variant_id input_bucket : string) :
  (N.of_nat (length samples) ≤ u64_max)%N → samples ≠ [] →
  ∃ a p, accumulate samples (accumulator_new task_type variant_id input_bucket) = Done a
    ∧ snapshot a = Done p
    ∧ pr_sample_count p = N.of_nat (length samples)
    ∧ xa_failures a = N.of_nat (length (filter (λ s, xs_succeeded s = false) samples))
    ∧ pr_peak_memory_bytes p = foldr N.max 0%N (xs_peak_memory_bytes <$> samples)
    ∧ (∀ i, (i < 17)%nat → fh_counts (xa_latency_histogram a) !! i
       = Some (N.of_nat (length (filter (λ s, bucket s = i) (latencies samples)))))
    ∧ is_quantile 50 (recent (latencies samples)) (pr_p50_ms p)
    ∧ is_quantile 95 (recent (latencies samples)) (pr_p95_ms p)
    ∧ is_quantile 99 (recent (latencies samples)) (pr_p99_ms p)
    ∧ (pr_p50_ms p ≤ pr_p95_ms p ≤ pr_p99_ms p)%N.
Proof.
  intros Hmax Hne. destruct (accumulate_exact samples task_type variant_id input_bucket Hmax)
    as (a & Ha & [Hr Hh Hp Hf Hc]).
  assert (latencies samples ≠ []) as Hl by (unfold latencies; by destruct samples).
  destruct (window_quantile_exact _ _ 50 Hr Hl) as (v50 & E50 & Q50).
  destruct (window_quantile_exact _ _ 95 Hr Hl) as (v95 & E95 & Q95).
  destruct (window_quantile_exact _ _ 99 Hr Hl) as (v99 & E99 & Q99).
  eexists a, _. split; [done|]. unfold snapshot. rewrite E50, E95, E99. simpl.
  split; [reflexivity|]. simpl. do 3 (split; [done|]). split; [by destruct Hh|].
  split; [by apply quantile_of_rank|]. split; [by apply quantile_of_rank|].
  split; [by apply quantile_of_rank|].
  split; (eapply sorted_lookup_mono; [by apply sort_by_sorted, _| |eassumption|eassumption]);
    apply quantile_rank_mono; lia.
Qed.

(** ** Witnesses *)

Definition no_requirements : RequirementSet := mkRequirementSet ∅ ∅ ∅ ∅ ∅ None ∅ ∅ ∅.
Definition no_capabilities : CapabilitySet := mkCapabilitySet ∅ ∅ ∅ ∅ ∅ None ∅ ∅ ∅.
Definition sample_variant (id : string) (quality preference : N) : ExecutionVariant :=
  mkExecutionVariant id "infer" "runner" "plugin" "1" no_requirements quality preference.
Definition sample_policy : ExecutionPolicy :=
  {| xp_latency_class := LatencyBatch; xp_deadline := mkDeadlinePolicy None None;
     xp_failure_mode := FailureFallback; xp_quality := mkQualityPolicy 100 50;
     xp_cache := CacheDisabled; xp_partial_results := PartialReject;
     xp_no_placement := UseFallback;
     xp_scheduling := mkLocalSchedulingHint CriticalityNormal 0 false false |}.

Lemma selection_ignores_catalog_order_witness :
  match select_local (mkExecutionVariantCatalog [sample_variant "a" 60 2; sample_variant "b" 60 1])
          "infer" no_capabilities sample_policy,
        select_local (mkExecutionVariantCatalog [sample_variant "b" 60 1; sample_variant "a" 60 2])
          "infer" no_capabilities sample_policy with
  | Ok s1, Ok s2 => vs_variant s1 = vs_variant s2
  | Err _, Err _ => True
  | _, _ => False
  end.
Proof.
  apply (selection_ignores_catalog_order
    (mkExecutionVariantCatalog [sample_variant "a" 60 2; sample_variant "b" 60 1])
    (mkExecutionVariantCatalog [sample_variant "b" 60 1; sample_variant "a" 60 2])).
  - apply Permutation_swap.
  - apply (bool_decide_unpack _). by vm_compute.
Defined.

(** The choice is the preferred one, at a degraded quality. *)
Example sample_selection :
  match select_local (mkExecutionVariantCatalog [sample_variant "a" 60 2; sample_variant "b" 60 1])
          "infer" no_capabilities sample_policy with
  | Ok s => xv_variant_id (vs_variant s) = "b"
            ∧ xo_degradation_reasons (vs_outcome s) = ["requested_quality_unavailable"]
  | Err _ => False
  end.
Proof. by vm_compute. Qed.

Definition sample_samples : list ExecutionSample :=
  (λ n, mkExecutionSample n (f64_of_u64 n) (n * 1024) (bool_decide (n ≠ 3%N)))
    <$> [5; 3; 9; 1; 40000]%N.

Lemma profile_is_exact_witness :
  ∃ a p, accumulate sample_samples (accumulator_new "infer" "cpu" "small") = Done a
    ∧ snapshot a = Done p ∧ pr_sample_count p = 5%N ∧ xa_failures a = 1%N
    ∧ is_quantile 50 (recent (latencies sample_samples)) (pr_p50_ms p).
Proof.
  destruct (profile_is_exact sample_samples "infer" "cpu" "small")
    as (a & p & Ha & Hs & Hn & Hf & _ & _ & H50 & _); [by vm_compute|done|].
  exists a, p. split; [exact Ha|]. split; [exact Hs|]. split; [exact Hn|].
  split; [exact Hf|exact H50].
Defined.
