(* ===== verification/Plugins.v ===== *)
(** * Plugins: manifests, bindings and load plans

    Models the records of [contracts/src/plugin.rs] and [contracts/src/extension.rs]
    that a load plan is made of, the observability profile of
    [contracts/src/observability.rs] and the resource type descriptors of
    [contracts/src/resource/core.rs]. *)
From S2P Require Import Prelude Floats Contracts StateStore Resources Logs.

(** ** Artifacts, deployments and policies *)

Inductive ArtifactType : Type := ArtAbi | ArtProcess | ArtWasm | ArtPython | ArtNative.

Inductive PluginDeploymentKind : Type :=
| DeployBuiltin | DeployAbi | DeployWasm | DeployProcess | DeployPython.

Definition default_for_artifact (artifact_type : ArtifactType) : PluginDeploymentKind :=
  match artifact_type with
  | ArtNative => DeployBuiltin
  | ArtAbi => DeployAbi
  | ArtWasm => DeployWasm
  | ArtProcess => DeployProcess
  | ArtPython => DeployPython
  end.

Definition is_compatible_with_artifact (deployment : PluginDeploymentKind)
    (artifact_type : ArtifactType) : bool :=
  match deployment, artifact_type with
  | DeployBuiltin, ArtNative | DeployAbi, ArtAbi | DeployWasm, ArtWasm
  | DeployProcess, ArtProcess | DeployPython, ArtPython => true
  | _, _ => false
  end.

Inductive RuntimeProfileMode : Type := FullDev | ExtensibleRuntime | BuiltinOnly | LockedBuiltin.

Record CompanionArtifact : Type := mkCompanionArtifact {
  ca_path : string;
  ca_sha256 : string;
  ca_executable : bool;
  ca_role : option string;
}.

Record PluginArtifact : Type := mkPluginArtifact {
  pa_artifact_type : ArtifactType;
  pa_path : string;
  pa_sha256 : string;
  pa_companion_artifacts : list CompanionArtifact;
}.

Record PermissionGrant : Type := mkPermissionGrant {
  pg_effects : list string;
  pg_resources : list string;
}.

Record LifecyclePolicy : Type := mkLifecyclePolicy {
  lp_reload_policy : string;
  lp_unload_timeout_ms : N;
  lp_supports_cancel : bool;
  lp_supports_dispose : bool;
  lp_supports_snapshot : bool;
}.

Inductive ExtensionProjection : Type := ProjUniversal | ProjOptional | ProjRequired.

(** ** Host extensions *)

Inductive HostExtensionKind : Type :=
| ExtPluginBackend | ExtBridge | ExtCodec | ExtTraceSink | ExtSchedulerPolicy
| ExtPermissionPolicy | ExtResourcePlanGateway.

Record HostExtensionDescriptor : Type := mkHostExtensionDescriptor {
  he_extension_id : string;
  he_kind : HostExtensionKind;
  he_supported_deployments : list PluginDeploymentKind;
  he_reload_policy : string;
  he_drain_required : bool;
}.

Record PluginBackendDescriptor : Type := mkPluginBackendDescriptor {
  pb_backend_id : string;
  pb_deployment_kind : PluginDeploymentKind;
  pb_task_client_protocol : string;
  pb_resource_client_protocol : string;
  pb_codec_id : option string;
  pb_bridge_id : option string;
}.

Record CodecDescriptor : Type := mkCodecDescriptor {
  cd_codec_id : string;
  cd_media_type : string;
  cd_version : string;
  cd_connection_scoped : bool;
}.

Record BridgeDescriptor : Type := mkBridgeDescriptor {
  bd_bridge_id : string;
  bd_deployment_kind : PluginDeploymentKind;
  bd_codec_ids : list string;
  bd_drain_policy : string;
}.

Record SchedulerPolicyDescriptor : Type := mkSchedulerPolicyDescriptor {
  spd_policy_id : string;
  spd_version : string;
  spd_decision_scope : string;
}.

Record WorkflowDescriptor : Type := mkWorkflowDescriptor {
  wd_workflow_id : string;
  wd_state_resource_kind : string;
  wd_runner_protocol_id : ProtocolId;
  wd_reload_policy : string;
}.

(** ** Resource types *)

Inductive ResourceProviderReloadPolicy : Type :=
| NoLiveResources | CompatibleWithoutLeases | DrainActiveLeases | RestartRequired.

Record ResourceProviderCompatibility : Type := mkResourceProviderCompatibility {
  rpc_schema_version : string;
  rpc_required_operations : list string;
  rpc_preserves_resource_type_id : bool;
  rpc_accepts_older_generations : bool;
  rpc_lease_drain_required : bool;
}.

Record ResourceTypeDescriptor : Type := mkResourceTypeDescriptor {
  rt_kind_id : string;
  rt_semantic : ResourceSemantic;
  rt_schema : string;
  rt_provider_id : string;
  rt_operations : list string;
  rt_reload_policy : ResourceProviderReloadPolicy;
  rt_compatibility : ResourceProviderCompatibility;
}.

(** ** Requirements on surfaces *)

Inductive RequirementKind : Type := ReqRequired | ReqOptional.
Inductive RequirementBinding : Type := BindStatic | Rebindable.

Record SurfaceRequirement : Type := mkSurfaceRequirement {
  sr_kind : ContractSurfaceKind;
  sr_surface_id : SurfaceId;
  sr_version : option string;
  sr_requirement : RequirementKind;
  sr_binding : RequirementBinding;
}.

Definition SurfaceRequirement_new (kind : ContractSurfaceKind) (surface_id : SurfaceId)
    : SurfaceRequirement :=
  mkSurfaceRequirement kind surface_id None ReqRequired BindStatic.

Definition capability_prefix (kind : ContractSurfaceKind) : string :=
  match kind with
  | KindRunner => "runner" | KindTaskProtocol => "task_protocol" | KindSchema => "schema"
  | KindResourceSchema => "resource_schema" | KindResourceProvider => "resource_provider"
  | KindHostExtension => "host_extension" | KindPluginBackend => "plugin_backend"
  | KindCodec => "codec" | KindBridge => "bridge" | KindSchedulerPolicy => "scheduler_policy"
  | KindWorkflow => "workflow" | KindEffect => "effect" | KindStream => "stream"
  | KindSubscription => "subscription" | KindTimer => "timer" | KindProtocol => "protocol"
  | KindHandlerBinding => "handler_binding" | KindPluginExtension => "plugin_extension"
  | KindStateSchema => "state_schema" | KindLifecycle => "lifecycle"
  | KindPermission => "permission" | KindCapability => "capability" | KindService => "service"
  end.

Definition capability_key (r : SurfaceRequirement) : string :=
  capability_prefix (sr_kind r) +:+ ":" +:+ sr_surface_id r.

Definition display_key (r : SurfaceRequirement) : string :=
  match sr_version r with
  | Some version => capability_key r +:+ "@" +:+ version
  | None => capability_key r
  end.

(** ** Manifests and plans *)

Record ObservabilityProfile : Type := mkObservabilityProfile {
  ob_events : ObservabilityOutletProfile;
  ob_traces : ObservabilityOutletProfile;
  ob_detailed_scheduler_decisions : bool;
  ob_dispatch_spans : bool;
  ob_state_history : StateHistoryProfile;
}.

Definition ObservabilityProfile_default : ObservabilityProfile :=
  {| ob_events := mkOutletProfile DEFAULT_EVENT_CAPACITY DropNew;
     ob_traces := mkOutletProfile DEFAULT_TRACE_CAPACITY DropOldest;
     ob_detailed_scheduler_decisions := false; ob_dispatch_spans := false;
     ob_state_history := StateHistoryProfile_default |}.

Record HandlerBinding : Type := mkHandlerBinding {
  hb_binding_id : BindingId;
  hb_plugin_id : PluginId;
  hb_protocol_id : ProtocolId;
  hb_target_protocol_id : ProtocolId;
  hb_target_runner_hint : option string;
  hb_pool_id : string;
  hb_priority : Z;
  hb_policy : string;
  hb_metadata : gmap string ScalarValue;
}.

Record CapabilityProviderSelection : Type := mkCapabilityProviderSelection {
  cps_capability : string;
  cps_provider_plugin_id : PluginId;
  cps_provider_version : option string;
  cps_surface_id : SurfaceId;
  cps_reason : string;
}.

Record PermissionAuditEntry : Type := mkPermissionAuditEntry {
  pae_plugin_id : PluginId;
  pae_permission_kind : string;
  pae_permission : string;
  pae_granted : bool;
  pae_provider_capability : option string;
  pae_reason : string;
}.

Record RuntimeCapabilityGraph : Type := mkRuntimeCapabilityGraph {
  cg_profile_mode : RuntimeProfileMode;
  cg_provided_capabilities : list string;
  cg_required_capabilities : list string;
  cg_active_capabilities : list string;
  cg_active_capability_providers : list CapabilityProviderSelection;
  cg_active_plugin_extensions : list string;
  cg_active_resource_providers : list string;
  cg_active_host_extensions : list string;
  cg_active_plugin_backends : list string;
  cg_active_codecs : list string;
  cg_active_bridges : list string;
  cg_active_scheduler_policies : list string;
  cg_active_workflows : list string;
  cg_permission_audit : list PermissionAuditEntry;
}.

Inductive SurfaceCompatibility : Type :=
| CompatIdentical | CompatAdditive | CompatDeprecated | CompatRemoved | CompatBreaking.

#[global] Instance SurfaceCompatibility_eq_dec : EqDecision SurfaceCompatibility.
Proof. solve_decision. Defined.

Section manifests.
Context {serde : Serde}.

Record PluginExtensionDescriptor : Type := mkPluginExtensionDescriptor {
  pe_extension_id : string;
  pe_version : N;
  pe_projection : ExtensionProjection;
  pe_payload : Value;
}.

Record ProtocolDescriptor : Type := mkProtocolDescriptor {
  prd_protocol_id : ProtocolId;
  prd_version : string;
  prd_input_schema : Value;
  prd_output_schema : Value;
  prd_error_schema : Value;
  prd_codec : string;
  prd_compatibility : string;
}.

Record PluginProvides : Type := mkPluginProvides {
  pv_capabilities : list string;
  pv_services : list string;
  pv_extensions : list PluginExtensionDescriptor;
  pv_runners : list RunnerDescriptor;
  pv_protocols : list ProtocolDescriptor;
  pv_protocol_classes : gmap ProtocolId ProtocolClass;
  pv_handler_bindings : list HandlerBinding;
  pv_resource_schemas : list string;
  pv_resource_providers : list string;
  pv_resource_types : list ResourceTypeDescriptor;
  pv_effects : list string;
  pv_streams : list string;
  pv_subscriptions : list string;
  pv_timers : list string;
  pv_state_schemas : list string;
  pv_host_extensions : list HostExtensionDescriptor;
  pv_plugin_backends : list PluginBackendDescriptor;
  pv_codecs : list CodecDescriptor;
  pv_bridges : list BridgeDescriptor;
  pv_scheduler_policies : list SchedulerPolicyDescriptor;
  pv_workflows : list WorkflowDescriptor;
}.

Definition PluginProvides_default : PluginProvides :=
  mkPluginProvides [] [] [] [] [] ∅ [] [] [] [] [] [] [] [] [] [] [] [] [] [] [].

Record PluginManifest : Type := mkPluginManifest {
  pm_plugin_id : PluginId;
  pm_version : string;
  pm_api_version : string;
  pm_artifact : PluginArtifact;
  pm_provides : PluginProvides;
  pm_requires : list SurfaceRequirement;
  pm_permissions : PermissionGrant;
  pm_lifecycle : LifecyclePolicy;
  pm_metadata : gmap string ScalarValue;
}.

Record PluginBusinessSurface : Type := mkPluginBusinessSurface {
  pbs_plugin_id : PluginId;
  pbs_api_version : string;
  pbs_provides : PluginProvides;
  pbs_requires : list SurfaceRequirement;
  pbs_permissions : PermissionGrant;
}.

Definition business_surface (m : PluginManifest) : PluginBusinessSurface :=
  let p := pm_provides m in
  {| pbs_plugin_id := pm_plugin_id m;
     pbs_api_version := pm_api_version m;
     pbs_provides :=
       {| pv_capabilities := pv_capabilities p; pv_services := pv_services p;
          pv_extensions := pv_extensions p; pv_runners := pv_runners p;
          pv_protocols := pv_protocols p; pv_protocol_classes := pv_protocol_classes p;
          pv_handler_bindings := pv_handler_bindings p;
          pv_resource_schemas := pv_resource_schemas p;
          pv_resource_providers := pv_resource_providers p;
          pv_resource_types := pv_resource_types p; pv_effects := pv_effects p;
          pv_streams := pv_streams p; pv_subscriptions := pv_subscriptions p;
          pv_timers := pv_timers p; pv_state_schemas := pv_state_schemas p;
          pv_host_extensions := []; pv_plugin_backends := []; pv_codecs := [];
          pv_bridges := []; pv_scheduler_policies := pv_scheduler_policies p;
          pv_workflows := pv_workflows p |};
     pbs_requires := pm_requires m;
     pbs_permissions := pm_permissions m |}.

Record RuntimeLoadPlan : Type := mkRuntimeLoadPlan {
  plan_lock_version : N;
  plan_core_api_version : string;
  plan_profile_id : string;
  plan_profile_hash : string;
  plan_registry_generation : N;
  plan_plugins : list PluginManifest;
  plan_load_order : list PluginId;
  plan_runner_bindings : gmap string string;
  plan_plugin_deployments : gmap PluginId PluginDeploymentKind;
  plan_observability : ObservabilityProfile;
  plan_capability_graph : RuntimeCapabilityGraph;
  plan_contract_surfaces : list ContractSurface;
}.

(** Assignments to [load_plan.observability] and [load_plan.plugins]. *)
Definition set_plan_observability (v : ObservabilityProfile) (p : RuntimeLoadPlan) : RuntimeLoadPlan :=
  mkRuntimeLoadPlan (plan_lock_version p) (plan_core_api_version p) (plan_profile_id p)
    (plan_profile_hash p) (plan_registry_generation p) (plan_plugins p) (plan_load_order p)
    (plan_runner_bindings p) (plan_plugin_deployments p) v (plan_capability_graph p)
    (plan_contract_surfaces p).
Definition set_plan_plugins (v : list PluginManifest) (p : RuntimeLoadPlan) : RuntimeLoadPlan :=
  mkRuntimeLoadPlan (plan_lock_version p) (plan_core_api_version p) (plan_profile_id p)
    (plan_profile_hash p) (plan_registry_generation p) v (plan_load_order p)
    (plan_runner_bindings p) (plan_plugin_deployments p) (plan_observability p)
    (plan_capability_graph p) (plan_contract_surfaces p).

End manifests.
