(* ===== verification/Batches.v ===== *)
(** * Batches: work handed to runners and what they return

    Models [contracts/src/batch/*.rs] and the invocation half of
    [contracts/src/runner.rs]: batch entries, payloads, resource plans, runner
    contexts, results and completions.  Decoding of typed values from payloads is
    the class [Decode], a parameter. *)
From S2P Require Import Prelude Floats Contracts StateStore Resources.

(** ** Resource plans *)

Record ResourceReadView : Type := mkResourceReadView {
  rv_ref_id : RefId;
  rv_requirement_indices : list nat;
}.

Record ResourceWriteLock : Type := mkResourceWriteLock {
  wl_ref_id : RefId;
  wl_requirement_indices : list nat;
}.

Record EffectPrecondition : Type := mkEffectPrecondition {
  epc_ref_id : RefId;
  epc_expected_version : N;
}.

Inductive RunnerStatus : Type :=
| StatusCompleted | StatusWaiting | StatusBlocked | StatusContinue | StatusFailed
| StatusCancelled.

#[global] Instance RunnerStatus_eq_dec : EqDecision RunnerStatus.
Proof. solve_decision. Defined.

Definition PayloadLayout_as_str (layout : PayloadLayout) : string :=
  match layout with
  | Row => "row"
  | Columnar => "columnar"
  | BinaryPacked => "binary_packed"
  | ResourceBacked => "resource_backed"
  end.

Record BinaryPackedPayload : Type := mkBinaryPackedPayload {
  bp_encoding : string;
  bp_bytes : list Byte.byte;
  bp_row_count : N;
}.

Record ResourceSlice : Type := mkResourceSlice {
  rsl_resource : ResourceRef;
  rsl_offset : N;
  rsl_length : option N;
}.

Record BatchEntry : Type := mkBatchEntry {
  be_entry_id : string;
  be_task_id : TaskId;
  be_trace_id : option TraceId;
  be_parent_id : option string;
  be_payload_index : nat;
  be_resource_requirement_indices : list nat;
  be_cancel_index : option nat;
  be_deadline_tick : option N;
  be_priority : Z;
  be_lane : DispatchLane;
  be_ordering : OrderingRequirement;
}.

Record WorkSet : Type := mkWorkSet {
  ws_tick_id : string;
  ws_batch_key : string;
  ws_entries : list BatchEntry;
  ws_resource_requirements : list ResourceRequirement;
}.

Record RunnerContext : Type := mkRunnerContext {
  rx_registry_generation : N;
  rx_current_step : N;
  rx_tick_id : string;
  rx_batch_id : string;
  rx_executor_id : ExecutorId;
  rx_task_lease_ids : list TaskLeaseId;
  rx_entry_count : nat;
  rx_invocation_id : string;
  rx_cancel_token : string;
  rx_deadline_tick : option N;
  rx_deadline_after_ms : option N;
  rx_cancel_requested : bool;
}.

Definition RunnerContext_new (registry_generation current_step : N) (executor_id : ExecutorId)
    (task_lease_ids : list TaskLeaseId) (invocation_id : string) : RunnerContext :=
  {| rx_registry_generation := registry_generation; rx_current_step := current_step;
     rx_tick_id := "tick-" +:+ pretty current_step; rx_batch_id := invocation_id;
     rx_executor_id := executor_id; rx_task_lease_ids := task_lease_ids;
     rx_entry_count := length task_lease_ids; rx_invocation_id := invocation_id;
     rx_cancel_token := invocation_id; rx_deadline_tick := None;
     rx_deadline_after_ms := None; rx_cancel_requested := false |}.

Definition with_batch (batch_id : string) (entry_count : nat) (c : RunnerContext) : RunnerContext :=
  mkRunnerContext (rx_registry_generation c) (rx_current_step c) (rx_tick_id c) batch_id
    (rx_executor_id c) (rx_task_lease_ids c) entry_count (rx_invocation_id c)
    (rx_cancel_token c) (rx_deadline_tick c) (rx_deadline_after_ms c) (rx_cancel_requested c).

Section batches.
Context {serde : Serde}.

Record DeferredResourceOp : Type := mkDeferredResourceOp {
  dro_entry_id : string;
  dro_ref_id : RefId;
  dro_operation : string;
  dro_payload : Value;
}.

Record WorkResourcePlan : Type := mkWorkResourcePlan {
  wrp_read_views : list ResourceReadView;
  wrp_write_locks : list ResourceWriteLock;
  wrp_parallel_groups : list (list string);
  wrp_serial_groups : list (list string);
  wrp_parallelism_limit : N;
  wrp_version_checks : list VersionExpectation;
  wrp_deferred_writes : list DeferredResourceOp;
  wrp_conflict_entries : list string;
}.

Definition WorkResourcePlan_empty : WorkResourcePlan := mkWorkResourcePlan [] [] [] [] 1 [] [] [].

(** ** Payloads *)

Record ColumnPayload : Type := mkColumnPayload { col_name : string; col_values : list Value }.

Inductive BatchPayload : Type :=
| BatchLocal (tasks : list Task)
| BatchRow (rows : list Value)
| BatchColumnar (columns : list ColumnPayload) (row_count : N)
| BatchBinaryPacked (payload : BinaryPackedPayload)
| BatchResourceBacked (slices : list ResourceSlice).

Definition payload_layout (p : BatchPayload) : PayloadLayout :=
  match p with
  | BatchLocal _ | BatchRow _ => Row
  | BatchColumnar _ _ => Columnar
  | BatchBinaryPacked _ => BinaryPacked
  | BatchResourceBacked _ => ResourceBacked
  end.

Definition payload_row_count (p : BatchPayload) : N :=
  match p with
  | BatchLocal tasks => N.of_nat (length tasks)
  | BatchRow rows => N.of_nat (length rows)
  | BatchColumnar _ row_count => row_count
  | BatchBinaryPacked payload => bp_row_count payload
  | BatchResourceBacked slices => N.of_nat (length slices)
  end.

Definition payload_error (route : string) : RuntimeError :=
  RuntimeError_new ERR_TASK_CLAIM_CONFLICT "runtime.batch_payload" route.

(** ** Batches *)

Record TaskBatch : Type := mkTaskBatch {
  tb_batch_id : string;
  tb_tick_id : option string;
  tb_tasks : list Task;
  tb_resource_plan : option WorkResourcePlan;
}.

Definition TaskBatch_one (batch_id : string) (task : Task) : TaskBatch :=
  mkTaskBatch batch_id None [task] None.

Record WorkBatch : Type := mkWorkBatch {
  wb_batch_id : string;
  wb_tick_id : string;
  wb_batch_key : string;
  wb_entries : list BatchEntry;
  wb_payload : BatchPayload;
  wb_resource_plan : WorkResourcePlan;
  wb_task_leases : list TaskLease;
}.

(** ** Results *)

Record DomainEvent : Type := mkDomainEvent {
  de_event_id : string;
  de_kind : string;
  de_payload : Value;
}.

Record EffectRequest : Type := mkEffectRequest {
  er_effect_id : string;
  er_kind : string;
  er_payload : Value;
  er_preconditions : list EffectPrecondition;
  er_idempotency_key : option string;
}.

Record RunnerResult : Type := mkRunnerResult {
  rr_task_id : TaskId;
  rr_output : option Value;
  rr_deltas : list StateDelta;
  rr_events : list DomainEvent;
  rr_tasks : list Task;
  rr_effects : list EffectRequest;
  rr_values : list ValueRef;
  rr_resources : list ResourceRef;
  rr_task_await : option TaskAwait;
  rr_status : RunnerStatus;
}.

Definition RunnerResult_completed (task_id : TaskId) : RunnerResult :=
  mkRunnerResult task_id None [] [] [] [] [] [] None StatusCompleted.

Record EntryCompletion : Type := mkEntryCompletion {
  ec_entry_id : string;
  ec_task_id : TaskId;
  ec_result : option RunnerResult;
  ec_error : option RuntimeError;
}.

Record CompletionBatch : Type := mkCompletionBatch {
  cb_batch_id : string;
  cb_tick_id : string;
  cb_results : list EntryCompletion;
  cb_metadata : list (string * ScalarValue);
}.

Definition CompletionBatch_from_results (batch : WorkBatch) (results : list EntryCompletion)
    : CompletionBatch :=
  mkCompletionBatch (wb_batch_id batch) (wb_tick_id batch) results [].

Definition CompletionBatch_from_error (batch : WorkBatch) (error : RuntimeError) : CompletionBatch :=
  CompletionBatch_from_results batch
    ((λ entry, mkEntryCompletion (be_entry_id entry) (be_task_id entry) None (Some error))
       <$> wb_entries batch).

(** ** Decoding, as a parameter

    [local_*] stores a typed value as the body of a payload ([TaskPayload::from_local]),
    [downcast_*] reads it back when the body has that type, [deserialize_*] reads it
    from JSON, and the two remaining functions are [serde_json::to_value] on an effect
    request, which holds strings, numbers and JSON values and always serializes (the
    [expect] behind it is not reached), and [Value::to_string]. *)
Class Decode := {
  deserialize_task : Value → result Task string;
  local_delta : StateDelta → Any;
  downcast_delta : Any → option StateDelta;
  deserialize_delta : Value → result StateDelta string;
  local_event : DomainEvent → Any;
  downcast_event : Any → option DomainEvent;
  deserialize_event : Value → result DomainEvent string;
  downcast_rollback : Any → option StateRollback;
  deserialize_rollback : Value → result StateRollback string;
  effect_to_value : EffectRequest → Value;
  value_to_string : Value → string;
}.

(** [as_value]: the JSON of a payload; a local body that does not serialize panics. *)
Definition as_value (p : TaskPayload) : outcome Value :=
  match p with
  | PayloadJson value => Done value
  | PayloadLocal local =>
      match (try_materialize_json local).1 with
      | Ok v => Done v
      | Err _ => Panic "local task payload must serialize for wire form"
      end
  end.

(** [decode]: the typed body when it has the type asked for, else its JSON. *)
Definition decode {T} (downcast : Any → option T) (deserialize : Value → result T string)
    (p : TaskPayload) : outcome (result T string) :=
  match (match p with PayloadLocal local => downcast (lp_body local) | PayloadJson _ => None end) with
  | Some t => Done (Ok t)
  | None => v ← as_value p; Done (deserialize v)
  end.

Section decoding.
Context {dec : Decode}.

Definition row_task (index : nat) (value : Value) : result Task RuntimeError :=
  match deserialize_task value with
  | Ok task => Ok task
  | Err _ => Err (payload_error ("payload.row." +:+ pretty (N.of_nat index)))
  end.

(** [collect] on results: the first error wins. *)
Fixpoint collect_rows (index : nat) (rows : list Value) : result (list Task) RuntimeError :=
  match rows with
  | [] => Ok []
  | value :: rows =>
      match row_task index value with
      | Err e => Err e
      | Ok task =>
          match collect_rows (S index) rows with Ok tasks => Ok (task :: tasks) | Err e => Err e end
      end
  end.

Definition try_row_tasks (p : BatchPayload) : result (list Task) RuntimeError :=
  match p with
  | BatchLocal tasks => Ok tasks
  | BatchRow rows => collect_rows 0 rows
  | _ => Err (payload_error ("payload.layout." +:+ PayloadLayout_as_str (payload_layout p)))
  end.

Definition task_at (p : BatchPayload) (index : nat) : result Task RuntimeError :=
  match p with
  | BatchLocal tasks =>
      match tasks !! index with
      | Some task => Ok task
      | None => Err (payload_error ("payload.row." +:+ pretty (N.of_nat index) +:+ ".missing"))
      end
  | BatchRow rows =>
      match rows !! index with
      | Some value => row_task index value
      | None => Err (payload_error ("payload.row." +:+ pretty (N.of_nat index) +:+ ".missing"))
      end
  | _ => Err (payload_error ("payload.layout." +:+ PayloadLayout_as_str (payload_layout p)))
  end.

End decoding.
End batches.
