(* ===== verification/WorkBatches.v ===== *)
(** * WorkBatches: from leased tasks to batches

    Models [core/src/runtime/runner_loop/batch.rs]: splitting leased tasks so that no
    two tasks of a group write the same resource, building the entries and the
    resource plan of a batch. *)
From S2P Require Import Prelude Floats Contracts StateStore Resources Batches.

(** The iteration of a B-tree map: entries by increasing key. *)
Definition btree_entries {K V} `{Countable K} (cmp : K → K → comparison) (m : gmap K V)
    : list (K * V) :=
  sort_by (λ x y, cmp x.1 y.1) (map_to_list m).

(** The order of the keys [(u8, String)]. *)
Definition keyed_order (x y : N * string) : comparison :=
  then_with (N.compare x.1 y.1) (String.compare x.2 y.2).

(** [entry(key).or_default().push(x)]. *)
Definition push_at {K V} `{Countable K} (key : K) (x : V) (m : gmap K (list V)) : gmap K (list V) :=
  or_default [] key (λ l, l ++ [x]) m.

Section work_batches.
Context {serde : Serde}.

Abbreviation Leased := (TaskLease * Task)%type.

(** ** Splitting by write conflicts *)

Definition is_write (requirement : ResourceRequirement) : bool :=
  match req_mode requirement with Write | ExclusiveWrite => true | Read => false end.

Definition write_requirement_refs (task : Task) : list RefId :=
  req_ref_id <$> filter (λ requirement, is_write requirement = true) (t_resource_requirements task).

(** The loop, from the groups closed so far, the open group and what it writes. *)
Fixpoint split_loop (leased : list Leased) (groups : list (list Leased)) (current : list Leased)
    (current_write_refs : gset RefId) : list (list Leased) :=
  match leased with
  | [] => if decide (current = []) then groups else groups ++ [current]
  | leased_task :: rest =>
      let write_refs := write_requirement_refs leased_task.2 in
      if negb (bool_decide (current = [])) && existsb (λ ref_id, bool_decide (ref_id ∈ current_write_refs)) write_refs
      then split_loop rest (groups ++ [current]) [leased_task] (list_to_set write_refs)
      else split_loop rest groups (current ++ [leased_task])
             (list_to_set write_refs ∪ current_write_refs)
  end.

Definition split_leased_tasks_by_resource_conflict (leased : list Leased) : list (list Leased) :=
  split_loop leased [] [] ∅.

(** ** The resource plan *)

Record PlanIndex : Type := mkPlanIndex {
  pi_read_views : gmap RefId (list nat);
  pi_write_locks : gmap RefId (list nat);
  pi_version_checks : list VersionExpectation;
}.

(** One requirement of the work set, with its index. *)
Definition index_requirement (index : nat) (requirement : ResourceRequirement) (i : PlanIndex)
    : PlanIndex :=
  {| pi_read_views :=
       if is_write requirement then pi_read_views i
       else push_at (req_ref_id requirement) index (pi_read_views i);
     pi_write_locks :=
       if is_write requirement then push_at (req_ref_id requirement) index (pi_write_locks i)
       else pi_write_locks i;
     pi_version_checks :=
       match req_expected_version requirement with
       | Some expected_version =>
           pi_version_checks i ++ [mkVersionExpectation (req_ref_id requirement) expected_version]
       | None => pi_version_checks i
       end |}.

Fixpoint index_requirements (index : nat) (requirements : list ResourceRequirement) (i : PlanIndex)
    : PlanIndex :=
  match requirements with
  | [] => i
  | requirement :: rest => index_requirements (S index) rest (index_requirement index requirement i)
  end.

(** The entries of the requirements that share a written resource. *)
Definition conflict_entry_indices (write_locks : gmap RefId (list nat))
    (requirement_entry_indices : list nat) : gset nat :=
  list_to_set
    ((map_to_list write_locks).*2 ≫= λ requirement_indices,
       if decide (1 < length requirement_indices)%nat
       then omap (λ i, requirement_entry_indices !! i) requirement_indices
       else []).

(** The loop over the entries: who conflicts, who runs in parallel, who is ordered by
    a key, who is strictly serial. *)
Record PlanGroups : Type := mkPlanGroups {
  gr_conflict_entries : list string;
  gr_parallel_group : list string;
  gr_keyed_groups : gmap (N * string) (list string);
  gr_serial_groups : list (list string);
  gr_strictly_serial : bool;
}.

Definition group_entry (conflicts : gset nat) (entry_index : nat) (entry : BatchEntry)
    (g : PlanGroups) : PlanGroups :=
  let id := be_entry_id entry in
  if decide (entry_index ∈ conflicts) then
    mkPlanGroups (gr_conflict_entries g ++ [id]) (gr_parallel_group g) (gr_keyed_groups g)
      (gr_serial_groups g) (gr_strictly_serial g)
  else
    match be_ordering entry with
    | OrderingNone =>
        mkPlanGroups (gr_conflict_entries g) (gr_parallel_group g ++ [id]) (gr_keyed_groups g)
          (gr_serial_groups g) (gr_strictly_serial g)
    | SameResourceOrder ref_id =>
        mkPlanGroups (gr_conflict_entries g) (gr_parallel_group g)
          (push_at (0%N, ref_id) id (gr_keyed_groups g)) (gr_serial_groups g)
          (gr_strictly_serial g)
    | StrictSequence sequence_id =>
        mkPlanGroups (gr_conflict_entries g) (gr_parallel_group g)
          (push_at (1%N, sequence_id) id (gr_keyed_groups g)) (gr_serial_groups g)
          (gr_strictly_serial g)
    | PreserveSubmitOrder =>
        mkPlanGroups (gr_conflict_entries g) (gr_parallel_group g) (gr_keyed_groups g)
          (gr_serial_groups g ++ [[id]]) true
    end.

Fixpoint group_entries (conflicts : gset nat) (entry_index : nat) (entries : list BatchEntry)
    (g : PlanGroups) : PlanGroups :=
  match entries with
  | [] => g
  | entry :: rest =>
      group_entries conflicts (S entry_index) rest (group_entry conflicts entry_index entry g)
  end.

Definition build_work_resource_plan (work_set : WorkSet) (requirement_entry_indices : list nat)
    : WorkResourcePlan :=
  let i := index_requirements 0 (ws_resource_requirements work_set) (mkPlanIndex ∅ ∅ []) in
  let conflicts := conflict_entry_indices (pi_write_locks i) requirement_entry_indices in
  let g := group_entries conflicts 0 (ws_entries work_set) (mkPlanGroups [] [] ∅ [] false) in
  let keyed_group_count := N.of_nat (size (gr_keyed_groups g)) in
  let parallel_entries := N.of_nat (length (gr_parallel_group g)) in
  {| wrp_read_views :=
       (λ '(ref_id, requirement_indices), mkResourceReadView ref_id requirement_indices)
         <$> btree_entries String.compare (pi_read_views i);
     wrp_write_locks :=
       (λ '(ref_id, requirement_indices), mkResourceWriteLock ref_id requirement_indices)
         <$> btree_entries String.compare (pi_write_locks i);
     wrp_parallel_groups :=
       if decide (gr_parallel_group g = []) then [] else [gr_parallel_group g];
     wrp_serial_groups :=
       gr_serial_groups g ++ (btree_entries keyed_order (gr_keyed_groups g)).*2;
     wrp_parallelism_limit :=
       if negb (bool_decide (gr_conflict_entries g = [])) || gr_strictly_serial g then 1%N
       else if decide (0 < keyed_group_count)%N then sat_add parallel_entries keyed_group_count
       else N.max (N.of_nat (length (ws_entries work_set))) 1;
     wrp_version_checks := pi_version_checks i;
     wrp_deferred_writes := [];
     wrp_conflict_entries := gr_conflict_entries g |}.

(** ** Batches *)

Definition entry_of (payload_index resource_start : nat) (task : Task) : BatchEntry :=
  {| be_entry_id := t_task_id task; be_task_id := t_task_id task; be_trace_id := t_trace_id task;
     be_parent_id := None; be_payload_index := payload_index;
     be_resource_requirement_indices :=
       seq resource_start (length (t_resource_requirements task));
     be_cancel_index := Some payload_index; be_deadline_tick := None;
     be_priority := t_priority task; be_lane := t_dispatch_lane task;
     be_ordering := t_ordering task |}.

(** The entries, the requirements of all of them, and the entry of each requirement. *)
Fixpoint build_entries (payload_index resource_start : nat) (leased : list Leased)
    : list BatchEntry * list ResourceRequirement * list nat :=
  match leased with
  | [] => ([], [], [])
  | (_, task) :: rest =>
      let requirements := t_resource_requirements task in
      let '(entries, rest_requirements, indices) :=
        build_entries (S payload_index) (resource_start + length requirements) rest in
      (entry_of payload_index resource_start task :: entries,
       requirements ++ rest_requirements,
       replicate (length requirements) payload_index ++ indices)
  end.

Definition build_work_batch (current_step : N) (batch_id : string) (descriptor : RunnerDescriptor)
    (leased : list Leased) : WorkBatch :=
  let tick_id := "tick-" +:+ pretty current_step in
  let '(entries, requirements, requirement_entry_indices) := build_entries 0 0 leased in
  let work_set := mkWorkSet tick_id (rd_runner_id descriptor) entries requirements in
  {| wb_batch_id := batch_id;
     wb_tick_id := tick_id;
     wb_batch_key := ws_batch_key work_set;
     wb_entries := ws_entries work_set;
     wb_payload := BatchLocal (leased.*2);
     wb_resource_plan := build_work_resource_plan work_set requirement_entry_indices;
     wb_task_leases := leased.*1 |}.

(** ** Attributes of a dispatch span *)

Definition RunnerMode_debug (mode : RunnerMode) : string :=
  match mode with
  | ScalarAdapter => "ScalarAdapter" | NativeBatch => "NativeBatch" | Batch => "Batch"
  end.
Definition DispatchLane_debug (lane : DispatchLane) : string :=
  match lane with
  | Control => "Control" | Interactive => "Interactive" | Normal => "Normal"
  | Background => "Background" | Bulk => "Bulk"
  end.

(** [join(",")]. *)
Definition join (separator : string) (l : list string) : string :=
  match l with
  | [] => ""
  | x :: l => foldl (λ acc y, acc +:+ separator +:+ y) x l
  end.

Definition count_attr (n : nat) : ScalarValue := ScalarInt (u64_as_i64 (N.of_nat n)).

Definition dispatch_batch_attrs {dec : Decode} (descriptor : RunnerDescriptor) (batch : WorkBatch)
    (task_leases : list TaskLease) (executor_id : string) : gmap string ScalarValue :=
  let plan := wb_resource_plan batch in
  let attrs : gmap string ScalarValue :=
    {[ "executor_id" := ScalarString executor_id;
       "task_count" := count_attr (length (wb_entries batch));
       "entry_count" := count_attr (length (wb_entries batch));
       "batch_id" := ScalarString (wb_batch_id batch);
       "tick_id" := ScalarString (wb_tick_id batch);
       "payload_layout" := ScalarString (PayloadLayout_as_str (payload_layout (wb_payload batch)));
       "resource_conflict_count" := count_attr (length (wrp_conflict_entries plan));
       "parallel_group_count" := count_attr (length (wrp_parallel_groups plan));
       "serial_group_count" := count_attr (length (wrp_serial_groups plan));
       "effective_concurrency" := ScalarInt (u64_as_i64 (wrp_parallelism_limit plan));
       "runner_mode" := ScalarString (RunnerMode_debug (rbc_mode (rd_batch descriptor))) ]} in
  let attrs :=
    match head (wb_entries batch) with
    | Some entry =>
        <["lane" := ScalarString (DispatchLane_debug (be_lane entry))]>
          (<["task_id" := ScalarString (be_task_id entry)]>
             (<["entry_id" := ScalarString (be_entry_id entry)]> attrs))
    | None => attrs
    end in
  let attrs :=
    match task_at (wb_payload batch) 0 with
    | Ok task =>
        match t_correlation_id task with
        | Some correlation_id => <["correlation_id" := ScalarString correlation_id]> attrs
        | None => attrs
        end
    | Err _ => attrs
    end in
  <["task_lease_ids" := ScalarString (join "," (tl_lease_id <$> task_leases))]> attrs.

End work_batches.
