(* ===== verification/BatchTheorems.v ===== *)
(** * BatchTheorems: batches lose nothing and serialise conflicting writes *)
From S2P Require Import Prelude Floats Contracts StateStore Resources Batches WorkBatches.

Section theorems.
Context {serde : Serde}.

(** ** Splitting *)

Definition writes (x : TaskLease * Task) : list RefId := write_requirement_refs x.2.

(** No two tasks of the group write the same resource. *)
Definition conflict_free (group : list (TaskLease * Task)) : Prop :=
  ∀ i j x y, (i < j)%nat → group !! i = Some x → group !! j = Some y →
    ∀ ref_id, ref_id ∈ writes x → ref_id ∉ writes y.

(** [x] writes something that a task of [group] writes. *)
Definition clashes (group : list (TaskLease * Task)) (x : TaskLease * Task) : Prop :=
  ∃ ref_id y, y ∈ group ∧ ref_id ∈ writes y ∧ ref_id ∈ writes x.

(** Each group ends only because the first task of the next one clashes with it. *)
Fixpoint tight (groups : list (list (TaskLease * Task))) : Prop :=
  match groups with
  | [] => True
  | group :: rest =>
      match rest with (x :: _) :: _ => clashes group x | _ => True end ∧ tight rest
  end.

Lemma conflict_free_snoc group x :
  conflict_free group → (∀ ref_id y, y ∈ group → ref_id ∈ writes y → ref_id ∉ writes x) →
  conflict_free (group ++ [x]).
Proof.
  intros Hg Hx i j a b Hij Ha Hb ref_id Hra.
  pose proof (lookup_lt_Some _ _ _ Hb) as Hj. rewrite length_app in Hj. simpl in Hj.
  rewrite lookup_app_l in Ha by lia.
  destruct (decide (j < length group)%nat) as [Hjl|Hjl].
  - rewrite lookup_app_l in Hb by lia. exact (Hg i j a b Hij Ha Hb ref_id Hra).
  - rewrite lookup_app_r in Hb by lia. replace (j - length group)%nat with 0%nat in Hb by lia.
    simplify_eq/=. apply (Hx ref_id a); [|done]. by eapply list_elem_of_lookup_2.
Qed.

Lemma conflict_free_single x : conflict_free [x].
Proof.
  intros i j a b Hij _ Hb%lookup_lt_Some. simpl in Hb. lia.
Qed.

Lemma tight_app groups group x rest :
  tight (groups ++ [group]) → clashes group x → tight ((x :: rest) :: []) →
  tight (groups ++ [group] ++ [x :: rest]).
Proof.
  intros Ht Hc _. induction groups as [|g groups IH]; simpl in *; [done|].
  destruct Ht as [Hh Ht]. split; [|by apply IH]. by destruct groups.
Qed.

Lemma tight_last groups group x :
  group ≠ [] → tight (groups ++ [group]) → tight (groups ++ [group ++ [x]]).
Proof.
  intros Hne. induction groups as [|g groups IH]; simpl; [done|]. intros [Hh Ht].
  split; [|by apply IH]. destruct groups as [|g' groups]; simpl in *; [|done]. by destruct group.
Qed.

Record split_ok (leased : list (TaskLease * Task)) (groups : list (list (TaskLease * Task))) : Prop := {
  split_concat : concat groups = leased;
  split_nonempty : Forall (.≠ []) groups;
  split_free : Forall conflict_free groups;
  split_tight : tight groups;
}.

Lemma split_loop_ok leased groups current refs :
  Forall (.≠ []) groups → Forall conflict_free groups → conflict_free current →
  (∀ ref_id, ref_id ∈ refs ↔ ∃ y, y ∈ current ∧ ref_id ∈ writes y) →
  (if decide (current = []) then groups = [] else tight (groups ++ [current])) →
  split_ok (concat groups ++ current ++ leased) (split_loop leased groups current refs).
Proof.
  revert groups current refs.
  induction leased as [|x leased IH]; intros groups current refs Hne Hfree Hcur Hrefs Ht; simpl.
  { rewrite app_nil_r. case_decide as Hc; [subst; split; simpl; rewrite ?app_nil_r; done|].
    split; [by rewrite concat_app; simpl; rewrite app_nil_r| | |done];
      apply Forall_app; split; (done || by constructor). }
  destruct (negb (bool_decide (current = [])) && existsb _ _) eqn:Hcl.
  - apply andb_true_iff in Hcl as [Hcne Hex]. rewrite negb_true_iff, bool_decide_eq_false in Hcne.
    rewrite decide_False in Ht by done.
    apply existsb_exists in Hex as (ref_id & Hin & Hb). apply bool_decide_eq_true in Hb.
    apply list_elem_of_In in Hin.
    apply Hrefs in Hb as (y & Hy & Hry).
    specialize (IH (groups ++ [current]) [x] (list_to_set (write_requirement_refs x.2))).
    rewrite concat_app in IH. simpl in IH. rewrite app_nil_r, <-!app_assoc in IH. apply IH.
    + apply Forall_app; split; [done|by constructor].
    + apply Forall_app; split; [done|by constructor].
    + apply conflict_free_single.
    + intros r. rewrite elem_of_list_to_set. setoid_rewrite list_elem_of_singleton.
      unfold writes. naive_solver.
    + apply tight_app; [done| |done]. by exists ref_id, y.
  - apply andb_false_iff in Hcl. rewrite negb_false_iff, bool_decide_eq_true in Hcl.
    assert (∀ ref_id y, y ∈ current → ref_id ∈ writes y → ref_id ∉ writes x) as Hx.
    { intros r y Hy Hry Hrx. destruct Hcl as [->|Hex]; [by apply elem_of_nil in Hy|].
      rewrite <-not_true_iff_false, existsb_exists in Hex. apply Hex. exists r.
      split; [by apply list_elem_of_In|]. apply bool_decide_eq_true, Hrefs. by exists y. }
    specialize (IH groups (current ++ [x]) (list_to_set (write_requirement_refs x.2) ∪ refs)).
    rewrite <-!app_assoc in IH. simpl in IH. apply IH; [done|done|by apply conflict_free_snoc| |].
    + intros r. rewrite elem_of_union, elem_of_list_to_set, Hrefs.
      setoid_rewrite elem_of_app. setoid_rewrite list_elem_of_singleton. unfold writes. naive_solver.
    + rewrite decide_False by (by destruct current). case_decide as Hc.
      * subst. simpl. done.
      * by apply tight_last.
Qed.

Lemma split_ok_all leased : split_ok leased (split_leased_tasks_by_resource_conflict leased).
Proof.
  apply (split_loop_ok leased [] [] ∅); [constructor|constructor| | |done].
  - intros i j x y _ Hx. by rewrite lookup_nil in Hx.
  - intros r. rewrite elem_of_empty. setoid_rewrite elem_of_nil. naive_solver.
Qed.

(** ** Groups of the plan *)

Lemma push_at_values {K V} `{Countable K} (k : K) (x : V) (m : gmap K (list V)) :
  concat (map_to_list (push_at k x m)).*2 ≡ₚ concat (map_to_list m).*2 ++ [x].
Proof.
  unfold push_at, or_default. destruct (m !! k) as [l|] eqn:Hk; simpl.
  - rewrite <-(insert_delete_id m k l Hk) at 2. rewrite <-insert_delete_eq.
    rewrite !map_to_list_insert by apply lookup_delete_eq. simpl.
    rewrite <-!app_assoc. apply Permutation_app_head. apply Permutation_app_comm.
  - rewrite map_to_list_insert by done. simpl. apply Permutation_app_comm with (l := [x]).
Qed.

(** The ids of the entries that were grouped. *)
Definition grouped (g : PlanGroups) : list string :=
  gr_conflict_entries g ++ gr_parallel_group g ++ concat (map_to_list (gr_keyed_groups g)).*2
  ++ concat (gr_serial_groups g).

(** The key under which an entry is ordered. *)
Definition order_key (entry : BatchEntry) : option (N * string) :=
  match be_ordering entry with
  | SameResourceOrder ref_id => Some (0%N, ref_id)
  | StrictSequence sequence_id => Some (1%N, sequence_id)
  | _ => None
  end.

Record groups_ok (conflicts : gset nat) (entries : list BatchEntry) (g : PlanGroups) : Prop := {
  groups_all : grouped g ≡ₚ be_entry_id <$> entries;
  groups_conflicts : ∀ id, id ∈ gr_conflict_entries g
    ↔ ∃ i entry, entries !! i = Some entry ∧ i ∈ conflicts ∧ be_entry_id entry = id;
  groups_parallel : gr_parallel_group g `sublist_of` (be_entry_id <$> entries);
  groups_keyed : ∀ k l, gr_keyed_groups g !! k = Some l → l `sublist_of` (be_entry_id <$> entries);
  groups_key : ∀ i entry k, entries !! i = Some entry → i ∉ conflicts →
    order_key entry = Some k → be_entry_id entry ∈ default [] (gr_keyed_groups g !! k);
  groups_keyed_ne : ∀ k l, gr_keyed_groups g !! k = Some l → l ≠ [];
  groups_serial : ∀ l, l ∈ gr_serial_groups g → ∃ id, l = [id];
  groups_strict : gr_strictly_serial g = false → gr_serial_groups g = [];
}.

Lemma sublist_snoc_skip {A} (l k : list A) x : l `sublist_of` k → l `sublist_of` k ++ [x].
Proof. intros. rewrite <-(app_nil_r l). apply sublist_app; [done|]. apply sublist_nil_l. Qed.

Lemma sublist_snoc {A} (l k : list A) x : l `sublist_of` k → l ++ [x] `sublist_of` k ++ [x].
Proof. intros. by apply sublist_app. Qed.

Lemma push_at_lookup {K V} `{Countable K} (k k' : K) (x : V) (m : gmap K (list V)) l :
  push_at k x m !! k' = Some l →
  (k' = k ∧ l = default [] (m !! k) ++ [x]) ∨ m !! k' = Some l.
Proof.
  unfold push_at. rewrite lookup_or_default. case_decide; [|auto]. subst. intros [= <-]. auto.
Qed.

Lemma conflicts_snoc conflicts entries entry id :
  (∃ i e, (entries ++ [entry]) !! i = Some e ∧ i ∈ (conflicts : gset nat) ∧ be_entry_id e = id)
  ↔ (∃ i e, entries !! i = Some e ∧ i ∈ conflicts ∧ be_entry_id e = id)
    ∨ (length entries ∈ conflicts ∧ be_entry_id entry = id).
Proof.
  split.
  - intros (i & e & Hi & Hc & Hid). rewrite lookup_app in Hi.
    destruct (entries !! i) eqn:Ei; [left; simplify_eq; eauto|].
    apply lookup_ge_None in Ei. destruct (i - length entries)%nat eqn:Ed; [|done].
    simplify_eq/=. right. by replace (length entries) with i by lia.
  - intros [(i & e & Hi & Hc & Hid)|[Hc Hid]].
    + exists i, e. split; [|done]. by apply lookup_app_l_Some.
    + exists (length entries), entry. split; [|done]. by apply list_lookup_middle.
Qed.

Lemma group_entry_ok conflicts entries entry g :
  groups_ok conflicts entries g →
  groups_ok conflicts (entries ++ [entry]) (group_entry conflicts (length entries) entry g).
Proof.
  intros [Hall Hcon Hpar Hkey Hkex Hkne Hser Hstr]. unfold group_entry.
  assert (∀ gk, (∀ k id, id ∈ default [] (gr_keyed_groups g !! k) → id ∈ default [] (gk !! k)) →
    (∀ k, length entries ∉ conflicts → order_key entry = Some k →
       be_entry_id entry ∈ default [] (gk !! k)) →
    ∀ i e k, (entries ++ [entry]) !! i = Some e → i ∉ conflicts → order_key e = Some k →
      be_entry_id e ∈ default [] ((gk : gmap (N * string) (list string)) !! k)) as Hkeys.
  { intros gk Hold Hnew i e k [[_ Hi]|[-> <-]]%lookup_snoc_Some Hc Hk;
      [by eapply Hold, Hkex|by apply Hnew]. }
  assert (∀ k0 k id, id ∈ default [] (gr_keyed_groups g !! k) →
    id ∈ default [] (push_at k0 (be_entry_id entry) (gr_keyed_groups g) !! k)) as Hmono.
  { intros k0 k id Hin. unfold push_at. rewrite default_or_default. case_decide; [|done].
    subst. apply elem_of_app. by left. }
  assert (∀ k, be_entry_id entry
    ∈ default [] (push_at k (be_entry_id entry) (gr_keyed_groups g) !! k)) as Hself.
  { intros k. unfold push_at. rewrite default_or_default, decide_True by done.
    apply elem_of_app. right. by apply list_elem_of_singleton. }
  assert (∀ gc gp gk gs b, (gc ++ gp ++ concat (map_to_list gk).*2 ++ concat gs
      ≡ₚ grouped g ++ [be_entry_id entry]) →
    grouped (mkPlanGroups gc gp gk gs b) ≡ₚ be_entry_id <$> entries ++ [entry]) as Hperm.
  { intros gc gp gk gs b Hp. unfold grouped. simpl. rewrite Hp, fmap_app. by rewrite Hall. }
  assert (∀ k0 k l, push_at k0 (be_entry_id entry) (gr_keyed_groups g) !! k = Some l →
    l `sublist_of` (be_entry_id <$> entries ++ [entry])) as Hpush.
  { intros k0 k l [[-> ->]|Hl]%push_at_lookup; rewrite fmap_app.
    - apply sublist_snoc. destruct (gr_keyed_groups g !! k0) eqn:E; simpl; [by eapply Hkey|].
      apply sublist_nil_l.
    - by eapply sublist_snoc_skip, Hkey. }
  assert (∀ k0 k l, push_at k0 (be_entry_id entry) (gr_keyed_groups g) !! k = Some l → l ≠ [])
    as Hpne.
  { intros k0 k l [[-> ->]|Hl]%push_at_lookup; [|by eapply Hkne].
    intros Heq. by apply app_nil in Heq as [_ ?]. }
  assert (∀ k l, gr_keyed_groups g !! k = Some l →
    l `sublist_of` (be_entry_id <$> entries ++ [entry])) as Hkey'.
  { intros k l Hl. rewrite fmap_app. by eapply sublist_snoc_skip, Hkey. }
  unfold order_key in Hkeys.
  case_decide as Hc; [|destruct (be_ordering entry)]; split; simpl;
    try (apply Hkeys; [auto|intros k Hnc Hk; first [done|simplify_eq; apply Hself]]);
    try (apply Hperm; unfold grouped; simpl);
    try (rewrite push_at_values);
    try (intros id; rewrite conflicts_snoc, ?elem_of_app, ?list_elem_of_singleton, Hcon; naive_solver);
    try (rewrite fmap_app; by apply sublist_snoc_skip);
    try (rewrite fmap_app; by apply sublist_snoc);
    try done; try eauto.
  all: try (rewrite ?concat_app; simpl; rewrite ?app_nil_r; solve_Permutation).
  intros l [Hl|Hl%list_elem_of_singleton]%elem_of_app; eauto.
Qed.

Lemma group_entries_ok conflicts done_ entries g :
  groups_ok conflicts done_ g →
  groups_ok conflicts (done_ ++ entries) (group_entries conflicts (length done_) entries g).
Proof.
  revert done_ g. induction entries as [|entry entries IH]; intros done_ g Hg; simpl.
  { by rewrite app_nil_r. }
  specialize (IH (done_ ++ [entry]) (group_entry conflicts (length done_) entry g)
    (group_entry_ok conflicts done_ entry g Hg)).
  rewrite <-app_assoc, length_app, Nat.add_1_r in IH. done.
Qed.

Lemma group_entries_all conflicts entries :
  groups_ok conflicts entries (group_entries conflicts 0 entries (mkPlanGroups [] [] ∅ [] false)).
Proof.
  apply (group_entries_ok conflicts [] entries).
  assert (∀ k l, (∅ : gmap (N * string) (list string)) !! k = Some l → False) as Hno.
  { intros k l. by rewrite lookup_empty. }
  split; simpl; try done; try (intros k l Hl; by destruct (Hno k l)).
  - intros id. split; [by intros ?%elem_of_nil|]. by intros (? & ? & ? & _).
  - by intros l ?%elem_of_nil.
Qed.

(** ** Write locks and conflicts *)

Definition writes_at (requirements : list ResourceRequirement) (i : nat) (ref_id : RefId) : Prop :=
  ∃ q, requirements !! i = Some q ∧ is_write q = true ∧ req_ref_id q = ref_id.

Record locks_ok (requirements : list ResourceRequirement) (i : PlanIndex) : Prop := {
  locks_exact : ∀ ref_id n, n ∈ default [] (pi_write_locks i !! ref_id)
    ↔ writes_at requirements n ref_id;
  locks_NoDup : ∀ ref_id, NoDup (default [] (pi_write_locks i !! ref_id));
}.

Lemma writes_at_snoc requirements q n ref_id :
  writes_at (requirements ++ [q]) n ref_id
  ↔ writes_at requirements n ref_id
    ∨ (n = length requirements ∧ is_write q = true ∧ req_ref_id q = ref_id).
Proof.
  unfold writes_at. split.
  - intros (q' & Hq & Hw). rewrite lookup_app in Hq.
    destruct (requirements !! n) eqn:En; [left; simplify_eq; eauto|].
    apply lookup_ge_None in En. destruct (n - length requirements)%nat eqn:Ed; [|done].
    simplify_eq/=. right. split; [lia|done].
  - intros [(q' & Hq & Hw)|(-> & Hw)].
    + exists q'. split; [|done]. by apply lookup_app_l_Some.
    + exists q. split; [|done]. by apply list_lookup_middle.
Qed.

Lemma writes_at_lt requirements n ref_id : writes_at requirements n ref_id → (n < length requirements)%nat.
Proof. intros (q & Hq & _). by eapply lookup_lt_Some. Qed.

Lemma index_requirement_ok requirements q i :
  locks_ok requirements i →
  locks_ok (requirements ++ [q]) (index_requirement (length requirements) q i).
Proof.
  intros [He Hn]. unfold index_requirement. destruct (is_write q) eqn:Hw; split; simpl; try done.
  - intros ref_id n. rewrite writes_at_snoc, <-He. unfold push_at.
    rewrite default_or_default. case_decide as Hr.
    + subst. rewrite elem_of_app, list_elem_of_singleton. naive_solver.
    + split; [by left|]. by intros [?|(_ & _ & ?)].
  - intros ref_id. unfold push_at. rewrite default_or_default. case_decide as Hr; [|done].
    subst. apply NoDup_app. split; [done|]. split; [|apply NoDup_singleton].
    intros n Hin%He%writes_at_lt Heq%list_elem_of_singleton. lia.
  - intros ref_id n. rewrite writes_at_snoc, <-He, Hw. split; [by left|]. by intros [?|(_ & ? & _)].
Qed.

Lemma index_requirements_ok done_ requirements i :
  locks_ok done_ i →
  locks_ok (done_ ++ requirements) (index_requirements (length done_) requirements i).
Proof.
  revert done_ i. induction requirements as [|q requirements IH]; intros done_ i Hi; simpl.
  { by rewrite app_nil_r. }
  specialize (IH (done_ ++ [q]) _ (index_requirement_ok done_ q i Hi)).
  rewrite <-app_assoc, length_app, Nat.add_1_r in IH. done.
Qed.

Lemma index_requirements_all requirements :
  locks_ok requirements (index_requirements 0 requirements (mkPlanIndex ∅ ∅ [])).
Proof.
  apply (index_requirements_ok [] requirements). split; cbn [pi_write_locks].
  - intros ref_id n. rewrite lookup_empty. simpl. split; [by intros ?%elem_of_nil|].
    by intros (? & ? & _).
  - intros ref_id. rewrite lookup_empty. constructor.
Qed.

Lemma two_elements {A} (l : list A) x y : x ∈ l → y ∈ l → x ≠ y → (1 < length l)%nat.
Proof.
  intros Hx Hy Hne. destruct l as [|a [|b l]]; simpl; [by apply elem_of_nil in Hx| |lia].
  apply list_elem_of_singleton in Hx, Hy. congruence.
Qed.

Lemma second_element (l : list nat) x : NoDup l → x ∈ l → (1 < length l)%nat → ∃ y, y ∈ l ∧ y ≠ x.
Proof.
  intros Hnd Hx Hl. destruct l as [|a [|b l]]; simpl in Hl; [lia|lia|].
  apply NoDup_cons in Hnd as [Ha _]. destruct (decide (x = a)) as [->|].
  - exists b. split; [right; by left|]. intros ->. apply Ha. by left.
  - exists a. split; [by left|done].
Qed.

(** An entry conflicts exactly when a resource that it writes is written once more. *)
Lemma conflicts_exact requirements indices i e :
  locks_ok requirements i →
  (e ∈ conflict_entry_indices (pi_write_locks i) indices
   ↔ ∃ n n' ref_id, n ≠ n' ∧ writes_at requirements n ref_id ∧ writes_at requirements n' ref_id
     ∧ indices !! n = Some e).
Proof.
  intros [He Hn]. unfold conflict_entry_indices. rewrite elem_of_list_to_set, list_elem_of_bind.
  split.
  - intros (l & Hel & Hl). apply list_elem_of_fmap in Hl as ([ref_id l'] & -> & Hl). simpl in *.
    apply elem_of_map_to_list in Hl. case_decide as Hlen; [|by apply elem_of_nil in Hel].
    apply list_elem_of_omap in Hel as (n & Hin & Hidx).
    assert (default [] (pi_write_locks i !! ref_id) = l') as Hd by by rewrite Hl.
    destruct (second_element l' n) as (n' & Hin' & Hne); [by rewrite <-Hd|done|done|].
    exists n, n', ref_id. rewrite <-!He, Hd. auto.
  - intros (n & n' & ref_id & Hne & Hw & Hw' & Hidx). apply He in Hw, Hw'.
    destruct (pi_write_locks i !! ref_id) as [l|] eqn:Hl; simpl in *; [|by apply elem_of_nil in Hw].
    exists l. split.
    + rewrite decide_True by exact (two_elements l n n' Hw Hw' Hne). apply list_elem_of_omap. eauto.
    + apply list_elem_of_fmap. exists (ref_id, l). split; [done|]. by apply elem_of_map_to_list.
Qed.

(** ** Entries of a batch *)

Lemma build_entries_ids leased pi rs :
  be_entry_id <$> (build_entries pi rs leased).1.1 = (λ x, t_task_id x.2) <$> leased.
Proof.
  revert pi rs. induction leased as [|[l t] leased IH]; intros pi rs; simpl; [done|].
  specialize (IH (S pi) (rs + length (t_resource_requirements t))%nat).
  destruct (build_entries _ _ leased) as [[entries reqs] idx]. csimpl. by f_equal.
Qed.

Lemma build_entries_index_ge leased pi rs n e :
  (build_entries pi rs leased).2 !! n = Some e → (pi ≤ e)%nat.
Proof.
  revert pi rs n. induction leased as [|[l t] leased IH]; intros pi rs n; simpl; [done|].
  specialize (IH (S pi) (rs + length (t_resource_requirements t))%nat).
  destruct (build_entries _ _ leased) as [[entries reqs] idx]. simpl in *.
  rewrite lookup_app. destruct (replicate _ _ !! n) as [z|] eqn:Er.
  - apply lookup_replicate in Er as [-> _]. intros [= <-]. lia.
  - intros He%IH. lia.
Qed.

(** Each requirement of the batch is one of the task its index names, and the other
    way round. *)
Lemma build_entries_requirements leased pi rs q e :
  (∃ n, (build_entries pi rs leased).1.2 !! n = Some q
        ∧ (build_entries pi rs leased).2 !! n = Some (pi + e)%nat)
  ↔ ∃ l t, leased !! e = Some (l, t) ∧ q ∈ t_resource_requirements t.
Proof.
  revert pi rs e. induction leased as [|[l t] leased IH]; intros pi rs e; simpl.
  { split; [by intros (n & Hn & _); rewrite lookup_nil in Hn|].
    by intros (l & t & Hl & _); rewrite lookup_nil in Hl. }
  specialize (IH (S pi) (rs + length (t_resource_requirements t))%nat).
  pose proof (build_entries_index_ge leased (S pi) (rs + length (t_resource_requirements t))%nat) as Hge.
  destruct (build_entries _ _ leased) as [[entries reqs] idx]. simpl in *.
  destruct e as [|e].
  - split.
    + intros (n & Hn & Hi). exists l, t. split; [done|]. rewrite Nat.add_0_r in Hi.
      rewrite lookup_app in Hn. destruct (t_resource_requirements t !! n) eqn:Et.
      * simplify_eq. by eapply list_elem_of_lookup_2.
      * exfalso. apply lookup_ge_None in Et. rewrite lookup_app_r in Hi by (rewrite length_replicate; lia).
        apply Hge in Hi. lia.
    + intros (l' & t' & [= <- <-] & [n Hn]%list_elem_of_lookup). exists n.
      rewrite Nat.add_0_r. split; [by apply lookup_app_l_Some|].
      apply lookup_app_l_Some, lookup_replicate. split; [done|]. by eapply lookup_lt_Some.
  - simpl. rewrite <-IH. replace (pi + S e)%nat with (S pi + e)%nat by lia. split.
    + intros (n & Hn & Hi). rewrite lookup_app in Hi.
      destruct (replicate (length (t_resource_requirements t)) pi !! n) as [z|] eqn:Er.
      * apply lookup_replicate in Er as [-> _]. simplify_eq. lia.
      * apply lookup_ge_None in Er. rewrite length_replicate in *.
        rewrite lookup_app_r in Hn by done. by eexists.
    + intros (n & Hn & Hi). exists (length (t_resource_requirements t) + n)%nat.
      rewrite !lookup_app_r by (rewrite ?length_replicate; lia). rewrite length_replicate.
      by replace (length (t_resource_requirements t) + n - length (t_resource_requirements t))%nat
        with n by lia.
Qed.


(** ** Properties *)

(** The ids of the tasks of a batch, in the order they were leased. *)
Definition leased_ids (leased : list (TaskLease * Task)) : list string :=
  (λ x, t_task_id x.2) <$> leased.

Definition plan_of (step : N) (batch_id : string) (descriptor : RunnerDescriptor)
    (leased : list (TaskLease * Task)) : WorkResourcePlan :=
  wb_resource_plan (build_work_batch step batch_id descriptor leased).

(** The index and the groups behind a plan. *)
Lemma plan_of_groups step batch_id descriptor leased :
  ∃ entries requirements indices i g,
    build_entries 0 0 leased = (entries, requirements, indices)
    ∧ locks_ok requirements i
    ∧ groups_ok (conflict_entry_indices (pi_write_locks i) indices) entries g
    ∧ wrp_conflict_entries (plan_of step batch_id descriptor leased) = gr_conflict_entries g
    ∧ concat (wrp_parallel_groups (plan_of step batch_id descriptor leased)) = gr_parallel_group g
    ∧ wrp_serial_groups (plan_of step batch_id descriptor leased)
      = gr_serial_groups g ++ (btree_entries keyed_order (gr_keyed_groups g)).*2
    ∧ wrp_parallelism_limit (plan_of step batch_id descriptor leased)
      = (if negb (bool_decide (gr_conflict_entries g = [])) || gr_strictly_serial g then 1%N
         else if decide (0 < N.of_nat (size (gr_keyed_groups g)))%N
         then sat_add (N.of_nat (length (gr_parallel_group g))) (N.of_nat (size (gr_keyed_groups g)))
         else N.max (N.of_nat (length entries)) 1).
Proof.
  unfold plan_of, build_work_batch.
  destruct (build_entries 0 0 leased) as [[entries requirements] indices].
  exists entries, requirements, indices,
    (index_requirements 0 requirements (mkPlanIndex ∅ ∅ [])),
    (group_entries (conflict_entry_indices (pi_write_locks
       (index_requirements 0 requirements (mkPlanIndex ∅ ∅ []))) indices) 0 entries
       (mkPlanGroups [] [] ∅ [] false)).
  split; [done|]. split; [apply index_requirements_all|]. split; [apply group_entries_all|].
  cbn [wb_resource_plan]. unfold build_work_resource_plan. cbn. repeat split.
  case_decide as Hp; simpl; [by rewrite Hp|by rewrite app_nil_r].
Qed.

Lemma btree_entries_Permutation {K V} `{Countable K} (cmp : K → K → comparison) (m : gmap K V) :
  btree_entries cmp m ≡ₚ map_to_list m.
Proof. apply sort_by_Permutation. Qed.

Lemma size_le_values (m : gmap (N * string) (list string)) :
  (∀ k l, m !! k = Some l → l ≠ []) → (size m ≤ length (concat (map_to_list m).*2))%nat.
Proof.
  induction m as [|k l m Hk IH] using map_ind; intros Hne; [by rewrite map_size_empty; lia|].
  rewrite map_size_insert_None, map_to_list_insert by done. csimpl. rewrite length_app.
  assert (l ≠ []) by (apply (Hne k); apply lookup_insert_eq).
  assert (size m ≤ length (concat (map_to_list m).*2))%nat.
  { apply IH. intros k' l' Hl'. apply (Hne k'). rewrite lookup_insert_ne; [done|]. by intros ->; rewrite Hl' in Hk. }
  destruct l; [done|]. simpl. lia.
Qed.

(** Leased tasks are split into dispatch groups that lose and reorder nothing, in
    which no two tasks write the same resource, and which are as long as possible:
    each one ends because the next task writes something the group writes. *)
Theorem dispatch_groups_are_conflict_free (leased : list (TaskLease * Task)) :
  let groups := split_leased_tasks_by_resource_conflict leased in
  concat groups = leased ∧ Forall (.≠ []) groups ∧ Forall conflict_free groups ∧ tight groups.
Proof. by destruct (split_ok_all leased) as [H1 H2 H3 H4]. Qed.

(** C28: the resource plan of a batch partitions its entries into the conflicting ones,
    a parallel group and serial groups; every group keeps the order in which the tasks
    were leased; entries that do not conflict and share an ordering key are in one
    serial group; and the parallelism is at least one and at most the number of
    entries. *)
Theorem plan_partitions_the_batch (step : N) (batch_id : string) (descriptor : RunnerDescriptor)
    (leased : list (TaskLease * Task)) :
  let plan := plan_of step batch_id descriptor leased in
  wrp_conflict_entries plan ++ concat (wrp_parallel_groups plan) ++ concat (wrp_serial_groups plan)
    ≡ₚ leased_ids leased
  ∧ concat (wrp_parallel_groups plan) `sublist_of` leased_ids leased
  ∧ (∀ group, group ∈ wrp_serial_groups plan → group `sublist_of` leased_ids leased)
  ∧ (∀ i j x y key, (build_entries 0 0 leased).1.1 !! i = Some x →
       (build_entries 0 0 leased).1.1 !! j = Some y →
       order_key x = Some key → order_key y = Some key →
       be_entry_id x ∉ wrp_conflict_entries plan → be_entry_id y ∉ wrp_conflict_entries plan →
       ∃ group, group ∈ wrp_serial_groups plan ∧ be_entry_id x ∈ group ∧ be_entry_id y ∈ group)
  ∧ (1 ≤ wrp_parallelism_limit plan ≤ N.max 1 (N.of_nat (length leased)))%N.
Proof.
  intros plan.
  destruct (plan_of_groups step batch_id descriptor leased)
    as (entries & reqs & idx & i & g & Hb & _ & [Hall Hcon Hpar Hkey Hkex Hkne Hser Hstr] & Ec & Ep & Es & El).
  fold plan in Ec, Ep, Es, El. rewrite Ec, Ep, Es, El, Hb. cbn [fst].
  assert (be_entry_id <$> entries = leased_ids leased) as Eids.
  { pose proof (build_entries_ids leased 0 0) as H. by rewrite Hb in H. }
  assert (length entries = length leased) as Elen.
  { rewrite <-(length_fmap be_entry_id), Eids. apply length_fmap. }
  rewrite Eids in *. split; [|split; [done|split; [|split]]].
  - rewrite <-Hall. unfold grouped. rewrite concat_app, btree_entries_Permutation.
    apply Permutation_app_head, Permutation_app_head, Permutation_app_comm.
  - intros group [Hg|Hg]%elem_of_app.
    { destruct (Hser group Hg) as [id ->]. apply singleton_sublist_l. rewrite <-Hall.
      unfold grouped. rewrite !elem_of_app. do 3 right. apply list_elem_of_In, in_concat.
      exists [id]. split; [by apply list_elem_of_In|by left]. }
    rewrite btree_entries_Permutation in Hg. apply list_elem_of_fmap in Hg as ([k l] & -> & Hl).
    apply elem_of_map_to_list in Hl. by eapply Hkey.
  - intros n n' x y key Hx Hy Kx Ky Nx Ny.
    assert (∀ m z, entries !! m = Some z → be_entry_id z ∉ gr_conflict_entries g →
      order_key z = Some key → be_entry_id z ∈ default [] (gr_keyed_groups g !! key)) as Hin.
    { intros m z Hz Nz Kz. eapply Hkex; [done| |done]. intros Hm. apply Nz, Hcon. eauto. }
    pose proof (Hin n x Hx Nx Kx) as Ix. pose proof (Hin n' y Hy Ny Ky) as Iy.
    destruct (gr_keyed_groups g !! key) as [l|] eqn:Hl; simpl in *; [|by apply elem_of_nil in Ix].
    exists l. split; [|done]. apply elem_of_app. right. rewrite btree_entries_Permutation.
    apply list_elem_of_fmap. exists (key, l). split; [done|]. by apply elem_of_map_to_list.
  - pose proof (size_le_values (gr_keyed_groups g) Hkne) as Hsz.
    pose proof (Permutation_length Hall) as Hlen. unfold grouped in Hlen.
    rewrite !length_app in Hlen. unfold leased_ids in Hlen. rewrite length_fmap in Hlen.
    rewrite Elen. destruct (negb _ || _); [lia|]. case_decide; [|lia].
    unfold sat_add, u64_max. lia.
Qed.

(** C27: two tasks of a batch that write the same resource never run side by side: both
    are in the conflicting entries of the plan, and its parallelism is one. *)
Theorem conflicting_writes_are_serialised (step : N) (batch_id : string)
    (descriptor : RunnerDescriptor) (leased : list (TaskLease * Task)) a b x y ref_id :
  a ≠ b → leased !! a = Some x → leased !! b = Some y → ref_id ∈ writes x → ref_id ∈ writes y →
  let plan := plan_of step batch_id descriptor leased in
  t_task_id x.2 ∈ wrp_conflict_entries plan ∧ t_task_id y.2 ∈ wrp_conflict_entries plan
  ∧ wrp_parallelism_limit plan = 1%N.
Proof.
  intros Hne Ha Hb Hx Hy plan. unfold plan.
  destruct (plan_of_groups step batch_id descriptor leased)
    as (entries & reqs & idx & i & g & Hbe & Hlocks & [_ Hcon _ _ _ _ _ _] & Ec & _ & _ & El).
  rewrite Ec, El.
  assert (∀ n z, leased !! n = Some z → ref_id ∈ writes z →
    ∃ m, writes_at reqs m ref_id ∧ idx !! m = Some n) as Hreq.
  { intros n [l t] Hn Hz. apply list_elem_of_fmap in Hz as (q & -> & [Hw Hq]%list_elem_of_filter).
    destruct (proj2 (build_entries_requirements leased 0 0 q n)) as (m & Hm & Hi).
    { by exists l, t. }
    rewrite Hbe in Hm, Hi. simpl in *. exists m. split; [by exists q|done]. }
  destruct (Hreq a x Ha Hx) as (m & Hm & Hma). destruct (Hreq b y Hb Hy) as (m' & Hm' & Hmb).
  assert (m ≠ m') as Hmm by congruence.
  assert (∀ n z, leased !! n = Some z →
    n ∈ conflict_entry_indices (pi_write_locks i) idx → t_task_id z.2 ∈ gr_conflict_entries g) as Hin.
  { intros n z Hn Hc. apply Hcon.
    pose proof (build_entries_ids leased 0 0) as Hids. rewrite Hbe in Hids. cbn [fst] in Hids.
    assert ((be_entry_id <$> entries) !! n = Some (t_task_id z.2)) as He.
    { by rewrite Hids, list_lookup_fmap, Hn. }
    rewrite list_lookup_fmap in He. destruct (entries !! n) as [e|] eqn:En; [|done].
    simplify_eq/=. eauto. }
  assert (t_task_id x.2 ∈ gr_conflict_entries g) as Hcx.
  { apply (Hin a x Ha). apply (conflicts_exact reqs idx i a Hlocks).
    exists m, m', ref_id. done. }
  split; [done|]. split.
  - apply (Hin b y Hb). apply (conflicts_exact reqs idx i b Hlocks). exists m', m, ref_id. done.
  - rewrite bool_decide_false; [done|]. intros Hnil. rewrite Hnil in Hcx. by apply elem_of_nil in Hcx.
Qed.

End theorems.

(** ** Witnesses *)

#[local] Definition text_serde : Serde :=
  {| Value := string; Value_eq_dec := _; Value_null := "null"; Any := string;
     value_to_writer := λ v, Ok [N.of_nat (String.length v)];
     any_to_writer := λ v, Ok [N.of_nat (String.length v)];
     any_to_json := λ v, Ok v |}.
#[local] Existing Instance text_serde.

Definition writing_task (id ref_id : string) : TaskLease * Task :=
  (mkTaskLease ("lease-" +:+ id) id 1 "runner" "executor" 1 1 None,
   mkTask id "echo" 0 None (PayloadJson "null") [] None None None None None [] None None None 1 []
     Normal OrderingNone [mkResourceRequirement ref_id Write None] 0).

Definition sample_descriptor : RunnerDescriptor :=
  {| rd_runner_id := "runner"; rd_plugin_id := "plugin"; rd_plugin_generation := 1;
     rd_accepted_protocol_ids := ["echo"]; rd_purity := Pure; rd_execution_class := Cpu;
     rd_invocation_mode := SyncExclusive; rd_concurrency := Exclusive; rd_input_schema := "null";
     rd_output_schema := "null"; rd_batch := RunnerBatchCapability_default;
     rd_payload := RunnerPayloadCapability_default;
     rd_resources := RunnerResourceCapability_default;
     rd_ordering := RunnerOrderingCapability_default;
     rd_control := RunnerControlCapability_default; rd_metadata := ∅; rd_contract_surfaces := [] |}.

Lemma conflicting_writes_are_serialised_witness :
  let plan := plan_of 3 "batch" sample_descriptor [writing_task "a" "file"; writing_task "b" "file"] in
  "a" ∈ wrp_conflict_entries plan ∧ "b" ∈ wrp_conflict_entries plan
  ∧ wrp_parallelism_limit plan = 1%N.
Proof.
  apply (conflicting_writes_are_serialised 3 "batch" sample_descriptor
    [writing_task "a" "file"; writing_task "b" "file"] 0 1 (writing_task "a" "file")
    (writing_task "b" "file") "file"); [done|done|done| |];
    apply list_elem_of_singleton; reflexivity.
Defined.
