(* ===== verification/Registry.v ===== *)
(** * Registry: runners, handler bindings and the checks of a load plan

    Models [core/src/registry.rs] and the traits of [core/src/runner.rs].  The runner
    and async handler objects are the class [RunnerTrait], a parameter: whatever a
    plugin implements.  A method that takes [&mut self] returns the registry it leaves
    beside its answer, also on errors. *)
From Stdlib Require Import SpecFloat.
From S2P Require Import Prelude Floats Contracts StateStore Resources Logs.
From S2P Require Import TaskIndexes TaskPool TaskClaiming Plugins Batches WorkBatches.

Definition ERR_REGISTRY_FROZEN : string := "registry.frozen".
Definition ERR_REGISTRY_UNAUTHORIZED : string := "registry.unauthorized".
Definition ERR_RUNNER_NOT_FOUND : string := "runner.not_found".
Definition ERR_RELOAD_BLOCKED : string := "plugin.reload_blocked".

(** ** Equality of descriptors *)

#[global] Instance ExecutionClass_eq_dec : EqDecision ExecutionClass.
Proof. solve_decision. Defined.
#[global] Instance InvocationMode_eq_dec : EqDecision InvocationMode.
Proof. solve_decision. Defined.
#[global] Instance RunnerConcurrency_eq_dec : EqDecision RunnerConcurrency.
Proof. solve_decision. Defined.
#[global] Instance RunnerPurity_eq_dec : EqDecision RunnerPurity.
Proof. solve_decision. Defined.
#[global] Instance RunnerMode_eq_dec : EqDecision RunnerMode.
Proof. solve_decision. Defined.
#[global] Instance RunnerSideEffect_eq_dec : EqDecision RunnerSideEffect.
Proof. solve_decision. Defined.
#[global] Instance PayloadLayout_eq_dec : EqDecision PayloadLayout.
Proof. solve_decision. Defined.
#[global] Instance TimeoutGranularity_eq_dec : EqDecision TimeoutGranularity.
Proof. solve_decision. Defined.
#[global] Instance RunnerBatchCapability_eq_dec : EqDecision RunnerBatchCapability.
Proof. solve_decision. Defined.
#[global] Instance RunnerPayloadCapability_eq_dec : EqDecision RunnerPayloadCapability.
Proof. solve_decision. Defined.
#[global] Instance RunnerResourceCapability_eq_dec : EqDecision RunnerResourceCapability.
Proof. solve_decision. Defined.
#[global] Instance RunnerOrderingCapability_eq_dec : EqDecision RunnerOrderingCapability.
Proof. solve_decision. Defined.
#[global] Instance RunnerControlCapability_eq_dec : EqDecision RunnerControlCapability.
Proof. solve_decision. Defined.

Definition metadata_eqb (a b : gmap string ScalarValue) : bool :=
  bool_decide (dom a = dom b)
  && forallb (λ '(key, v), match b !! key with Some w => scalar_value_eqb v w | None => false end)
       (map_to_list a).

Section registry.
Context {serde : Serde}.

Definition descriptor_eqb (a b : RunnerDescriptor) : bool :=
  bool_decide (rd_runner_id a = rd_runner_id b)
  && bool_decide (rd_plugin_id a = rd_plugin_id b)
  && bool_decide (rd_plugin_generation a = rd_plugin_generation b)
  && bool_decide (rd_accepted_protocol_ids a = rd_accepted_protocol_ids b)
  && bool_decide (rd_purity a = rd_purity b)
  && bool_decide (rd_execution_class a = rd_execution_class b)
  && bool_decide (rd_invocation_mode a = rd_invocation_mode b)
  && bool_decide (rd_concurrency a = rd_concurrency b)
  && bool_decide (rd_input_schema a = rd_input_schema b)
  && bool_decide (rd_output_schema a = rd_output_schema b)
  && bool_decide (rd_batch a = rd_batch b)
  && bool_decide (rd_payload a = rd_payload b)
  && bool_decide (rd_resources a = rd_resources b)
  && bool_decide (rd_ordering a = rd_ordering b)
  && bool_decide (rd_control a = rd_control b)
  && metadata_eqb (rd_metadata a) (rd_metadata b)
  && bool_decide (rd_contract_surfaces a = rd_contract_surfaces b).

(** ** The runner traits

    [handler_dispose] is [management_handle().map(|m| m.dispose())]. *)
Class RunnerTrait := {
  Runner : Type;
  runner_descriptor : Runner → RunnerDescriptor;
  runner_run_batch : Runner → RunnerContext → WorkBatch → Runner * RuntimeResult CompletionBatch;
  runner_cancel : Runner → string → Runner * RuntimeResult ();
  runner_dispose : Runner → Runner * RuntimeResult ();
  AsyncHandler : Type;
  handler_descriptor : AsyncHandler → RunnerDescriptor;
  handler_dispose : AsyncHandler → option (RuntimeResult ());
}.

Context {runners : RunnerTrait}.

(** ** Handler bindings *)

Record HandlerBindingRegistry : Type := mkHandlerBindingRegistry {
  hbr_bindings : list HandlerBinding;
}.

Definition binding_order (a b : HandlerBinding) : comparison :=
  then_with (String.compare (hb_protocol_id a) (hb_protocol_id b))
    (then_with (Z.compare (hb_priority b) (hb_priority a))
       (String.compare (hb_binding_id a) (hb_binding_id b))).

Definition from_load_plan (plan : RuntimeLoadPlan) : HandlerBindingRegistry :=
  mkHandlerBindingRegistry
    (sort_by binding_order
       (plan_plugins plan ≫= λ plugin, pv_handler_bindings (pm_provides plugin))).

(** [Iterator::take_while]. *)
Fixpoint take_while {A} (f : A → bool) (l : list A) : list A :=
  match l with
  | [] => []
  | x :: l => if f x then x :: take_while f l else []
  end.

(** [slice::partition_point]: the binary search halves the window of [size] elements from
    [base] on, and the last element left decides. *)
Definition matches_at {A} (f : A → bool) (l : list A) (i : nat) : bool :=
  match l !! i with Some x => f x | None => false end.
Fixpoint bisect_loop {A} (fuel : nat) (f : A → bool) (l : list A) (base size : nat) : nat :=
  match fuel with
  | O => base
  | S fuel =>
      if decide (1 < size)%nat then
        let half := Nat.div2 size in
        let mid := (base + half)%nat in
        bisect_loop fuel f l (if matches_at f l mid then mid else base) (size - half)
      else base
  end.
Definition partition_point {A} (f : A → bool) (l : list A) : nat :=
  match length l with
  | O => O
  | size =>
      let base := bisect_loop size f l 0 size in
      if matches_at f l base then S base else base
  end.

Definition string_ltb (a b : string) : bool :=
  match String.compare a b with Lt => true | _ => false end.

Definition query_protocol (r : HandlerBindingRegistry) (protocol_id : ProtocolId)
    : list HandlerBinding :=
  let start :=
    partition_point (λ binding, string_ltb (hb_protocol_id binding) protocol_id) (hbr_bindings r) in
  take_while (λ binding, bool_decide (hb_protocol_id binding = protocol_id))
    (drop start (hbr_bindings r)).

(** ** The runner registry *)

Record RunnerHeartbeat : Type := mkRunnerHeartbeat {
  hbt_runner_id : RunnerId;
  hbt_executor_id : ExecutorId;
  hbt_last_seen_step : N;
}.

Record RunnerCapabilityDeclaration : Type := mkRunnerCapabilityDeclaration {
  rcd_runner_id : RunnerId;
  rcd_protocol_ids : list ProtocolId;
  rcd_capacity : N;
}.

Record RunnerRegistry : Type := mkRunnerRegistry {
  reg_runners : gmap RunnerId (list Runner);
  reg_async_handlers : gmap RunnerId AsyncHandler;
  reg_descriptors : gmap RunnerId RunnerDescriptor;
  reg_descriptor_snapshot : list RunnerDescriptor;
  reg_heartbeats : gmap RunnerId RunnerHeartbeat;
  reg_capabilities : gmap RunnerId RunnerCapabilityDeclaration;
  reg_frozen : bool;
  reg_generation : N;
}.

Definition RunnerRegistry_default : RunnerRegistry := mkRunnerRegistry ∅ ∅ ∅ [] ∅ ∅ false 0.

Definition set_reg_runners (v : gmap RunnerId (list Runner)) (r : RunnerRegistry) : RunnerRegistry :=
  mkRunnerRegistry v (reg_async_handlers r) (reg_descriptors r) (reg_descriptor_snapshot r)
    (reg_heartbeats r) (reg_capabilities r) (reg_frozen r) (reg_generation r).
Definition set_reg_async_handlers (v : gmap RunnerId AsyncHandler) (r : RunnerRegistry) : RunnerRegistry :=
  mkRunnerRegistry (reg_runners r) v (reg_descriptors r) (reg_descriptor_snapshot r)
    (reg_heartbeats r) (reg_capabilities r) (reg_frozen r) (reg_generation r).
Definition set_reg_descriptors (v : gmap RunnerId RunnerDescriptor) (r : RunnerRegistry) : RunnerRegistry :=
  mkRunnerRegistry (reg_runners r) (reg_async_handlers r) v (reg_descriptor_snapshot r)
    (reg_heartbeats r) (reg_capabilities r) (reg_frozen r) (reg_generation r).
Definition set_reg_snapshot (v : list RunnerDescriptor) (r : RunnerRegistry) : RunnerRegistry :=
  mkRunnerRegistry (reg_runners r) (reg_async_handlers r) (reg_descriptors r) v
    (reg_heartbeats r) (reg_capabilities r) (reg_frozen r) (reg_generation r).
Definition set_reg_heartbeats (v : gmap RunnerId RunnerHeartbeat) (r : RunnerRegistry) : RunnerRegistry :=
  mkRunnerRegistry (reg_runners r) (reg_async_handlers r) (reg_descriptors r)
    (reg_descriptor_snapshot r) v (reg_capabilities r) (reg_frozen r) (reg_generation r).
Definition set_reg_capabilities (v : gmap RunnerId RunnerCapabilityDeclaration) (r : RunnerRegistry)
    : RunnerRegistry :=
  mkRunnerRegistry (reg_runners r) (reg_async_handlers r) (reg_descriptors r)
    (reg_descriptor_snapshot r) (reg_heartbeats r) v (reg_frozen r) (reg_generation r).

Definition registry_failure (code route : string) : RuntimeFailure :=
  runtime_failure code "runtime.runner_registry" route.

Definition duplicate_runner (runner_id : string) : RuntimeFailure :=
  registry_failure ERR_REGISTRY_UNAUTHORIZED ("runner." +:+ runner_id +:+ ".duplicate").

Definition normalized_descriptor (d : RunnerDescriptor) : RunnerDescriptor :=
  {| rd_runner_id := rd_runner_id d; rd_plugin_id := rd_plugin_id d;
     rd_plugin_generation := rd_plugin_generation d;
     rd_accepted_protocol_ids := dedup (sort_by String.compare (rd_accepted_protocol_ids d));
     rd_purity := rd_purity d; rd_execution_class := rd_execution_class d;
     rd_invocation_mode := rd_invocation_mode d; rd_concurrency := rd_concurrency d;
     rd_input_schema := rd_input_schema d; rd_output_schema := rd_output_schema d;
     rd_batch := rd_batch d; rd_payload := rd_payload d; rd_resources := rd_resources d;
     rd_ordering := rd_ordering d; rd_control := rd_control d; rd_metadata := rd_metadata d;
     rd_contract_surfaces := rd_contract_surfaces d |}.

Definition descriptor_id_order (left right : RunnerDescriptor) : comparison :=
  String.compare (rd_runner_id left) (rd_runner_id right).

Definition rebuild_descriptor_snapshot (r : RunnerRegistry) : RunnerRegistry :=
  set_reg_snapshot (sort_by descriptor_id_order (map_to_list (reg_descriptors r)).*2) r.

Definition allowed_instances (d : RunnerDescriptor) : N :=
  match rd_concurrency d with Sharded instances => instances | _ => 1 end.

Definition register (runner : Runner) (r : RunnerRegistry) : RunnerRegistry * RuntimeResult () :=
  if reg_frozen r then (r, Err (registry_failure ERR_REGISTRY_FROZEN "runner.register"))
  else
    let runner_id := rd_runner_id (runner_descriptor runner) in
    let descriptor := normalized_descriptor (runner_descriptor runner) in
    if bool_decide (is_Some (reg_async_handlers r !! runner_id)) then
      (r, Err (duplicate_runner runner_id))
    else if match reg_descriptors r !! runner_id with
            | Some existing => negb (descriptor_eqb existing descriptor)
            | None => false
            end then (r, Err (duplicate_runner runner_id))
    else
      let instances := default [] (reg_runners r !! runner_id) in
      if decide (allowed_instances descriptor ≤ N.of_nat (length instances))%N then
        (set_reg_runners (<[runner_id := instances]> (reg_runners r)) r,
         Err (duplicate_runner runner_id))
      else
        let r := set_reg_runners (<[runner_id := instances ++ [runner]]> (reg_runners r)) r in
        let r := set_reg_descriptors (<[runner_id := descriptor]> (reg_descriptors r)) r in
        (rebuild_descriptor_snapshot r, Ok tt).

Definition is_async_mode (mode : InvocationMode) : bool :=
  match mode with AsyncReentrant | AsyncExclusive => true | _ => false end.

Definition register_async_handler (handler : AsyncHandler) (r : RunnerRegistry)
    : RunnerRegistry * RuntimeResult () :=
  if reg_frozen r then (r, Err (registry_failure ERR_REGISTRY_FROZEN "async_handler.register"))
  else
    let descriptor := normalized_descriptor (handler_descriptor handler) in
    let runner_id := rd_runner_id descriptor in
    if bool_decide (is_Some (reg_descriptors r !! runner_id))
       || bool_decide (is_Some (reg_runners r !! runner_id))
       || bool_decide (is_Some (reg_async_handlers r !! runner_id)) then
      (r, Err (duplicate_runner runner_id))
    else if negb (is_async_mode (rd_invocation_mode descriptor)) then
      (r, Err (registry_failure ERR_REGISTRY_UNAUTHORIZED
                 ("runner." +:+ runner_id +:+ ".async_invocation_mode")))
    else
      let r := set_reg_descriptors (<[runner_id := descriptor]> (reg_descriptors r)) r in
      let r := set_reg_async_handlers (<[runner_id := handler]> (reg_async_handlers r)) r in
      (rebuild_descriptor_snapshot r, Ok tt).

Definition unregister (runner_id : RunnerId) (r : RunnerRegistry)
    : RunnerRegistry * RuntimeResult (option Runner) :=
  if reg_frozen r then
    (r, Err (registry_failure ERR_REGISTRY_FROZEN ("runner.unregister." +:+ runner_id)))
  else
    let r := set_reg_heartbeats (delete runner_id (reg_heartbeats r)) r in
    let r := set_reg_capabilities (delete runner_id (reg_capabilities r)) r in
    let r := set_reg_async_handlers (delete runner_id (reg_async_handlers r)) r in
    let r := set_reg_descriptors (delete runner_id (reg_descriptors r)) r in
    let r := rebuild_descriptor_snapshot r in
    (set_reg_runners (delete runner_id (reg_runners r)) r,
     Ok (reg_runners r !! runner_id ≫= last)).

Definition freeze (generation : N) (r : RunnerRegistry) : RunnerRegistry :=
  mkRunnerRegistry (reg_runners r) (reg_async_handlers r) (reg_descriptors r)
    (reg_descriptor_snapshot r) (reg_heartbeats r) (reg_capabilities r) true generation.

Definition instances_of (r : RunnerRegistry) (runner_id : RunnerId) : N :=
  match reg_runners r !! runner_id with
  | Some instances => N.of_nat (length instances)
  | None => if bool_decide (is_Some (reg_async_handlers r !! runner_id)) then 1 else 0
  end.

(** The loop over [descriptors.values()]. *)
Fixpoint check_instance_counts (r : RunnerRegistry) (descriptors : list RunnerDescriptor)
    : RuntimeResult () :=
  match descriptors with
  | [] => Ok tt
  | descriptor :: rest =>
      let expected := allowed_instances descriptor in
      let actual := instances_of r (rd_runner_id descriptor) in
      if decide (actual ≠ expected) then
        Err (registry_failure ERR_REGISTRY_UNAUTHORIZED
               ("runner." +:+ rd_runner_id descriptor +:+ ".instances." +:+ pretty actual
                +:+ ".expected." +:+ pretty expected))
      else check_instance_counts r rest
  end.

Definition validate_instance_counts (r : RunnerRegistry) : RuntimeResult () :=
  check_instance_counts r (map_to_list (reg_descriptors r)).*2.

Definition registry_descriptors (r : RunnerRegistry) : list RunnerDescriptor :=
  reg_descriptor_snapshot r.
Definition registry_descriptor (r : RunnerRegistry) (runner_id : RunnerId) : option RunnerDescriptor :=
  reg_descriptors r !! runner_id.
Definition runner_ids (r : RunnerRegistry) : list RunnerId :=
  rd_runner_id <$> reg_descriptor_snapshot r.

Definition heartbeat (runner_id : RunnerId) (executor_id : ExecutorId) (current_step : N)
    (r : RunnerRegistry) : RunnerRegistry * RuntimeResult RunnerHeartbeat :=
  if negb (bool_decide (is_Some (reg_descriptors r !! runner_id))) then
    (r, Err (registry_failure ERR_RUNNER_NOT_FOUND ("runner.heartbeat." +:+ runner_id)))
  else
    let beat := mkRunnerHeartbeat runner_id executor_id current_step in
    (set_reg_heartbeats (<[runner_id := beat]> (reg_heartbeats r)) r, Ok beat).

Definition declare_capability (runner_id : RunnerId) (protocol_ids : list ProtocolId) (capacity : N)
    (r : RunnerRegistry) : RunnerRegistry * RuntimeResult RunnerCapabilityDeclaration :=
  match reg_descriptors r !! runner_id with
  | None => (r, Err (registry_failure ERR_RUNNER_NOT_FOUND ("runner.capability." +:+ runner_id)))
  | Some descriptor =>
      if existsb (λ protocol_id, negb (bool_decide (protocol_id ∈ rd_accepted_protocol_ids descriptor)))
           protocol_ids then
        (r, Err (registry_failure ERR_REGISTRY_UNAUTHORIZED ("runner.capability." +:+ runner_id)))
      else
        let declaration := mkRunnerCapabilityDeclaration runner_id protocol_ids capacity in
        (set_reg_capabilities (<[runner_id := declaration]> (reg_capabilities r)) r, Ok declaration)
  end.

(** [pop] takes the last instance. *)
Definition take_runner (runner_id : RunnerId) (r : RunnerRegistry) : RunnerRegistry * option Runner :=
  match reg_runners r !! runner_id with
  | None => (r, None)
  | Some instances =>
      match last instances with
      | None => (r, None)
      | Some runner =>
          (set_reg_runners (<[runner_id := removelast instances]> (reg_runners r)) r, Some runner)
      end
  end.

Definition available_dispatch_instances (r : RunnerRegistry) (runner_id : RunnerId) : N :=
  if bool_decide (is_Some (reg_async_handlers r !! runner_id)) then u64_max
  else match reg_runners r !! runner_id with
       | Some instances => N.of_nat (length instances)
       | None => 0
       end.

(** Hands the instance back when it does not belong here. *)
Definition put_runner (runner : Runner) (instance_generation : N) (r : RunnerRegistry)
    : RunnerRegistry * option Runner :=
  let runner_id := rd_runner_id (runner_descriptor runner) in
  if bool_decide (instance_generation ≠ 0%N) && bool_decide (reg_generation r ≠ 0%N)
     && bool_decide (instance_generation ≠ reg_generation r) then (r, Some runner)
  else if negb (bool_decide (is_Some (reg_descriptors r !! runner_id))) then (r, Some runner)
  else
    (set_reg_runners
       (<[runner_id := default [] (reg_runners r !! runner_id) ++ [runner]]> (reg_runners r)) r, None).

Definition async_handler (r : RunnerRegistry) (runner_id : RunnerId) : option AsyncHandler :=
  reg_async_handlers r !! runner_id.

(** ** Splitting and merging registries *)

(** [if let Some(v) = from.remove(id) { to.insert(id, v) }]. *)
Definition move_entry {V} (id : RunnerId) (from to : gmap RunnerId V) : gmap RunnerId V :=
  match from !! id with Some v => <[id := v]> to | None => to end.

(** One turn of the loop: what the registry [from] holds under the id moves on. *)
Definition move_runner (from target : RunnerRegistry) (id : RunnerId) (d : RunnerDescriptor)
    : RunnerRegistry :=
  mkRunnerRegistry (move_entry id (reg_runners from) (reg_runners target))
    (move_entry id (reg_async_handlers from) (reg_async_handlers target))
    (<[id := d]> (reg_descriptors target)) (reg_descriptor_snapshot target)
    (move_entry id (reg_heartbeats from) (reg_heartbeats target))
    (move_entry id (reg_capabilities from) (reg_capabilities target))
    (reg_frozen target) (reg_generation target).

Definition forget_runner (r : RunnerRegistry) (id : RunnerId) : RunnerRegistry :=
  mkRunnerRegistry (delete id (reg_runners r)) (delete id (reg_async_handlers r))
    (reg_descriptors r) (reg_descriptor_snapshot r) (delete id (reg_heartbeats r))
    (delete id (reg_capabilities r)) (reg_frozen r) (reg_generation r).

Fixpoint partition_loop (plugin_ids : gset PluginId) (descriptors : list (RunnerId * RunnerDescriptor))
    (from retained selected : RunnerRegistry) : RunnerRegistry * RunnerRegistry :=
  match descriptors with
  | [] => (retained, selected)
  | (id, d) :: rest =>
      if decide (rd_plugin_id d ∈ plugin_ids) then
        partition_loop plugin_ids rest (forget_runner from id) retained (move_runner from selected id d)
      else
        partition_loop plugin_ids rest (forget_runner from id) (move_runner from retained id d) selected
  end.

Definition empty_registry (generation : N) : RunnerRegistry :=
  mkRunnerRegistry ∅ ∅ ∅ [] ∅ ∅ false generation.

(** The retained half and the selected one. *)
Definition partition_by_plugins (plugin_ids : gset PluginId) (r : RunnerRegistry)
    : RunnerRegistry * RunnerRegistry :=
  let '(retained, selected) :=
    partition_loop plugin_ids (map_to_list (reg_descriptors r)) r
      (empty_registry (reg_generation r)) (empty_registry (reg_generation r)) in
  (rebuild_descriptor_snapshot retained, rebuild_descriptor_snapshot selected).

(** [extend]: the entries of [other] replace those under the same key. *)
Definition absorb (other r : RunnerRegistry) : RunnerRegistry :=
  rebuild_descriptor_snapshot
    (mkRunnerRegistry (reg_runners other ∪ reg_runners r)
       (reg_async_handlers other ∪ reg_async_handlers r)
       (reg_descriptors other ∪ reg_descriptors r) (reg_descriptor_snapshot r)
       (reg_heartbeats other ∪ reg_heartbeats r) (reg_capabilities other ∪ reg_capabilities r)
       (reg_frozen r) (reg_generation r)).

(** ** Cancelling and disposing *)

Definition cancel_runner (runner_id : RunnerId) (invocation_id : string) (r : RunnerRegistry)
    : RunnerRegistry * RuntimeResult () :=
  match reg_runners r !! runner_id with
  | Some instances =>
      match last instances with
      | Some runner =>
          let '(runner, res) := runner_cancel runner invocation_id in
          (set_reg_runners (<[runner_id := removelast instances ++ [runner]]> (reg_runners r)) r, res)
      | None =>
          (r, Err (registry_failure ERR_RUNNER_NOT_FOUND ("runner.cancel." +:+ runner_id)))
      end
  | None => (r, Err (registry_failure ERR_RUNNER_NOT_FOUND ("runner.cancel." +:+ runner_id)))
  end.

(** The instances of one id, in order; the first failure stops. *)
Fixpoint dispose_instances (instances : list Runner) (bag : list RunnerId)
    : list Runner * RuntimeResult (list RunnerId) :=
  match instances with
  | [] => ([], Ok bag)
  | runner :: rest =>
      let '(runner, res) := runner_dispose runner in
      match res with
      | Err e => (runner :: rest, Err e)
      | Ok _ =>
          let '(rest, res) := dispose_instances rest (bag ++ [rd_runner_id (runner_descriptor runner)]) in
          (runner :: rest, res)
      end
  end.

Fixpoint dispose_runners (ids : list RunnerId) (all : gmap RunnerId (list Runner)) (bag : list RunnerId)
    : gmap RunnerId (list Runner) * RuntimeResult (list RunnerId) :=
  match ids with
  | [] => (all, Ok bag)
  | id :: ids =>
      let '(instances, res) := dispose_instances (default [] (all !! id)) bag in
      let all := <[id := instances]> all in
      match res with
      | Err e => (all, Err e)
      | Ok bag => dispose_runners ids all bag
      end
  end.

Fixpoint dispose_handlers (handlers : list AsyncHandler) (bag : list RunnerId)
    : RuntimeResult (list RunnerId) :=
  match handlers with
  | [] => Ok bag
  | handler :: rest =>
      match handler_dispose handler with
      | Some (Err e) => Err e
      | _ => dispose_handlers rest (bag ++ [rd_runner_id (handler_descriptor handler)])
      end
  end.

Definition dispose_all (r : RunnerRegistry) : RunnerRegistry * RuntimeResult (list RunnerId) :=
  let '(all, res) := dispose_runners (map_to_list (reg_runners r)).*1 (reg_runners r) [] in
  let r := set_reg_runners all r in
  match res with
  | Err e => (r, Err e)
  | Ok bag => (r, dispose_handlers (map_to_list (reg_async_handlers r)).*2 bag)
  end.

(** ** Generations, snapshots and decisions *)

Inductive PluginGenerationPhase : Type :=
| ShadowStarting | PhaseActive | PhaseDraining | PhaseDisposed.

#[global] Instance PluginGenerationPhase_eq_dec : EqDecision PluginGenerationPhase.
Proof. solve_decision. Defined.

Record PluginGenerationState : Type := mkPluginGenerationState {
  gs_plugin_id : PluginId;
  gs_generation : N;
  gs_phase : PluginGenerationPhase;
}.

Record RegistrySnapshot : Type := mkRegistrySnapshot {
  rsn_generation : N;
  rsn_frozen : bool;
  rsn_runners : list RunnerDescriptor;
  rsn_handler_bindings : list HandlerBinding;
  rsn_surfaces : list ContractSurface;
}.

Record ContractChange : Type := mkContractChange {
  cc_surface_id : SurfaceId;
  cc_compatibility : SurfaceCompatibility;
}.

Record ReloadDecision : Type := mkReloadDecision {
  rld_changes : list ContractChange;
  rld_blocked : bool;
}.

End registry.
