(* ===== verification/PlanChecks.v ===== *)
(** * PlanChecks: validation of load plans and comparison of surfaces

    Models the free functions of [core/src/registry.rs]: what a load plan must satisfy
    before its runners are registered, and the decision a reload takes from the old and
    the new contract surfaces and their occupancy. *)
From S2P Require Import Prelude Floats Contracts StateStore Resources Logs.
From S2P Require Import TaskIndexes TaskPool TaskClaiming Plugins Batches WorkBatches Registry.

(** Runs a check on each element; the first error wins. *)
Fixpoint check_all {A} (check : A → RuntimeResult ()) (l : list A) : RuntimeResult () :=
  match l with
  | [] => Ok tt
  | x :: l => match check x with Ok _ => check_all check l | Err e => Err e end
  end.

Section checks.
Context {serde : Serde}.

Definition plan_failure (route : string) : RuntimeFailure :=
  runtime_failure ERR_REGISTRY_UNAUTHORIZED "runtime.load_plan" route.

Definition planned_runners (plan : RuntimeLoadPlan) : list RunnerDescriptor :=
  plan_plugins plan ≫= λ plugin, pv_runners (pm_provides plugin).

(** ** Runner privileges *)

Definition invocation_matches_concurrency (mode : InvocationMode) (concurrency : RunnerConcurrency)
    : bool :=
  match mode, concurrency with
  | SyncExclusive, Exclusive | SyncExclusive, Sharded _ | AsyncExclusive, Exclusive
  | AsyncReentrant, Reentrant _ _ | ExternalProcess, Exclusive | ExternalProcess, Sharded _ => true
  | _, _ => false
  end.

Definition validate_runner_batch_capabilities (runner : RunnerDescriptor) : RuntimeResult () :=
  let batch := rd_batch runner in
  let declared_batches := max_inflight_batches (rd_concurrency runner) in
  let declared_entries := max_inflight_entries (rd_concurrency runner) (rbc_max_batch_entries batch) in
  let id := rd_runner_id runner in
  if bool_decide (rbc_preferred_batch_size batch = 0%N)
     || bool_decide (rbc_max_batch_entries batch = 0%N)
     || bool_decide (rbc_max_entry_concurrency batch = 0%N)
     || bool_decide (rbc_max_inflight_batches batch = 0%N)
     || bool_decide (rbc_max_inflight_batches batch ≠ declared_batches)
     || bool_decide (declared_batches = 0%N)
     || bool_decide (declared_entries = 0%N)
     || bool_decide (rbc_max_batch_entries batch < rbc_preferred_batch_size batch)%N
     || bool_decide (rbc_max_batch_entries batch < rbc_max_entry_concurrency batch)%N
  then Err (plan_failure ("runner." +:+ id +:+ ".batch"))
  else if negb (invocation_matches_concurrency (rd_invocation_mode runner) (rd_concurrency runner))
  then Err (plan_failure ("runner." +:+ id +:+ ".concurrency"))
  else if bool_decide (rpc_layouts (rd_payload runner) = [])
          || negb (bool_decide (rpc_preferred_layout (rd_payload runner) ∈ rpc_layouts (rd_payload runner)))
          || negb (bool_decide (Row ∈ rpc_layouts (rd_payload runner)))
  then Err (plan_failure ("runner." +:+ id +:+ ".payload"))
  else
    match roc_default (rd_ordering runner) with
    | StrictSequence _ =>
        if negb (roc_supports_sequence (rd_ordering runner))
        then Err (plan_failure ("runner." +:+ id +:+ ".ordering.sequence")) else Ok tt
    | SameResourceOrder _ =>
        if negb (roc_supports_same_resource_order (rd_ordering runner))
        then Err (plan_failure ("runner." +:+ id +:+ ".ordering.resource")) else Ok tt
    | _ => Ok tt
    end.

Definition validate_runner_privilege (runner : RunnerDescriptor) : RuntimeResult () :=
  if bool_decide (rd_purity runner = Committer) && bool_decide (rd_runner_id runner ≠ "core.kernel")
  then Err (plan_failure ("runner." +:+ rd_runner_id runner +:+ ".committer"))
  else if bool_decide (rd_execution_class runner = ExecControl)
          && bool_decide (rd_runner_id runner ≠ "core.kernel")
  then Err (plan_failure ("runner." +:+ rd_runner_id runner +:+ ".control"))
  else validate_runner_batch_capabilities runner.

(** ** Protocol classes *)

(** [find_map] over the plugins. *)
Fixpoint class_of_protocol (plugins : list PluginManifest) (protocol_id : ProtocolId)
    : option ProtocolClass :=
  match plugins with
  | [] => None
  | plugin :: rest =>
      match pv_protocol_classes (pm_provides plugin) !! protocol_id with
      | Some class => Some class
      | None => class_of_protocol rest protocol_id
      end
  end.

Definition matches_purity (purity : RunnerPurity) (class : ProtocolClass) : bool :=
  match purity, class with
  | Pure, ClassDomain | Effectful, ClassEffect | Committer, ClassCore | Committer, ClassControl => true
  | _, _ => false
  end.

Definition class_failure (runner : RunnerDescriptor) (protocol_id : ProtocolId) (what : string)
    : RuntimeFailure :=
  runtime_failure ERR_REGISTRY_UNAUTHORIZED "runtime.load_plan.protocol_class"
    ("runner." +:+ rd_runner_id runner +:+ ".protocol." +:+ protocol_id +:+ what).

Definition check_protocol_class (plan : RuntimeLoadPlan) (runner : RunnerDescriptor)
    (protocol_id : ProtocolId) : RuntimeResult () :=
  match class_of_protocol (plan_plugins plan) protocol_id with
  | None => Err (class_failure runner protocol_id ".unknown")
  | Some class =>
      if negb (matches_purity (rd_purity runner) class)
         || (bool_decide (class = ClassControl) && bool_decide (rd_execution_class runner ≠ ExecControl))
      then Err (class_failure runner protocol_id ".purity_conflict")
      else Ok tt
  end.

Definition validate_runner_protocol_classes (plan : RuntimeLoadPlan) (runner : RunnerDescriptor)
    : RuntimeResult () :=
  check_all (check_protocol_class plan runner) (rd_accepted_protocol_ids runner).

(** ** Handler bindings *)

Definition runner_accepts_protocol (runner : RunnerDescriptor) (protocol_id : ProtocolId) : bool :=
  existsb (λ accepted, bool_decide (accepted = protocol_id)) (rd_accepted_protocol_ids runner).

Definition check_handler_binding (runners : list RunnerDescriptor) (binding : HandlerBinding)
    : RuntimeResult () :=
  let target := hb_target_protocol_id binding in
  let id := hb_binding_id binding in
  if negb (existsb (λ runner, runner_accepts_protocol runner target) runners)
  then Err (plan_failure ("handler_binding." +:+ id +:+ ".target_protocol_id." +:+ target))
  else
    match hb_target_runner_hint binding with
    | None => Ok tt
    | Some runner_hint =>
        match find (λ runner, bool_decide (rd_runner_id runner = runner_hint)) runners with
        | None => Err (plan_failure ("handler_binding." +:+ id +:+ ".target_runner_hint." +:+ runner_hint))
        | Some runner =>
            if negb (runner_accepts_protocol runner target)
            then Err (plan_failure ("handler_binding." +:+ id +:+ ".target_runner_hint." +:+ runner_hint
                                    +:+ ".target_protocol_id." +:+ target))
            else Ok tt
        end
    end.

Definition validate_handler_bindings (plan : RuntimeLoadPlan) : RuntimeResult () :=
  check_all (check_handler_binding (planned_runners plan))
    (plan_plugins plan ≫= λ plugin, pv_handler_bindings (pm_provides plugin)).

(** ** The whole plan *)

Definition check_planned (plan : RuntimeLoadPlan) (runner : RunnerDescriptor) : RuntimeResult () :=
  match validate_runner_privilege runner with
  | Err e => Err e
  | Ok _ => validate_runner_protocol_classes plan runner
  end.

Definition check_runner (plan : RuntimeLoadPlan) (runner : RunnerDescriptor) : RuntimeResult () :=
  match find (λ planned, bool_decide (rd_runner_id planned = rd_runner_id runner))
          (planned_runners plan) with
  | None => Err (plan_failure ("runner." +:+ rd_runner_id runner))
  | Some planned =>
      if bool_decide (rd_invocation_mode planned ≠ rd_invocation_mode runner)
         || bool_decide (rd_concurrency planned ≠ rd_concurrency runner)
      then Err (plan_failure ("runner." +:+ rd_runner_id runner +:+ ".invocation"))
      else check_planned plan runner
  end.

Definition validate_runtime_descriptors (plan : RuntimeLoadPlan) (runners : list RunnerDescriptor)
    : RuntimeResult () :=
  match check_all (check_planned plan) (planned_runners plan) with
  | Err e => Err e
  | Ok _ =>
      match check_all (check_runner plan) runners with
      | Err e => Err e
      | Ok _ => validate_handler_bindings plan
      end
  end.

End checks.

(** ** Comparing surfaces *)

(** [collect] into a B-tree map: the last entry of a key stays. *)
Definition map_by {A} (key : A → string) (l : list A) : gmap string A :=
  foldl (λ m x, <[key x := x]> m) ∅ l.

Definition surface_change (new_by_id : gmap SurfaceId ContractSurface)
    (occupancy_by_id : gmap SurfaceId SurfaceOccupancy) (surface_id : SurfaceId)
    (old_surface : ContractSurface) : RuntimeResult ContractChange :=
  match new_by_id !! surface_id with
  | Some new_surface =>
      if decide (sf_fingerprint new_surface = sf_fingerprint old_surface) then
        Ok (mkContractChange surface_id
              (if sf_deprecated new_surface && negb (sf_deprecated old_surface)
               then CompatDeprecated else CompatIdentical))
      else Ok (mkContractChange surface_id CompatBreaking)
  | None =>
      if match occupancy_by_id !! surface_id with
         | None => true
         | Some occupancy => SurfaceOccupancy_is_zero occupancy
         end
      then Ok (mkContractChange surface_id CompatRemoved)
      else Err (runtime_failure ERR_RELOAD_BLOCKED "runtime.reload" ("surface.remove." +:+ surface_id))
  end.

Fixpoint collect_changes (new_by_id : gmap SurfaceId ContractSurface)
    (occupancy_by_id : gmap SurfaceId SurfaceOccupancy) (old : list (SurfaceId * ContractSurface))
    : RuntimeResult (list ContractChange) :=
  match old with
  | [] => Ok []
  | (surface_id, old_surface) :: rest =>
      match surface_change new_by_id occupancy_by_id surface_id old_surface with
      | Err e => Err e
      | Ok change =>
          match collect_changes new_by_id occupancy_by_id rest with
          | Ok changes => Ok (change :: changes)
          | Err e => Err e
          end
      end
  end.

Definition compare_surfaces (old new : list ContractSurface) (occupancy : list SurfaceOccupancy)
    : RuntimeResult ReloadDecision :=
  let old_by_id := map_by sf_surface_id old in
  let new_by_id := map_by sf_surface_id new in
  let occupancy_by_id := map_by so_surface_id occupancy in
  match collect_changes new_by_id occupancy_by_id (btree_entries String.compare old_by_id) with
  | Err e => Err e
  | Ok changes =>
      let additive :=
        omap (λ '(surface_id, _),
          if bool_decide (is_Some (old_by_id !! surface_id)) then None
          else Some (mkContractChange surface_id CompatAdditive))
          (btree_entries String.compare new_by_id) in
      let changes := changes ++ additive in
      Ok (mkReloadDecision changes
            (existsb (λ change, bool_decide (cc_compatibility change = CompatBreaking)) changes))
  end.
