(* ===== verification/RegistryTheorems.v ===== *)
(** * RegistryTheorems: runners, bindings, privileges and surface comparison *)
From S2P Require Import Prelude Floats Contracts StateStore Resources Logs.
From S2P Require Import TaskIndexes TaskPool TaskClaiming Plugins Batches WorkBatches.
From S2P Require Import Registry PlanChecks TaskPoolSamples.

(** ** Sorted strings without duplicates *)

#[global] Instance Z_compare_total : TotalCmp Z.compare.
Proof.
  split; [intros; by rewrite Z.compare_antisym|]. intros x y z. unfold cmp_le.
  rewrite !Z.compare_gt_iff. lia.
Qed.

Lemma string_compare_refl s : String.compare s s = Eq.
Proof. pose proof (cmp_opp (cmp := String.compare) s s) as H. by destruct (String.compare s s). Qed.

Lemma elem_of_dedup x l : x ∈ dedup l ↔ x ∈ l.
Proof.
  induction l as [|y [|z l] IH]; simpl; [done|done|]. simpl in IH.
  case_decide; subst; rewrite ?elem_of_cons in *; naive_solver.
Qed.

Lemma dedup_sorted_NoDup l : StronglySorted (cmp_le String.compare) l → NoDup (dedup l).
Proof.
  induction 1 as [|y l Hl IH Hy]; [constructor|].
  destruct l as [|z l]; [apply NoDup_singleton|]. 
  change (dedup (y :: z :: l)) with (if decide (y = z) then dedup (z :: l) else y :: dedup (z :: l)).
  case_decide as Heq; [done|].
  constructor; [|done]. rewrite elem_of_dedup. intros Hin. apply Heq.
  inversion_clear Hl as [|?? _ Hz]. rewrite Forall_forall in Hy, Hz.
  apply String.compare_eq_iff, cmp_le_antisym; [apply _|by apply Hy; left|].
  apply elem_of_cons in Hin as [->|Hin]; [apply cmp_le_refl, _|by apply Hz].
Qed.

Section registry.
Context {serde : Serde} {runners : RunnerTrait}.
Implicit Types (r : RunnerRegistry) (d : RunnerDescriptor).

Lemma normalized_NoDup d : NoDup (rd_accepted_protocol_ids (normalized_descriptor d)).
Proof. apply dedup_sorted_NoDup, sort_by_sorted, _. Qed.

(** ** The registry invariant *)

Record reg_wf r : Prop := {
  reg_ids : ∀ id d, reg_descriptors r !! id = Some d →
    rd_runner_id d = id ∧ NoDup (rd_accepted_protocol_ids d);
  reg_snapshot : reg_descriptor_snapshot r
    = sort_by descriptor_id_order (map_to_list (reg_descriptors r)).*2;
  reg_instances : ∀ id l, reg_runners r !! id = Some l → l ≠ [] → is_Some (reg_descriptors r !! id);
  reg_handlers : dom (reg_async_handlers r) ⊆ dom (reg_descriptors r);
}.

Lemma reg_wf_snapshot r d :
  reg_wf r → d ∈ reg_descriptor_snapshot r →
  reg_descriptors r !! rd_runner_id d = Some d ∧ NoDup (rd_accepted_protocol_ids d).
Proof.
  intros [Hids Hsnap _ _]. rewrite Hsnap, sort_by_Permutation, list_elem_of_fmap.
  intros ([id d'] & -> & Hin%elem_of_map_to_list). simpl.
  destruct (Hids id d' Hin) as [<- ?]. done.
Qed.

Lemma reg_wf_default : reg_wf RunnerRegistry_default.
Proof.
  split; simpl; try (intros ??; rewrite lookup_empty; done).
  - by rewrite map_to_list_empty.
  - set_solver.
Qed.

Lemma reg_wf_rebuild r :
  (∀ id d, reg_descriptors r !! id = Some d → rd_runner_id d = id ∧ NoDup (rd_accepted_protocol_ids d)) →
  (∀ id l, reg_runners r !! id = Some l → l ≠ [] → is_Some (reg_descriptors r !! id)) →
  dom (reg_async_handlers r) ⊆ dom (reg_descriptors r) → reg_wf (rebuild_descriptor_snapshot r).
Proof. intros. by split. Qed.

Lemma register_reg_wf runner r : reg_wf r → reg_wf (register runner r).1.
Proof.
  intros Hwf. pose proof Hwf as [Hids Hsnap Hinst Hh]. unfold register.
  destruct (reg_frozen r); [done|]. cbn zeta.
  set (id := rd_runner_id (runner_descriptor runner)).
  case_bool_decide; [done|].
  destruct (match reg_descriptors r !! id with Some _ => _ | None => _ end); [done|].
  case_decide as Hlen; simpl.
  - split; simpl; try done. intros id' l Hl Hne. rewrite lookup_insert in Hl. case_decide; [|by eapply Hinst].
    subst. simplify_eq. destruct (reg_runners r !! id) eqn:E; simpl in *; [|done]. by eapply Hinst.
  - apply reg_wf_rebuild; simpl.
    + intros id' d'. rewrite lookup_insert. case_decide; [|apply Hids]. intros [= <-]. subst.
      split; [done|]. apply normalized_NoDup.
    + intros id' l. rewrite !lookup_insert. case_decide; [|apply Hinst]. done.
    + rewrite dom_insert. set_solver.
Qed.

Lemma register_async_wf handler r : reg_wf r → reg_wf (register_async_handler handler r).1.
Proof.
  intros Hwf. pose proof Hwf as [Hids Hsnap Hinst Hh]. unfold register_async_handler.
  destruct (reg_frozen r); [done|]. cbn zeta. destruct (_ || _ || _); [done|].
  destruct (negb _); [done|]. apply reg_wf_rebuild; simpl.
  - intros id' d'. rewrite lookup_insert. case_decide; [|apply Hids]. intros [= <-].
    split; [done|]. apply normalized_NoDup.
  - intros id' l Hl Hne. rewrite lookup_insert. case_decide; [done|]. by eapply Hinst.
  - rewrite !dom_insert. set_solver.
Qed.

Lemma freeze_wf generation r : reg_wf r → reg_wf (freeze generation r).
Proof. by intros []. Qed.

Lemma set_runners_wf r id l :
  reg_wf r → (l ≠ [] → is_Some (reg_descriptors r !! id)) →
  reg_wf (set_reg_runners (<[id := l]> (reg_runners r)) r).
Proof.
  intros [Hids Hsnap Hinst Hh] Hl. split; simpl; try done. intros id' l'.
  rewrite lookup_insert. case_decide; [|apply Hinst]. intros [= <-]. by subst.
Qed.

Lemma take_runner_wf id r : reg_wf r → reg_wf (take_runner id r).1.
Proof.
  intros Hwf. unfold take_runner. destruct (reg_runners r !! id) as [l|] eqn:Hl; [|done].
  destruct (last l) as [x|] eqn:Hx; [|done]. simpl. apply set_runners_wf; [done|].
  intros _. apply (reg_instances r Hwf id l Hl). by intros ->.
Qed.

Lemma put_runner_wf runner generation r : reg_wf r → reg_wf (put_runner runner generation r).1.
Proof.
  intros Hwf. unfold put_runner. cbn zeta. destruct (_ && _); [done|].
  case_bool_decide as Hd; simpl; [|done]. by apply set_runners_wf.
Qed.

Lemma cancel_runner_wf id invocation_id r : reg_wf r → reg_wf (cancel_runner id invocation_id r).1.
Proof.
  intros Hwf. unfold cancel_runner. destruct (reg_runners r !! id) as [l|] eqn:Hl; [|done].
  destruct (last l) as [x|] eqn:Hx; [|done]. destruct (runner_cancel x invocation_id). simpl.
  apply set_runners_wf; [done|]. intros _. apply (reg_instances r Hwf id l Hl). by intros ->.
Qed.

(** ** Borrowing an instance *)

Lemma take_runner_spec id r r' runner :
  take_runner id r = (r', Some runner) →
  ∃ l, reg_runners r !! id = Some (l ++ [runner]) ∧ r' = set_reg_runners (<[id := l]> (reg_runners r)) r.
Proof.
  unfold take_runner. destruct (reg_runners r !! id) as [l|] eqn:Hl; [|done].
  destruct (last l) as [x|] eqn:Hx; [|done]. intros [= <- <-].
  apply last_Some in Hx as [l' ->]. exists l'. split; [done|]. by rewrite removelast_last.
Qed.

(** ** Disposal *)

Lemma dispose_instances_length l bag : length (dispose_instances l bag).1 = length l.
Proof.
  revert bag. induction l as [|x l IH]; intros bag; simpl; [done|].
  destruct (runner_dispose x) as [x' [u|e]]; [|done]. specialize (IH (bag ++ [rd_runner_id (runner_descriptor x')])).
  destruct (dispose_instances l _). simpl in *. by rewrite IH.
Qed.

Lemma dispose_runners_keys ids all bag id l :
  (dispose_runners ids all bag).1 !! id = Some l → l ≠ [] →
  ∃ l', all !! id = Some l' ∧ l' ≠ [].
Proof.
  revert all bag. induction ids as [|x ids IH]; intros all bag; simpl; [eauto|].
  pose proof (dispose_instances_length (default [] (all !! x)) bag) as Hlen.
  destruct (dispose_instances _ bag) as [inst res]. simpl in *.
  assert (∀ l1, <[x := inst]> all !! id = Some l1 → l1 ≠ [] → ∃ l', all !! id = Some l' ∧ l' ≠ []) as Hins.
  { intros l1. rewrite lookup_insert. case_decide; [|eauto]. intros [= <-] Hne. subst.
    destruct (all !! id) as [l'|] eqn:E; simpl in *; [|by destruct inst].
    exists l'. split; [done|]. intros ->. by destruct inst. }
  destruct res as [bag'|e]; simpl; [|apply Hins]. intros H Hne.
  destruct (IH _ _ H Hne) as (l' & Hl' & Hne'). by eapply Hins.
Qed.

Lemma dispose_all_wf r : reg_wf r → reg_wf (dispose_all r).1.
Proof.
  intros [Hids Hsnap Hinst Hh]. unfold dispose_all.
  pose proof (dispose_runners_keys (map_to_list (reg_runners r)).*1 (reg_runners r) []) as Hk.
  destruct (dispose_runners _ _ _) as [all [bag|e]]; simpl in *; split; simpl; try done;
    intros id l Hl Hne; destruct (Hk id l Hl Hne) as (l' & Hl' & Hne'); by eapply Hinst.
Qed.

(** ** Partition and merge *)

(** The registry restricted to the runners of some plugins. *)
Definition restrict_map {V} r (P : RunnerDescriptor → Prop) `{!∀ d, Decision (P d)}
    (m : gmap RunnerId V) (id : RunnerId) : option V :=
  match reg_descriptors r !! id with
  | Some d => if decide (P d) then m !! id else None
  | None => None
  end.

Lemma lookup_move_entry {V} id (from to : gmap RunnerId V) id' :
  to !! id = None →
  move_entry id from to !! id' = if decide (id = id') then from !! id else to !! id'.
Proof.
  intros Hto. unfold move_entry. destruct (from !! id) as [v|] eqn:E.
  - rewrite lookup_insert. by case_decide; subst.
  - by case_decide; subst.
Qed.

(** What the loop has put under an id it has passed. *)
Definition moved r (P : RunnerDescriptor → Prop) `{!∀ d, Decision (P d)} (ids : list RunnerId)
    (target : RunnerRegistry) : Prop :=
  (∀ id, reg_runners target !! id = if decide (id ∈ ids) then restrict_map r P (reg_runners r) id else None)
  ∧ (∀ id, reg_async_handlers target !! id
       = if decide (id ∈ ids) then restrict_map r P (reg_async_handlers r) id else None)
  ∧ (∀ id, reg_descriptors target !! id
       = if decide (id ∈ ids) then restrict_map r P (reg_descriptors r) id else None)
  ∧ (∀ id, reg_heartbeats target !! id
       = if decide (id ∈ ids) then restrict_map r P (reg_heartbeats r) id else None)
  ∧ (∀ id, reg_capabilities target !! id
       = if decide (id ∈ ids) then restrict_map r P (reg_capabilities r) id else None).

Lemma moved_skip r (P : RunnerDescriptor → Prop) `{!∀ d, Decision (P d)} ids target id d :
  reg_descriptors r !! id = Some d → ¬ P d → moved r P ids target → moved r P (ids ++ [id]) target.
Proof.
  intros Hd HP (H1 & H2 & H3 & H4 & H5).
  assert (∀ V (m t : gmap RunnerId V),
    (∀ x, t !! x = if decide (x ∈ ids) then restrict_map r P m x else None) →
    ∀ x, t !! x = if decide (x ∈ ids ++ [id]) then restrict_map r P m x else None) as Hgen.
  { intros V m t Ht x. rewrite Ht. unfold restrict_map.
    destruct (decide (x = id)) as [->|Hne]; [rewrite Hd, !(decide_False (P := P d)) by done; by repeat case_decide|].
    assert (x ∈ ids ++ [id] ↔ x ∈ ids) as Hiff by (rewrite elem_of_app, list_elem_of_singleton; naive_solver).
    by rewrite (decide_ext _ _ _ _ Hiff). }
  repeat split; by apply Hgen.
Qed.

Lemma moved_put r (P : RunnerDescriptor → Prop) `{!∀ d, Decision (P d)} ids from target id d :
  reg_descriptors r !! id = Some d → P d → id ∉ ids →
  reg_runners from !! id = reg_runners r !! id →
  reg_async_handlers from !! id = reg_async_handlers r !! id →
  reg_heartbeats from !! id = reg_heartbeats r !! id →
  reg_capabilities from !! id = reg_capabilities r !! id →
  moved r P ids target → moved r P (ids ++ [id]) (move_runner from target id d).
Proof.
  intros Hd HP Hid E1 E2 E3 E4 (H1 & H2 & H3 & H4 & H5).
  assert (∀ V (m t t' : gmap RunnerId V),
    (∀ x, t !! x = if decide (x ∈ ids) then restrict_map r P m x else None) →
    (∀ x, t' !! x = if decide (id = x) then m !! id else t !! x) →
    ∀ x, t' !! x = if decide (x ∈ ids ++ [id]) then restrict_map r P m x else None) as Hgen.
  { intros V m t t' Ht Ht' x. rewrite Ht', Ht. unfold restrict_map.
    destruct (decide (id = x)) as [<-|Hne].
    - rewrite Hd, (decide_True (P := P d)) by done. rewrite decide_True; [done|].
      apply elem_of_app. right. by apply list_elem_of_singleton.
    - assert (x ∈ ids ++ [id] ↔ x ∈ ids) as Hiff
        by (rewrite elem_of_app, list_elem_of_singleton; naive_solver).
      by rewrite (decide_ext _ _ _ _ Hiff). }
  assert (∀ V (m t : gmap RunnerId V),
    (∀ x, t !! x = if decide (x ∈ ids) then restrict_map r P m x else None) → t !! id = None) as Hnone.
  { intros V m t Ht. by rewrite Ht, decide_False. }
  unfold move_runner. repeat split; simpl.
  - eapply Hgen; [exact H1|]. intros x. rewrite lookup_move_entry by by eapply Hnone. by rewrite E1.
  - eapply Hgen; [exact H2|]. intros x. rewrite lookup_move_entry by by eapply Hnone. by rewrite E2.
  - eapply Hgen; [exact H3|]. intros x. rewrite lookup_insert, Hd. done.
  - eapply Hgen; [exact H4|]. intros x. rewrite lookup_move_entry by by eapply Hnone. by rewrite E3.
  - eapply Hgen; [exact H5|]. intros x. rewrite lookup_move_entry by by eapply Hnone. by rewrite E4.
Qed.

(** The loop reads each runner from the registry as it was. *)
Definition untouched r (ids : list RunnerId) (from : RunnerRegistry) : Prop :=
  ∀ id, id ∉ ids →
    reg_runners from !! id = reg_runners r !! id
    ∧ reg_async_handlers from !! id = reg_async_handlers r !! id
    ∧ reg_heartbeats from !! id = reg_heartbeats r !! id
    ∧ reg_capabilities from !! id = reg_capabilities r !! id.

Lemma untouched_forget r ids from id :
  untouched r ids from → untouched r (ids ++ [id]) (forget_runner from id).
Proof.
  intros Hfrom x [Hx Hne]%not_elem_of_app. rewrite list_elem_of_singleton in Hne. simpl.
  rewrite !lookup_delete_ne by done. by apply Hfrom.
Qed.

Lemma partition_loop_moved plugin_ids r ids rest from retained selected retained' selected' :
  (∀ id d, (id, d) ∈ rest → reg_descriptors r !! id = Some d) →
  NoDup (ids ++ rest.*1) → untouched r ids from →
  moved r (λ d, rd_plugin_id d ∉ plugin_ids) ids retained →
  moved r (λ d, rd_plugin_id d ∈ plugin_ids) ids selected →
  partition_loop plugin_ids rest from retained selected = (retained', selected') →
  moved r (λ d, rd_plugin_id d ∉ plugin_ids) (ids ++ rest.*1) retained'
  ∧ moved r (λ d, rd_plugin_id d ∈ plugin_ids) (ids ++ rest.*1) selected'.
Proof.
  revert ids from retained selected.
  induction rest as [|[id d] rest IH]; intros ids from retained selected Hrest Hnd Hfrom Hret Hsel Hloop.
  - simpl in *. simplify_eq. by rewrite app_nil_r.
  - assert (id ∉ ids) as Hid.
    { apply NoDup_app in Hnd as (_ & Hdisj & _). intros Hin. by eapply Hdisj; [|left]. }
    assert (reg_descriptors r !! id = Some d) as Hd by (apply Hrest; left).
    destruct (Hfrom id Hid) as (E1 & E2 & E3 & E4).
    change ((id, d) :: rest).*1 with (id :: rest.*1) in *.
    change (id :: rest.*1) with ([id] ++ rest.*1) in *. rewrite app_assoc in *.
    simpl in Hloop. case_decide as Hin; eapply IH; try exact Hloop; try done;
      try (by apply untouched_forget); try (by intros; apply Hrest; right);
      try (by eapply moved_skip; eauto); by eapply moved_put.
Qed.

Definition restricted r (P : RunnerDescriptor → Prop) `{!∀ d, Decision (P d)} (target : RunnerRegistry) : Prop :=
  (∀ id, reg_runners target !! id = restrict_map r P (reg_runners r) id)
  ∧ (∀ id, reg_async_handlers target !! id = restrict_map r P (reg_async_handlers r) id)
  ∧ (∀ id, reg_descriptors target !! id = restrict_map r P (reg_descriptors r) id)
  ∧ (∀ id, reg_heartbeats target !! id = restrict_map r P (reg_heartbeats r) id)
  ∧ (∀ id, reg_capabilities target !! id = restrict_map r P (reg_capabilities r) id).

Lemma moved_all r (P : RunnerDescriptor → Prop) `{!∀ d, Decision (P d)} target :
  moved r P (map_to_list (reg_descriptors r)).*1 target → restricted r P (rebuild_descriptor_snapshot target).
Proof.
  assert (∀ V (m t : gmap RunnerId V),
    (∀ x, t !! x = if decide (x ∈ (map_to_list (reg_descriptors r)).*1) then restrict_map r P m x else None) →
    ∀ x, t !! x = restrict_map r P m x) as Hgen.
  { intros V m t Ht x. rewrite Ht. case_decide as Hx; [done|]. unfold restrict_map.
    destruct (reg_descriptors r !! x) as [d|] eqn:Hd; [|done]. destruct Hx.
    apply list_elem_of_fmap. exists (x, d). split; [done|]. by apply elem_of_map_to_list. }
  intros (H1 & H2 & H3 & H4 & H5). repeat split; by eapply Hgen.
Qed.

Lemma partition_restricts plugin_ids r retained selected :
  partition_by_plugins plugin_ids r = (retained, selected) →
  restricted r (λ d, rd_plugin_id d ∉ plugin_ids) retained
  ∧ restricted r (λ d, rd_plugin_id d ∈ plugin_ids) selected
  ∧ reg_generation retained = reg_generation r ∧ reg_generation selected = reg_generation r
  ∧ reg_frozen retained = false ∧ reg_frozen selected = false.
Proof.
  unfold partition_by_plugins. destruct (partition_loop _ _ _ _ _) as [a b] eqn:Hloop. intros [= <- <-].
  assert (∀ rest from a0 b0 a b, partition_loop plugin_ids rest from a0 b0 = (a, b) →
    reg_generation a = reg_generation a0 ∧ reg_generation b = reg_generation b0
    ∧ reg_frozen a = reg_frozen a0 ∧ reg_frozen b = reg_frozen b0) as Hkeep.
  { induction rest as [|[id d] rest IH]; intros from a0 b0 a1 b1; simpl; [by intros [= <- <-]|].
    case_decide; intros Hl; by apply IH in Hl. }
  destruct (Hkeep _ _ _ _ _ _ Hloop) as (? & ? & ? & ?).
  eapply (partition_loop_moved plugin_ids r []) in Hloop as [Ha Hb].
  - split_and!; try done; by apply moved_all.
  - intros id d. apply elem_of_map_to_list.
  - apply NoDup_fst_map_to_list.
  - done.
  - split_and!; intros; apply lookup_empty.
  - split_and!; intros; apply lookup_empty.
Qed.

Lemma restricted_wf r (P : RunnerDescriptor → Prop) `{!∀ d, Decision (P d)} target :
  reg_wf r → restricted r P (rebuild_descriptor_snapshot target) → reg_wf (rebuild_descriptor_snapshot target).
Proof.
  intros [Hids Hsnap Hinst Hh] (H1 & H2 & H3 & _). apply reg_wf_rebuild.
  - intros id d Hd. cbn in H3. rewrite H3 in Hd. unfold restrict_map in Hd.
    destruct (reg_descriptors r !! id) eqn:E; [|done]. case_decide; [|done]. simplify_eq. by apply Hids.
  - intros id l Hl Hne. cbn in H1, H3. rewrite H3. rewrite H1 in Hl. unfold restrict_map in *.
    destruct (reg_descriptors r !! id) eqn:E; [|done]. by case_decide.
  - intros id. cbn in H2, H3. rewrite !elem_of_dom, H2, H3. unfold restrict_map.
    destruct (reg_descriptors r !! id) eqn:E; [|by intros []]. by case_decide; [|intros []].
Qed.

Lemma partition_wf plugin_ids r :
  reg_wf r → reg_wf (partition_by_plugins plugin_ids r).1 ∧ reg_wf (partition_by_plugins plugin_ids r).2.
Proof.
  intros Hwf. pose proof (partition_restricts plugin_ids r) as H.
  unfold partition_by_plugins in *. destruct (partition_loop _ _ _ _ _) as [a b].
  destruct (H _ _ eq_refl) as (Ha & Hb & _).
  split; [by eapply (restricted_wf r _ a)|by eapply (restricted_wf r _ b)].
Qed.

Lemma absorb_wf other r : reg_wf other → reg_wf r → reg_wf (absorb other r).
Proof.
  intros [Hids Hsnap Hinst Hh] [Hids' Hsnap' Hinst' Hh']. apply reg_wf_rebuild; simpl.
  - intros id d [Hd|[_ Hd]]%lookup_union_Some_raw; auto.
  - intros id l [Hd|[_ Hd]]%lookup_union_Some_raw Hne; rewrite lookup_union_is_Some; [left|right]; eauto.
  - rewrite !dom_union. set_solver.
Qed.

(** Merging a selected half back into the retained one. *)
Lemma restricted_union {V} r (plugin_ids : gset PluginId) (m a b : gmap RunnerId V) :
  dom m ⊆ dom (reg_descriptors r) →
  (∀ id, a !! id = restrict_map r (λ d, rd_plugin_id d ∉ plugin_ids) m id) →
  (∀ id, b !! id = restrict_map r (λ d, rd_plugin_id d ∈ plugin_ids) m id) →
  b ∪ a = m.
Proof.
  intros Hdom Ha Hb. apply map_eq. intros id. rewrite lookup_union, Ha, Hb. unfold restrict_map.
  destruct (reg_descriptors r !! id) as [d|] eqn:Hd.
  - destruct (decide (rd_plugin_id d ∈ plugin_ids));
      [rewrite decide_False by tauto|rewrite decide_True by done]; by destruct (m !! id).
  - destruct (m !! id) eqn:Hm; [|done]. apply elem_of_dom_2, Hdom in Hm. by apply not_elem_of_dom in Hd.
Qed.

(** C25: splitting a registry by plugin and merging the halves back loses no runner, async
    handler, heartbeat or capability: each half holds exactly what the registry held for
    the plugins on its side, and absorbing the selected half restores every map and the
    descriptor snapshot.  The merged registry keeps the generation but is not frozen. *)
Theorem partition_absorb_roundtrip plugin_ids r retained selected :
  reg_wf r →
  dom (reg_runners r) ⊆ dom (reg_descriptors r) →
  dom (reg_heartbeats r) ⊆ dom (reg_descriptors r) →
  dom (reg_capabilities r) ⊆ dom (reg_descriptors r) →
  partition_by_plugins plugin_ids r = (retained, selected) →
  (∀ id d, reg_descriptors retained !! id = Some d ↔
     reg_descriptors r !! id = Some d ∧ rd_plugin_id d ∉ plugin_ids)
  ∧ (∀ id d, reg_descriptors selected !! id = Some d ↔
     reg_descriptors r !! id = Some d ∧ rd_plugin_id d ∈ plugin_ids)
  ∧ (∀ id, reg_runners r !! id
       = if decide (id ∈ dom (reg_descriptors selected))
         then reg_runners selected !! id else reg_runners retained !! id)
  ∧ absorb selected retained
    = mkRunnerRegistry (reg_runners r) (reg_async_handlers r) (reg_descriptors r)
        (reg_descriptor_snapshot r) (reg_heartbeats r) (reg_capabilities r) false (reg_generation r).
Proof.
  intros Hwf Hr Hb Hc Hpart.
  destruct (partition_restricts _ _ _ _ Hpart) as ((A1 & A2 & A3 & A4 & A5) & (B1 & B2 & B3 & B4 & B5) & Eg & _ & Ef & _).
  split_and!.
  - intros id d. rewrite A3. unfold restrict_map. destruct (reg_descriptors r !! id); [|naive_solver].
    case_decide; naive_solver.
  - intros id d. rewrite B3. unfold restrict_map. destruct (reg_descriptors r !! id); [|naive_solver].
    case_decide; naive_solver.
  - intros id. rewrite <-(restricted_union r plugin_ids _ _ _ Hr A1 B1) at 1. rewrite lookup_union.
    rewrite A1, B1. case_decide as Hd; rewrite elem_of_dom, B3 in Hd; unfold restrict_map in *;
      destruct (reg_descriptors r !! id) as [d|]; repeat case_decide; try done;
      first [by destruct (reg_runners r !! id)|by destruct Hd|by destruct Hd; eauto].
  - unfold absorb, rebuild_descriptor_snapshot, set_reg_snapshot; simpl.
    rewrite (restricted_union r plugin_ids (reg_runners r)) by done.
    rewrite (restricted_union r plugin_ids (reg_async_handlers r)) by (done || apply Hwf).
    rewrite (restricted_union r plugin_ids (reg_descriptors r)) by done.
    rewrite (restricted_union r plugin_ids (reg_heartbeats r)) by done.
    rewrite (restricted_union r plugin_ids (reg_capabilities r)) by done.
    by rewrite Eg, Ef, <-(reg_snapshot r Hwf).
Qed.

(** C24: an instance taken from the registry goes back where it came from, unless the
    registry has moved to another generation or no longer describes the runner; then the
    instance is handed back to the caller and the registry is unchanged. *)
Theorem returned_instances_are_fenced id r r' runner generation :
  reg_wf r → take_runner id r = (r', Some runner) →
  (rd_runner_id (runner_descriptor runner) = id →
   (generation = 0 ∨ reg_generation r = 0 ∨ generation = reg_generation r)%N →
   put_runner runner generation r' = (r, None))
  ∧ (∀ s, generation ≠ 0%N → reg_generation s ≠ 0%N → generation ≠ reg_generation s →
     put_runner runner generation s = (s, Some runner))
  ∧ (∀ s, reg_descriptors s !! rd_runner_id (runner_descriptor runner) = None →
     put_runner runner generation s = (s, Some runner)).
Proof.
  intros Hwf Htake. destruct (take_runner_spec _ _ _ _ Htake) as (l & Hl & ->).
  split_and!.
  - intros Hid Hgen. unfold put_runner. rewrite Hid. cbn [reg_generation set_reg_runners reg_descriptors].
    assert (is_Some (reg_descriptors r !! id)) as Hd.
    { eapply reg_instances; [done|exact Hl|]. by destruct l. }
    rewrite (bool_decide_true (is_Some _)) by done. simpl.
    replace (bool_decide _ && bool_decide _ && bool_decide _) with false
      by (destruct Hgen as [-> | [-> | ->]]; repeat case_bool_decide; naive_solver).
    rewrite lookup_insert_eq. simpl. f_equal. unfold set_reg_runners; simpl.
    rewrite insert_insert_eq, insert_id by done. by destruct r.
  - intros s H0 H1 H2. unfold put_runner. rewrite !(bool_decide_true (_ ≠ _)) by done. done.
  - intros s Hs. unfold put_runner. rewrite Hs. destruct (_ && _); [done|]. done.
Qed.

End registry.

(** ** Handler bindings *)

Lemma take_while_app {A} (f : A → bool) l1 l2 :
  Forall (λ x, f x = true) l1 → take_while f (l1 ++ l2) = l1 ++ take_while f l2.
Proof. induction 1 as [|x l1 Hx _ IH]; simpl; [done|]. by rewrite Hx, IH. Qed.

Lemma take_while_none {A} (f : A → bool) l : Forall (λ x, f x = false) l → take_while f l = [].
Proof. destruct 1 as [|x l Hx _]; simpl; [done|]. by rewrite Hx. Qed.

Section bindings.
Context {serde : Serde}.
Implicit Types (b : HandlerBinding) (p : ProtocolId).

#[local] Instance binding_order_total : TotalCmp binding_order.
Proof.
  unfold binding_order. apply cmp_then_total; [apply (cmp_on_total hb_protocol_id), _|].
  apply cmp_then_total; [|apply (cmp_on_total hb_binding_id), _].
  apply (cmp_rev_total (λ x y, Z.compare (hb_priority x) (hb_priority y))), (cmp_on_total hb_priority), _.
Qed.

Lemma binding_order_protocol a b :
  cmp_le binding_order a b → cmp_le String.compare (hb_protocol_id a) (hb_protocol_id b).
Proof. unfold cmp_le, binding_order, then_with. by destruct (String.compare _ _). Qed.

(** A sorted list falls into what comes before a protocol, the protocol, and the rest. *)
Lemma sorted_bindings_split l p :
  StronglySorted (cmp_le binding_order) l →
  ∃ l1 l2 l3, l = l1 ++ l2 ++ l3
    ∧ Forall (λ b, String.compare (hb_protocol_id b) p = Lt) l1
    ∧ Forall (λ b, hb_protocol_id b = p) l2
    ∧ Forall (λ b, String.compare (hb_protocol_id b) p = Gt) l3.
Proof.
  induction 1 as [|b l Hl (l1 & l2 & l3 & -> & H1 & H2 & H3) Hb]; [by exists [], [], []|].
  rewrite Forall_forall in Hb.
  destruct (String.compare (hb_protocol_id b) p) eqn:Hc.
  - apply String.compare_eq_iff in Hc. exists [], (b :: l2), l3.
    destruct l1 as [|x l1]; [split_and!; auto|].
    exfalso. inversion_clear H1 as [|?? Hx].
    specialize (Hb x ltac:(left)). apply binding_order_protocol in Hb. rewrite Hc in Hb.
    unfold cmp_le in Hb. rewrite String.compare_antisym, Hx in Hb. done.
  - exists (b :: l1), l2, l3. split_and!; auto.
  - exists [], [], (b :: l1 ++ l2 ++ l3). split_and!; auto. constructor; [done|].
    apply Forall_forall. intros x Hx. specialize (Hb x Hx). apply binding_order_protocol in Hb.
    destruct (String.compare (hb_protocol_id x) p) eqn:Hxp; [| |done].
    + apply String.compare_eq_iff in Hxp. rewrite Hxp in Hb. unfold cmp_le in Hb. by rewrite Hc in Hb.
    + assert (cmp_le String.compare (hb_protocol_id b) p) as Hbp.
      { eapply cmp_le_trans; [exact Hb|]. unfold cmp_le. by rewrite Hxp. }
      unfold cmp_le in Hbp. by rewrite Hc in Hbp.
Qed.

(** On a slice whose matching elements come first, the binary search finds their number. *)
Lemma matches_at_app {B} (f : B → bool) l1 l2 i :
  Forall (λ x, f x = true) l1 → Forall (λ x, f x = false) l2 →
  matches_at f (l1 ++ l2) i = bool_decide (i < length l1)%nat.
Proof.
  intros H1 H2. unfold matches_at. case_bool_decide as Hi.
  - rewrite lookup_app_l by done. destruct (lookup_lt_is_Some_2 l1 i Hi) as [x Hx]. rewrite Hx.
    by eapply Forall_lookup_1 in H1.
  - rewrite lookup_app_r by lia. destruct (l2 !! _) as [x|] eqn:Hx; [|done].
    by eapply Forall_lookup_1 in H2.
Qed.

Lemma bisect_loop_app {B} (f : B → bool) l1 l2 fuel : ∀ base size,
  Forall (λ x, f x = true) l1 → Forall (λ x, f x = false) l2 →
  (size ≤ fuel)%nat → (0 < size)%nat → (base = 0 ∨ base < length l1)%nat →
  (length l1 ≤ base + size)%nat →
  let base' := bisect_loop fuel f (l1 ++ l2) base size in
  (base' = 0 ∨ base' < length l1)%nat ∧ (length l1 ≤ base' + 1)%nat.
Proof.
  induction fuel as [|fuel IH]; intros base size H1 H2 Hf Hs Hb Hl; simpl; [lia|].
  case_decide as Hgo; [|split; [done|lia]].
  assert (0 < Nat.div2 size ∧ Nat.div2 size + Nat.div2 size ≤ size)%nat as [Hpos Hhalf].
  { pose proof (Nat.div2_odd size) as Hodd. destruct (Nat.odd size); cbn [Nat.b2n] in Hodd; lia. }
  rewrite matches_at_app by done. case_bool_decide; apply IH; (done || lia).
Qed.

Lemma partition_point_app {B} (f : B → bool) l1 l2 :
  Forall (λ x, f x = true) l1 → Forall (λ x, f x = false) l2 → partition_point f (l1 ++ l2) = length l1.
Proof.
  intros H1 H2. unfold partition_point. destruct (length (l1 ++ l2)) as [|n] eqn:Hn.
  { rewrite length_app in Hn. lia. }
  destruct (bisect_loop_app f l1 l2 (S n) 0 (S n) H1 H2) as [Hb Hl]; [lia|lia|by left| |].
  { rewrite length_app in Hn. lia. }
  cbv zeta. rewrite matches_at_app by done. case_bool_decide; lia.
Qed.

(** C35: looking a protocol up by binary search finds every handler binding the load plan
    declares for it and nothing else, in priority order (highest first, ties by id). *)
Theorem protocol_query_is_complete (plan : RuntimeLoadPlan) p :
  let declared :=
    filter (λ b, hb_protocol_id b = p) (plan_plugins plan ≫= λ plugin, pv_handler_bindings (pm_provides plugin)) in
  query_protocol (from_load_plan plan) p ≡ₚ declared
  ∧ StronglySorted (cmp_le (λ a b, then_with (Z.compare (hb_priority b) (hb_priority a))
                              (String.compare (hb_binding_id a) (hb_binding_id b))))
      (query_protocol (from_load_plan plan) p).
Proof.
  intros declared.
  set (all := plan_plugins plan ≫= λ plugin, pv_handler_bindings (pm_provides plugin)) in *.
  pose proof (sort_by_sorted binding_order all) as Hs.
  destruct (sorted_bindings_split _ p Hs) as (l1 & l2 & l3 & Heq & H1 & H2 & H3).
  assert (query_protocol (from_load_plan plan) p = l2) as ->.
  { unfold query_protocol, from_load_plan. cbn [hbr_bindings]. fold all. rewrite Heq.
    rewrite partition_point_app.
    2:{ eapply Forall_impl; [exact H1|]. intros b Hb. unfold string_ltb. by rewrite Hb. }
    2:{ apply Forall_app. split; eapply Forall_impl; [exact H2| |exact H3|]; intros b Hb; unfold string_ltb.
        - rewrite Hb. by rewrite string_compare_refl.
        - by rewrite Hb. }
    rewrite drop_app_length, take_while_app.
    2:{ eapply Forall_impl; [exact H2|]. intros b Hb. by apply bool_decide_true. }
    rewrite take_while_none; [by rewrite app_nil_r|].
    eapply Forall_impl; [exact H3|]. intros b Hb. apply bool_decide_false. intros <-.
    by rewrite string_compare_refl in Hb. }
  split.
  - unfold declared. rewrite <-(sort_by_Permutation binding_order all), Heq, !filter_app.
    rewrite (list_filter_all (λ b, hb_protocol_id b = p) l2) by by apply Forall_forall.
    assert (∀ l c, c ≠ Eq → Forall (λ b, String.compare (hb_protocol_id b) p = c) l →
      filter (λ b, hb_protocol_id b = p) l = []) as Hnone.
    { intros l c Hc Hl. induction Hl as [|b l Hb _ IH]; [done|]. rewrite filter_cons_False; [done|]. intros Hp.
      rewrite Hp, string_compare_refl in Hb. by subst. }
    rewrite (Hnone l1 Lt), (Hnone l3 Gt), app_nil_r by done. done.
  - rewrite Heq in Hs. apply StronglySorted_app in Hs as (_ & _ & Hs).
    apply StronglySorted_app in Hs as (_ & Hs & _).
    clear -Hs H2. induction Hs as [|b l Hl IH Hb]; [constructor|].
    inversion_clear H2 as [|?? Hbp Hlp]. constructor; [by apply IH|].
    rewrite Forall_forall in *. intros x Hx. specialize (Hb x Hx). unfold cmp_le, binding_order in *.
    rewrite Hbp, (Hlp x Hx) in Hb. by rewrite string_compare_refl in Hb.
Qed.

End bindings.

(** ** What a validated plan guarantees *)

Lemma check_all_ok {A} (check : A → RuntimeResult ()) l :
  check_all check l = Ok tt ↔ ∀ x, x ∈ l → check x = Ok tt.
Proof.
  induction l as [|x l IH]; simpl; [split; [intros _ y Hy; by apply elem_of_nil in Hy|done]|].
  destruct (check x) as [[]|e] eqn:Hx.
  - rewrite IH. split; intros H y; [|intros Hy; apply H; by right]. intros [->|Hy]%elem_of_cons; auto.
  - split; [done|]. intros H. specialize (H x ltac:(left)). congruence.
Qed.

Lemma find_bool_some {A} (P : A → Prop) `{!∀ x, Decision (P x)} l x :
  find (λ y, bool_decide (P y)) l = Some x → x ∈ l ∧ P x.
Proof.
  intros [Hin Hp]%find_some. split; [by apply list_elem_of_In|by apply bool_decide_eq_true in Hp].
Qed.

Section plan_checks.
Context {serde : Serde}.
Implicit Types (plan : RuntimeLoadPlan) (d : RunnerDescriptor) (p : ProtocolId).

Lemma validated_protocol plan d p :
  check_protocol_class plan d p = Ok tt →
  ∃ class, class_of_protocol (plan_plugins plan) p = Some class
    ∧ matches_purity (rd_purity d) class = true
    ∧ (class = ClassControl → rd_execution_class d = ExecControl).
Proof.
  unfold check_protocol_class. destruct (class_of_protocol _ p) as [class|]; [|done].
  destruct (matches_purity _ _) eqn:Hm; simpl; [|done]. intros H. exists class. split_and!; [done..|].
  intros ->. rewrite bool_decide_true in H by done. simpl in H.
  destruct (bool_decide (rd_execution_class d ≠ ExecControl)) eqn:He; [done|].
  apply bool_decide_eq_false in He. by apply dec_stable in He.
Qed.

Lemma validated_privilege d :
  validate_runner_privilege d = Ok tt →
  (rd_purity d = Committer ∨ rd_execution_class d = ExecControl → rd_runner_id d = "core.kernel")
  ∧ validate_runner_batch_capabilities d = Ok tt.
Proof.
  unfold validate_runner_privilege.
  destruct (bool_decide (rd_runner_id d ≠ "core.kernel")) eqn:Hk; rewrite ?andb_true_r, ?andb_false_r.
  - repeat case_bool_decide; naive_solver.
  - apply bool_decide_eq_false in Hk. apply dec_stable in Hk. done.
Qed.

Lemma validated_batch d :
  validate_runner_batch_capabilities d = Ok tt →
  (0 < rbc_preferred_batch_size (rd_batch d) ≤ rbc_max_batch_entries (rd_batch d))%N
  ∧ (0 < rbc_max_entry_concurrency (rd_batch d) ≤ rbc_max_batch_entries (rd_batch d))%N
  ∧ rbc_max_inflight_batches (rd_batch d) = max_inflight_batches (rd_concurrency d)
  ∧ (0 < max_inflight_batches (rd_concurrency d))%N
  ∧ (0 < max_inflight_entries (rd_concurrency d) (rbc_max_batch_entries (rd_batch d)))%N
  ∧ invocation_matches_concurrency (rd_invocation_mode d) (rd_concurrency d) = true
  ∧ Row ∈ rpc_layouts (rd_payload d).
Proof.
  unfold validate_runner_batch_capabilities. cbn zeta.
  destruct (_ || _) eqn:Hb; [done|].
  repeat (apply orb_false_iff in Hb as [Hb ?]). rewrite !bool_decide_eq_false in *.
  destruct (invocation_matches_concurrency _ _) eqn:Hi; simpl; [|done].
  destruct (_ || _) eqn:Hp; [done|]. repeat (apply orb_false_iff in Hp as [Hp ?]).
  rewrite !negb_false_iff, !bool_decide_eq_true in *. intros _. split_and!; try lia; try done.
Qed.

(** C23: after a load plan is validated, a runner that commits or controls is the kernel's;
    a protocol of the core or control class is accepted by the kernel's runner only, an
    effect protocol by effectful runners only, a domain protocol by pure ones; every
    registered runner is a planned one with non-empty batches and consistent concurrency. *)
Theorem validated_plans_confine_privilege plan (registered : list RunnerDescriptor) d :
  validate_runtime_descriptors plan registered = Ok tt →
  d ∈ registered ++ planned_runners plan →
  (rd_purity d = Committer ∨ rd_execution_class d = ExecControl → rd_runner_id d = "core.kernel")
  ∧ (∀ p, p ∈ rd_accepted_protocol_ids d →
       ∃ class, class_of_protocol (plan_plugins plan) p = Some class
         ∧ match class with
           | ClassDomain => rd_purity d = Pure
           | ClassEffect => rd_purity d = Effectful
           | ClassCore => rd_runner_id d = "core.kernel"
           | ClassControl => rd_runner_id d = "core.kernel" ∧ rd_execution_class d = ExecControl
           end)
  ∧ (∃ planned, planned ∈ planned_runners plan ∧ rd_runner_id planned = rd_runner_id d
       ∧ rd_concurrency planned = rd_concurrency d ∧ rd_invocation_mode planned = rd_invocation_mode d)
  ∧ (0 < rbc_preferred_batch_size (rd_batch d) ≤ rbc_max_batch_entries (rd_batch d))%N
  ∧ (0 < max_inflight_entries (rd_concurrency d) (rbc_max_batch_entries (rd_batch d)))%N.
Proof.
  unfold validate_runtime_descriptors.
  destruct (check_all (check_planned plan) _) as [[]|e] eqn:Hpl; [|done].
  destruct (check_all (check_runner plan) _) as [[]|e] eqn:Hreg; [|done]. intros _ Hin.
  rewrite check_all_ok in Hpl, Hreg.
  assert (check_planned plan d = Ok tt ∧ ∃ planned, planned ∈ planned_runners plan
    ∧ rd_runner_id planned = rd_runner_id d ∧ rd_concurrency planned = rd_concurrency d
    ∧ rd_invocation_mode planned = rd_invocation_mode d) as [Hd Hex].
  { apply elem_of_app in Hin as [Hin|Hin]; [|by eauto 10].
    specialize (Hreg d Hin). unfold check_runner in Hreg. destruct (find _ _) as [planned|] eqn:Hf; [|done].
    apply (find_bool_some (λ x, rd_runner_id x = rd_runner_id d)) in Hf as [Hf Hid].
    destruct (_ || _) eqn:Ho; [done|]. apply orb_false_iff in Ho as [Hm Hc].
    rewrite !bool_decide_eq_false in Hm, Hc. apply dec_stable in Hm, Hc. eauto 10. }
  unfold check_planned in Hd. destruct (validate_runner_privilege d) as [[]|e] eqn:Hp; [|done].
  apply validated_privilege in Hp as [Hk Hb]. apply validated_batch in Hb as (? & ? & ? & ? & ? & ? & ?).
  split_and!; try done; try lia. intros p Hpin. unfold validate_runner_protocol_classes in Hd.
  rewrite check_all_ok in Hd. destruct (validated_protocol _ _ _ (Hd p Hpin)) as (class & Hc & Hm & Hx).
  exists class. split; [done|]. destruct class, (rd_purity d) eqn:E; simpl in Hm; try done; auto.
Qed.

(** Every handler binding of a validated plan leads to a planned runner that accepts
    the binding's target protocol, and a runner hint names such a runner. *)
Theorem validated_bindings_have_targets plan (registered : list RunnerDescriptor) plugin binding :
  validate_runtime_descriptors plan registered = Ok tt →
  plugin ∈ plan_plugins plan → binding ∈ pv_handler_bindings (pm_provides plugin) →
  ∃ d, d ∈ planned_runners plan ∧ hb_target_protocol_id binding ∈ rd_accepted_protocol_ids d
    ∧ ∀ hint, hb_target_runner_hint binding = Some hint → rd_runner_id d = hint.
Proof.
  unfold validate_runtime_descriptors.
  destruct (check_all (check_planned plan) _) as [[]|e]; [|done].
  destruct (check_all (check_runner plan) _) as [[]|e]; [|done].
  unfold validate_handler_bindings. rewrite check_all_ok. intros H Hpl Hb.
  specialize (H binding). rewrite list_elem_of_bind in H. specialize (H (ex_intro _ plugin (conj Hb Hpl))).
  unfold check_handler_binding in H. destruct (existsb _ _) eqn:He; simpl in H; [|done].
  assert (∀ d, runner_accepts_protocol d (hb_target_protocol_id binding) = true →
    hb_target_protocol_id binding ∈ rd_accepted_protocol_ids d) as Hacc.
  { intros d (x & Hx & Heq)%existsb_exists. apply bool_decide_eq_true in Heq as <-. by apply list_elem_of_In. }
  destruct (hb_target_runner_hint binding) as [hint|].
  - destruct (find _ _) as [d|] eqn:Hf; [|done].
    apply (find_bool_some (λ x, rd_runner_id x = hint)) in Hf as [Hf Hid].
    destruct (runner_accepts_protocol d _) eqn:Ha; [|done]. exists d. split_and!; auto. by intros ? [= <-].
  - apply existsb_exists in He as (d & Hd & Ha). exists d. split_and!; auto; [by apply list_elem_of_In|done].
Qed.

End plan_checks.

(** ** A concrete registry and load plan *)

Section samples.
#[local] Existing Instance sample_serde.

(** Runners that do nothing but carry their descriptor. *)
Definition sample_runners : RunnerTrait :=
  {| Runner := RunnerDescriptor; runner_descriptor := λ d, d;
     runner_run_batch := λ d _ _, (d, Err (runtime_failure "runner.idle" "sample" "run"));
     runner_cancel := λ d _, (d, Ok tt); runner_dispose := λ d, (d, Ok tt);
     AsyncHandler := RunnerDescriptor; handler_descriptor := λ d, d; handler_dispose := λ _, None |}.
#[local] Existing Instance sample_runners.

Definition other_runner : RunnerDescriptor :=
  {| rd_runner_id := "runner-b"; rd_plugin_id := "other"; rd_plugin_generation := 1;
     rd_accepted_protocol_ids := ["mail"]; rd_purity := Pure; rd_execution_class := Cpu;
     rd_invocation_mode := SyncExclusive; rd_concurrency := Exclusive; rd_input_schema := "null";
     rd_output_schema := "null"; rd_batch := RunnerBatchCapability_default;
     rd_payload := RunnerPayloadCapability_default;
     rd_resources := RunnerResourceCapability_default;
     rd_ordering := RunnerOrderingCapability_default;
     rd_control := RunnerControlCapability_default; rd_metadata := ∅;
     rd_contract_surfaces := [] |}.

Definition two_runners : RunnerRegistry :=
  freeze 1 (register other_runner (register sample_runner RunnerRegistry_default).1).1.

Lemma two_runners_wf : reg_wf two_runners.
Proof. apply freeze_wf, register_reg_wf, register_reg_wf, reg_wf_default. Qed.

Lemma partition_absorb_roundtrip_witness :
  let halves := partition_by_plugins {["other"]} two_runners in
  is_Some (reg_descriptors halves.2 !! "runner-b") ∧ reg_descriptors halves.1 !! "runner-b" = None
  ∧ reg_runners (absorb halves.2 halves.1) = reg_runners two_runners.
Proof.
  intros halves. destruct halves as [a b] eqn:Hh.
  assert (dom (reg_runners two_runners) ⊆ dom (reg_descriptors two_runners)) as H1
    by (refine (bool_decide_eq_true_1 _ _); vm_compute; reflexivity).
  assert (dom (reg_heartbeats two_runners) ⊆ dom (reg_descriptors two_runners)) as H2
    by (refine (bool_decide_eq_true_1 _ _); vm_compute; reflexivity).
  assert (dom (reg_capabilities two_runners) ⊆ dom (reg_descriptors two_runners)) as H3
    by (refine (bool_decide_eq_true_1 _ _); vm_compute; reflexivity).
  destruct (partition_absorb_roundtrip _ _ _ _ two_runners_wf H1 H2 H3 Hh) as (_ & _ & _ & Habs).
  split_and!.
  - replace b with (partition_by_plugins {["other"]} two_runners).2 by (unfold halves in Hh; by rewrite Hh).
    vm_compute. by eexists.
  - replace a with (partition_by_plugins {["other"]} two_runners).1 by (unfold halves in Hh; by rewrite Hh).
    by vm_compute.
  - cbn [fst snd]. by rewrite Habs.
Defined.

Definition borrowed : RunnerRegistry := (take_runner "runner-a" two_runners).1.

Lemma returned_instances_are_fenced_witness :
  put_runner sample_runner 1 borrowed = (two_runners, None)
  ∧ put_runner sample_runner 1 (freeze 2 borrowed) = (freeze 2 borrowed, Some sample_runner).
Proof.
  assert (take_runner "runner-a" two_runners = (borrowed, Some sample_runner)) as Ht by (by vm_compute).
  destruct (returned_instances_are_fenced "runner-a" two_runners borrowed sample_runner 1 two_runners_wf Ht)
    as (Hback & Hfence & _).
  split; [apply Hback; [done|by right; right]|by apply Hfence].
Defined.

Definition sample_binding : HandlerBinding :=
  mkHandlerBinding "b1" "plugin" "echo" "mail" (Some "runner-a") "pool" 0 "first" ∅.

Definition sample_provides : PluginProvides :=
  {| pv_capabilities := []; pv_services := []; pv_extensions := []; pv_runners := [sample_runner];
     pv_protocols := []; pv_protocol_classes := {["echo" := ClassDomain; "mail" := ClassDomain]};
     pv_handler_bindings := [sample_binding]; pv_resource_schemas := []; pv_resource_providers := [];
     pv_resource_types := []; pv_effects := []; pv_streams := []; pv_subscriptions := []; pv_timers := [];
     pv_state_schemas := []; pv_host_extensions := []; pv_plugin_backends := []; pv_codecs := [];
     pv_bridges := []; pv_scheduler_policies := []; pv_workflows := [] |}.

Definition sample_manifest : PluginManifest :=
  {| pm_plugin_id := "plugin"; pm_version := "1"; pm_api_version := "1";
     pm_artifact := mkPluginArtifact ArtNative "plugin" "" []; pm_provides := sample_provides;
     pm_requires := []; pm_permissions := mkPermissionGrant [] [];
     pm_lifecycle := mkLifecyclePolicy "drain" 0 true true false; pm_metadata := ∅ |}.

Definition sample_plan : RuntimeLoadPlan :=
  {| plan_lock_version := 1; plan_core_api_version := "1"; plan_profile_id := "p"; plan_profile_hash := "h";
     plan_registry_generation := 1; plan_plugins := [sample_manifest]; plan_load_order := ["plugin"];
     plan_runner_bindings := ∅; plan_plugin_deployments := ∅;
     plan_observability := ObservabilityProfile_default;
     plan_capability_graph := mkRuntimeCapabilityGraph FullDev [] [] [] [] [] [] [] [] [] [] [] [] [];
     plan_contract_surfaces := [] |}.

Lemma validated_plans_confine_privilege_witness :
  ∃ class, class_of_protocol [sample_manifest] "echo" = Some class ∧ class = ClassDomain.
Proof.
  destruct (validated_plans_confine_privilege sample_plan [sample_runner] sample_runner)
    as (_ & Hp & _).
  - by vm_compute.
  - left.
  - destruct (Hp "echo") as (class & Hc & _); [left|]. exists class. split; [exact Hc|].
    vm_compute in Hc. congruence.
Defined.

Lemma validated_bindings_have_targets_witness :
  ∃ d, d ∈ planned_runners sample_plan ∧ "mail" ∈ rd_accepted_protocol_ids d ∧ rd_runner_id d = "runner-a".
Proof.
  destruct (validated_bindings_have_targets sample_plan [sample_runner] sample_manifest sample_binding)
    as (d & Hd & Ha & Hh); [by vm_compute|left|left|].
  exists d. split_and!; [exact Hd|exact Ha|by apply Hh].
Defined.

End samples.
