(* ===== verification/SurfaceTheorems.v ===== *)
(** * SurfaceTheorems: the decision of a reload

    [compare_surfaces] against a pointwise specification of how a surface changed. *)
From S2P Require Import Prelude Floats Contracts StateStore Resources Logs.
From S2P Require Import TaskIndexes TaskPool TaskClaiming Plugins Batches WorkBatches.
From S2P Require Import BatchTheorems Registry PlanChecks RegistryTheorems.

(** ** Collecting into a map *)

Definition latest {A} (key : A → string) (l : list A) (id : string) : option A :=
  last (filter (λ x, key x = id) l).

Lemma map_by_lookup {A} (key : A → string) l id : map_by key l !! id = latest key l id.
Proof.
  unfold map_by, latest. induction l as [|x l IH] using rev_ind; [done|].
  rewrite foldl_snoc, filter_app, lookup_insert. case_decide as Hx.
  - rewrite filter_cons_True by done. rewrite filter_nil. by rewrite last_snoc.
  - rewrite filter_cons_False, filter_nil, app_nil_r by done. done.
Qed.

Lemma btree_entries_elem {V} (m : gmap string V) id v :
  (id, v) ∈ btree_entries String.compare m ↔ m !! id = Some v.
Proof. by rewrite btree_entries_Permutation, elem_of_map_to_list. Qed.

Lemma btree_entries_NoDup {V} (m : gmap string V) : NoDup (btree_entries String.compare m).*1.
Proof. rewrite btree_entries_Permutation. apply NoDup_fst_map_to_list. Qed.

(** ** The specification of a comparison *)

Section compare.
Implicit Types (old new : list ContractSurface) (occupancy : list SurfaceOccupancy) (id : SurfaceId).

(** How one surface changed. *)
Definition change_of old new id : option SurfaceCompatibility :=
  match latest sf_surface_id old id, latest sf_surface_id new id with
  | None, None => None
  | None, Some _ => Some CompatAdditive
  | Some _, None => Some CompatRemoved
  | Some o, Some n =>
      if decide (sf_fingerprint n = sf_fingerprint o) then
        Some (if sf_deprecated n && negb (sf_deprecated o) then CompatDeprecated else CompatIdentical)
      else Some CompatBreaking
  end.

(** A surface that disappears while something still uses it. *)
Definition removed_in_use old new occupancy id : Prop :=
  is_Some (latest sf_surface_id old id) ∧ latest sf_surface_id new id = None
  ∧ ∃ o, latest so_surface_id occupancy id = Some o ∧ SurfaceOccupancy_is_zero o = false.

Lemma surface_change_spec old new occupancy id s :
  latest sf_surface_id old id = Some s →
  match surface_change (map_by sf_surface_id new) (map_by so_surface_id occupancy) id s with
  | Ok change => ¬ removed_in_use old new occupancy id
      ∧ cc_surface_id change = id ∧ change_of old new id = Some (cc_compatibility change)
  | Err e => removed_in_use old new occupancy id
      ∧ e = runtime_failure ERR_RELOAD_BLOCKED "runtime.reload" ("surface.remove." +:+ id)
  end.
Proof.
  intros Hs. unfold surface_change, change_of, removed_in_use. rewrite !map_by_lookup, Hs.
  destruct (latest sf_surface_id new id) as [n|] eqn:Hn.
  - case_decide; (split; [naive_solver|done]).
  - destruct (latest so_surface_id occupancy id) as [o|] eqn:Ho; [|naive_solver].
    destruct (SurfaceOccupancy_is_zero o) eqn:Hz; [|naive_solver].
    split; [|done]. intros (_ & _ & o' & [= <-] & Hz'). congruence.
Qed.

Lemma collect_changes_spec old new occupancy l :
  (∀ id s, (id, s) ∈ l → latest sf_surface_id old id = Some s) →
  match collect_changes (map_by sf_surface_id new) (map_by so_surface_id occupancy) l with
  | Ok changes => cc_surface_id <$> changes = l.*1
      ∧ (∀ change, change ∈ changes → change_of old new (cc_surface_id change) = Some (cc_compatibility change))
      ∧ ∀ id, id ∈ l.*1 → ¬ removed_in_use old new occupancy id
  | Err e => ∃ id, removed_in_use old new occupancy id
      ∧ e = runtime_failure ERR_RELOAD_BLOCKED "runtime.reload" ("surface.remove." +:+ id)
  end.
Proof.
  induction l as [|[id s] l IH]; intros Hl; simpl.
  - split_and!; [done|..]; intros x Hx; by apply elem_of_nil in Hx.
  - pose proof (surface_change_spec old new occupancy id s (Hl id s ltac:(left))) as Hc.
    destruct (surface_change _ _ _ _) as [change|e]; [|by eauto].
    specialize (IH ltac:(intros; apply Hl; by right)). destruct (collect_changes _ _ _) as [changes|e]; [|done].
    destruct Hc as (Hr & Hid & Hch), IH as (Hids & Hcs & Hrs). split_and!.
    + csimpl. by rewrite Hid, Hids.
    + intros c [->|Hc]%elem_of_cons; [by rewrite Hid|by apply Hcs].
    + intros x [->|Hx]%elem_of_cons; [done|by apply Hrs].
Qed.

(** C26: a reload is refused at the comparison exactly when a surface disappears while it
    is occupied; otherwise the decision lists every surface of either side once, with the
    compatibility the two declarations imply, and it is blocked exactly when some surface
    on both sides changed its fingerprint. *)
Theorem surface_comparison_is_exact old new occupancy :
  match compare_surfaces old new occupancy with
  | Err e => ∃ id, removed_in_use old new occupancy id
      ∧ e = runtime_failure ERR_RELOAD_BLOCKED "runtime.reload" ("surface.remove." +:+ id)
  | Ok decision =>
      (∀ id, ¬ removed_in_use old new occupancy id)
      ∧ NoDup (cc_surface_id <$> rld_changes decision)
      ∧ (∀ id c, mkContractChange id c ∈ rld_changes decision ↔ change_of old new id = Some c)
      ∧ (rld_blocked decision = true ↔
           ∃ id o n, latest sf_surface_id old id = Some o ∧ latest sf_surface_id new id = Some n
             ∧ sf_fingerprint n ≠ sf_fingerprint o)
  end.
Proof.
  unfold compare_surfaces. cbn zeta.
  set (entries := btree_entries String.compare (map_by sf_surface_id old)).
  assert (∀ id s, (id, s) ∈ entries ↔ latest sf_surface_id old id = Some s) as Hent.
  { intros id s. unfold entries. by rewrite btree_entries_elem, map_by_lookup. }
  pose proof (collect_changes_spec old new occupancy entries (λ id s H, proj1 (Hent id s) H)) as Hc.
  destruct (collect_changes _ _ _) as [changes|e]; [|done]. destruct Hc as (Hids & Hcs & Hrs).
  assert (∀ id, id ∈ entries.*1 ↔ is_Some (latest sf_surface_id old id)) as Hold.
  { intros id. rewrite list_elem_of_fmap. split.
    - intros ([x s] & -> & Hin%Hent). by exists s.
    - intros [s Hs%Hent]. by exists (id, s). }
  set (additive := omap _ _).
  assert (∀ c, c ∈ additive ↔ cc_compatibility c = CompatAdditive
    ∧ latest sf_surface_id old (cc_surface_id c) = None ∧ is_Some (latest sf_surface_id new (cc_surface_id c))) as Hadd.
  { intros c. unfold additive. rewrite list_elem_of_omap. split.
    - intros ([id s] & Hin%btree_entries_elem & Hx). rewrite map_by_lookup in Hin, Hx.
      case_bool_decide as Ho; simplify_eq. simpl. rewrite Hin, eq_None_not_Some. naive_solver.
    - destruct c as [id k]; simpl. intros (-> & Ho & [n Hn]). exists (id, n). rewrite btree_entries_elem, !map_by_lookup.
      split; [done|]. by rewrite Ho, bool_decide_false by by intros []. }
  assert (∀ id c, mkContractChange id c ∈ changes ++ additive ↔ change_of old new id = Some c) as Hall.
  { intros id c. rewrite elem_of_app, Hadd. simpl. split.
    - intros [Hin|(-> & Ho & [n Hn])]; [by apply Hcs in Hin|]. unfold change_of. by rewrite Ho, Hn.
    - intros Hch. destruct (latest sf_surface_id old id) as [o|] eqn:Ho.
      + left. assert (id ∈ cc_surface_id <$> changes) as Hin by (rewrite Hids; by apply Hold).
        apply list_elem_of_fmap in Hin as ([id' c'] & -> & Hin). pose proof (Hcs _ Hin) as Hc'. simpl in *. congruence.
      + right. unfold change_of in Hch. rewrite Ho in Hch.
        destruct (latest sf_surface_id new id); simplify_eq. naive_solver. }
  simpl. split_and!; [| |exact Hall|].
  - intros id Hr. eapply Hrs; [|exact Hr]. apply Hold, Hr.
  - rewrite fmap_app. apply NoDup_app. split_and!; [rewrite Hids; apply btree_entries_NoDup| |].
    + intros id. rewrite Hids, Hold. intros [o Ho] Hin.
      apply list_elem_of_fmap in Hin as (c & -> & (_ & Hn & _)%Hadd). congruence.
    + eapply (sublist_NoDup _ (btree_entries String.compare (map_by sf_surface_id new)).*1); [apply btree_entries_NoDup|].
      unfold additive. clear. induction (btree_entries _ _) as [|[id s] l IH]; [done|].
      cbn [omap list_omap]. case_bool_decide; csimpl; [by apply sublist_cons|by apply sublist_skip].
  - rewrite existsb_exists. split.
    + intros ([id c] & Hin & Hb%bool_decide_eq_true). simpl in Hb. subst.
      apply list_elem_of_In, Hall in Hin. exists id. unfold change_of in Hin.
      destruct (latest sf_surface_id old id) as [o|], (latest sf_surface_id new id) as [n|]; try done.
      exists o, n. case_decide; [|done]. by destruct (_ && _).
    + intros (id & o & n & Ho & Hn & Hf). exists (mkContractChange id CompatBreaking).
      rewrite <-list_elem_of_In, Hall. split; [|by apply bool_decide_true].
      unfold change_of. by rewrite Ho, Hn, decide_False.
Qed.

End compare.
