(* ===== verification/Runtime.v ===== *)
(** * Runtime: the composition of the core

    Models [core/src/runtime.rs], [runtime/task_api.rs], [runtime/resource_api.rs] and
    the schedule decisions of [runtime/scheduler.rs].  A [&mut self] method of
    [CoreRuntime] is a computation of the monad [M]: it reads and changes the runtime,
    may return an error (with the changes made so far kept) or panic.  A [&self] method
    is a function of the runtime.

    Counters of type [usize] that count objects in memory are added without a bound; the
    logical step wraps at 64 bits.  The map behind the task pool refuses to grow past
    2^64 records ([CAPACITY_OVERFLOW]); the real one refuses earlier, depending on the size
    of a record, so that the model allows every pool the code can reach. *)
From S2P Require Import Prelude Floats Contracts StateStore Resources Logs ResourceManager.
From S2P Require Import TaskIndexes TaskPool TaskClaiming Plugins Batches WorkBatches.
From S2P Require Import Registry PlanChecks.

Definition ERR_RUNTIME_NOT_ACCEPTING : string := "runtime.not_accepting".
Definition ERR_RUNTIME_ABORTED : string := "runtime.aborted".
Definition ERR_TASK_EXPIRED : string := "task.expired".
Definition ERR_TASK_DEAD_LETTER : string := "task.dead_letter".
Definition ERR_TASK_CANCEL_POLICY_UNSUPPORTED : string := "task.cancel_policy_unsupported".
Definition ERR_RESOURCE_LEASE_CROSS_AWAIT : string := "resource.lease_cross_await".
Definition ERR_RUNNER_FAILED : string := "runner.failed".

Definition CAPACITY_OVERFLOW : string := "Hash table capacity overflow".
Definition OUT_OF_FUEL : string := "out of fuel".

Inductive RuntimeStopState : Type := StopRunning | StopDraining | StopAborted.

#[global] Instance RuntimeStopState_eq_dec : EqDecision RuntimeStopState.
Proof. solve_decision. Defined.
#[global] Instance CancelPolicy_eq_dec : EqDecision CancelPolicy.
Proof. solve_decision. Defined.

Section runtime.
Context {serde : Serde} {dec : Decode} {runners : RunnerTrait}.

(** ** State *)

Record TaskResultSnapshot : Type := mkTaskResultSnapshot {
  trs_task_id : TaskId;
  trs_status : TaskStatus;
  trs_output : option Value;
  trs_output_ref : option RefId;
  trs_continuation_ref : option RefId;
  trs_failure : option RuntimeError;
}.

Record RuntimeStatistics : Type := mkRuntimeStatistics {
  rst_tasks : TaskPoolStatistics;
  rst_retained_events : N;
  rst_dropped_events : N;
  rst_retained_traces : N;
  rst_dropped_traces : N;
  rst_scheduler_decisions : N;
}.

Record DrainingGeneration : Type := mkDrainingGeneration {
  dg_registry_generation : N;
  dg_runner_ids : list RunnerId;
  dg_plugin_ids : gset PluginId;
  dg_registry : RunnerRegistry;
}.

Record CoreRuntime : Type := mkCoreRuntime {
  cr_load_plan : RuntimeLoadPlan;
  cr_handler_bindings : HandlerBindingRegistry;
  cr_surfaces : list ContractSurface;
  cr_protocol_classes : gmap ProtocolId ProtocolClass;
  cr_registry : RunnerRegistry;
  cr_draining_generations : list DrainingGeneration;
  cr_generation_states : list PluginGenerationState;
  cr_tasks : TaskPool;
  cr_resources : ResourceManager;
  cr_states : StateStore;
  cr_events : EventLog;
  cr_traces : TraceLog;
  cr_scheduler_decisions : N;
  cr_current_step : N;
  cr_stop_state : RuntimeStopState;
}.

(** Assignments to single fields. *)
Definition set_cr_load_plan (v : RuntimeLoadPlan) (r : CoreRuntime) : CoreRuntime :=
  mkCoreRuntime v (cr_handler_bindings r) (cr_surfaces r) (cr_protocol_classes r) (cr_registry
    r) (cr_draining_generations r) (cr_generation_states r) (cr_tasks r) (cr_resources r)
    (cr_states r) (cr_events r) (cr_traces r) (cr_scheduler_decisions r) (cr_current_step r)
    (cr_stop_state r).
Definition set_cr_handler_bindings (v : HandlerBindingRegistry) (r : CoreRuntime) : CoreRuntime :=
  mkCoreRuntime (cr_load_plan r) v (cr_surfaces r) (cr_protocol_classes r) (cr_registry r)
    (cr_draining_generations r) (cr_generation_states r) (cr_tasks r) (cr_resources r)
    (cr_states r) (cr_events r) (cr_traces r) (cr_scheduler_decisions r) (cr_current_step r)
    (cr_stop_state r).
Definition set_cr_surfaces (v : list ContractSurface) (r : CoreRuntime) : CoreRuntime :=
  mkCoreRuntime (cr_load_plan r) (cr_handler_bindings r) v (cr_protocol_classes r) (cr_registry
    r) (cr_draining_generations r) (cr_generation_states r) (cr_tasks r) (cr_resources r)
    (cr_states r) (cr_events r) (cr_traces r) (cr_scheduler_decisions r) (cr_current_step r)
    (cr_stop_state r).
Definition set_cr_protocol_classes (v : gmap ProtocolId ProtocolClass) (r : CoreRuntime)
    : CoreRuntime :=
  mkCoreRuntime (cr_load_plan r) (cr_handler_bindings r) (cr_surfaces r) v (cr_registry r)
    (cr_draining_generations r) (cr_generation_states r) (cr_tasks r) (cr_resources r)
    (cr_states r) (cr_events r) (cr_traces r) (cr_scheduler_decisions r) (cr_current_step r)
    (cr_stop_state r).
Definition set_cr_registry (v : RunnerRegistry) (r : CoreRuntime) : CoreRuntime :=
  mkCoreRuntime (cr_load_plan r) (cr_handler_bindings r) (cr_surfaces r) (cr_protocol_classes r)
    v (cr_draining_generations r) (cr_generation_states r) (cr_tasks r) (cr_resources r)
    (cr_states r) (cr_events r) (cr_traces r) (cr_scheduler_decisions r) (cr_current_step r)
    (cr_stop_state r).
Definition set_cr_draining_generations (v : list DrainingGeneration) (r : CoreRuntime)
    : CoreRuntime :=
  mkCoreRuntime (cr_load_plan r) (cr_handler_bindings r) (cr_surfaces r) (cr_protocol_classes r)
    (cr_registry r) v (cr_generation_states r) (cr_tasks r) (cr_resources r) (cr_states r)
    (cr_events r) (cr_traces r) (cr_scheduler_decisions r) (cr_current_step r) (cr_stop_state
    r).
Definition set_cr_generation_states (v : list PluginGenerationState) (r : CoreRuntime)
    : CoreRuntime :=
  mkCoreRuntime (cr_load_plan r) (cr_handler_bindings r) (cr_surfaces r) (cr_protocol_classes r)
    (cr_registry r) (cr_draining_generations r) v (cr_tasks r) (cr_resources r) (cr_states r)
    (cr_events r) (cr_traces r) (cr_scheduler_decisions r) (cr_current_step r) (cr_stop_state
    r).
Definition set_cr_tasks (v : TaskPool) (r : CoreRuntime) : CoreRuntime :=
  mkCoreRuntime (cr_load_plan r) (cr_handler_bindings r) (cr_surfaces r) (cr_protocol_classes r)
    (cr_registry r) (cr_draining_generations r) (cr_generation_states r) v (cr_resources r)
    (cr_states r) (cr_events r) (cr_traces r) (cr_scheduler_decisions r) (cr_current_step r)
    (cr_stop_state r).
Definition set_cr_resources (v : ResourceManager) (r : CoreRuntime) : CoreRuntime :=
  mkCoreRuntime (cr_load_plan r) (cr_handler_bindings r) (cr_surfaces r) (cr_protocol_classes r)
    (cr_registry r) (cr_draining_generations r) (cr_generation_states r) (cr_tasks r) v
    (cr_states r) (cr_events r) (cr_traces r) (cr_scheduler_decisions r) (cr_current_step r)
    (cr_stop_state r).
Definition set_cr_states (v : StateStore) (r : CoreRuntime) : CoreRuntime :=
  mkCoreRuntime (cr_load_plan r) (cr_handler_bindings r) (cr_surfaces r) (cr_protocol_classes r)
    (cr_registry r) (cr_draining_generations r) (cr_generation_states r) (cr_tasks r)
    (cr_resources r) v (cr_events r) (cr_traces r) (cr_scheduler_decisions r) (cr_current_step
    r) (cr_stop_state r).
Definition set_cr_events (v : EventLog) (r : CoreRuntime) : CoreRuntime :=
  mkCoreRuntime (cr_load_plan r) (cr_handler_bindings r) (cr_surfaces r) (cr_protocol_classes r)
    (cr_registry r) (cr_draining_generations r) (cr_generation_states r) (cr_tasks r)
    (cr_resources r) (cr_states r) v (cr_traces r) (cr_scheduler_decisions r) (cr_current_step
    r) (cr_stop_state r).
Definition set_cr_traces (v : TraceLog) (r : CoreRuntime) : CoreRuntime :=
  mkCoreRuntime (cr_load_plan r) (cr_handler_bindings r) (cr_surfaces r) (cr_protocol_classes r)
    (cr_registry r) (cr_draining_generations r) (cr_generation_states r) (cr_tasks r)
    (cr_resources r) (cr_states r) (cr_events r) v (cr_scheduler_decisions r) (cr_current_step
    r) (cr_stop_state r).
Definition set_cr_scheduler_decisions (v : N) (r : CoreRuntime) : CoreRuntime :=
  mkCoreRuntime (cr_load_plan r) (cr_handler_bindings r) (cr_surfaces r) (cr_protocol_classes r)
    (cr_registry r) (cr_draining_generations r) (cr_generation_states r) (cr_tasks r)
    (cr_resources r) (cr_states r) (cr_events r) (cr_traces r) v (cr_current_step r)
    (cr_stop_state r).
Definition set_cr_current_step (v : N) (r : CoreRuntime) : CoreRuntime :=
  mkCoreRuntime (cr_load_plan r) (cr_handler_bindings r) (cr_surfaces r) (cr_protocol_classes r)
    (cr_registry r) (cr_draining_generations r) (cr_generation_states r) (cr_tasks r)
    (cr_resources r) (cr_states r) (cr_events r) (cr_traces r) (cr_scheduler_decisions r) v
    (cr_stop_state r).
Definition set_cr_stop_state (v : RuntimeStopState) (r : CoreRuntime) : CoreRuntime :=
  mkCoreRuntime (cr_load_plan r) (cr_handler_bindings r) (cr_surfaces r) (cr_protocol_classes r)
    (cr_registry r) (cr_draining_generations r) (cr_generation_states r) (cr_tasks r)
    (cr_resources r) (cr_states r) (cr_events r) (cr_traces r) (cr_scheduler_decisions r)
    (cr_current_step r) v.

(** ** Computations *)

Definition M (A : Type) : Type := CoreRuntime → outcome (CoreRuntime * RuntimeResult A).

#[global] Instance M_ret : MRet M := λ A a rt, Done (rt, Ok a).
#[global] Instance M_bind : MBind M := λ A B f m rt,
  match m rt with
  | Panic message => Panic message
  | Done (rt, Err e) => Done (rt, Err e)
  | Done (rt, Ok a) => f a rt
  end.

Definition throw {A} (e : RuntimeFailure) : M A := λ rt, Done (rt, Err e).
Definition ask {A} (f : CoreRuntime → A) : M A := λ rt, Done (rt, Ok (f rt)).
Definition check {A} (f : CoreRuntime → RuntimeResult A) : M A := λ rt, Done (rt, f rt).
Definition modify (f : CoreRuntime → CoreRuntime) : M () := λ rt, Done (f rt, Ok tt).

(** A call whose error is inspected instead of returned. *)
Definition attempt {A} (m : M A) : M (RuntimeResult A) := λ rt,
  match m rt with
  | Panic message => Panic message
  | Done (rt, res) => Done (rt, Ok res)
  end.

(** Calls of the components: fallible, infallible, and infallible but for panics. *)
Definition tasks_do {A} (f : TaskPool → outcome (TaskPool * RuntimeResult A)) : M A := λ rt,
  match f (cr_tasks rt) with
  | Panic message => Panic message
  | Done (p, res) => Done (set_cr_tasks p rt, res)
  end.
Definition tasks_run {A} (f : TaskPool → outcome (TaskPool * A)) : M A :=
  tasks_do (λ p, '(p, a) ← f p; Done (p, Ok a)).
Definition resources_run {A} (f : ResourceManager → outcome (ResourceManager * RuntimeResult A)) : M A :=
  λ rt, match f (cr_resources rt) with
        | Panic message => Panic message
        | Done (m, res) => Done (set_cr_resources m rt, res)
        end.
Definition resources_do {A} (f : ResourceManager → ResourceManager * RuntimeResult A) : M A :=
  resources_run (λ m, Done (f m)).
Definition registry_do {A} (f : RunnerRegistry → RunnerRegistry * RuntimeResult A) : M A := λ rt,
  let '(r, res) := f (cr_registry rt) in Done (set_cr_registry r rt, res).
Definition states_do {A} (f : StateStore → StateStore * RuntimeResult A) : M A := λ rt,
  let '(s, res) := f (cr_states rt) in Done (set_cr_states s rt, res).

Definition record_event (kind : RuntimeEventKind) (name : string) (subject_id : option string)
    (attributes : gmap string ScalarValue) (error : option RuntimeError) : M () :=
  modify (λ rt, set_cr_events
    (event_record kind name subject_id attributes error (cr_events rt)).1 rt).

(** A loop for its effect, and a loop that adds up what the body returns. *)
Fixpoint for_each {A} (l : list A) (body : A → M ()) : M () :=
  match l with
  | [] => mret tt
  | x :: l => _ ← body x; for_each l body
  end.
Fixpoint sum_each {A} (l : list A) (body : A → M N) : M N :=
  match l with
  | [] => mret 0%N
  | x :: l => n ← body x; total ← sum_each l body; mret (n + total)%N
  end.

(** ** Boot *)

Fixpoint register_all (l : list Runner) (r : RunnerRegistry) : RuntimeResult RunnerRegistry :=
  match l with
  | [] => Ok r
  | runner :: l =>
      match register runner r with
      | (_, Err e) => Err e
      | (r, Ok _) => register_all l r
      end
  end.
Fixpoint register_all_handlers (l : list AsyncHandler) (r : RunnerRegistry)
    : RuntimeResult RunnerRegistry :=
  match l with
  | [] => Ok r
  | handler :: l =>
      match register_async_handler handler r with
      | (_, Err e) => Err e
      | (r, Ok _) => register_all_handlers l r
      end
  end.

(** The registry both [boot_with_async_handlers] and [reload_with_async_handlers] build
    from validated descriptors. *)
Definition build_registry (generation : N) (new_runners : list Runner) (handlers : list AsyncHandler)
    : RuntimeResult RunnerRegistry :=
  match register_all new_runners RunnerRegistry_default with
  | Err e => Err e
  | Ok r =>
      match register_all_handlers handlers r with
      | Err e => Err e
      | Ok r =>
          match validate_instance_counts r with
          | Err e => Err e
          | Ok _ => Ok (freeze generation r)
          end
      end
  end.

Definition generation_states_for_plan (load_plan : RuntimeLoadPlan) (phase : PluginGenerationPhase)
    : list PluginGenerationState :=
  (λ plugin, mkPluginGenerationState (pm_plugin_id plugin) (plan_registry_generation load_plan) phase)
    <$> plan_plugins load_plan.

Definition protocol_classes_for_plan (load_plan : RuntimeLoadPlan) : gmap ProtocolId ProtocolClass :=
  foldl (λ classes plugin, pv_protocol_classes (pm_provides plugin) ∪ classes) ∅
    (plan_plugins load_plan).

Definition boot_with_async_handlers (layout : Layout) (load_plan : RuntimeLoadPlan)
    (new_runners : list Runner) (async_handlers : list AsyncHandler) : outcome (RuntimeResult CoreRuntime) :=
  let runner_descriptors :=
    (runner_descriptor <$> new_runners) ++ (handler_descriptor <$> async_handlers) in
  match validate_runtime_descriptors load_plan runner_descriptors with
  | Err e => Done (Err e)
  | Ok _ =>
      match build_registry (plan_registry_generation load_plan) new_runners async_handlers with
      | Err e => Done (Err e)
      | Ok registry =>
          let observability := plan_observability load_plan in
          events ← event_log_with_profile layout (ob_events observability);
          traces ← trace_log_with_profile layout (ob_traces observability);
          Done (Ok {| cr_load_plan := load_plan;
                      cr_handler_bindings := from_load_plan load_plan;
                      cr_surfaces := plan_contract_surfaces load_plan;
                      cr_protocol_classes := protocol_classes_for_plan load_plan;
                      cr_registry := registry;
                      cr_draining_generations := [];
                      cr_generation_states := generation_states_for_plan load_plan PhaseActive;
                      cr_tasks := TaskPool_default;
                      cr_resources := ResourceManager_new;
                      cr_states := with_profile (ob_state_history observability);
                      cr_events := events;
                      cr_traces := traces;
                      cr_scheduler_decisions := 0;
                      cr_current_step := 0;
                      cr_stop_state := StopRunning |})
      end
  end.

Definition boot (layout : Layout) (load_plan : RuntimeLoadPlan) (new_runners : list Runner)
    : outcome (RuntimeResult CoreRuntime) :=
  boot_with_async_handlers layout load_plan new_runners [].

(** ** Reading *)

Definition registry_snapshot (rt : CoreRuntime) : RegistrySnapshot :=
  {| rsn_generation := plan_registry_generation (cr_load_plan rt); rsn_frozen := true;
     rsn_runners := registry_descriptors (cr_registry rt);
     rsn_handler_bindings := hbr_bindings (cr_handler_bindings rt);
     rsn_surfaces := cr_surfaces rt |}.

Definition handler_bindings (rt : CoreRuntime) (protocol_id : ProtocolId) : list HandlerBinding :=
  query_protocol (cr_handler_bindings rt) protocol_id.

Definition register_handler_binding (binding : HandlerBinding) : M () :=
  throw (runtime_failure ERR_REGISTRY_FROZEN "runtime.handler_binding"
           ("handler_binding." +:+ hb_binding_id binding)).

(** Which registry handed out a dispatch: the active one, or a draining one by index. *)
Definition draining_index (rt : CoreRuntime) (generation : N) : option nat :=
  if decide (generation = 0 ∨ generation = reg_generation (cr_registry rt))%N then None
  else fst <$> list_find (λ draining, dg_registry_generation draining = generation)
                 (cr_draining_generations rt).

Definition registry_at (rt : CoreRuntime) (index : option nat) : RunnerRegistry :=
  match index with
  | Some i => match cr_draining_generations rt !! i with
              | Some draining => dg_registry draining
              | None => cr_registry rt
              end
  | None => cr_registry rt
  end.

Definition set_registry_at (index : option nat) (r : RunnerRegistry) (rt : CoreRuntime) : CoreRuntime :=
  match index with
  | Some i =>
      set_cr_draining_generations
        (alter (λ draining, mkDrainingGeneration (dg_registry_generation draining)
                  (dg_runner_ids draining) (dg_plugin_ids draining) r) i
           (cr_draining_generations rt)) rt
  | None => set_cr_registry r rt
  end.

(** [self.registry_for_generation(generation).put_runner(runner, generation)]. *)
Definition put_runner_for_generation (generation : N) (runner : Runner) : M (option Runner) := λ rt,
  let index := draining_index rt generation in
  let '(r, rejected) := put_runner runner generation (registry_at rt index) in
  Done (set_registry_at index r rt, Ok rejected).

Definition descriptors_for_generation (rt : CoreRuntime) (generation : N) : list RunnerDescriptor :=
  registry_descriptors (registry_at rt (draining_index rt generation)).

Definition next_required_step (rt : CoreRuntime) : option N :=
  pool_next_required_step_after (cr_tasks rt) (cr_current_step rt).

Definition statistics (rt : CoreRuntime) : RuntimeStatistics :=
  {| rst_tasks := tp_statistics (cr_tasks rt);
     rst_retained_events := bl_len (el_inner (cr_events rt));
     rst_dropped_events := bl_dropped (el_inner (cr_events rt));
     rst_retained_traces := bl_len (trl_inner (cr_traces rt));
     rst_dropped_traces := bl_dropped (trl_inner (cr_traces rt));
     rst_scheduler_decisions := cr_scheduler_decisions rt |}.

Definition is_drained (rt : CoreRuntime) : bool :=
  let st := tp_statistics (cr_tasks rt) in
  bool_decide (cr_stop_state rt = StopDraining) && bool_decide (st_ready st = 0%N)
  && bool_decide (st_running st = 0%N) && bool_decide (st_waiting st = 0%N)
  && bool_decide (st_blocked st = 0%N).

Definition ensure_accepting_external_tasks (rt : CoreRuntime) : RuntimeResult () :=
  match cr_stop_state rt with
  | StopRunning => Ok tt
  | StopAborted => Err (runtime_failure ERR_RUNTIME_ABORTED "runtime.lifecycle" "runtime.submit")
  | StopDraining => Err (runtime_failure ERR_RUNTIME_NOT_ACCEPTING "runtime.lifecycle" "runtime.submit")
  end.

Definition ensure_not_aborted (rt : CoreRuntime) : RuntimeResult () :=
  if decide (cr_stop_state rt = StopAborted) then
    Err (runtime_failure ERR_RUNTIME_ABORTED "runtime.lifecycle" "runtime.execute.aborted")
  else Ok tt.

Definition is_surface_deprecated (rt : CoreRuntime) (surface_id : SurfaceId) : bool :=
  existsb (λ surface, bool_decide (sf_surface_id surface = surface_id) && sf_deprecated surface)
    (cr_surfaces rt).

Definition ensure_surface_not_deprecated (surface_id : SurfaceId) (source : string) (rt : CoreRuntime)
    : RuntimeResult () :=
  if is_surface_deprecated rt surface_id then
    Err (runtime_failure ERR_RELOAD_BLOCKED source ("surface.deprecated." +:+ surface_id))
  else Ok tt.

Definition ensure_resource_surfaces_not_deprecated (schema : string) (provider_id : option string)
    (source : string) (rt : CoreRuntime) : RuntimeResult () :=
  check_all (λ surface_id, ensure_surface_not_deprecated surface_id source rt)
    ([schema; "resource_schema:" +:+ schema]
     ++ match provider_id with
        | Some provider_id => [provider_id; "resource_provider:" +:+ provider_id]
        | None => []
        end).

Definition ensure_task_can_suspend (task_id : TaskId) (rt : CoreRuntime) : RuntimeResult () :=
  let active_mutable := active_mutable_lease_routes_for_task (cr_resources rt) task_id in
  if decide (active_mutable = []) then Ok tt
  else
    Err (set_err_evidence "active_mutable_leases" (ScalarString (join "," active_mutable))
           (RuntimeError_new ERR_RESOURCE_LEASE_CROSS_AWAIT "runtime.resource_manager"
              ("task.await." +:+ task_id))).

Definition task_status (rt : CoreRuntime) (task_id : TaskId) : option TaskStatus :=
  rec_status <$> pool_get (cr_tasks rt) task_id.

(** ** Lifecycle *)

Definition begin_drain : M RuntimeStopState :=
  state ← ask cr_stop_state;
  match state with
  | StopRunning =>
      _ ← modify (set_cr_stop_state StopDraining);
      _ ← record_event EventLifecycle "runtime.drain_started" None ∅ None;
      mret StopDraining
  | StopDraining => mret StopDraining
  | StopAborted =>
      throw (runtime_failure ERR_RUNTIME_ABORTED "runtime.lifecycle" "runtime.drain.aborted")
  end.

Definition record_task_terminal_event (task_id : TaskId) (name : string) (error : option RuntimeError)
    : M () :=
  record_event EventTask name (Some task_id) ∅ error.

Definition abort_failure (reason : string) : RuntimeError :=
  set_err_evidence "reason" (ScalarString reason)
    (RuntimeError_new ERR_RUNTIME_ABORTED "runtime.lifecycle" "runtime.abort").

Definition abort (reason : string) : M N :=
  state ← ask cr_stop_state;
  if decide (state = StopAborted) then mret 0%N
  else
    _ ← modify (set_cr_stop_state StopAborted);
    let failure := abort_failure reason in
    step ← ask cr_current_step;
    aborted ← tasks_run (λ p, abort_all p step failure);
    _ ← for_each aborted (λ task_id,
          requested ← ask (λ rt, cancellation_requested (cr_tasks rt) task_id);
          if (requested : bool) then mret tt
          else record_task_terminal_event task_id "task.cancelled" (Some failure));
    _ ← record_event EventLifecycle "runtime.aborted" None
          {["reason" := ScalarString reason; "cancelled_tasks" := count_attr (length aborted)]}
          (Some failure);
    mret (N.of_nat (length aborted)).

Definition configure_event_capacity (capacity : N) : M () :=
  _ ← modify (λ rt,
        let ob := plan_observability (cr_load_plan rt) in
        set_cr_load_plan (set_plan_observability
          (mkObservabilityProfile (mkOutletProfile capacity (op_overflow_policy (ob_events ob)))
             (ob_traces ob) (ob_detailed_scheduler_decisions ob) (ob_dispatch_spans ob)
             (ob_state_history ob)) (cr_load_plan rt)) rt);
  modify (λ rt, set_cr_events (mkEventLog (log_set_capacity capacity (el_inner (cr_events rt)))) rt).

Definition configure_observability (profile : ObservabilityProfile) : M () :=
  _ ← modify (λ rt, set_cr_states
        (StateStore.configure (cr_states rt) (ob_state_history profile) (cr_current_step rt)) rt);
  _ ← modify (λ rt, set_cr_events
        (mkEventLog (log_configure (ob_events profile) (el_inner (cr_events rt)))) rt);
  _ ← modify (λ rt, set_cr_traces
        (mkTraceLog (log_configure (ob_traces profile) (trl_inner (cr_traces rt)))) rt);
  modify (λ rt, set_cr_load_plan (set_plan_observability profile (cr_load_plan rt)) rt).

Definition configure_task_history_retention (retention : option TaskHistoryRetention) : M () :=
  tasks_run (λ p, p ← configure_history_retention p retention; Done (p, tt)).

Definition runner_heartbeat (runner_id : RunnerId) (executor_id : ExecutorId) : M RunnerHeartbeat :=
  step ← ask cr_current_step;
  registry_do (heartbeat runner_id executor_id step).

Definition runner_capability (runner_id : RunnerId) (protocol_ids : list ProtocolId) (capacity : N)
    : M RunnerCapabilityDeclaration :=
  registry_do (declare_capability runner_id protocol_ids capacity).

Definition cancel_runner_invocation (runner_id : RunnerId) (invocation_or_task_id : string) : M () :=
  registry_do (cancel_runner runner_id invocation_or_task_id).

(** ** Waking *)

Definition is_suspended (status : option TaskStatus) : bool :=
  match status with Some Waiting | Some Blocked => true | _ => false end.

Definition wake_tasks_waiting_on (child_task_id : TaskId) : M N :=
  waits ← tasks_run (λ p, take_waits_for_child p child_task_id);
  sum_each waits (λ task_await,
    let parent := ta_parent_task_id task_await in
    status ← ask (λ rt, task_status rt parent);
    if is_suspended status then
      step ← ask cr_current_step;
      _ ← tasks_do (λ p, Done (wake p parent step));
      _ ← record_event EventTask "task.wake" (Some parent)
            {["child_task_id" := ScalarString child_task_id]} None;
      mret 1%N
    else mret 0%N).

Definition wake_due : M N :=
  step ← ask cr_current_step;
  due_tasks ← tasks_run (λ p, TaskPool.wake_due_tasks p step);
  _ ← for_each due_tasks (λ '(task_id, ready_at_step),
        record_event EventTask "task.wake" (Some task_id)
          {["reason" := ScalarString "ready_at_step";
            "ready_at_step" := ScalarInt (u64_as_i64 ready_at_step)]} None);
  mret (N.of_nat (length due_tasks)).

Definition stale_ready_tasks (rt : CoreRuntime) : list (TaskId * RuntimeError) :=
  omap (λ task_id,
    record ← pool_get (cr_tasks rt) task_id;
    match validate_expectations (cr_states rt) (t_expected_versions (rec_task record))
            ("task.precondition." +:+ task_id) with
    | Ok _ => None
    | Err failure => Some (task_id, failure)
    end) (stale_expectation_task_ids (cr_tasks rt)).

Definition reject_stale_ready_tasks : M N :=
  stale_tasks ← ask stale_ready_tasks;
  sum_each stale_tasks (λ '(task_id, failure),
    _ ← tasks_do (λ p, reject_ready p task_id failure);
    _ ← record_task_terminal_event task_id "task.failed" (Some failure);
    _ ← wake_tasks_waiting_on task_id;
    mret 1%N).

(** ** Submitting *)

Definition enqueue_task (task : Task) : M TaskId :=
  _ ← check ensure_not_aborted;
  generation ← ask (λ rt, plan_registry_generation (cr_load_plan rt));
  let task := if decide (t_registry_generation task = 0%N)
              then set_t_registry_generation generation task else task in
  deprecated_surface ← ask (λ rt,
    find (is_surface_deprecated rt) (surface_ids_for_task task (cr_protocol_classes rt)));
  step ← ask cr_current_step;
  task_id ← tasks_do (λ p,
    if decide (u64_max ≤ N.of_nat (size (tp_tasks p)))%N then Panic CAPACITY_OVERFLOW
    else Done (enqueue_at p task step));
  _ ← match deprecated_surface with
      | Some surface_id =>
          _ ← attempt (tasks_do (λ p, reject_ready p task_id
                (RuntimeError_new ERR_RELOAD_BLOCKED "runtime.result_router"
                   ("surface.deprecated." +:+ surface_id))));
          mret tt
      | None => mret tt
      end;
  _ ← record_event EventTask "task.enqueue" (Some task_id) ∅ None;
  _ ← record_event EventTask "task.submitted" (Some task_id) ∅ None;
  mret task_id.

(** The first task of the batch whose id is taken or was seen before. *)
Fixpoint find_duplicate (p : TaskPool) (tasks : list Task) (seen : gset TaskId) : option TaskId :=
  match tasks with
  | [] => None
  | task :: tasks =>
      let id := t_task_id task in
      if bool_decide (id ∈ seen) || contains_task_id p id then Some id
      else find_duplicate p tasks ({[id]} ∪ seen)
  end.

Definition task_handle_for_id (task_id : TaskId) (rt : CoreRuntime) : RuntimeResult TaskHandle :=
  match pool_get (cr_tasks rt) task_id with
  | None => Err (runtime_failure ERR_TASK_NOT_FOUND "runtime.task" ("task.handle." +:+ task_id))
  | Some record =>
      let task := rec_task record in
      Ok (mkTaskHandle (t_task_id task) (t_protocol_id task) (t_target_binding_id task) Cascade
            (t_trace_id task) (t_correlation_id task))
  end.

Fixpoint map_each {A B} (l : list A) (body : A → M B) : M (list B) :=
  match l with
  | [] => mret []
  | x :: l => b ← body x; bs ← map_each l body; mret (b :: bs)
  end.

Definition submit_batch (batch : TaskBatch) : M (list TaskHandle) :=
  _ ← check ensure_accepting_external_tasks;
  duplicate ← ask (λ rt, find_duplicate (cr_tasks rt) (tb_tasks batch) ∅);
  match duplicate with
  | Some task_id =>
      throw (runtime_failure ERR_TASK_DUPLICATE "runtime.task"
               ("task.batch." +:+ tb_batch_id batch +:+ "." +:+ task_id))
  | None =>
      task_ids ← map_each (tb_tasks batch) enqueue_task;
      map_each task_ids (λ task_id, check (task_handle_for_id task_id))
  end.

Definition submit_task (task : Task) : M TaskHandle :=
  let batch_id := "core.submit." +:+ t_task_id task in
  handles ← submit_batch (TaskBatch_one batch_id task);
  match handles with
  | handle :: _ => mret handle
  | [] => throw (runtime_failure ERR_TASK_CLAIM_CONFLICT "runtime.task" "task.submit.empty")
  end.

(** [task.target_binding_id] and [task.runner_hint]. *)
Definition set_t_target (binding_id : option BindingId) (runner_hint : option string) (t : Task) : Task :=
  mkTask (t_task_id t) (t_protocol_id t) (t_priority t) (t_ready_at_step t) (t_payload t)
    (t_input_refs t) (t_output_ref t) (t_continuation_ref t) binding_id (t_lease_id t)
    (t_trace_id t) (t_expected_versions t) (t_correlation_id t) (t_idempotency_key t)
    runner_hint (t_registry_generation t) (t_required_surfaces t) (t_dispatch_lane t)
    (t_ordering t) (t_resource_requirements t) (t_created_sequence t).

Definition submit_targeted_task (task_id : TaskId) (binding_id : BindingId) (payload : Value)
    : M TaskHandle :=
  found ← ask (λ rt, find (λ binding, bool_decide (hb_binding_id binding = binding_id))
                       (hbr_bindings (cr_handler_bindings rt)));
  match found with
  | None => throw (runtime_failure ERR_REGISTRY_UNAUTHORIZED "runtime.handler_binding"
                     ("handler_binding." +:+ binding_id))
  | Some binding =>
      submit_task (set_t_target (Some (hb_binding_id binding)) (hb_target_runner_hint binding)
                     (Task_new task_id (hb_target_protocol_id binding) (PayloadJson payload)))
  end.

(** ** Results *)

Definition task_result (rt : CoreRuntime) (task_id : TaskId) : option TaskResultSnapshot :=
  (λ record, mkTaskResultSnapshot (t_task_id (rec_task record)) (rec_status record)
     (rec_output record) (t_output_ref (rec_task record)) (t_continuation_ref (rec_task record))
     (rec_failure record)) <$> pool_get (cr_tasks rt) task_id.

Inductive TaskOutcome : Type :=
| OutcomeCompleted (task_id : TaskId) (output : option Value) (output_ref : option RefId)
| OutcomeFailed (task_id : TaskId) (error : RuntimeError)
| OutcomeCancelled (task_id : TaskId) (reason : option string)
| OutcomeExpired (task_id : TaskId) (reason : option string)
| OutcomeDeadLetter (task_id : TaskId) (reason : option string).

Definition task_outcome (rt : CoreRuntime) (task_id : TaskId) : RuntimeResult (option TaskOutcome) :=
  match pool_get (cr_tasks rt) task_id with
  | None => Err (runtime_failure ERR_TASK_NOT_FOUND "runtime.task" ("task.outcome." +:+ task_id))
  | Some record =>
      let id := t_task_id (rec_task record) in
      let reason := err_route <$> rec_failure record in
      Ok match rec_status record with
         | Completed => Some (OutcomeCompleted id (rec_output record) (t_output_ref (rec_task record)))
         | Failed =>
             Some (OutcomeFailed id
               (default (RuntimeError_new ERR_RUNNER_FAILED "runtime.task" ("task.outcome." +:+ task_id))
                  (rec_failure record)))
         | Cancelled => Some (OutcomeCancelled id reason)
         | Expired => Some (OutcomeExpired id reason)
         | DeadLetter => Some (OutcomeDeadLetter id reason)
         | _ => None
         end
  end.

Definition task_events (rt : CoreRuntime) (task_id : TaskId) : list RuntimeEvent :=
  filter (λ event, ev_subject_id event = Some task_id) (bl_records (el_inner (cr_events rt))).

Definition events_after (rt : CoreRuntime) (sequence limit : N) : ObservabilityPage RuntimeEvent :=
  event_page_after sequence limit (cr_events rt).

(** ** Cancelling *)

Definition pair_order (a b : TaskId * RunnerId) : comparison :=
  then_with (String.compare a.1 b.1) (String.compare a.2 b.2).

(** The work list of [task_cancellation_targets]; a [Vec] popped at its end. *)
Fixpoint targets_loop (fuel : nat) (p : TaskPool) (pending : list TaskId) (visited : gset TaskId)
    (targets : list (TaskId * RunnerId)) : outcome (list (TaskId * RunnerId)) :=
  match last pending with
  | None => Done targets
  | Some task_id =>
      match fuel with
      | O => Panic OUT_OF_FUEL
      | S fuel =>
          let pending := removelast pending in
          if decide (task_id ∈ visited) then targets_loop fuel p pending visited targets
          else
            let targets :=
              match record ← pool_get p task_id; rec_owner_runner record with
              | Some runner_id => targets ++ [(task_id, runner_id)]
              | None => targets
              end in
            let children :=
              (λ task_await, th_task_id (ta_child task_await))
                <$> filter (λ task_await, ta_cancel_policy task_await = Cascade)
                      (awaits_for_parent p task_id) in
            targets_loop fuel p (pending ++ children) ({[task_id]} ∪ visited) targets
      end
  end.

(** Every task is pushed once per link to it, besides the first. *)
Definition targets_fuel (p : TaskPool) : nat :=
  S (length (concat (map_to_list (tp_waits_by_parent p)).*2)).

Definition task_cancellation_targets (handle : TaskHandle) (rt : CoreRuntime)
    : outcome (list (TaskId * RunnerId)) :=
  targets ← targets_loop (targets_fuel (cr_tasks rt)) (cr_tasks rt) [th_task_id handle] ∅ [];
  Done (sort_by pair_order targets).

Definition is_open (status : option TaskStatus) : bool :=
  match status with
  | Some (Created | Ready | Running | Waiting | Blocked) => true
  | _ => false
  end.

(** The recursion follows the wait links down; the fuel bounds its depth. *)
Fixpoint cancel_cascade (fuel : nat) (task_id : TaskId) : M () :=
  match fuel with
  | O => λ rt, Panic OUT_OF_FUEL
  | S fuel =>
      awaits ← ask (λ rt, awaits_for_parent (cr_tasks rt) task_id);
      if existsb (λ task_await, bool_decide (ta_cancel_policy task_await ≠ Cascade)) awaits then
        throw (runtime_failure ERR_TASK_CANCEL_POLICY_UNSUPPORTED "runtime.task"
                 ("task.cancel." +:+ task_id))
      else
        step ← ask cr_current_step;
        finalized ← tasks_do (λ p, request_cancel_by_core p task_id step None);
        _ ← (if (finalized : bool) then record_task_terminal_event task_id "task.cancelled" None
             else mret tt);
        _ ← for_each awaits (λ task_await,
              let child := th_task_id (ta_child task_await) in
              status ← ask (λ rt, task_status rt child);
              if is_open status then cancel_cascade fuel child else mret tt);
        if (finalized : bool) then _ ← wake_tasks_waiting_on task_id; mret tt else mret tt
  end.

Definition cancel_task_by_id (task_id : TaskId) : M () := λ rt,
  cancel_cascade (S (size (tp_tasks (cr_tasks rt)))) task_id rt.

Definition cancel_task_handle (handle : TaskHandle) : M () := cancel_task_by_id (th_task_id handle).

Definition reason_failure (code action task_id reason : string) : RuntimeError :=
  set_err_evidence "reason" (ScalarString reason)
    (RuntimeError_new code "runtime.task" ("task." +:+ action +:+ "." +:+ task_id)).

Definition expire_task (task_id : TaskId) (reason : string) : M () :=
  let failure := reason_failure ERR_TASK_EXPIRED "expire" task_id reason in
  step ← ask cr_current_step;
  _ ← tasks_do (λ p, expire_by_core p task_id failure step);
  _ ← record_task_terminal_event task_id "task.expired" (Some failure);
  _ ← wake_tasks_waiting_on task_id;
  mret tt.

Definition dead_letter_task (task_id : TaskId) (reason : string) : M () :=
  let failure := reason_failure ERR_TASK_DEAD_LETTER "dead_letter" task_id reason in
  step ← ask cr_current_step;
  _ ← tasks_do (λ p, dead_letter_by_core p task_id failure step);
  _ ← record_task_terminal_event task_id "task.dead_lettered" (Some failure);
  _ ← wake_tasks_waiting_on task_id;
  mret tt.

Definition wake_task_by_id (task_id : TaskId) : M () :=
  step ← ask cr_current_step;
  tasks_do (λ p, Done (wake p task_id step)).

Definition wake_task_handle (handle : TaskHandle) : M () := wake_task_by_id (th_task_id handle).

(** ** Resources *)

Definition rm_source : string := "runtime.resource_manager".

Definition ensure_resource_descriptor_not_deprecated (descriptor : ResourceRef) (rt : CoreRuntime)
    : RuntimeResult () :=
  ensure_resource_surfaces_not_deprecated (rr_schema descriptor) (Some (rr_provider_id descriptor))
    rm_source rt.

Definition rt_invalidate_resource_descriptors (provider_id : string)
    (invalidations : list ResourceDescriptorInvalidation) : M () :=
  resources_do (λ m, invalidate_resource_descriptors m provider_id invalidations).

Definition rt_invalidate_legacy_receipt_removals (provider_id : string) (ref_ids : list string) : M () :=
  resources_do (λ m, invalidate_legacy_receipt_removals m provider_id ref_ids).

Definition open_stream (stream_id schema provider_id endpoint : string) : M ResourceRef :=
  _ ← check (ensure_surface_not_deprecated ("stream:" +:+ stream_id) rm_source);
  _ ← check (ensure_resource_surfaces_not_deprecated schema (Some provider_id) rm_source);
  resources_do (λ m, let '(m, r) := create_stream_resource m stream_id schema provider_id endpoint in
                     (m, Ok r)).

Definition close_stream (ref_id : RefId) : M () :=
  _ ← resources_run (λ m, close_stream_resource m ref_id);
  mret tt.

Definition rt_register_resource_descriptor (descriptor : ResourceRef) : M ResourceRef :=
  _ ← check (ensure_resource_descriptor_not_deprecated descriptor);
  resources_do (λ m, register_resource_descriptor m descriptor).

Definition rt_unregister_resource (ref_id : RefId) : M () :=
  resources_do (λ m, unregister_resource m ref_id).

Definition rt_sync_plan_receipt (receipt : PlanReceipt) : M (list ResourceRef) :=
  _ ← check (λ rt,
        match rc_resource_ref receipt with
        | Some resource => ensure_resource_descriptor_not_deprecated resource rt
        | None => Ok tt
        end);
  _ ← check (λ rt,
        match rc_snapshot receipt with
        | Some snapshot => ensure_resource_descriptor_not_deprecated (sn_snapshot_ref snapshot) rt
        | None => Ok tt
        end);
  _ ← check (λ rt, check_all (λ descriptor, ensure_resource_descriptor_not_deprecated descriptor rt)
                     (rc_descriptor_updates receipt));
  resources_do (λ m, sync_plan_receipt m receipt).

Definition sync_plan_receipts (receipts : list PlanReceipt) : M (list ResourceRef) :=
  synced ← map_each receipts rt_sync_plan_receipt;
  mret (concat synced).

Definition lock_resource (ref_id : RefId) (owner : string) (expires_at_step : option N)
    : M ExclusiveWriteLease :=
  resources_do (λ m, acquire_write_lease m ref_id owner expires_at_step).

Definition rt_release_write_lease (lease : ExclusiveWriteLease) : M () :=
  step ← ask cr_current_step;
  resources_do (λ m, release_write_lease_at m lease step).

Definition rt_create_resource_cell (cell_id resource_kind owner_plugin_id schema reload_policy : string)
    : M ResourceCellRef :=
  _ ← check (ensure_resource_surfaces_not_deprecated schema None rm_source);
  resources_do (λ m,
    let '(m, c) := create_resource_cell m cell_id resource_kind owner_plugin_id schema reload_policy in
    (m, Ok c)).

Definition rt_acquire_resource_lease (cell_id borrower_task_id borrower_executor_id mode : string)
    (expires_at_step : option N) : M ResourceLease :=
  resources_do (λ m,
    acquire_resource_lease m cell_id borrower_task_id borrower_executor_id mode expires_at_step).

Definition rt_release_resource_lease (lease : ResourceLease) : M () :=
  step ← ask cr_current_step;
  resources_do (λ m, release_resource_lease_at m lease step).

Definition rt_reclaim_expired_resource_leases : M (list ResourceLease) :=
  step ← ask cr_current_step;
  resources_do (λ m, let '(m, l) := reclaim_expired_resource_leases m step in (m, Ok l)).

Definition rt_register_surface_occupancy (handle : SurfaceOccupancyHandle) : M () :=
  _ ← check (ensure_surface_not_deprecated (oh_surface_id handle) rm_source);
  resources_do (λ m, register_surface_occupancy m handle).

Definition rt_release_surface_occupancy (handle_id : string) : M SurfaceOccupancyHandle :=
  resources_do (λ m, release_surface_occupancy m handle_id).

(** ** Schedule decisions *)

Record ScheduleDecision : Type := mkScheduleDecision {
  sch_scheduler_id : string;
  sch_reason : string;
  sch_requested_dispatch_limit : N;
  sch_dispatch_limit : N;
  sch_budget : DispatchBudget;
}.

Definition ScheduleDecision_new (scheduler_id : string) (dispatch_limit : N) (reason : string)
    : ScheduleDecision :=
  mkScheduleDecision scheduler_id reason dispatch_limit dispatch_limit (single_batch dispatch_limit).

Definition decision_clamp_to (hard_capacity : N) (d : ScheduleDecision) : ScheduleDecision :=
  mkScheduleDecision (sch_scheduler_id d) (sch_reason d) (sch_requested_dispatch_limit d)
    (N.min (sch_dispatch_limit d) hard_capacity) (clamp_to (sch_budget d) hard_capacity).

Definition decision_clamp_batches (hard_batch_capacity : N) (d : ScheduleDecision) : ScheduleDecision :=
  let budget := clamp_batches (sch_budget d) hard_batch_capacity in
  mkScheduleDecision (sch_scheduler_id d) (sch_reason d) (sch_requested_dispatch_limit d)
    (if decide (db_max_batches budget = 0%N) then 0 else sch_dispatch_limit d) budget.

Definition with_budget (budget : DispatchBudget) (d : ScheduleDecision) : ScheduleDecision :=
  mkScheduleDecision (sch_scheduler_id d) (sch_reason d) (sch_requested_dispatch_limit d)
    (N.min (sch_dispatch_limit d) (db_max_entries budget)) budget.

End runtime.
