(* ===== verification/ResultRouting.v ===== *)
(** * ResultRouting: what the runtime does with the results of runners

    Models [runtime/runner_loop/failure_reporting.rs], [result_router.rs],
    [completion_router.rs] and [kernel.rs]: the sweep of expired leases, failing and
    cancelling leased tasks, turning the outputs of a result into tasks, committing the
    status of a result, matching a completion batch with its dispatch, and the tasks the
    kernel runs itself. *)
From S2P Require Import Prelude Floats Contracts StateStore Resources Logs ResourceManager.
From S2P Require Import TaskIndexes TaskPool TaskClaiming Plugins Batches WorkBatches.
From S2P Require Import Registry PlanChecks Runtime.

Definition ERR_RUNNER_PURITY_VIOLATION : string := "runner.purity_violation".
Definition ERR_TASK_UNSUPPORTED : string := "task.unsupported".
Definition ERR_STATE_DELTA_DECODE_FAILED : string := "state.delta_decode_failed".
Definition ERR_STATE_ROLLBACK_DECODE_FAILED : string := "state.rollback_decode_failed".
Definition ERR_EVENT_DECODE_FAILED : string := "event.decode_failed".

Definition step_attr (n : N) : ScalarValue := ScalarInt (u64_as_i64 n).

(** [if let Some(v) = option { attrs.insert(key, v) }]. *)
Definition insert_some (key : string) (v : option N) (attrs : gmap string ScalarValue)
    : gmap string ScalarValue :=
  match v with Some n => <[key := step_attr n]> attrs | None => attrs end.

Section routing.
Context {serde : Serde} {dec : Decode} {runners : RunnerTrait}.

(** ** Expired leases *)

Definition task_lease_attrs (current_step : N) (lease : TaskLease) : gmap string ScalarValue :=
  <["current_step" := step_attr current_step]>
    (insert_some "expires_at_step" (tl_expires_at_step lease)
       {["lease_id" := ScalarString (tl_lease_id lease);
         "runner_id" := ScalarString (tl_runner_id lease);
         "executor_id" := ScalarString (tl_executor_id lease);
         "registry_generation" := step_attr (tl_registry_generation lease);
         "acquired_at_step" := step_attr (tl_acquired_at_step lease)]}).

Definition reclaim_task_leases : M () :=
  step ← ask cr_current_step;
  reclaimed ← tasks_run (λ p, reclaim_expired_task_leases p step);
  for_each reclaimed (λ lease,
    record_event EventTask "task.lease.expired" (Some (tl_task_id lease))
      (task_lease_attrs step lease) None).

Definition resource_lease_attrs (current_step : N) (lease : ResourceLease) : gmap string ScalarValue :=
  <["current_step" := step_attr current_step]>
    (insert_some "expires_at_step" (rl_expires_at_step lease)
       {["lease_id" := ScalarString (rl_lease_id lease);
         "cell_id" := ScalarString (rl_cell_id lease);
         "borrower_task_id" := ScalarString (rl_borrower_task_id lease);
         "borrower_executor_id" := ScalarString (rl_borrower_executor_id lease);
         "mode" := ScalarString (rl_mode lease);
         "generation" := step_attr (rl_generation lease)]}).

Definition reclaim_resource_leases : M () :=
  step ← ask cr_current_step;
  reclaimed ← resources_do (λ m, let '(m, l) := reclaim_expired_resource_leases m step in (m, Ok l));
  for_each reclaimed (λ lease,
    record_event EventResource "resource.lease.expired" (Some (rl_cell_id lease))
      (resource_lease_attrs step lease) None).

Definition reclaim_expired_leases : M () :=
  _ ← reclaim_task_leases;
  reclaim_resource_leases.

(** ** Failing a dispatch *)

Definition finalize_cancellation (task_lease : TaskLease) : M (option N) :=
  step ← ask cr_current_step;
  pending ← tasks_do (λ p, finalize_requested_cancellation p task_lease step);
  match pending with
  | None => mret None
  | Some pending =>
      _ ← record_task_terminal_event (tl_task_id task_lease) "task.cancelled" (pc_failure pending);
      _ ← wake_tasks_waiting_on (tl_task_id task_lease);
      mret (Some 1%N)
  end.

Definition fail_runner_dispatch (task_lease : TaskLease) (failure : RuntimeError) : M N :=
  cancelled ← finalize_cancellation task_lease;
  match cancelled with
  | Some completed => mret completed
  | None =>
      step ← ask cr_current_step;
      failed ← attempt (tasks_do (λ p, fail p task_lease step failure));
      if is_ok failed then
        _ ← record_task_terminal_event (tl_task_id task_lease) "task.failed" (Some failure);
        _ ← wake_tasks_waiting_on (tl_task_id task_lease);
        mret 1%N
      else mret 0%N
  end.

Definition fail_runner_dispatches (leases : list TaskLease) (failure : RuntimeError) : M N :=
  sum_each leases (λ lease, fail_runner_dispatch lease failure).

Definition record_rejected_runner_result (task_id : TaskId) (error : RuntimeError) : M () :=
  step ← ask cr_current_step;
  record_event EventTask "task.result.rejected" (Some task_id)
    {["error_code" := ScalarString (err_code error);
      "error_route" := ScalarString (err_route error);
      "current_step" := step_attr step]} (Some error).

(** ** Checking a result *)

Definition router_failure (code route : string) : RuntimeFailure :=
  runtime_failure code "runtime.result_router" route.

Definition validate_await_child_task (parent_task_id : TaskId) (parent_task : Task)
    (task_await : TaskAwait) (child_task : Task) : RuntimeResult () :=
  let child := ta_child task_await in
  let child_matches_handle :=
    bool_decide (th_protocol_id child = t_protocol_id child_task)
    && bool_decide (th_target_binding_id child = t_target_binding_id child_task)
    && bool_decide (th_trace_id child = t_trace_id child_task)
    && bool_decide (th_correlation_id child = t_correlation_id child_task) in
  let child_inherits_parent_context :=
    bool_decide (t_trace_id child_task = t_trace_id parent_task)
    && bool_decide (t_correlation_id child_task = t_correlation_id parent_task) in
  if child_matches_handle && child_inherits_parent_context then Ok tt
  else Err (router_failure ERR_TASK_CLAIM_CONFLICT ("task.await.child_descriptor." +:+ parent_task_id)).

Definition validate_await_child_descriptor (parent_task_id : TaskId) (task_await : TaskAwait)
    (output_tasks : list Task) (rt : CoreRuntime) : RuntimeResult () :=
  let child_id := th_task_id (ta_child task_await) in
  match pool_get (cr_tasks rt) parent_task_id with
  | None => Err (router_failure ERR_TASK_NOT_FOUND ("task.await.parent." +:+ parent_task_id))
  | Some parent =>
      match find (λ task, bool_decide (t_task_id task = child_id)) output_tasks with
      | Some output_task =>
          validate_await_child_task parent_task_id (rec_task parent) task_await output_task
      | None =>
          match pool_get (cr_tasks rt) child_id with
          | None => Err (router_failure ERR_TASK_NOT_FOUND ("task.await.child." +:+ child_id))
          | Some child =>
              if is_terminal_status (rec_status child) then
                Err (router_failure ERR_TASK_CLAIM_CONFLICT ("task.await.child_terminal." +:+ child_id))
              else validate_await_child_task parent_task_id (rec_task parent) task_await (rec_task child)
          end
      end
  end.

Definition validate_waiting_result (task_id : TaskId) (status : RunnerStatus)
    (task_await : option TaskAwait) (output_tasks : list Task) (rt : CoreRuntime) : RuntimeResult () :=
  match task_await with
  | None => Ok tt
  | Some task_await =>
      if decide (status ≠ StatusWaiting) then
        Err (router_failure ERR_TASK_CLAIM_CONFLICT ("task.await.status." +:+ task_id))
      else
        match ensure_task_can_suspend task_id rt with
        | Err e => Err e
        | Ok _ =>
            if decide (ta_parent_task_id task_await ≠ task_id) then
              Err (router_failure ERR_TASK_CLAIM_CONFLICT ("task.await.parent." +:+ task_id))
            else validate_await_child_descriptor task_id task_await output_tasks rt
        end
  end.

Definition is_empty {A} (l : list A) : bool := match l with [] => true | _ => false end.

Definition validate_status_outputs (r : RunnerResult) : RuntimeResult () :=
  if bool_decide (is_Some (rr_output r)) && bool_decide (rr_status r ≠ StatusCompleted) then
    Err (router_failure ERR_TASK_CLAIM_CONFLICT ("task.status.output." +:+ rr_task_id r))
  else if decide (rr_status r ≠ StatusContinue) then Ok tt
  else if bool_decide (rr_output r = None) && is_empty (rr_deltas r) && is_empty (rr_events r)
          && is_empty (rr_tasks r) && is_empty (rr_effects r) && is_empty (rr_values r)
          && is_empty (rr_resources r) then Ok tt
  else Err (router_failure ERR_TASK_CLAIM_CONFLICT ("task.continue.outputs." +:+ rr_task_id r)).

(** ** Outputs *)

(** [TaskPayload::from_local]. *)
Definition from_local (body : Any) : TaskPayload := PayloadLocal (mkLocalPayload body None).

Definition commit_task (source_task_id : TaskId) (index : nat) (delta : StateDelta) (generation : N)
    : Task :=
  set_t_registry_generation generation
    (Task_new (source_task_id +:+ ":commit:" +:+ pretty (N.of_nat index)) "core.commit"
       (from_local (local_delta delta))).

(** [task.correlation_id] and [task.expected_versions]. *)
Definition set_t_correlation_id (v : option string) (t : Task) : Task :=
  mkTask (t_task_id t) (t_protocol_id t) (t_priority t) (t_ready_at_step t) (t_payload t)
    (t_input_refs t) (t_output_ref t) (t_continuation_ref t) (t_target_binding_id t) (t_lease_id t)
    (t_trace_id t) (t_expected_versions t) v (t_idempotency_key t) (t_runner_hint t)
    (t_registry_generation t) (t_required_surfaces t) (t_dispatch_lane t) (t_ordering t)
    (t_resource_requirements t) (t_created_sequence t).
Definition set_t_expected_versions (v : list VersionExpectation) (t : Task) : Task :=
  mkTask (t_task_id t) (t_protocol_id t) (t_priority t) (t_ready_at_step t) (t_payload t)
    (t_input_refs t) (t_output_ref t) (t_continuation_ref t) (t_target_binding_id t) (t_lease_id t)
    (t_trace_id t) v (t_correlation_id t) (t_idempotency_key t) (t_runner_hint t)
    (t_registry_generation t) (t_required_surfaces t) (t_dispatch_lane t) (t_ordering t)
    (t_resource_requirements t) (t_created_sequence t).

Definition event_task (source_task_id : TaskId) (event : DomainEvent) (generation : N) : Task :=
  set_t_registry_generation generation
    (set_t_correlation_id (Some source_task_id)
       (Task_new (source_task_id +:+ ":event:" +:+ de_event_id event) "core.event.append"
          (from_local (local_event event)))).

Definition effect_task (source_task_id : TaskId) (effect : EffectRequest) (generation : N) : Task :=
  set_t_expected_versions
    ((λ precondition, mkVersionExpectation (epc_ref_id precondition)
        (epc_expected_version precondition)) <$> er_preconditions effect)
    (set_t_registry_generation generation
       (Task_new (source_task_id +:+ ":effect:" +:+ er_effect_id effect) (er_kind effect)
          (PayloadJson (effect_to_value effect)))).

Definition pending_output_tasks (source_task_id : TaskId) (generation : N)
    (runner_purity : RunnerPurity) (r : RunnerResult) : list Task :=
  (if decide (runner_purity = Pure) then
     imap (λ index delta, commit_task source_task_id index delta generation) (rr_deltas r)
     ++ ((λ effect, effect_task source_task_id effect generation) <$> rr_effects r)
   else [])
  ++ ((λ event, event_task source_task_id event generation) <$> rr_events r)
  ++ rr_tasks r.

Definition ref_lineage_attrs (ref_id : RefId) (schema : string) (generation : N)
    : gmap string ScalarValue :=
  {["ref_id" := ScalarString ref_id; "schema" := ScalarString schema;
    "generation" := step_attr generation]}.

Definition ensure_output_task_ids_available (pending_tasks : list Task) (rt : CoreRuntime)
    : RuntimeResult () :=
  match find_duplicate (cr_tasks rt) pending_tasks ∅ with
  | Some task_id => Err (router_failure ERR_TASK_DUPLICATE ("task.enqueue." +:+ task_id))
  | None => Ok tt
  end.

Definition route_result_outputs (runner : RunnerDescriptor) (r : RunnerResult) : M () :=
  let task_id := rr_task_id r in
  generation ← ask (λ rt, plan_registry_generation (cr_load_plan rt));
  if bool_decide (rd_purity runner ≠ Pure) && (negb (is_empty (rr_deltas r)) || negb (is_empty (rr_effects r)))
  then throw (router_failure ERR_RUNNER_PURITY_VIOLATION
                ("runner." +:+ rd_runner_id runner +:+ ".core_derivation"))
  else
    let pending_tasks := pending_output_tasks task_id generation (rd_purity runner) r in
    _ ← check (ensure_output_task_ids_available pending_tasks);
    _ ← for_each (rr_values r) (λ value_ref,
          record_event EventResource "value.lineage" (Some task_id)
            (ref_lineage_attrs (vr_ref_id value_ref) (vr_schema value_ref) (vr_generation value_ref)) None);
    _ ← for_each (rr_resources r) (λ resource_ref,
          record_event EventResource "resource.lineage" (Some task_id)
            (ref_lineage_attrs (rr_ref_id resource_ref) (rr_schema resource_ref)
               (rr_generation resource_ref)) None);
    for_each pending_tasks (λ task, _ ← enqueue_task task; mret tt).

(** ** Status *)

Definition record_progress (task_id : TaskId) (status : string) : M () :=
  record_event EventTask "task.progress" (Some task_id) {["status" := ScalarString status]} None.

(** The task reached its end: report it and wake who waits for it. *)
Definition settle (task_id : TaskId) (name : string) (error : option RuntimeError) : M N :=
  _ ← record_task_terminal_event task_id name error;
  _ ← wake_tasks_waiting_on task_id;
  mret 1%N.

Definition commit_result_status (runner : RunnerDescriptor) (lease : TaskLease) (r : RunnerResult) : M N :=
  let task_id := rr_task_id r in
  step ← ask cr_current_step;
  match rr_status r with
  | StatusCompleted =>
      _ ← tasks_do (λ p, complete p lease step (rr_output r));
      settle task_id "task.completed" None
  | StatusWaiting =>
      _ ← match rr_task_await r with
          | Some task_await => tasks_do (λ p, Done (wait_on_task p lease step task_await))
          | None => tasks_do (λ p, Done (wait p lease step None))
          end;
      _ ← record_progress task_id "waiting";
      mret 0%N
  | StatusBlocked =>
      _ ← tasks_do (λ p, Done (block p lease step));
      _ ← record_progress task_id "blocked";
      mret 0%N
  | StatusFailed =>
      let failure := RuntimeError_new ERR_RUNNER_FAILED "runtime.result_router"
                       ("runner." +:+ rd_runner_id runner) in
      _ ← tasks_do (λ p, fail p lease step failure);
      settle task_id "task.failed" (Some failure)
  | StatusCancelled =>
      _ ← tasks_do (λ p, cancel_task p lease step);
      settle task_id "task.cancelled" None
  | StatusContinue => mret 0%N
  end.

Definition route_result (runner : RunnerDescriptor) (lease : TaskLease) (r : RunnerResult) : M N :=
  _ ← check (λ rt, ensure_active_lease (cr_tasks rt) (rr_task_id r) lease (cr_current_step rt) "route");
  _ ← check (validate_waiting_result (rr_task_id r) (rr_status r) (rr_task_await r) (rr_tasks r));
  _ ← check (λ _, validate_status_outputs r);
  _ ← route_result_outputs runner r;
  commit_result_status runner lease r.

(** ** Completion batches *)

Definition batch_claim_conflict (route : string) : RuntimeError :=
  RuntimeError_new ERR_TASK_CLAIM_CONFLICT "runtime.runner_loop" route.

Definition is_stale_completion_conflict (error : RuntimeError) : bool :=
  bool_decide (err_code error = ERR_TASK_CLAIM_CONFLICT)
  && String.prefix "task.route." (err_route error).

Definition route_entry_completion (descriptor : RunnerDescriptor) (lease : TaskLease)
    (completion : EntryCompletion) : M N :=
  cancelled ← finalize_cancellation lease;
  match cancelled with
  | Some completed => mret completed
  | None =>
      match ec_error completion, ec_result completion with
      | Some error, _ => fail_runner_dispatch lease error
      | None, None =>
          fail_runner_dispatch lease
            (batch_claim_conflict ("batch.entry.empty." +:+ ec_entry_id completion))
      | None, Some result =>
          if bool_decide (rr_task_id result ≠ tl_task_id lease)
             || bool_decide (ec_task_id completion ≠ tl_task_id lease)
          then fail_runner_dispatch lease
                 (batch_claim_conflict ("task.result." +:+ rr_task_id result))
          else
            routed ← attempt (route_result descriptor lease result);
            match routed with
            | Ok count => mret count
            | Err failure =>
                if is_stale_completion_conflict failure then
                  _ ← tasks_run (λ p, Done (record_stale_result_rejection p, tt));
                  _ ← record_rejected_runner_result (tl_task_id lease) failure;
                  mret 0%N
                else throw failure
            end
      end
  end.

(** The index of the expected entries; an error names the entry that is listed twice or
    has no lease. *)
Fixpoint index_entries (leases_by_task : gmap TaskId TaskLease) (index : nat)
    (entries : list BatchEntry) (by_id : gmap string nat) : result (gmap string nat) string :=
  match entries with
  | [] => Ok by_id
  | entry :: entries =>
      if bool_decide (is_Some (by_id !! be_entry_id entry))
         || negb (bool_decide (is_Some (leases_by_task !! be_task_id entry)))
      then Err (be_entry_id entry)
      else index_entries leases_by_task (S index) entries (<[be_entry_id entry := index]> by_id)
  end.

(** Puts every completion at its entry; an error names an entry that was not expected,
    belongs to another task or was completed before. *)
Fixpoint place_completions (leases_by_task : gmap TaskId TaskLease) (by_id : gmap string nat)
    (expected_entries : list BatchEntry) (completions : list EntryCompletion)
    (placed : list (option EntryCompletion)) : result (list (option EntryCompletion)) string :=
  match completions with
  | [] => Ok placed
  | completion :: rest =>
      let refused := Err (ec_entry_id completion) in
      match by_id !! ec_entry_id completion with
      | None => refused
      | Some index =>
          match expected_entries !! index with
          | None => refused
          | Some entry =>
              if bool_decide (be_task_id entry ≠ ec_task_id completion)
                 || negb (bool_decide (is_Some (leases_by_task !! ec_task_id completion)))
              then refused
              else
                match placed !! index with
                | Some (Some _) => Err (be_entry_id entry)
                | _ => place_completions leases_by_task by_id expected_entries rest
                         (<[index := Some completion]> placed)
                end
          end
      end
  end.

Fixpoint route_entries (descriptor : RunnerDescriptor) (leases : list TaskLease)
    (leases_by_task : gmap TaskId TaskLease) (entries : list (BatchEntry * option EntryCompletion))
    (completed : N) : M N :=
  match entries with
  | [] => mret completed
  | (entry, completion) :: rest =>
      match leases_by_task !! be_task_id entry with
      | None =>
          fail_runner_dispatches leases
            (batch_claim_conflict ("batch.entry.expected." +:+ be_entry_id entry))
      | Some lease =>
          n ← match completion with
              | None => fail_runner_dispatch lease
                          (batch_claim_conflict ("batch.missing." +:+ be_entry_id entry))
              | Some completion => route_entry_completion descriptor lease completion
              end;
          route_entries descriptor leases leases_by_task rest (completed + n)%N
      end
  end.

Definition route_completion_batch (descriptor : RunnerDescriptor) (leases : list TaskLease)
    (expected_entries : list BatchEntry) (batch : CompletionBatch) : M N :=
  let leases_by_task := map_by tl_task_id leases in
  match index_entries leases_by_task 0 expected_entries ∅ with
  | Err entry_id =>
      fail_runner_dispatches leases (batch_claim_conflict ("batch.entry.expected." +:+ entry_id))
  | Ok by_id =>
      match place_completions leases_by_task by_id expected_entries (cb_results batch)
              (replicate (length expected_entries) None) with
      | Err entry_id => fail_runner_dispatches leases (batch_claim_conflict ("batch.entry." +:+ entry_id))
      | Ok placed => route_entries descriptor leases leases_by_task (zip expected_entries placed) 0
      end
  end.

(** ** Completing a dispatch *)

Record RunnerLoopReport : Type := mkRunnerLoopReport {
  rep_claimed_tasks : N;
  rep_completed_tasks : N;
}.
Definition empty_runner_loop_report : RunnerLoopReport := mkRunnerLoopReport 0 0.

Record RunnerCompletion : Type := mkRunnerCompletion {
  rcp_runner : option Runner;
  rcp_task_leases : list TaskLease;
  rcp_batch_id : string;
  rcp_expected_entries : list BatchEntry;
  rcp_result : RuntimeResult CompletionBatch;
}.

(** The generation the dispatch was issued under, from its first lease. *)
Definition dispatch_generation (leases : list TaskLease) : N :=
  match leases with lease :: _ => tl_registry_generation lease | [] => 0 end.

(** Hands an instance back; one that no longer belongs is disposed of. *)
Definition return_runner (generation : N) (runner : Runner) : M () :=
  rejected ← put_runner_for_generation generation runner;
  match rejected with
  | Some rejected => check (λ _, (runner_dispose rejected).2)
  | None => mret tt
  end.

Definition completion_runner_id (completion : RunnerCompletion) : option RunnerId :=
  match rcp_runner completion with
  | Some runner => Some (rd_runner_id (runner_descriptor runner))
  | None => tl_runner_id <$> head (rcp_task_leases completion)
  end.

Definition complete_runner_dispatch (completion : RunnerCompletion) : M RunnerLoopReport :=
  let leases := rcp_task_leases completion in
  let not_found := runtime_failure ERR_RUNNER_NOT_FOUND "runtime.runner_loop"
                     ("batch." +:+ rcp_batch_id completion +:+ ".runner") in
  match completion_runner_id completion with
  | None => throw not_found
  | Some runner_id =>
      let generation := dispatch_generation leases in
      descriptors ← ask (λ rt, descriptors_for_generation rt generation);
      match find (λ d, bool_decide (rd_runner_id d = runner_id)) descriptors with
      | None => throw not_found
      | Some descriptor =>
          _ ← match rcp_runner completion with
              | Some runner => return_runner generation runner
              | None => mret tt
              end;
          completed ←
            match rcp_result completion with
            | Err failure => fail_runner_dispatches leases failure
            | Ok result =>
                if decide (cb_batch_id result ≠ rcp_batch_id completion) then
                  fail_runner_dispatches leases
                    (batch_claim_conflict ("batch.result." +:+ cb_batch_id result))
                else route_completion_batch descriptor leases (rcp_expected_entries completion) result
            end;
          mret (mkRunnerLoopReport 0 completed)
      end
  end.

(** ** The kernel's own tasks *)

(** A call that can panic, and one whose error message becomes a failure. *)
Definition run_outcome {A} (o : outcome A) : M A := λ rt,
  match o with Done a => Done (rt, Ok a) | Panic message => Panic message end.
Definition decoded {A} (code source : string) (o : outcome (result A string)) : M A :=
  r ← run_outcome o;
  match r with Ok a => mret a | Err message => throw (runtime_failure code source message) end.

Definition commit_state_delta (task : Task) : M () :=
  delta ← decoded ERR_STATE_DELTA_DECODE_FAILED "runtime.committer"
            (decode downcast_delta deserialize_delta (t_payload task));
  step ← ask cr_current_step;
  _ ← states_do (λ s, state_apply s delta step);
  version ← ask (λ rt, default 0%N (fst <$> state_get (cr_states rt) (sd_target_ref delta)));
  record_event EventState "state.commit" (Some (sd_target_ref delta))
    {["version" := step_attr version; "expected_version" := step_attr (sd_expected_version delta)]}
    None.

Definition append_domain_event (task : Task) : M () :=
  event ← decoded ERR_EVENT_DECODE_FAILED "runtime.event_log"
            (decode downcast_event deserialize_event (t_payload task));
  record_event EventTask (de_kind event)
    (match t_correlation_id task with Some id => Some id | None => Some (de_event_id event) end)
    {["domain_event_id" := ScalarString (de_event_id event);
      "payload" := ScalarString (value_to_string (de_payload event))]} None.

Definition rollback_state (task : Task) : M () :=
  request ← decoded ERR_STATE_ROLLBACK_DECODE_FAILED "runtime.committer"
              (decode downcast_rollback deserialize_rollback (t_payload task));
  step ← ask cr_current_step;
  version ← states_do (λ s, state_rollback s request step);
  record_event EventState "state.rollback" (Some (rb_target_ref request))
    {["to_version" := step_attr (rb_to_version request); "version" := step_attr version]} None.

Definition dispatch_kernel_task (task : Task) : M () :=
  let protocol := t_protocol_id task in
  if decide (protocol = "core.commit") then commit_state_delta task
  else if decide (protocol = "core.event.append") then append_domain_event task
  else if decide (protocol = "core.state.rollback") then rollback_state task
  else throw (runtime_failure ERR_TASK_UNSUPPORTED "runtime.committer" ("core.task." +:+ protocol)).

Definition fail_kernel_task (lease : TaskLease) (task_id : TaskId) (failure : RuntimeFailure) : M N :=
  step ← ask cr_current_step;
  _ ← tasks_do (λ p, fail p lease step failure);
  settle task_id "task.failed" (Some failure).

Definition process_kernel_tasks (tasks : list (TaskLease * Task)) : M N :=
  sum_each tasks (λ '(lease, task),
    _ ← check (λ rt, ensure_active_lease (cr_tasks rt) (t_task_id task) lease (cr_current_step rt) "kernel");
    dispatched ← attempt (dispatch_kernel_task task);
    match dispatched with
    | Ok _ =>
        step ← ask cr_current_step;
        _ ← tasks_do (λ p, complete p lease step None);
        mret 1%N
    | Err failure => fail_kernel_task lease (t_task_id task) failure
    end).

End routing.
