(* ===== verification/RunnerLoop.v ===== *)
(** * RunnerLoop: claiming, dispatching and ticking

    Models [runtime/runner_loop.rs] with [dispatch_selection.rs], [dispatch_build.rs],
    [executor.rs] and [trace_metadata.rs]: how ready tasks become dispatches of a runner
    and how one logical step of the runtime runs.  The schedule callback of
    [claim_ready_dispatches] is a parameter with a state of its own. *)
From S2P Require Import Prelude Floats Contracts StateStore Resources Logs ResourceManager.
From S2P Require Import TaskIndexes TaskPool TaskClaiming Plugins Batches WorkBatches.
From S2P Require Import Registry PlanChecks Runtime ResultRouting.

Definition ERR_RUNTIME_TICK_INVALID : string := "runtime.tick.invalid".
Definition REMOVE_OUT_OF_BOUNDS : string := "removal index (is 0) should be < len (is 0)".

Section runner_loop.
Context {serde : Serde} {dec : Decode} {runners : RunnerTrait}.

(** ** Span attributes *)

Definition descriptor_fingerprint (runner : RunnerDescriptor) : string :=
  "runner:" +:+ rd_runner_id runner +:+ ":" +:+ rd_plugin_id runner +:+ ":"
  +:+ pretty (rd_plugin_generation runner) +:+ ":" +:+ join "," (rd_accepted_protocol_ids runner).

Definition surface_fingerprint (load_plan : RuntimeLoadPlan) (surface_id : SurfaceId) : string :=
  surface_id +:+ "="
  +:+ match find (λ surface, bool_decide (sf_surface_id surface = surface_id))
              (plan_contract_surfaces load_plan) with
      | Some surface => sf_fingerprint surface
      | None => "missing"
      end.

Definition contract_fingerprint (runner : RunnerDescriptor) (load_plan : RuntimeLoadPlan) : string :=
  join ";" (sort_by String.compare (surface_fingerprint load_plan <$> rd_contract_surfaces runner)).

Definition runner_attrs (runner : RunnerDescriptor) (load_plan : RuntimeLoadPlan)
    : gmap string ScalarValue :=
  {["runner_id" := ScalarString (rd_runner_id runner);
    "plugin_id" := ScalarString (rd_plugin_id runner);
    "plugin_generation" := step_attr (rd_plugin_generation runner);
    "artifact_hash" :=
      ScalarString (match find (λ plugin, bool_decide (pm_plugin_id plugin = rd_plugin_id runner))
                            (plan_plugins load_plan) with
                    | Some plugin => pa_sha256 (pm_artifact plugin)
                    | None => "unknown"
                    end);
    "descriptor_hash" := ScalarString (descriptor_fingerprint runner);
    "contract_fingerprint" := ScalarString (contract_fingerprint runner load_plan)]}.

Definition trace_attrs (span : TraceSpan) : gmap string ScalarValue :=
  {["trace_id" := ScalarString (sp_trace_id span); "span_id" := ScalarString (sp_span_id span);
    "span_name" := ScalarString (sp_name span)]}.

Definition record_span (trace_id name : string) (attributes : gmap string ScalarValue)
    : M (option TraceSpan) := λ rt,
  let '(log, span) := trace_record trace_id name None SpanOk attributes (cr_traces rt) in
  Done (set_cr_traces log rt, Ok span).

(** ** Dispatches *)

Inductive RunnerDispatchTarget : Type :=
| TargetSync (runner : Runner)
| TargetAsync (handler : AsyncHandler).

Record RunnerDispatch : Type := mkRunnerDispatch {
  rdp_target : RunnerDispatchTarget;
  rdp_ctx : RunnerContext;
  rdp_task_leases : list TaskLease;
  rdp_batch : WorkBatch;
}.

Definition dispatch_trace_id (task : Task) : string :=
  default ("trace-task-" +:+ t_task_id task) (t_trace_id task).

(** The target of a dispatch: the async handler, or an instance taken from the registry. *)
Definition take_target (runner_id : RunnerId) : M RunnerDispatchTarget := λ rt,
  match async_handler (cr_registry rt) runner_id with
  | Some handler => Done (rt, Ok (TargetAsync handler))
  | None =>
      match take_runner runner_id (cr_registry rt) with
      | (r, Some runner) => Done (set_cr_registry r rt, Ok (TargetSync runner))
      | (r, None) =>
          Done (set_cr_registry r rt,
                Err (runtime_failure ERR_RUNNER_NOT_FOUND "runtime.runner_loop" ("runner." +:+ runner_id)))
      end
  end.

Definition build_runner_dispatch (descriptor : RunnerDescriptor) (executor_id : string)
    (leased_tasks : list (TaskLease * Task)) : M RunnerDispatch :=
  step ← ask cr_current_step;
  let batch_id := "batch-" +:+ pretty step +:+ "-" +:+ rd_runner_id descriptor +:+ "-"
    +:+ pretty (match leased_tasks with (_, task) :: _ => t_created_sequence task | [] => 0%N end) in
  let task_leases := leased_tasks.*1 in
  let trace_id := match leased_tasks with
                  | (_, task) :: _ => dispatch_trace_id task
                  | [] => "trace-batch-" +:+ batch_id
                  end in
  let batch := build_work_batch step batch_id descriptor leased_tasks in
  plan ← ask cr_load_plan;
  traced ← ask (λ rt, ob_dispatch_spans (plan_observability plan)
                      && will_retain_next (trl_inner (cr_traces rt)));
  span ← (if (traced : bool) then
            record_span trace_id "runner.run_batch"
              (dispatch_batch_attrs descriptor batch task_leases executor_id ∪ runner_attrs descriptor plan)
          else mret None);
  target ← take_target (rd_runner_id descriptor);
  let ctx := with_batch batch_id (length task_leases)
    (RunnerContext_new (plan_registry_generation plan) step executor_id
       (tl_lease_id <$> task_leases) batch_id) in
  _ ← for_each task_leases (λ lease,
        record_event EventTask "task.started" (Some (tl_task_id lease))
          {["lease_id" := ScalarString (tl_lease_id lease);
            "runner_id" := ScalarString (tl_runner_id lease);
            "registry_generation" := step_attr (tl_registry_generation lease)]} None);
  enabled ← ask (λ rt, log_is_enabled (el_inner (cr_events rt)));
  _ ← match span with
      | Some span =>
          if (enabled : bool) then
            record_event EventTrace "trace.span" (Some (rd_runner_id descriptor)) (trace_attrs span) None
          else mret tt
      | None => mret tt
      end;
  mret (mkRunnerDispatch target ctx task_leases batch).

(** ** Claiming *)

Definition runner_can_dispatch (descriptor : RunnerDescriptor) : bool :=
  bool_decide (rd_execution_class descriptor ≠ ExecControl)
  || bool_decide (rd_runner_id descriptor = "core.kernel").

Definition decision_attrs (descriptor : RunnerDescriptor) (decision : ScheduleDecision)
    (rt : CoreRuntime) : gmap string ScalarValue :=
  {["scheduler_id" := ScalarString (sch_scheduler_id decision);
    "runner_id" := ScalarString (rd_runner_id descriptor);
    "requested_dispatch_limit" := step_attr (sch_requested_dispatch_limit decision);
    "effective_dispatch_limit" := step_attr (sch_dispatch_limit decision);
    "budget_max_entries" := step_attr (db_max_entries (sch_budget decision));
    "budget_max_batches" := step_attr (db_max_batches (sch_budget decision));
    "reason" := ScalarString (sch_reason decision);
    "registry_generation" := step_attr (plan_registry_generation (cr_load_plan rt));
    "current_step" := step_attr (cr_current_step rt)]}.

Definition record_scheduler_decision (descriptor : RunnerDescriptor) (decision : ScheduleDecision) : M () :=
  _ ← modify (λ rt, set_cr_scheduler_decisions (sat_add (cr_scheduler_decisions rt) 1) rt);
  detailed ← ask (λ rt, ob_detailed_scheduler_decisions (plan_observability (cr_load_plan rt)));
  enabled ← ask (λ rt, log_is_enabled (el_inner (cr_events rt)));
  traced ← ask (λ rt, will_retain_next (trl_inner (cr_traces rt)));
  if negb detailed || (negb enabled && negb traced) then mret tt
  else
    attrs ← ask (decision_attrs descriptor decision);
    span ← (if (traced : bool) then
              record_span ("trace-scheduler-" +:+ rd_runner_id descriptor) "scheduler.decision" attrs
            else mret None);
    let attrs := match span with
                 | Some span => <["span_id" := ScalarString (sp_span_id span)]> attrs
                 | None => attrs
                 end in
    if (enabled : bool) then
      record_event EventTrace "scheduler.decision" (Some (rd_runner_id descriptor)) attrs None
    else mret tt.

(** [split_off] in a loop: pieces of [n] elements. *)
Fixpoint chunks {A} (fuel : nat) (n : N) (l : list A) : list (list A) :=
  match fuel, l with
  | O, _ | _, [] => []
  | S fuel, _ =>
      let size := N.to_nat (N.min (N.of_nat (length l)) n) in
      take size l :: chunks fuel n (drop size l)
  end.

Definition defer_all (leased : list (TaskLease * Task)) : M () :=
  step ← ask cr_current_step;
  for_each leased (λ '(lease, _), tasks_do (λ p, Done (defer_leased p lease step))).

Definition claim_runner_work (descriptor : RunnerDescriptor) (decision : ScheduleDecision)
    (lease_expires_at : option N) : M (RunnerLoopReport * list RunnerDispatch) :=
  available ← ask (λ rt, available_dispatch_instances (cr_registry rt) (rd_runner_id descriptor));
  let max_batches := N.min (N.min (db_max_batches (sch_budget decision))
                              (max_inflight_batches (rd_concurrency descriptor))) available in
  let max_batch_entries := rbc_max_batch_entries (rd_batch descriptor) in
  let decision := decision_clamp_batches max_batches
                    (decision_clamp_to (sat_mul max_batch_entries max_batches) decision) in
  _ ← record_scheduler_decision descriptor decision;
  if decide (sch_dispatch_limit decision = 0%N) then mret (empty_runner_loop_report, [])
  else
    let executor_id := "executor:" +:+ rd_runner_id descriptor in
    step ← ask cr_current_step;
    generation ← ask (λ rt, plan_registry_generation (cr_load_plan rt));
    leased_tasks ← tasks_run (λ p,
      claim_ready_for_executor_with_budget p descriptor executor_id step generation
        (sch_dispatch_limit decision) (Some (sch_budget decision)) lease_expires_at);
    if is_empty leased_tasks then mret (empty_runner_loop_report, [])
    else if bool_decide (rd_purity descriptor = Committer)
            && bool_decide (rd_runner_id descriptor = "core.kernel") then
      completed ← process_kernel_tasks leased_tasks;
      mret (mkRunnerLoopReport (N.of_nat (length leased_tasks)) completed, [])
    else
      match split_leased_tasks_by_resource_conflict leased_tasks with
      | [] => λ rt, Panic REMOVE_OUT_OF_BOUNDS
      | dispatch_group :: deferred_groups =>
          _ ← for_each deferred_groups defer_all;
          let chunk_size := N.max max_batch_entries 1 in
          let dispatched := N.min (N.of_nat (length dispatch_group)) (sat_mul chunk_size max_batches) in
          _ ← defer_all (drop (N.to_nat dispatched) dispatch_group);
          dispatches ← map_each
            (chunks (length dispatch_group) chunk_size (take (N.to_nat dispatched) dispatch_group))
            (build_runner_dispatch descriptor executor_id);
          mret (mkRunnerLoopReport dispatched 0, dispatches)
      end.

(** ** Executing inline *)

Definition execute_inline (dispatch : RunnerDispatch) : RunnerCompletion :=
  let batch := rdp_batch dispatch in
  match rdp_target dispatch with
  | TargetSync runner =>
      let '(runner, result) := runner_run_batch runner (rdp_ctx dispatch) batch in
      mkRunnerCompletion (Some runner) (rdp_task_leases dispatch) (wb_batch_id batch)
        (wb_entries batch) result
  | TargetAsync _ =>
      mkRunnerCompletion None (rdp_task_leases dispatch) (wb_batch_id batch) (wb_entries batch)
        (Err (runtime_failure ERR_RUNTIME_HOST_FAILED "runtime.inline_executor"
                "host.async_executor.unavailable"))
  end.

(** ** Steps *)

Definition load_of (descriptor : RunnerDescriptor) : M RunnerLoad := λ rt,
  let '(load, p) := runner_load (cr_tasks rt) descriptor (cr_current_step rt)
                      (plan_registry_generation (cr_load_plan rt)) in
  Done (set_cr_tasks p rt, Ok load).

Definition for_each_runner_load : M (list (RunnerDescriptor * RunnerLoad)) :=
  descriptors ← ask (λ rt, registry_descriptors (cr_registry rt));
  map_each descriptors (λ descriptor, load ← load_of descriptor; mret (descriptor, load)).

(** What every step does before it claims. *)
Definition begin_step (target_step : N) : M N :=
  _ ← modify (set_cr_current_step target_step);
  _ ← modify (λ rt, set_cr_states (state_prune (cr_states rt) (cr_current_step rt)) rt);
  _ ← reclaim_expired_leases;
  _ ← wake_due;
  reject_stale_ready_tasks.

Definition add_report (a b : RunnerLoopReport) : RunnerLoopReport :=
  mkRunnerLoopReport (rep_claimed_tasks a + rep_claimed_tasks b)
    (rep_completed_tasks a + rep_completed_tasks b).

(** One runner of an inline tick: claim, run and complete its dispatches. *)
Definition tick_runner (descriptor : RunnerDescriptor) : M RunnerLoopReport :=
  if negb (runner_can_dispatch descriptor) then mret empty_runner_loop_report
  else
    load ← load_of descriptor;
    let decision := decision_clamp_to (rl_queued_count load)
      (ScheduleDecision_new "core.inline" (rl_queued_count load) "inline.default") in
    step ← ask cr_current_step;
    '(report, dispatches) ← claim_runner_work descriptor decision
                              (Some (wrap_add step TASK_LEASE_TTL_STEPS));
    completed ← sum_each dispatches (λ dispatch,
      report ← complete_runner_dispatch (execute_inline dispatch);
      mret (rep_completed_tasks report));
    mret (add_report report (mkRunnerLoopReport 0 completed)).

Fixpoint tick_runners (descriptors : list RunnerDescriptor) (report : RunnerLoopReport)
    : M RunnerLoopReport :=
  match descriptors with
  | [] => mret report
  | descriptor :: rest =>
      r ← tick_runner descriptor;
      tick_runners rest (add_report report r)
  end.

Definition tick_once : M RunnerLoopReport :=
  _ ← check ensure_not_aborted;
  step ← ask cr_current_step;
  rejected ← begin_step (wrap_add step 1);
  descriptors ← ask (λ rt, registry_descriptors (cr_registry rt));
  tick_runners descriptors (mkRunnerLoopReport 0 rejected).

Fixpoint run_until_idle (max_ticks : nat) (aggregate : RunnerLoopReport) : M RunnerLoopReport :=
  match max_ticks with
  | O => mret aggregate
  | S max_ticks =>
      report ← tick_once;
      let aggregate := add_report aggregate report in
      if bool_decide (rep_claimed_tasks report = 0%N) && bool_decide (rep_completed_tasks report = 0%N)
      then mret aggregate
      else run_until_idle max_ticks aggregate
  end.

Section scheduled.
Context {S : Type}
  (decide_schedule : S → RunnerDescriptor → RunnerLoad → N → N → S * RuntimeResult ScheduleDecision).

Fixpoint claim_runners (descriptors : list RunnerDescriptor) (lease_expires_at : option N) (s : S)
    (report : RunnerLoopReport) (dispatches : list RunnerDispatch)
    : M (S * RunnerLoopReport * list RunnerDispatch) :=
  match descriptors with
  | [] => mret (s, report, dispatches)
  | descriptor :: rest =>
      if negb (runner_can_dispatch descriptor) then
        claim_runners rest lease_expires_at s report dispatches
      else
        load ← load_of descriptor;
        '(step, generation) ← ask (λ rt, (cr_current_step rt, plan_registry_generation (cr_load_plan rt)));
        let '(s, decided) := decide_schedule s descriptor load step generation in
        decision ← check (λ _, decided);
        '(claimed, new) ← claim_runner_work descriptor decision lease_expires_at;
        claim_runners rest lease_expires_at s (add_report report claimed) (dispatches ++ new)
  end.

Definition claim_ready_dispatches_at_step (target_step : N) (s : S) (lease_expires_at : option N)
    : M (S * RunnerLoopReport * list RunnerDispatch) :=
  _ ← check ensure_not_aborted;
  step ← ask cr_current_step;
  if decide (target_step ≤ step)%N then
    throw (runtime_failure ERR_RUNTIME_TICK_INVALID "runtime.runner_loop"
             ("runtime.step." +:+ pretty target_step +:+ ".after." +:+ pretty step))
  else
    rejected ← begin_step target_step;
    descriptors ← ask (λ rt, registry_descriptors (cr_registry rt));
    claim_runners descriptors lease_expires_at s (mkRunnerLoopReport 0 rejected) [].

Definition claim_ready_dispatches (s : S) (lease_expires_at : option N)
    : M (S * RunnerLoopReport * list RunnerDispatch) :=
  step ← ask cr_current_step;
  claim_ready_dispatches_at_step (sat_add step 1) s lease_expires_at.

End scheduled.

(** ** Giving a dispatch back *)

Definition defer_runner_dispatch (dispatch : RunnerDispatch) : M N :=
  let leases := rdp_task_leases dispatch in
  _ ← for_each leases (λ lease,
        check (λ rt, ensure_active_lease (cr_tasks rt) (tl_task_id lease) lease (cr_current_step rt) "host_defer"));
  step ← ask cr_current_step;
  _ ← for_each leases (λ lease, tasks_do (λ p, Done (defer_leased p lease step)));
  _ ← match rdp_target dispatch with
      | TargetSync runner => return_runner (dispatch_generation leases) runner
      | TargetAsync _ => mret tt
      end;
  mret (N.of_nat (length leases)).

End runner_loop.
