(* ===== verification/Reload.v ===== *)
(** * Reload: swapping plugin generations under running work

    Models [runtime/reload.rs] with [reload/generations.rs], [reload/invocation.rs] and
    [reload/occupancy.rs]: the occupancy of surfaces across tasks and resources, the
    classification of running invocations, the three reload paths and the draining of
    old generations.  [std::mem::take] leaves the default registry behind; an early
    return keeps whatever was changed before it. *)
From S2P Require Import Prelude Floats Contracts StateStore Resources Logs ResourceManager.
From S2P Require Import TaskIndexes TaskPool TaskClaiming Plugins Batches WorkBatches.
From S2P Require Import Registry PlanChecks Runtime ResultRouting RunnerLoop.

Inductive InvocationPollution : Type := PollutionClean | LocalDirty | Polluted | UnknownDirty.

Definition InvocationPollution_debug (p : InvocationPollution) : string :=
  match p with
  | PollutionClean => "Clean" | LocalDirty => "LocalDirty" | Polluted => "Polluted"
  | UnknownDirty => "UnknownDirty"
  end.

(** ** Occupancy *)

Definition add_occupancy (a b : SurfaceOccupancy) : SurfaceOccupancy :=
  mkSurfaceOccupancy (so_surface_id a) (so_ready_tasks a + so_ready_tasks b)
    (so_running_invocations a + so_running_invocations b)
    (so_resource_refs a + so_resource_refs b) (so_state_refs a + so_state_refs b)
    (so_active_leases a + so_active_leases b) (so_open_streams a + so_open_streams b)
    (so_subscriptions a + so_subscriptions b) (so_timers a + so_timers b)
    (so_effect_inflight a + so_effect_inflight b).

Definition merge_occupancy (task_occupancy resource_occupancy : list SurfaceOccupancy)
    : list SurfaceOccupancy :=
  (btree_entries String.compare
     (foldl (λ by_surface item,
        or_default (TaskClaiming.zero_occupancy (so_surface_id item)) (so_surface_id item)
          (λ entry, add_occupancy entry item) by_surface)
        ∅ (task_occupancy ++ resource_occupancy))).*2.

Section reload.
Context {serde : Serde} {dec : Decode} {runners : RunnerTrait}.

Definition runtime_occupancy (rt : CoreRuntime) : list SurfaceOccupancy :=
  merge_occupancy (TaskClaiming.surface_occupancy (cr_tasks rt) (cr_protocol_classes rt))
    (ResourceManager.surface_occupancy (cr_resources rt) (cr_surfaces rt)).

(** ** Running invocations *)

Record RunningInvocationDisposition : Type := mkRunningInvocationDisposition {
  rid_task_id : TaskId;
  rid_invocation_id : string;
  rid_runner_id : RunnerId;
  rid_plugin_id : PluginId;
  rid_plugin_generation : N;
  rid_pollution : InvocationPollution;
}.

Definition classify_pollution (task : Task) (runner : RunnerDescriptor)
    (protocol_classes : gmap ProtocolId ProtocolClass) : InvocationPollution :=
  match protocol_classes !! t_protocol_id task with
  | Some (ClassEffect | ClassCore | ClassControl) => Polluted
  | None => UnknownDirty
  | Some ClassDomain =>
      if decide (rd_purity runner ≠ Pure) then UnknownDirty
      else if negb (is_empty (t_input_refs task)) || negb (is_empty (t_expected_versions task))
      then LocalDirty
      else PollutionClean
  end.

Definition classify_record (rt : CoreRuntime) (record : TaskRecord)
    : option RunningInvocationDisposition :=
  runner_id ← rec_claimed_by record;
  let task := rec_task record in
  let invocation_id :=
    match rec_lease record with Some lease => tl_lease_id lease | None => t_task_id task end in
  Some match registry_descriptor (cr_registry rt) runner_id with
       | Some descriptor =>
           mkRunningInvocationDisposition (t_task_id task) invocation_id runner_id
             (rd_plugin_id descriptor) (rd_plugin_generation descriptor)
             (classify_pollution task descriptor (cr_protocol_classes rt))
       | None =>
           mkRunningInvocationDisposition (t_task_id task) invocation_id runner_id "unknown"
             (t_registry_generation task) UnknownDirty
       end.

Definition classify_running_invocations (rt : CoreRuntime) : list RunningInvocationDisposition :=
  omap (classify_record rt) (running_records (cr_tasks rt)).

Definition cancel_invocation (runner_id : RunnerId) (invocation_id : string) : M N :=
  _ ← registry_do (cancel_runner runner_id invocation_id);
  step ← ask cr_current_step;
  returned ← tasks_run (λ p, cancel_running_invocation p runner_id invocation_id step);
  _ ← record_event EventRunner "runner.cancel" (Some runner_id)
        {["runner_id" := ScalarString runner_id; "invocation_id" := ScalarString invocation_id;
          "returned_to_ready" := step_attr returned]} None;
  mret returned.

Definition cancel_attrs (d : RunningInvocationDisposition) (policy : string) : gmap string ScalarValue :=
  {["runner_id" := ScalarString (rid_runner_id d);
    "invocation_id" := ScalarString (rid_invocation_id d);
    "plugin_id" := ScalarString (rid_plugin_id d);
    "plugin_generation" := step_attr (rid_plugin_generation d);
    "pollution" := ScalarString (InvocationPollution_debug (rid_pollution d));
    "policy" := ScalarString policy]}.

Definition must_drain (d : RunningInvocationDisposition) : bool :=
  match rid_pollution d with Polluted | UnknownDirty => true | _ => false end.

(** The loop over the dispositions that both reload paths run. *)
Definition settle_invocations (dispositions : list RunningInvocationDisposition) : M () :=
  for_each dispositions (λ d,
    if must_drain d then
      record_event EventReload "plugin.reload.drain_invocation" (Some (rid_task_id d))
        (cancel_attrs d "reload.drain") None
    else
      _ ← registry_do (cancel_runner (rid_runner_id d) (rid_invocation_id d));
      step ← ask cr_current_step;
      _ ← tasks_run (λ p, cancel_running_invocation p (rid_runner_id d) (rid_invocation_id d) step);
      record_event EventRunner "runner.cancel" (Some (rid_runner_id d))
        (cancel_attrs d "reload.cancel_requeue") None).

(** ** Generations *)

Definition set_phase (phase : PluginGenerationPhase) (s : PluginGenerationState) : PluginGenerationState :=
  mkPluginGenerationState (gs_plugin_id s) (gs_generation s) phase.

Definition mark_generation_phase (generation : N) (phase : PluginGenerationPhase) : M () :=
  modify (λ rt, set_cr_generation_states
    ((λ s, if decide (gs_generation s = generation) then set_phase phase s else s)
       <$> cr_generation_states rt) rt).

Definition mark_generation_phase_for_plugins (generation : N) (plugin_ids : gset PluginId)
    (phase : PluginGenerationPhase) : M () :=
  modify (λ rt, set_cr_generation_states
    ((λ s, if decide (gs_generation s = generation ∧ gs_plugin_id s ∈ plugin_ids)
           then set_phase phase s else s) <$> cr_generation_states rt) rt).

Definition same_generation (a b : PluginGenerationState) : bool :=
  bool_decide (gs_plugin_id a = gs_plugin_id b) && bool_decide (gs_generation a = gs_generation b).

(** Pushes the states that are not listed yet. *)
Definition add_states (new states : list PluginGenerationState) : list PluginGenerationState :=
  foldl (λ states s, if existsb (λ old, same_generation old s) states then states else states ++ [s])
    states new.

Definition activate (generation : N) (s : PluginGenerationState) : PluginGenerationState :=
  if decide (gs_generation s = generation) then set_phase PhaseActive s
  else if decide (gs_phase s = PhaseActive) then set_phase PhaseDraining s
  else s.

Definition set_active_generation_states : M () :=
  modify (λ rt,
    let plan := cr_load_plan rt in
    set_cr_generation_states
      (add_states (generation_states_for_plan plan PhaseActive)
         (activate (plan_registry_generation plan) <$> cr_generation_states rt)) rt).

Definition set_active_generation_states_for_plugins (plugin_ids : gset PluginId) : M () :=
  modify (λ rt,
    let plan := cr_load_plan rt in
    set_cr_generation_states
      (add_states (filter (λ s, gs_plugin_id s ∈ plugin_ids) (generation_states_for_plan plan PhaseActive))
         ((λ s, if decide (gs_plugin_id s ∈ plugin_ids)
                then activate (plan_registry_generation plan) s else s)
            <$> cr_generation_states rt)) rt).

Definition apply_load_plan (new_plan : RuntimeLoadPlan) : M () :=
  _ ← modify (λ rt, set_cr_tasks
        (rebind_ready_generation (cr_tasks rt) (plan_registry_generation (cr_load_plan rt))
           (plan_registry_generation new_plan)).1 rt);
  _ ← modify (set_cr_handler_bindings (from_load_plan new_plan));
  _ ← modify (set_cr_surfaces (plan_contract_surfaces new_plan));
  _ ← modify (set_cr_protocol_classes (protocol_classes_for_plan new_plan));
  _ ← modify (λ rt, set_cr_states
        (StateStore.configure (cr_states rt) (ob_state_history (plan_observability new_plan))
           (cr_current_step rt)) rt);
  modify (set_cr_load_plan new_plan).

Definition dispose_plugins : M (list RunnerId) :=
  bag ← registry_do dispose_all;
  generation ← ask (λ rt, plan_registry_generation (cr_load_plan rt));
  _ ← mark_generation_phase generation PhaseDisposed;
  _ ← record_event EventPlugin "plugin.dispose" None ∅ None;
  mret bag.

Definition still_running (p : TaskPool) (generation : DrainingGeneration) : bool :=
  existsb (λ runner_id, negb (is_empty (running_records_for_runner p runner_id)))
    (dg_runner_ids generation).

(** The loop over [draining_generations.drain(..)]: what stays, what was disposed of, and
    the generations to mark; an error drops the rest. *)
Fixpoint settle_loop (p : TaskPool) (draining remaining : list DrainingGeneration)
    (disposed : list RunnerId) (marks : list (N * gset PluginId))
    : RuntimeResult (list DrainingGeneration * list RunnerId * list (N * gset PluginId)) :=
  match draining with
  | [] => Ok (remaining, disposed, marks)
  | generation :: rest =>
      if still_running p generation then settle_loop p rest (remaining ++ [generation]) disposed marks
      else
        match (dispose_all (dg_registry generation)).2 with
        | Err e => Err e
        | Ok bag =>
            settle_loop p rest remaining (disposed ++ bag)
              (marks ++ [(dg_registry_generation generation, dg_plugin_ids generation)])
        end
  end.

Definition settle_draining_generations : M (list RunnerId) :=
  draining ← ask cr_draining_generations;
  _ ← modify (set_cr_draining_generations []);
  settled ← ask (λ rt, settle_loop (cr_tasks rt) draining [] [] []);
  match settled with
  | Err e => throw e
  | Ok (remaining, disposed, marks) =>
      _ ← modify (set_cr_draining_generations remaining);
      _ ← for_each marks (λ '(generation, plugin_ids),
            mark_generation_phase_for_plugins generation plugin_ids PhaseDisposed);
      mret disposed
  end.

(** ** Reloads *)

Definition reload_blocked : RuntimeFailure :=
  runtime_failure ERR_RELOAD_BLOCKED "runtime.reload" "reload.breaking".

(** [compare_surfaces] against the present occupancy; a breaking change is an error. *)
Definition decide_reload (new_plan : RuntimeLoadPlan) (rt : CoreRuntime) : RuntimeResult ReloadDecision :=
  match compare_surfaces (cr_surfaces rt) (plan_contract_surfaces new_plan) (runtime_occupancy rt) with
  | Err e => Err e
  | Ok decision => if rld_blocked decision then Err reload_blocked else Ok decision
  end.

Definition reload_load_plan_only (new_plan : RuntimeLoadPlan) : M ReloadDecision :=
  decision ← check (decide_reload new_plan);
  _ ← record_event EventReload "plugin.reload" (Some (pretty (plan_registry_generation new_plan))) ∅ None;
  _ ← apply_load_plan new_plan;
  mret decision.

Definition add_shadow_states (new : list PluginGenerationState) : M () :=
  modify (λ rt, set_cr_generation_states (add_states new (cr_generation_states rt)) rt).

Definition record_swap (new_plan : RuntimeLoadPlan) : M () :=
  record_event EventReload "plugin.reload.swap_generation"
    (Some (pretty (plan_registry_generation new_plan))) ∅ None.

(** [std::mem::take(&mut self.registry)]. *)
Definition take_registry : M RunnerRegistry :=
  old ← ask cr_registry;
  _ ← modify (set_cr_registry RunnerRegistry_default);
  mret old.

Definition push_draining (generation : DrainingGeneration) : M () :=
  modify (λ rt, set_cr_draining_generations (cr_draining_generations rt ++ [generation]) rt).

Definition reload_with_async_handlers (new_plan : RuntimeLoadPlan) (new_runners : list Runner)
    (new_async_handlers : list AsyncHandler) : M ReloadDecision :=
  let runner_descriptors :=
    (runner_descriptor <$> new_runners) ++ (handler_descriptor <$> new_async_handlers) in
  _ ← check (λ _, validate_runtime_descriptors new_plan runner_descriptors);
  decision ← check (decide_reload new_plan);
  new_registry ← check (λ _,
    build_registry (plan_registry_generation new_plan) new_runners new_async_handlers);
  _ ← add_shadow_states (generation_states_for_plan new_plan ShadowStarting);
  old_generation ← ask (λ rt, plan_registry_generation (cr_load_plan rt));
  dispositions ← ask classify_running_invocations;
  old_runner_ids ← ask (λ rt, runner_ids (cr_registry rt));
  _ ← settle_invocations dispositions;
  old_registry ← take_registry;
  _ ← (if existsb must_drain dispositions then
         plugin_ids ← ask (λ rt, list_to_set (pm_plugin_id <$> plan_plugins (cr_load_plan rt)));
         push_draining (mkDrainingGeneration old_generation old_runner_ids plugin_ids old_registry)
       else
         _ ← check (λ _, (dispose_all old_registry).2);
         mark_generation_phase old_generation PhaseDisposed);
  _ ← record_swap new_plan;
  _ ← apply_load_plan new_plan;
  _ ← modify (set_cr_registry new_registry);
  _ ← set_active_generation_states;
  _ ← settle_draining_generations;
  mret decision.

Definition reload_with_runners (new_plan : RuntimeLoadPlan) (new_runners : list Runner)
    : M ReloadDecision :=
  reload_with_async_handlers new_plan new_runners [].

(** ** Targeted reload *)

Definition set_rd_plugin_generation (v : N) (d : RunnerDescriptor) : RunnerDescriptor :=
  mkRunnerDescriptor (rd_runner_id d) (rd_plugin_id d) v (rd_accepted_protocol_ids d) (rd_purity d)
    (rd_execution_class d) (rd_invocation_mode d) (rd_concurrency d) (rd_input_schema d)
    (rd_output_schema d) (rd_batch d) (rd_payload d) (rd_resources d) (rd_ordering d) (rd_control d)
    (rd_metadata d) (rd_contract_surfaces d).

Definition set_pv_runners (v : list RunnerDescriptor) (p : PluginProvides) : PluginProvides :=
  mkPluginProvides (pv_capabilities p) (pv_services p) (pv_extensions p) v (pv_protocols p)
    (pv_protocol_classes p) (pv_handler_bindings p) (pv_resource_schemas p)
    (pv_resource_providers p) (pv_resource_types p) (pv_effects p) (pv_streams p)
    (pv_subscriptions p) (pv_timers p) (pv_state_schemas p) (pv_host_extensions p)
    (pv_plugin_backends p) (pv_codecs p) (pv_bridges p) (pv_scheduler_policies p) (pv_workflows p).

Definition set_pm_provides (v : PluginProvides) (m : PluginManifest) : PluginManifest :=
  mkPluginManifest (pm_plugin_id m) (pm_version m) (pm_api_version m) (pm_artifact m) v
    (pm_requires m) (pm_permissions m) (pm_lifecycle m) (pm_metadata m).

(** Runners of unaffected plugins keep the generation they are registered under. *)
Definition keep_generations (old : gmap RunnerId RunnerDescriptor) (affected : gset PluginId)
    (plugin : PluginManifest) : PluginManifest :=
  if decide (pm_plugin_id plugin ∈ affected) then plugin
  else
    set_pm_provides (set_pv_runners
      ((λ runner, match old !! rd_runner_id runner with
                  | Some previous => set_rd_plugin_generation (rd_plugin_generation previous) runner
                  | None => runner
                  end) <$> pv_runners (pm_provides plugin)) (pm_provides plugin)) plugin.

(** Instances of affected plugins are registered, the others disposed of. *)
Fixpoint candidate_runners (affected : gset PluginId) (l : list Runner) (r : RunnerRegistry)
    : RuntimeResult RunnerRegistry :=
  match l with
  | [] => Ok r
  | runner :: l =>
      if decide (rd_plugin_id (runner_descriptor runner) ∈ affected) then
        match register runner r with
        | (_, Err e) => Err e
        | (r, Ok _) => candidate_runners affected l r
        end
      else
        match (runner_dispose runner).2 with
        | Err e => Err e
        | Ok _ => candidate_runners affected l r
        end
  end.
Fixpoint candidate_handlers (affected : gset PluginId) (l : list AsyncHandler) (r : RunnerRegistry)
    : RuntimeResult RunnerRegistry :=
  match l with
  | [] => Ok r
  | handler :: l =>
      if decide (rd_plugin_id (handler_descriptor handler) ∈ affected) then
        match register_async_handler handler r with
        | (_, Err e) => Err e
        | (r, Ok _) => candidate_handlers affected l r
        end
      else
        match handler_dispose handler with
        | Some (Err e) => Err e
        | _ => candidate_handlers affected l r
        end
  end.
Definition candidate_registry (affected : gset PluginId) (new_runners : list Runner)
    (handlers : list AsyncHandler) : RuntimeResult RunnerRegistry :=
  match candidate_runners affected new_runners RunnerRegistry_default with
  | Err e => Err e
  | Ok r =>
      match candidate_handlers affected handlers r with
      | Err e => Err e
      | Ok r => match validate_instance_counts r with Err e => Err e | Ok _ => Ok r end
      end
  end.

Definition reload_targeted_with_async_handlers (new_plan : RuntimeLoadPlan) (new_runners : list Runner)
    (new_async_handlers : list AsyncHandler) (affected : gset PluginId) : M ReloadDecision :=
  if decide (affected = ∅) then reload_load_plan_only new_plan
  else
    old_descriptors ← ask (λ rt, map_by rd_runner_id (registry_descriptors (cr_registry rt)));
    let new_plan := set_plan_plugins
      (keep_generations old_descriptors affected <$> plan_plugins new_plan) new_plan in
    candidate ← check (λ _, candidate_registry affected new_runners new_async_handlers);
    let runner_descriptors :=
      filter (λ d, rd_plugin_id d ∉ affected) (btree_entries String.compare old_descriptors).*2
      ++ registry_descriptors candidate in
    _ ← check (λ _, validate_runtime_descriptors new_plan runner_descriptors);
    decision ← check (decide_reload new_plan);
    _ ← add_shadow_states (filter (λ s, gs_plugin_id s ∈ affected)
                             (generation_states_for_plan new_plan ShadowStarting));
    old_generation ← ask (λ rt, plan_registry_generation (cr_load_plan rt));
    dispositions ← ask (λ rt, filter (λ d, rid_plugin_id d ∈ affected) (classify_running_invocations rt));
    _ ← settle_invocations dispositions;
    old_registry ← take_registry;
    let '(retained, retired) := partition_by_plugins affected old_registry in
    let retired_runner_ids := runner_ids retired in
    let retained := absorb candidate retained in
    _ ← check (λ _, validate_instance_counts retained);
    let retained := freeze (plan_registry_generation new_plan) retained in
    let retired := freeze old_generation retired in
    _ ← (if existsb must_drain dispositions then
           push_draining (mkDrainingGeneration old_generation retired_runner_ids affected retired)
         else
           _ ← check (λ _, (dispose_all retired).2);
           mark_generation_phase_for_plugins old_generation affected PhaseDisposed);
    _ ← record_swap new_plan;
    _ ← apply_load_plan new_plan;
    _ ← modify (set_cr_registry retained);
    _ ← set_active_generation_states_for_plugins affected;
    _ ← settle_draining_generations;
    mret decision.

End reload.
