(* ===== verification/TaskPoolCalm.v ===== *)
(** * TaskPoolCalm: operations that start no attempt

    All operations of the pool but the claim leave running tasks alone or end their
    attempt: whatever runs afterwards ran before, under the same record, and a pending
    cancellation belongs to a task that runs.  The second half of the invariant does not
    hold of the pool alone ([wait_on_task] keeps the request), so it is stated here and
    used by the runtime, which finalizes a requested cancellation first. *)
From S2P Require Import Prelude Contracts TaskIndexes TaskIndexSpec TaskPool TaskClaiming.
From S2P Require Import TaskMerge TaskPoolInv TaskHistory TaskStates TaskPoolSafety.
From S2P Require Import TaskPoolSweep TaskCandidates TaskSelection TaskLeasing TaskPoolOps.

Section calm.
Context {serde : Serde}.
Implicit Types (p : TaskPool) (r : TaskRecord) (x y : TaskId).

Definition pend_ok p : Prop :=
  ∀ y, is_Some (tp_pending_cancellations p !! y) →
    ∃ r, tp_tasks p !! y = Some r ∧ rec_status r = Running.

Record calm p p' : Prop := {
  calm_running : ∀ y r', tp_tasks p' !! y = Some r' → rec_status r' = Running → tp_tasks p !! y = Some r';
  calm_pending : ∀ y, is_Some (tp_pending_cancellations p' !! y) →
    is_Some (tp_pending_cancellations p !! y)
    ∧ ∀ r, tp_tasks p !! y = Some r → rec_status r = Running → tp_tasks p' !! y = Some r;
}.

#[global] Instance calm_preorder : PreOrder calm.
Proof.
  split; [by split; eauto|]. intros p1 p2 p3 [H1 H2] [H3 H4]. split.
  - intros y r Hr Hrun. eauto.
  - intros y [[Hy HK]%H2 HK']%H4. split; [done|]. eauto.
Qed.

Lemma calm_pend_ok p p' : calm p p' → pend_ok p → pend_ok p'.
Proof. intros [_ Hp] Hok y [Hy HK]%Hp. destruct (Hok y Hy) as (r & ? & ?). eauto. Qed.

(** ** Compaction only removes *)

Record shrinks p p' : Prop := {
  sh_tasks : tp_tasks p' ⊆ tp_tasks p;
  sh_pending : tp_pending_cancellations p' ⊆ tp_pending_cancellations p;
  sh_kept : ∀ y, is_Some (tp_tasks p' !! y) →
    tp_pending_cancellations p' !! y = tp_pending_cancellations p !! y;
}.

#[global] Instance shrinks_preorder : PreOrder shrinks.
Proof.
  split; [by split|]. intros p1 p2 p3 [Ht1 Hp1 Hk1] [Ht2 Hp2 Hk2]. split; [by etrans..|].
  intros y Hy. rewrite Hk2 by done. apply Hk1. destruct Hy as [r Hr]. exists r. by eapply lookup_weaken.
Qed.

Lemma shrinks_from p p1 p' :
  shrinks p1 p' → tp_tasks p1 = tp_tasks p →
  tp_pending_cancellations p1 = tp_pending_cancellations p → shrinks p p'.
Proof. intros [Ht Hp Hk] E1 E2. rewrite E1 in Ht. rewrite E2 in Hp, Hk. by split. Qed.

Lemma remember_shrinks p x capacity : shrinks p (remember_evicted_task_id p x capacity).
Proof.
  unfold remember_evicted_task_id. case_decide; [done|]. unfold trim_evicted_task_ids.
  destruct (trim_loop _ _ _ _). by eapply shrinks_from.
Qed.

Lemma evict_shrinks p x ret p' : evict_record p x ret = Done p' → shrinks p p'.
Proof.
  unfold evict_record. destruct (tp_tasks p !! x) as [r|] eqn:Hx; [|done].
  cbn [expect mbind outcome_bind]. intros [= <-].
  etrans; [|apply remember_shrinks].
  unfold remove_record_indexes, update_record_indexes. rewrite Hx.
  split; simpl; [apply delete_subseteq..|]. intros y [r' [Hne _]%lookup_delete_Some].
  by rewrite lookup_delete_ne.
Qed.

Lemma compact_loop_shrinks fuel ret : ∀ n p p', compact_loop fuel ret n p = Done p' → shrinks p p'.
Proof.
  induction fuel as [|fuel IH]; intros n p p'; simpl; (case_decide; [|by intros [= <-]]); [done|].
  destruct (tp_terminal_order p) as [|x order]; [done|].
  destruct (is_protected _ x); [intros H1%IH; by eapply shrinks_from|].
  destruct (evict_record _ x ret) as [p1|] eqn:He; [|done]. cbn [mbind outcome_bind].
  intros H1%IH. apply evict_shrinks in He. etrans; [|exact H1]. by eapply shrinks_from.
Qed.

Lemma compact_shrinks p p' : compact_terminal_history p = Done p' → shrinks p p'.
Proof.
  unfold compact_terminal_history. destruct (tp_history_retention p); [apply compact_loop_shrinks|].
  by intros [= <-].
Qed.

Lemma record_terminal_shrinks p x p' : record_terminal_task p x = Done p' → shrinks p p'.
Proof.
  unfold record_terminal_task. destruct (tp_history_retention p); [|by intros [= <-]].
  intros H%compact_shrinks. by eapply shrinks_from.
Qed.

(** ** One record touched *)

Lemma calm_shrinks p p' : pool_wf p' → shrinks p p' → calm p p'.
Proof.
  intros Hwf [Ht Hp _]. split.
  - intros y r' Hr' _. by eapply lookup_weaken.
  - intros y [c Hc]. split; [exists c; by eapply lookup_weaken|]. intros r Hr _.
    assert (is_Some (tp_tasks p' !! y)) as [r' Hr'].
    { apply elem_of_dom, (wf_pending _ _ _ _ _ Hwf), elem_of_dom. eauto. }
    rewrite Hr'. by eapply lookup_weaken in Hr'; [|done]; simplify_eq.
Qed.

Lemma calm_same p p' :
  tp_tasks p' = tp_tasks p → tp_pending_cancellations p' = tp_pending_cancellations p → calm p p'.
Proof. intros Ht Hp. split; rewrite ?Ht, ?Hp; eauto. Qed.

(** The record of [x] replaced by one that does not run; its request is gone, or [x]
    was not running. *)
Lemma calm_put p p1 x r' :
  tp_tasks p1 = <[x := r']> (tp_tasks p) → rec_status r' ≠ Running →
  tp_pending_cancellations p1 = delete x (tp_pending_cancellations p)
  ∨ (tp_pending_cancellations p1 = tp_pending_cancellations p
     ∧ ∀ r, tp_tasks p !! x = Some r → rec_status r ≠ Running) →
  calm p p1.
Proof.
  intros Ht Hr' Hp. split.
  - intros y r. rewrite Ht, lookup_insert. case_decide; [naive_solver|done].
  - intros y Hy. destruct Hp as [Hp|[Hp Hold]]; rewrite Hp in Hy.
    + destruct (decide (y = x)) as [->|Hne]; [by rewrite lookup_delete_eq in Hy; destruct Hy|].
      rewrite lookup_delete_ne in Hy by done. split; [done|]. by rewrite Ht, lookup_insert_ne.
    + split; [done|]. intros r Hr Hrun. rewrite Ht, lookup_insert. case_decide; [|done].
      subst. by destruct (Hold r).
Qed.

Lemma calm_finish p p1 p' x r' :
  pool_wf p' → tp_tasks p1 = <[x := r']> (tp_tasks p) → rec_status r' ≠ Running →
  tp_pending_cancellations p1 = delete x (tp_pending_cancellations p)
  ∨ (tp_pending_cancellations p1 = tp_pending_cancellations p
     ∧ ∀ r, tp_tasks p !! x = Some r → rec_status r ≠ Running) →
  record_terminal_task p1 x = Done p' → calm p p'.
Proof.
  intros Hwf Ht Hr Hp Hrec%record_terminal_shrinks. etrans; [by eapply calm_put|].
  by apply calm_shrinks.
Qed.

Lemma calm_rejected p x r : tp_tasks p !! x = Some r → calm p (put_record p x r r).
Proof. intros Hx. apply calm_same; [|done]. simpl. by rewrite insert_id. Qed.

Definition quiet {A} p (o : outcome (TaskPool * A)) : Prop :=
  ∃ p' a, o = Done (p', a) ∧ good p p' ∧ calm p p'.

Lemma quiet_of {A} p (o : outcome (TaskPool * A)) :
  safe p o → (∀ p' a, o = Done (p', a) → pool_wf p' → calm p p') → quiet p o.
Proof.
  intros (p' & a & Ho & Hg) Hc. exists p', a. split_and!; [done..|]. eapply Hc; [done|]. apply Hg.
Qed.

(** The shape of the transitions under a lease that end in the history. *)
Ltac calm_validated :=
  match goal with
  | |- context [mutate_record_indexed ?p _ (validated ?lease ?step ?action ?f)] =>
      destruct (mutate_validated_cases p lease step action f)
        as [[_ ->]|[(r & e & Hx & _ & ->)|(r & Hx & Hv & ->)]]
  end;
  [intros p' a [= <- <-] _; reflexivity
  |intros p' a [= <- <-] _; by apply calm_rejected
  |].
Ltac calm_history :=
  match goal with
  | |- context [record_terminal_task ?q ?x] =>
      destruct (record_terminal_task q x) as [p2|] eqn:Hrec; [|done];
      cbn [mbind outcome_bind]; intros p' a [= <- <-] Hwf';
      eapply (calm_finish _ q); [exact Hwf'| | | |exact Hrec]
  end.

Lemma complete_quiet p lease step output : pool_wf p → quiet p (complete p lease step output).
Proof.
  intros Hwf. apply quiet_of; [auto with mutsuki|]. unfold complete. calm_validated. calm_history.
  - done.
  - done.
  - by left.
Qed.

Lemma fail_quiet p lease step failure : pool_wf p → quiet p (fail p lease step failure).
Proof.
  intros Hwf. apply quiet_of; [auto with mutsuki|]. unfold fail. calm_validated. calm_history.
  - done.
  - done.
  - by left.
Qed.

Lemma cancel_task_quiet p lease step : pool_wf p → quiet p (cancel_task p lease step).
Proof.
  intros Hwf. apply quiet_of; [auto with mutsuki|]. unfold cancel_task. calm_validated. calm_history.
  - by rewrite remove_waits_for_parent_eq.
  - done.
  - left. by rewrite remove_waits_for_parent_eq.
Qed.

Lemma wait_quiet p lease step ready_at_step : pool_wf p → quiet p (Done (wait p lease step ready_at_step)).
Proof.
  intros Hwf. apply quiet_of; [auto with mutsuki|]. unfold wait. calm_validated.
  intros p' a [= <- <-] _. eapply calm_put; [done|done|by left].
Qed.

Lemma defer_quiet p lease step : pool_wf p → quiet p (Done (defer_leased p lease step)).
Proof.
  intros Hwf. apply quiet_of; [auto with mutsuki|]. unfold defer_leased. calm_validated.
  intros p' a [= <- <-] _. eapply calm_put; [done|done|by left].
Qed.

Lemma block_quiet p lease step : pool_wf p → quiet p (Done (block p lease step)).
Proof.
  intros Hwf. apply quiet_of; [auto with mutsuki|]. unfold block. calm_validated.
  intros p' a [= <- <-] _. eapply calm_put; [done|done|by left].
Qed.

(** The request survives [wait_on_task]; without one the step is calm. *)
Lemma wait_on_task_quiet p lease step task_await :
  pool_wf p → tp_pending_cancellations p !! tl_task_id lease = None →
  quiet p (Done (wait_on_task p lease step task_await)).
Proof.
  intros Hwf Hnone. apply quiet_of; [auto with mutsuki|]. unfold wait_on_task.
  assert (∀ e p' a, Done (p, Err e : RuntimeResult ()) = Done (p', a) → pool_wf p' → calm p p') as Herr
    by (intros e p' a [= <- <-] _; reflexivity).
  case_decide; [apply Herr|]. destruct (record_of p (tl_task_id lease)) as [pr|]; [|apply Herr].
  destruct (validate_record_lease pr lease step "wait") as [[]|]; [|apply Herr].
  destruct (record_of p _) as [cr|]; [|apply Herr].
  destruct (validate_task_await_child pr cr task_await) as [[]|]; [|apply Herr]. calm_validated.
  intros p' a [= <- <-] _. eapply calm_put; [done|done|]. left. simpl. by rewrite delete_id.
Qed.

Lemma wake_quiet p x step : pool_wf p → quiet p (Done (wake p x step)).
Proof.
  intros Hwf. apply quiet_of; [auto with mutsuki|]. unfold wake. rewrite mutate_record_indexed_eq.
  destruct (tp_tasks p !! x) as [r|] eqn:Hx; [|intros p' a [= <- <-] _; reflexivity].
  case_decide as Hst; simpl; intros p' a [= <- <-] _; [|by apply calm_rejected].
  eapply calm_put; [by rewrite remove_waits_for_parent_eq|done|].
  right. split; [by rewrite remove_waits_for_parent_eq|]. intros r1 Hr1. simplify_eq.
  by destruct Hst as [-> | ->].
Qed.

Lemma reject_ready_quiet p x failure : pool_wf p → quiet p (reject_ready p x failure).
Proof.
  intros Hwf. apply quiet_of; [auto with mutsuki|]. unfold reject_ready. rewrite mutate_record_indexed_eq.
  destruct (tp_tasks p !! x) as [r|] eqn:Hx; [|intros p' a [= <- <-] _; reflexivity].
  case_decide as Hst; cbn [fst snd]; [intros p' a [= <- <-] _; by apply calm_rejected|].
  calm_history; [done|done|]. right. split; [done|]. intros r1 Hr1. simplify_eq.
  by rewrite Hst.
Qed.

Lemma terminal_by_core_quiet p x status failure action step :
  pool_wf p → core_status status = true →
  quiet p (terminal_by_core p x status failure action step).
Proof.
  intros Hwf Hst. apply quiet_of; [by apply terminal_by_core_safe|]. unfold terminal_by_core.
  rewrite mutate_record_indexed_eq.
  destruct (tp_tasks p !! x) as [r|] eqn:Hx; [|intros p' a [= <- <-] _; reflexivity].
  destruct (is_terminal_status (rec_status r)) eqn:Ht; cbn [fst snd];
    [intros p' a [= <- <-] _; by apply calm_rejected|].
  calm_history.
  - rewrite remove_waits_for_parent_eq. by destruct (rec_lease r).
  - simpl. by intros ->.
  - left. rewrite remove_waits_for_parent_eq. by destruct (rec_lease r).
Qed.

Lemma finalize_quiet p lease step : pool_wf p → quiet p (finalize_requested_cancellation p lease step).
Proof.
  intros Hwf. apply quiet_of; [auto with mutsuki|]. unfold finalize_requested_cancellation.
  destruct (tp_pending_cancellations p !! tl_task_id lease) as [c|];
    [|intros p' a [= <- <-] _; reflexivity].
  rewrite mutate_record_indexed_eq.
  destruct (tp_tasks p !! tl_task_id lease) as [r|] eqn:Hx; [|intros p' a [= <- <-] _; reflexivity].
  destruct (_ && _ && _); cbn [fst snd]; [|intros p' a [= <- <-] _; by apply calm_rejected].
  calm_history.
  - by rewrite remove_waits_for_parent_eq.
  - done.
  - left. by rewrite remove_waits_for_parent_eq.
Qed.

Lemma cancel_invocation_quiet p runner_id invocation_id step :
  pool_wf p → quiet p (cancel_running_invocation p runner_id invocation_id step).
Proof.
  intros Hwf. apply quiet_of; [auto with mutsuki|]. unfold cancel_running_invocation.
  destruct (find_invocation p runner_id invocation_id) as [x|]; [|intros p' a [= <- <-] _; reflexivity].
  rewrite mutate_record_indexed_eq. destruct (tp_tasks p !! x) as [r|] eqn:Hx; [|done]. simpl.
  intros p' a [= <- <-] _. eapply calm_put; [by destruct (rec_lease r)|done|left; by destruct (rec_lease r)].
Qed.

(** Records of tasks that were not running, or whose request is not pending, made ready. *)
Lemma calm_changed_by p p' step ids :
  changed_by (make_ready step) ids (tp_tasks p) (tp_tasks p') →
  tp_pending_cancellations p' = tp_pending_cancellations p →
  (∀ x r, x ∈ ids → tp_tasks p !! x = Some r → rec_status r = Running →
     tp_pending_cancellations p !! x = None) →
  calm p p'.
Proof.
  intros Hc Hp Hids. split.
  - intros y r'. rewrite Hc. case_decide as Hy; [|done].
    intros (r & Hr & ->)%fmap_Some. by intros [=].
  - intros y Hy. rewrite Hp in Hy. split; [done|]. intros r Hr Hrun. rewrite Hc. case_decide as Hin; [|done].
    rewrite (Hids y r Hin Hr Hrun) in Hy. by destruct Hy.
Qed.

Lemma wake_due_loop_pending step due : ∀ p p',
  wake_due_loop p step due = Done p' → tp_pending_cancellations p' = tp_pending_cancellations p.
Proof.
  induction due as [|[x s] due IH]; intros p p'; simpl; [by intros [= <-]|].
  rewrite mutate_record_indexed_eq. destruct (tp_tasks p !! x); [|done]. simpl.
  intros ->%IH. by rewrite remove_waits_for_parent_eq.
Qed.

Lemma wake_due_quiet p step : pool_wf p → quiet p (wake_due_tasks p step).
Proof.
  intros Hwf. destruct (wake_due_spec p step Hwf) as (p' & due & Heq & Hwf' & Hnd & Hch & Hdue & _).
  pose proof (wake_due_tasks_safe p step Hwf) as Hsafe. apply quiet_of; [done|].
  rewrite Heq. intros p1 a [= <- <-] _. eapply calm_changed_by; [exact Hch| |].
  - unfold wake_due_tasks in Heq. destruct (take_due_wake _ step) as [d ix].
    destruct (wake_due_loop _ _ _) eqn:Hl; [|done]. apply wake_due_loop_pending in Hl. simpl in Heq.
    by simplify_eq.
  - intros x r ([y s] & -> & Hin)%list_elem_of_fmap Hr Hrun. simpl in Hr.
    destruct (Hdue _ _ Hin) as (r' & Hr' & [Hst _] & _). simplify_eq. rewrite Hrun in Hst. by destruct Hst.
Qed.

Lemma reclaim_quiet p step : pool_wf p → quiet p (reclaim_expired_task_leases p step).
Proof.
  intros Hwf. destruct (reclaim_expired_spec p step Hwf) as (p' & ids & Heq & Hwf' & _ & Hch & Hp & Hids).
  pose proof (reclaim_expired_task_leases_safe p step Hwf) as Hsafe. apply quiet_of; [done|].
  rewrite Heq. intros p1 a [= <- <-] _. eapply calm_changed_by; [exact Hch|done|].
  intros x r [Hx _]%Hids _ _. done.
Qed.

Lemma take_waits_quiet p child : pool_wf p → quiet p (take_waits_for_child p child).
Proof.
  intros Hwf. apply quiet_of; [auto with mutsuki|]. unfold take_waits_for_child.
  rewrite awaits_take_waits_for_child_eq.
  destruct (compact_terminal_history _) as [p1|] eqn:Hc; [|done]. simpl.
  intros p' a [= <- <-] Hwf'. apply calm_shrinks; [done|]. apply compact_shrinks in Hc. by eapply shrinks_from.
Qed.

Lemma configure_quiet p retention :
  pool_wf p → ∃ p', configure_history_retention p retention = Done p' ∧ good p p' ∧ calm p p'.
Proof.
  intros Hwf. destruct (configure_history_retention_safe p retention Hwf) as (p' & Heq & Hg).
  exists p'. split_and!; [done..|]. revert Heq. unfold configure_history_retention.
  destruct retention as [ret|]; [|by intros [= <-]; apply calm_same].
  intros Hc%compact_shrinks. apply calm_shrinks; [apply Hg|]. eapply shrinks_from; [exact Hc|..];
    unfold trim_evicted_task_ids; by destruct (trim_loop _ _ _ _).
Qed.

Lemma rebind_quiet p g g' : pool_wf p → quiet p (Done (rebind_ready_generation p g g')).
Proof.
  intros Hwf. apply quiet_of; [auto with mutsuki|]. intros p' a [= <- <-] _.
  assert (∀ r, rec_status r = Running → rebind_record g g' r = r) as Hrun.
  { intros r Hr. unfold rebind_record. rewrite decide_False; [done|]. rewrite Hr. naive_solver. }
  split; simpl.
  - intros y r' (r & <- & Hr)%lookup_fmap_Some Hst. rewrite status_rebind in Hst. by rewrite Hrun.
  - intros y Hy. split; [done|]. intros r Hr Hst. rewrite lookup_fmap, Hr. simpl. by rewrite Hrun.
Qed.

Lemma enqueue_calm p task step : calm p (enqueue_at p task step).1.
Proof.
  unfold enqueue_at. destruct (contains_task_id p (t_task_id task)) eqn:Hc; [reflexivity|].
  apply contains_task_id_false in Hc as [Hx _].
  destruct (try_wire_len (t_payload task)) as [bytes|]; [|reflexivity].
  unfold insert_record_indexes, update_record_indexes. simpl. rewrite lookup_insert_eq. simpl.
  eapply calm_put; [reflexivity|done|]. right. split; [done|]. by rewrite Hx.
Qed.

(** ** Requests, aborts and claims *)

Lemma request_cancel_pend_ok p x step failure p' res :
  pool_wf p → pend_ok p → request_cancel_by_core p x step failure = Done (p', res) → pend_ok p'.
Proof.
  intros Hwf Hok. unfold request_cancel_by_core.
  assert (∀ c, (∃ r, tp_tasks p !! x = Some r ∧ rec_status r = Running) →
    pend_ok (set_tp_pending_cancellations (<[x := c]> (tp_pending_cancellations p)) p)) as Hins.
  { intros c Hx y. simpl. rewrite lookup_insert. case_decide; [by subst|]. apply Hok. }
  destruct (tp_pending_cancellations p !! x) as [c|] eqn:Hc.
  - destruct failure; intros [= <- <-]; [|done]. apply Hins, Hok. eauto.
  - unfold record_of. destruct (tp_tasks p !! x) as [r|] eqn:Hx; [|by intros [= <- <-]].
    case_decide as Hrun; [intros [= <- <-]; apply Hins; eauto|].
    destruct (terminal_by_core_quiet p x Cancelled failure "cancel" step Hwf) as (p1 & a & -> & _ & Hq);
      [done..|]. cbn [mbind outcome_bind]. intros H.
    assert (p' = p1) as -> by (destruct a; by simplify_eq). by eapply calm_pend_ok.
Qed.

Lemma abort_finalize_loop_pending l : ∀ p p',
  abort_finalize_loop p l = Done p' → shrinks p p'.
Proof.
  induction l as [|x l IH]; intros p p'; simpl; [by intros [= <-]|].
  destruct (record_terminal_task _ x) as [p1|] eqn:Hr; [|done]. cbn [mbind outcome_bind].
  intros H%IH. apply record_terminal_shrinks in Hr. rewrite remove_waits_for_parent_eq in Hr.
  etrans; [|exact H]. by eapply shrinks_from.
Qed.

Lemma abort_pend_ok p step failure p' ids :
  pool_wf p → pend_ok p → abort_all p step failure = Done (p', ids) → pend_ok p'.
Proof.
  intros Hwf Hok Heq. destruct (abort_all_spec p step failure Hwf) as (p1 & Heq' & Hwf' & Hsub & Hpend).
  rewrite Heq in Heq'. injection Heq' as <- _.
  intros y Hy. assert (is_Some (tp_tasks p' !! y)) as [r' Hr'].
  { apply elem_of_dom, (wf_pending _ _ _ _ _ Hwf'), elem_of_dom. done. }
  exists r'. split; [done|].
  pose proof (lookup_weaken _ _ _ _ Hr' Hsub) as (r & <- & Hr)%lookup_fmap_Some.
  assert (rec_status r = Running) as Hrun; [|unfold abort_one, abortable; case_decide; [naive_solver|done]].
  (* a request in the new pool is an old one or one for a running task *)
  revert Heq. unfold abort_all. destruct (abort_all_fold failure p Hwf) as [[_ _ Hpd _ _] _].
  set (a := foldl _ _ _) in *. rewrite insert_pending_fold.
  destruct (abort_finalize_loop _ _) as [p2|] eqn:Hl; [|done]. cbn [mbind outcome_bind]. intros [= <- _].
  apply abort_finalize_loop_pending in Hl as [_ Hl _]. rewrite pending_attempts_finished in Hl. simpl in Hl.
  destruct Hy as [c Hc]. eapply lookup_weaken in Hc; [|exact Hl].
  apply elem_of_dom_2 in Hc. rewrite dom_insert_fold in Hc.
  apply elem_of_union in Hc as [Hc|Hc].
  - apply elem_of_dom, Hok in Hc as (r1 & ? & ?). congruence.
  - apply elem_of_list_to_set in Hc. simpl in Hpd. rewrite Hpd in Hc.
    apply (elem_of_ids_where (λ r, rec_status r = Running)) in Hc as (r1 & ? & ?); [congruence|].
    by destruct Hwf.
Qed.

(** ** The selector cache and claims *)

Lemma cached_calm p p' : cached p p' → calm p p'.
Proof. intros (c & -> & _). by apply calm_same. Qed.

Lemma queued_by_lane_cached runner step gen lanes : ∀ p,
  pool_wf p → cached p (queued_by_lane p runner step gen lanes).2.
Proof.
  induction lanes as [|lane lanes IH]; intros p Hwf; simpl; [by apply cached_refl|].
  unfold ready_dispatch_count_for_lane.
  destruct (with_ready_selectors_spec p (rd_runner_id runner) Hwf) as (p1 & -> & Hc).
  specialize (IH p1 (wf_cached _ _ Hwf Hc)).
  destruct (queued_by_lane p1 runner step gen lanes) as [m p2]. simpl in *.
  try case_decide; simpl; by eapply cached_trans.
Qed.

Lemma runner_load_cached p runner step gen : pool_wf p → cached p (runner_load p runner step gen).2.
Proof.
  intros Hwf. unfold runner_load, ready_dispatch_count.
  destruct (with_ready_selectors_spec p (rd_runner_id runner) Hwf) as (p1 & -> & Hc).
  pose proof (queued_by_lane_cached runner step gen DispatchLane_ALL p1 (wf_cached _ _ Hwf Hc)) as Hq.
  destruct (queued_by_lane p1 _ _ _ _) as [m p2]. simpl in *. by eapply cached_trans.
Qed.

Lemma claim_loop_pending runner executor_id step gen expires ids : ∀ c c',
  claim_loop runner executor_id step gen expires c ids = Done c' →
  tp_pending_cancellations (cl_pool c') = tp_pending_cancellations (cl_pool c).
Proof.
  induction ids as [|x ids IH]; intros c c'; simpl; [by intros [= <-]|].
  unfold claim_one, remove_record_indexes, insert_record_indexes, update_record_indexes.
  destruct (tp_tasks (cl_pool c) !! x) as [r|] eqn:Hx; simpl; rewrite Hx; [|done]. simpl.
  rewrite lookup_insert_eq. by intros ->%IH.
Qed.

Lemma claim_pend_ok p runner executor_id step gen limit budget expires p' l :
  pool_wf p → pend_ok p → NoDup (rd_accepted_protocol_ids runner) → expiry_width expires →
  claim_ready_for_executor_with_budget p runner executor_id step gen limit budget expires = Done (p', l) →
  pend_ok p'.
Proof.
  intros Hwf Hok Hnd Hw Heq.
  destruct (claim_returned runner executor_id step gen expires p limit budget p' l Hwf Hnd Hw Heq)
    as (ids & _ & _ & _ & Hsel & Ht).
  assert (tp_pending_cancellations p' = tp_pending_cancellations p) as Hp.
  { revert Heq. unfold claim_ready_for_executor_with_budget.
    destruct (selection_fits limit budget) eqn:Hfits; [|by rewrite select_candidate_ids_overflow].
    destruct (select_candidate_ids_spec p runner step gen limit budget Hwf Hnd Hfits)
      as (ids' & p2 & -> & (c & -> & _) & _). cbn [mbind outcome_bind].
    destruct (claim_loop _ _ _ _ _ _ _) as [c'|] eqn:Hl; [|done]. cbn [mbind outcome_bind].
    intros [= <- _]. by apply claim_loop_pending in Hl. }
  intros y Hy. rewrite Hp in Hy. destruct (Hok y Hy) as (r & Hr & Hrun).
  rewrite Ht, lookup_claimed_tasks by by destruct Hsel. case_decide as Hin; [|eauto].
  rewrite Hr. simpl. eexists. split; [done|]. done.
Qed.

End calm.

#[export] Hint Resolve complete_quiet fail_quiet cancel_task_quiet wait_quiet defer_quiet block_quiet
  wake_quiet reject_ready_quiet finalize_quiet cancel_invocation_quiet wake_due_quiet reclaim_quiet
  take_waits_quiet rebind_quiet : mutsuki.
