(* ===== verification/RuntimeInv.v ===== *)
(** * RuntimeInv: the invariant of the composed runtime

    [rt_wf] joins the invariants of the task pool, the registries and the resource
    manager; [holds R m] says that the computation [m], started in a runtime that
    satisfies it, returns in one that does, related to the first by [R], or panics for
    one of two reasons: the map of the task pool is full, or a local payload that does
    not serialize is asked for its JSON; a scheduling pass may also ask for a buffer that
    is too large ([scheduling_panics]).  The lemmas follow the structure of the code. *)
From S2P Require Import Prelude Floats Contracts StateStore Resources Logs ResourceManager.
From S2P Require Import TaskIndexes TaskPool TaskClaiming TaskPoolInv TaskStates TaskPoolSafety.
From S2P Require Import TaskPoolOps TaskLeasing TaskPoolCalm ResourceInv Plugins Batches WorkBatches.
From S2P Require Import Registry PlanChecks RegistryTheorems Runtime ResultRouting RunnerLoop.

Definition UNSERIALIZABLE : string := "local task payload must serialize for wire form".

(** The panics a group of lemmas allows. *)
Class Panics : Type := may_panic : string → Prop.

Section inv.
Context {serde : Serde} {dec : Decode} {runners : RunnerTrait} {panics : Panics}.
Implicit Types (rt : CoreRuntime) (p : TaskPool) (R : relation CoreRuntime).

Record rt_wf rt : Prop := {
  rt_tasks : pool_wf (cr_tasks rt);
  rt_pending : pend_ok (cr_tasks rt);
  rt_registry : reg_wf (cr_registry rt);
  rt_draining : Forall (λ d, reg_wf (dg_registry d)) (cr_draining_generations rt);
  rt_resources : rm_wf (cr_resources rt);
}.

Definition ok_at {A} R (m : M A) rt : Prop :=
  match m rt with
  | Done (rt', _) => rt_wf rt' ∧ R rt rt'
  | Panic message => may_panic message
  end.

Definition holds {A} R (m : M A) : Prop := ∀ rt, rt_wf rt → ok_at R m rt.

(** ** Relations between the runtime before and after *)

(** No attempt starts and the clock, the plan and the resources stay. *)
Record quiet_rt rt rt' : Prop := {
  q_calm : calm (cr_tasks rt) (cr_tasks rt');
  q_step : cr_current_step rt' = cr_current_step rt;
  q_stop : cr_stop_state rt' = cr_stop_state rt;
  q_plan : cr_load_plan rt' = cr_load_plan rt;
  q_surfaces : cr_surfaces rt' = cr_surfaces rt;
  q_resources : cr_resources rt' = cr_resources rt;
}.

(** Besides, no committed state changes. *)
Definition routed rt rt' : Prop := quiet_rt rt rt' ∧ cr_states rt' = cr_states rt.

(** How far the runtime is on its way to a stop. *)
Definition stop_rank (state : RuntimeStopState) : nat :=
  match state with StopRunning => 0 | StopDraining => 1 | StopAborted => 2 end.

(** The stop state does not go back. *)
Definition forward rt rt' : Prop := (stop_rank (cr_stop_state rt) ≤ stop_rank (cr_stop_state rt'))%nat.

(** Besides, whatever runs afterwards ran before, under the same record. *)
Definition starts_none p p' : Prop :=
  ∀ y r', tp_tasks p' !! y = Some r' → rec_status r' = Running → tp_tasks p !! y = Some r'.
Definition steady rt rt' : Prop := forward rt rt' ∧ starts_none (cr_tasks rt) (cr_tasks rt').

#[global] Instance quiet_rt_preorder : PreOrder quiet_rt.
Proof.
  split; [by split|]. intros r1 r2 r3 [] []. split; try congruence. by etrans.
Qed.
#[global] Instance routed_preorder : PreOrder routed.
Proof. split; [by split|]. intros r1 r2 r3 [? ?] [? ?]. split; [by etrans|congruence]. Qed.
#[global] Instance forward_preorder : PreOrder forward.
Proof. split; unfold forward; [intros r|intros r1 r2 r3]; lia. Qed.
#[global] Instance steady_preorder : PreOrder steady.
Proof.
  split; [intros r; split; [reflexivity|by intros y r']|]. intros r1 r2 r3 [H1 H2] [H3 H4]. split; [by etrans|]. intros y r' Hr' Hrun.
  apply H2; [by apply H4|done].
Qed.

Lemma forward_same rt rt' : cr_stop_state rt' = cr_stop_state rt → forward rt rt'.
Proof. unfold forward. by intros ->. Qed.
Lemma steady_same rt rt' :
  cr_stop_state rt' = cr_stop_state rt → cr_tasks rt' = cr_tasks rt → steady rt rt'.
Proof. intros Hs Ht. split; [by apply forward_same|]. intros y r'. by rewrite Ht. Qed.

Lemma ok_weaken {A} R R' (m : M A) rt : (∀ r r', R r r' → R' r r') → ok_at R m rt → ok_at R' m rt.
Proof. intros HR. unfold ok_at. destruct (m rt) as [[rt' res]|]; [|done]. intros [? ?]. auto. Qed.

Lemma routed_quiet {A} (m : M A) rt : ok_at routed m rt → ok_at quiet_rt m rt.
Proof. apply ok_weaken. by intros r r' []. Qed.
Lemma quiet_steady {A} (m : M A) rt : ok_at quiet_rt m rt → ok_at steady m rt.
Proof.
  apply ok_weaken. intros r r' [Hc _ Hs _ _ _]. split; [by apply forward_same|exact (calm_running _ _ Hc)].
Qed.
Lemma routed_steady {A} (m : M A) rt : ok_at routed m rt → ok_at steady m rt.
Proof. intros H. by apply quiet_steady, routed_quiet. Qed.
Lemma steady_forward {A} (m : M A) rt : ok_at steady m rt → ok_at forward m rt.
Proof. apply ok_weaken. by intros r r' []. Qed.

(** ** Structure *)

Lemma ok_pure {A} R `{!PreOrder R} rt (res : RuntimeResult A) (m : M A) :
  m rt = Done (rt, res) → rt_wf rt → ok_at R m rt.
Proof. intros Hm Hwf. unfold ok_at. rewrite Hm. by split. Qed.

Lemma ok_bind {A B} R `{!PreOrder R} (m : M A) (f : A → M B) rt :
  ok_at R m rt →
  (∀ a rt', m rt = Done (rt', Ok a) → rt_wf rt' → R rt rt' → ok_at R (f a) rt') →
  ok_at R (m ≫= f) rt.
Proof.
  unfold ok_at, mbind, M_bind. destruct (m rt) as [[rt' [a|e]]|msg] eqn:Hm; [|done|done].
  intros [Hwf HR] Hf. specialize (Hf a rt' eq_refl Hwf HR).
  destruct (f a rt') as [[rt'' res]|]; [|done]. destruct Hf. split; [done|]. by etrans.
Qed.

Lemma ok_attempt {A} R (m : M A) rt : ok_at R m rt → ok_at R (attempt m) rt.
Proof. unfold ok_at, attempt. by destruct (m rt) as [[rt' res]|]. Qed.

Lemma holds_ret {A} R `{!PreOrder R} (a : A) : holds R (mret a).
Proof. intros rt Hwf. by eapply ok_pure. Qed.
Lemma holds_throw {A} R `{!PreOrder R} e : holds R (throw e : M A).
Proof. intros rt Hwf. by eapply ok_pure. Qed.
Lemma holds_ask {A} R `{!PreOrder R} (f : CoreRuntime → A) : holds R (ask f).
Proof. intros rt Hwf. by eapply ok_pure. Qed.
Lemma holds_check {A} R `{!PreOrder R} (f : CoreRuntime → RuntimeResult A) : holds R (check f).
Proof. intros rt Hwf. by eapply ok_pure. Qed.
Lemma holds_attempt {A} R (m : M A) : holds R m → holds R (attempt m).
Proof. intros Hm rt Hwf. by apply ok_attempt, Hm. Qed.

Lemma holds_bind {A B} R `{!PreOrder R} (m : M A) (f : A → M B) :
  holds R m → (∀ a, holds R (f a)) → holds R (m ≫= f).
Proof. intros Hm Hf rt Hwf. apply ok_bind; [done|by apply Hm|]. intros a rt' _ Hwf' _. by apply Hf. Qed.

Lemma holds_for_each {A} R `{!PreOrder R} (l : list A) body :
  (∀ x, x ∈ l → holds R (body x)) → holds R (for_each l body).
Proof.
  induction l as [|x l IH]; intros Hb; simpl; [by apply holds_ret|].
  apply holds_bind; [done|apply Hb; left|]. intros _. apply IH. intros y Hy. apply Hb. by right.
Qed.
Lemma holds_sum_each {A} R `{!PreOrder R} (l : list A) body :
  (∀ x, x ∈ l → holds R (body x)) → holds R (sum_each l body).
Proof.
  induction l as [|x l IH]; intros Hb; simpl; [by apply holds_ret|].
  apply holds_bind; [done|apply Hb; left|]. intros n. apply holds_bind; [done| |intros; by apply holds_ret].
  apply IH. intros y Hy. apply Hb. by right.
Qed.
Lemma holds_map_each {A B} R `{!PreOrder R} (l : list A) (body : A → M B) :
  (∀ x, x ∈ l → holds R (body x)) → holds R (map_each l body).
Proof.
  induction l as [|x l IH]; intros Hb; simpl; [by apply holds_ret|].
  apply holds_bind; [done|apply Hb; left|]. intros n. apply holds_bind; [done| |intros; by apply holds_ret].
  apply IH. intros y Hy. apply Hb. by right.
Qed.

(** ** Primitive steps *)

Lemma rt_wf_same rt rt' :
  rt_wf rt → cr_tasks rt' = cr_tasks rt → cr_registry rt' = cr_registry rt →
  cr_draining_generations rt' = cr_draining_generations rt → cr_resources rt' = cr_resources rt →
  rt_wf rt'.
Proof. intros [] Ht Hr Hd Hm. split; by rewrite ?Ht, ?Hr, ?Hd, ?Hm. Qed.

Lemma rt_wf_set_tasks rt p :
  rt_wf rt → pool_wf p → pend_ok p → rt_wf (set_cr_tasks p rt).
Proof. intros []. by split. Qed.

Lemma routed_set_tasks rt p : calm (cr_tasks rt) p → routed rt (set_cr_tasks p rt).
Proof. intros Hc. by repeat split; try apply Hc. Qed.

Lemma record_event_routed kind name subject attrs error :
  holds routed (record_event kind name subject attrs error).
Proof. intros rt Hwf. split; [by eapply rt_wf_same|]. by repeat split. Qed.

Lemma record_span_routed trace_id name attrs : holds routed (record_span trace_id name attrs).
Proof.
  intros rt Hwf. unfold ok_at, record_span. destruct (trace_record _ _ _ _ _ _) as [log span].
  split; [by eapply rt_wf_same|]. by repeat split.
Qed.

Lemma tasks_do_routed {A} (f : TaskPool → outcome (TaskPool * RuntimeResult A)) rt :
  rt_wf rt → quiet (cr_tasks rt) (f (cr_tasks rt)) → ok_at routed (tasks_do f) rt.
Proof.
  intros Hwf (p' & a & Hf & [Hg _] & Hc). unfold ok_at, tasks_do. rewrite Hf.
  split; [|by apply routed_set_tasks]. apply rt_wf_set_tasks; [done|done|].
  eapply calm_pend_ok; [done|apply Hwf].
Qed.

Lemma tasks_run_routed {A} (f : TaskPool → outcome (TaskPool * A)) rt :
  rt_wf rt → quiet (cr_tasks rt) (f (cr_tasks rt)) → ok_at routed (tasks_run f) rt.
Proof.
  intros Hwf (p' & a & Hf & Hg & Hc). apply tasks_do_routed; [done|]. exists p', (Ok a).
  split_and!; [|done..]. by rewrite Hf.
Qed.

End inv.

Definition allowed_panic (message : string) : Prop :=
  message = CAPACITY_OVERFLOW ∨ message = UNSERIALIZABLE.
#[export] Instance runtime_panics : Panics := allowed_panic.

(** A scheduling pass allocates a buffer for the tasks it selects; [oversized] says when the
    buffer may be too large. *)
Definition scheduling_panics (oversized : Prop) : Panics := λ message,
  allowed_panic message ∨ (oversized ∧ message = VEC_CAPACITY_OVERFLOW).

Create HintDb runtime.
#[export] Hint Resolve record_event_routed record_span_routed : runtime.

(** One step through a computation. *)
Ltac rt_step :=
  lazymatch goal with
  | |- holds _ (mret _) => apply holds_ret; apply _
  | |- holds _ (throw _) => apply holds_throw; apply _
  | |- holds _ (ask _) => apply holds_ask; apply _
  | |- holds _ (check _) => apply holds_check; apply _
  | |- holds _ (attempt _) => apply holds_attempt
  | |- holds _ (for_each _ _) => apply holds_for_each; [apply _|intros ? ?]
  | |- holds _ (sum_each _ _) => apply holds_sum_each; [apply _|intros ? ?]
  | |- holds _ (map_each _ _) => apply holds_map_each; [apply _|intros ? ?]
  | |- holds _ (mbind _ _) => apply holds_bind; [apply _| |intros ?]
  | |- holds _ (match ?x with _ => _ end) => destruct x
  | |- holds _ (let _ := _ in _) => cbv zeta
  end.
Ltac rt_walk := repeat first [solve [eauto with runtime]|rt_step].

Section operations.
Context {serde : Serde} {dec : Decode} {runners : RunnerTrait}.
Implicit Types (rt : CoreRuntime).

Lemma tasks_do_holds {A} (f : TaskPool → outcome (TaskPool * RuntimeResult A)) :
  (∀ p, pool_wf p → quiet p (f p)) → holds routed (tasks_do f).
Proof. intros Hf rt Hwf. apply tasks_do_routed; [done|]. apply Hf, Hwf. Qed.
Lemma tasks_run_holds {A} (f : TaskPool → outcome (TaskPool * A)) :
  (∀ p, pool_wf p → quiet p (f p)) → holds routed (tasks_run f).
Proof. intros Hf rt Hwf. apply tasks_run_routed; [done|]. apply Hf, Hwf. Qed.

#[local] Hint Extern 1 (holds routed (tasks_do _)) =>
  apply tasks_do_holds; intros; solve [auto with mutsuki] : runtime.
#[local] Hint Extern 1 (holds routed (tasks_run _)) =>
  apply tasks_run_holds; intros; solve [auto with mutsuki] : runtime.

Lemma terminal_event_routed task_id name error :
  holds routed (record_task_terminal_event task_id name error).
Proof. apply record_event_routed. Qed.
#[local] Hint Resolve terminal_event_routed : runtime.

Lemma wake_waiting_routed child : holds routed (wake_tasks_waiting_on child).
Proof. unfold wake_tasks_waiting_on. rt_walk. Qed.
#[local] Hint Resolve wake_waiting_routed : runtime.

Lemma wake_due_routed : holds routed wake_due.
Proof. unfold wake_due. rt_walk. Qed.

Lemma reject_stale_routed : holds routed reject_stale_ready_tasks.
Proof. unfold reject_stale_ready_tasks. rt_walk. Qed.

Lemma enqueue_task_routed task : holds routed (enqueue_task task).
Proof.
  unfold enqueue_task. rt_walk. intros rt Hwf. unfold ok_at, tasks_do. case_decide as Hsz; [by left|].
  match goal with |- context [enqueue_at ?p ?t ?s] => pose proof (enqueue_calm p t s) as Hc;
    destruct (enqueue_at_safe p t s (rt_tasks _ Hwf)) as [Hwf' _]; [lia|];
    destruct (enqueue_at p t s) as [p' res] end.
  simpl in *. split; [|by apply routed_set_tasks]. apply rt_wf_set_tasks; [done|done|].
  eapply calm_pend_ok; [done|apply Hwf].
Qed.
#[local] Hint Resolve enqueue_task_routed : runtime.

Lemma submit_batch_routed batch : holds routed (submit_batch batch).
Proof. unfold submit_batch. rt_walk. Qed.
#[local] Hint Resolve submit_batch_routed : runtime.

Lemma submit_task_routed task : holds routed (submit_task task).
Proof. unfold submit_task. rt_walk. Qed.
#[local] Hint Resolve submit_task_routed : runtime.

Lemma submit_targeted_routed task_id binding_id payload :
  holds routed (submit_targeted_task task_id binding_id payload).
Proof. unfold submit_targeted_task. rt_walk. Qed.

Lemma terminal_core_routed {A} (f : TaskPool → outcome (TaskPool * RuntimeResult A)) :
  (∀ p, pool_wf p → quiet p (f p)) → holds routed (tasks_do f).
Proof. apply tasks_do_holds. Qed.

Lemma expire_routed task_id reason : holds routed (expire_task task_id reason).
Proof.
  unfold expire_task. rt_walk. apply tasks_do_holds. intros p Hp. by apply terminal_by_core_quiet.
Qed.
Lemma dead_letter_routed task_id reason : holds routed (dead_letter_task task_id reason).
Proof.
  unfold dead_letter_task. rt_walk. apply tasks_do_holds. intros p Hp. by apply terminal_by_core_quiet.
Qed.
Lemma wake_task_routed task_id : holds routed (wake_task_by_id task_id).
Proof. unfold wake_task_by_id. rt_walk. Qed.

(** ** Routing *)

Lemma finalize_routed lease : holds routed (finalize_cancellation lease).
Proof. unfold finalize_cancellation. rt_walk. Qed.
#[local] Hint Resolve finalize_routed : runtime.

Lemma fail_dispatch_routed lease failure : holds routed (fail_runner_dispatch lease failure).
Proof. unfold fail_runner_dispatch. rt_walk. Qed.
#[local] Hint Resolve fail_dispatch_routed : runtime.

Lemma fail_dispatches_routed leases failure : holds routed (fail_runner_dispatches leases failure).
Proof. unfold fail_runner_dispatches. rt_walk. Qed.
#[local] Hint Resolve fail_dispatches_routed : runtime.

Lemma rejected_result_routed task_id error : holds routed (record_rejected_runner_result task_id error).
Proof. unfold record_rejected_runner_result. rt_walk. Qed.
#[local] Hint Resolve rejected_result_routed : runtime.

Lemma route_outputs_routed runner r : holds routed (route_result_outputs runner r).
Proof. unfold route_result_outputs. rt_walk. Qed.
#[local] Hint Resolve route_outputs_routed : runtime.

Lemma settle_routed task_id name error : holds routed (settle task_id name error).
Proof. unfold settle. rt_walk. Qed.
#[local] Hint Resolve settle_routed : runtime.

Lemma stale_rejection_routed : holds routed (tasks_run (λ p, Done (record_stale_result_rejection p, tt))).
Proof.
  apply tasks_run_holds. intros p Hp. do 2 eexists. split; [done|]. split.
  - split; [by apply wf_stale_rejection|apply tasks_step_refl].
  - by apply calm_same.
Qed.
#[local] Hint Resolve stale_rejection_routed : runtime.

(** Suspending on a child needs that no cancellation is requested. *)
Lemma commit_status_routed runner lease r rt :
  rt_wf rt → tp_pending_cancellations (cr_tasks rt) !! tl_task_id lease = None →
  ok_at routed (commit_result_status runner lease r) rt.
Proof.
  intros Hwf Hnone. unfold commit_result_status.
  destruct (decide (rr_status r = StatusWaiting ∧ is_Some (rr_task_await r))) as [[Hs [w Hw]]|Hno].
  - rewrite Hs, Hw. apply ok_bind; [apply _|by apply holds_ask; [apply _|]|]. intros step rt' [= <- <-] _ _.
    apply ok_bind; [apply _| |].
    + apply tasks_do_routed; [done|]. by apply wait_on_task_quiet; [apply Hwf|].
    + intros [] rt1 _ Hwf1 _. revert rt1 Hwf1.
      enough (holds routed (_ ← record_progress (rr_task_id r) "waiting"; mret 0%N)) as Hh by exact Hh.
      unfold record_progress. rt_walk.
  - revert rt Hwf Hnone. enough (holds routed (commit_result_status runner lease r)) as Hh
      by (intros rt Hwf _; by apply Hh).
    unfold commit_result_status, record_progress. apply holds_bind; [apply _|by rt_walk|]. intros step.
    destruct (rr_status r); try (by rt_walk). destruct (rr_task_await r) as [w|]; [|by rt_walk].
    destruct Hno. eauto.
Qed.

Lemma calm_no_request p p' x :
  calm p p' → tp_pending_cancellations p !! x = None → tp_pending_cancellations p' !! x = None.
Proof.
  intros [_ Hp] Hx. apply eq_None_not_Some. intros [Hy _]%Hp. rewrite Hx in Hy. by destruct Hy.
Qed.

Lemma route_result_routed runner lease r rt :
  rt_wf rt → tp_pending_cancellations (cr_tasks rt) !! tl_task_id lease = None →
  ok_at routed (route_result runner lease r) rt.
Proof.
  intros Hwf Hnone. unfold route_result.
  do 3 (apply ok_bind; [apply _|by apply holds_check; [apply _|]|]; intros ? ? [= <- _] _ _).
  apply ok_bind; [apply _|by apply route_outputs_routed|]. intros _ rt' _ Hwf' [[Hc _ _ _ _ _] _].
  apply commit_status_routed; [done|]. by eapply calm_no_request.
Qed.

Lemma finalize_none lease rt rt' :
  finalize_cancellation lease rt = Done (rt', Ok None) →
  rt' = rt ∧ tp_pending_cancellations (cr_tasks rt) !! tl_task_id lease = None.
Proof.
  unfold finalize_cancellation, mbind, M_bind, ask, tasks_do.
  unfold finalize_requested_cancellation.
  destruct (tp_pending_cancellations (cr_tasks rt) !! tl_task_id lease) as [c|] eqn:Hc.
  - destruct (mutate_record_indexed _ _ _) as [p [[]|e]]; [|done].
    destruct (record_terminal_task _ _) as [p'|]; [|done]. cbn [mbind outcome_bind].
    destruct (record_task_terminal_event _ _ _ _) as [[rt1 [[]|]]|]; [|done|done].
    destruct (wake_tasks_waiting_on _ rt1) as [[rt2 [n|]]|]; done.
  - intros [= <-]. split; [|done]. by destruct rt.
Qed.

Lemma route_entry_routed descriptor lease completion :
  holds routed (route_entry_completion descriptor lease completion).
Proof.
  intros rt Hwf. unfold route_entry_completion.
  apply ok_bind; [apply _|by apply finalize_routed|]. intros [n|] rt' Hfin Hwf' _;
    [by apply holds_ret; [apply _|]|].
  apply finalize_none in Hfin as [-> Hnone].
  destruct (ec_error completion); [by apply fail_dispatch_routed|].
  destruct (ec_result completion) as [result|]; [|by apply fail_dispatch_routed].
  destruct (_ || _); [by apply fail_dispatch_routed|].
  apply ok_bind; [apply _|by apply ok_attempt, route_result_routed|]. intros res rt1 _ Hwf1 _.
  refine ((_ : holds routed _) rt1 Hwf1). rt_walk.
Qed.
#[local] Hint Resolve route_entry_routed : runtime.

Lemma route_entries_routed descriptor leases leases_by_task entries : ∀ completed,
  holds routed (route_entries descriptor leases leases_by_task entries completed).
Proof. induction entries as [|[entry c] entries IH]; intros completed; simpl; rt_walk. Qed.
#[local] Hint Resolve route_entries_routed : runtime.

Lemma route_batch_routed descriptor leases entries batch :
  holds routed (route_completion_batch descriptor leases entries batch).
Proof. unfold route_completion_batch. rt_walk. Qed.
#[local] Hint Resolve route_batch_routed : runtime.

Lemma rt_wf_set_registry_at rt index r :
  rt_wf rt → reg_wf r → rt_wf (set_registry_at index r rt).
Proof.
  intros [] Hr. destruct index as [i|]; simpl; [|by split]. split; simpl; try done.
  apply Forall_alter; [done|]. by intros.
Qed.

Lemma registry_at_wf rt index : rt_wf rt → reg_wf (registry_at rt index).
Proof.
  intros Hwf. destruct index as [i|]; simpl; [|apply Hwf].
  destruct (cr_draining_generations rt !! i) as [d|] eqn:Hd; [|apply Hwf].
  by eapply (Forall_lookup_1 _ _ _ _ (rt_draining rt Hwf)) in Hd.
Qed.

Lemma routed_set_registry_at rt index r : routed rt (set_registry_at index r rt).
Proof. by destruct index. Qed.

Lemma return_runner_routed generation runner : holds routed (return_runner generation runner).
Proof.
  unfold return_runner. rt_walk. intros rt Hwf. unfold ok_at, put_runner_for_generation.
  pose proof (put_runner_wf runner generation _ (registry_at_wf rt (draining_index rt generation) Hwf)) as Hr.
  destruct (put_runner _ _ _) as [r rejected]. split; [by apply rt_wf_set_registry_at|].
  apply routed_set_registry_at.
Qed.
#[local] Hint Resolve return_runner_routed : runtime.

Lemma complete_dispatch_routed completion : holds routed (complete_runner_dispatch completion).
Proof. unfold complete_runner_dispatch. rt_walk. Qed.

End operations.

#[export] Hint Resolve terminal_event_routed wake_waiting_routed wake_due_routed reject_stale_routed
  enqueue_task_routed submit_batch_routed submit_task_routed submit_targeted_routed expire_routed
  dead_letter_routed wake_task_routed finalize_routed fail_dispatch_routed fail_dispatches_routed
  rejected_result_routed route_outputs_routed settle_routed stale_rejection_routed route_entry_routed
  route_entries_routed route_batch_routed return_runner_routed complete_dispatch_routed : runtime.
#[export] Hint Extern 1 (holds routed (tasks_do _)) =>
  apply tasks_do_holds; intros; solve [auto with mutsuki] : runtime.
#[export] Hint Extern 1 (holds routed (tasks_run _)) =>
  apply tasks_run_holds; intros; solve [auto with mutsuki] : runtime.
