(* ===== verification/RuntimeCancel.v ===== *)
(** * RuntimeCancel: the cancellation cascade ends

    [cancel_task_by_id] calls itself on the tasks a cancelled task waits for.  A task
    with wait links is suspended, so its cancellation is final at once and one task less
    is open when the recursion goes down. *)
From S2P Require Import Prelude Floats Contracts StateStore Resources Logs ResourceManager.
From S2P Require Import TaskIndexes TaskPool TaskClaiming TaskPoolInv TaskHistory TaskStates.
From S2P Require Import TaskPoolSafety TaskPoolOps TaskPoolCalm ResourceInv Plugins Batches WorkBatches.
From S2P Require Import Registry PlanChecks RegistryTheorems Runtime ResultRouting RunnerLoop RuntimeInv.

Section cancel.
Context {serde : Serde} {dec : Decode} {runners : RunnerTrait} {panics : Panics}.
Implicit Types (rt : CoreRuntime) (p : TaskPool) (x y : TaskId).

(** ** Open tasks *)

Definition open_tasks (tasks : gmap TaskId TaskRecord) : gset TaskId :=
  dom (filter (λ kv, is_terminal_status (rec_status kv.2) = false) tasks).

Lemma elem_of_open tasks x :
  x ∈ open_tasks tasks ↔ ∃ r, tasks !! x = Some r ∧ is_terminal_status (rec_status r) = false.
Proof.
  unfold open_tasks. rewrite elem_of_dom. split.
  - intros [r [Hr Ht]%map_lookup_filter_Some]. eauto.
  - intros (r & Hr & Ht). exists r. by apply map_lookup_filter_Some.
Qed.

Lemma open_tasks_step tasks tasks' : tasks_step tasks tasks' → open_tasks tasks' ⊆ open_tasks tasks.
Proof.
  intros Hs x. rewrite !elem_of_open. intros (r' & Hr' & Ht'). destruct (Hs x r' Hr') as (r & Hr & Hstep).
  exists r. split; [done|]. destruct (is_terminal_status (rec_status r)) eqn:Ht; [|done].
  rewrite (task_step_terminal r r' Hstep Ht), Ht in Ht'. done.
Qed.

(** Nothing more will be started for the task. *)
Definition stopped p x : Prop :=
  ∀ r, tp_tasks p !! x = Some r →
    is_terminal_status (rec_status r) = true ∨
    (rec_status r = Running ∧ cancellation_requested p x = true).

Record settling rt rt' : Prop := {
  s_open : open_tasks (tp_tasks (cr_tasks rt')) ⊆ open_tasks (tp_tasks (cr_tasks rt));
  s_stopped : ∀ y, stopped (cr_tasks rt) y → stopped (cr_tasks rt') y;
  s_states : cr_states rt' = cr_states rt;
  s_step : cr_current_step rt' = cr_current_step rt;
  s_steady : steady rt rt';
}.

#[global] Instance settling_preorder : PreOrder settling.
Proof.
  split; [by split|]. intros r1 r2 r3 [] []. split; [by etrans|eauto|congruence|congruence|by etrans].
Qed.

Lemma event_settling kind name subject attrs error :
  holds settling (record_event kind name subject attrs error).
Proof. intros rt Hwf. split; [by eapply rt_wf_same|]. split; try done. by apply steady_same. Qed.

(** A pool operation that keeps stopped tasks stopped. *)
Lemma tasks_do_settling {A} (f : TaskPool → outcome (TaskPool * RuntimeResult A)) rt p' res :
  rt_wf rt → f (cr_tasks rt) = Done (p', res) → good (cr_tasks rt) p' → pend_ok p' →
  starts_none (cr_tasks rt) p' → (∀ y, stopped (cr_tasks rt) y → stopped p' y) → ok_at settling (tasks_do f) rt.
Proof.
  intros Hwf Hf [Hwf' Hs] Hok Hnone Hst. unfold ok_at, tasks_do. rewrite Hf.
  split; [by apply rt_wf_set_tasks|]. split; simpl; [by apply open_tasks_step|done..|].
  split; [by apply forward_same|exact Hnone].
Qed.

Lemma stopped_step p p' y :
  (∀ x r', tp_tasks p' !! x = Some r' → ∃ r, tp_tasks p !! x = Some r ∧ task_step r r') →
  (∀ r, tp_tasks p !! y = Some r → rec_status r = Running → cancellation_requested p y = true →
     ∀ r', tp_tasks p' !! y = Some r' → rec_status r' = Running ∧ cancellation_requested p' y = true) →
  stopped p y → stopped p' y.
Proof.
  intros Hs Hrun Hst r' Hr'. destruct (Hs y r' Hr') as (r & Hr & Hstep).
  destruct (Hst r Hr) as [Ht|[Hr1 Hc]]; [left|right; by eapply Hrun].
  by rewrite (task_step_terminal r r' Hstep Ht).
Qed.

Lemma wake_settling x step rt :
  rt_wf rt → ok_at settling (tasks_do (λ p, Done (wake p x step))) rt.
Proof.
  intros Hwf. destruct (wake_quiet (cr_tasks rt) x step (rt_tasks _ Hwf)) as (p' & res & Heq & Hg & Hc).
  eapply tasks_do_settling; [done|exact Heq|done|eapply calm_pend_ok; [done|apply Hwf]|exact (calm_running _ _ Hc)|].
  intros y. apply stopped_step; [apply Hg|]. intros r Hr Hrun Hreq r' Hr'. injection Heq as Heq.
  revert Heq. unfold wake. rewrite mutate_record_indexed_eq.
  destruct (tp_tasks (cr_tasks rt) !! x) as [rx|] eqn:Hx; [|intros [= <- <-]; by simplify_eq].
  assert (x = y → rx = r) as Hxy by (intros ->; congruence).
  case_decide as Hs; simpl; intros [= <- <-].
  - rewrite remove_waits_for_parent_eq in Hr' |- *. simpl in Hr'.
    rewrite lookup_insert_ne in Hr'; [by simplify_eq|]. intros ->. rewrite Hxy, Hrun in Hs by done. by destruct Hs.
  - simpl in Hr'. rewrite insert_id in Hr' by done. by simplify_eq.
Qed.

Lemma take_waits_settling child rt :
  rt_wf rt → ok_at settling (tasks_run (λ p, take_waits_for_child p child)) rt.
Proof.
  intros Hwf. destruct (take_waits_quiet (cr_tasks rt) child (rt_tasks _ Hwf)) as (p' & res & Heq & Hg & Hc).
  eapply (tasks_do_settling _ _ p' (Ok res)); [done|by rewrite Heq|done|eapply calm_pend_ok; [done|apply Hwf]|exact (calm_running _ _ Hc)|].
  intros y. apply stopped_step; [apply Hg|]. intros r Hr Hrun Hreq r' Hr'.
  revert Heq. unfold take_waits_for_child. rewrite awaits_take_waits_for_child_eq.
  pose proof (wf_take_waits _ _ _ _ _ child (rt_tasks _ Hwf)) as Hwf1.
  rewrite awaits_take_waits_for_child_eq in Hwf1. cbn [snd] in Hwf1.
  destruct (wf_compact _ _ _ _ _ Hwf1) as (p1 & -> & _ & Hcomp & _). cbn [mbind outcome_bind].
  intros [= <- _]. destruct Hcomp as [_ Hsub Hpend _ _]. simpl in Hsub, Hpend.
  pose proof (lookup_weaken _ _ _ _ Hr' Hsub). simplify_eq. split; [done|].
  revert Hreq. unfold cancellation_requested. by rewrite Hpend by eauto.
Qed.

Lemma wake_waiting_settling child : holds settling (wake_tasks_waiting_on child).
Proof.
  unfold wake_tasks_waiting_on. apply holds_bind; [apply _|intros rt Hwf; by apply take_waits_settling|].
  intros waits. rt_step. rt_step; [rt_step|]. destruct (is_suspended _); [|rt_step].
  rt_step; [rt_step|]. rt_step; [intros rt Hwf; by apply wake_settling|].
  rt_step; [apply event_settling|rt_step].
Qed.

(** ** The cascade *)

Lemma request_starts_none p x step p' res :
  pool_wf p → request_cancel_by_core p x step None = Done (p', res) → starts_none p p'.
Proof.
  intros Hwf. unfold request_cancel_by_core, record_of.
  destruct (tp_pending_cancellations p !! x) as [c|]; [intros [= <- <-]; by intros y r'|].
  destruct (tp_tasks p !! x) as [r|]; [|intros [= <- <-]; by intros y r'].
  case_decide; [intros [= <- <-]; by intros y r'|].
  destruct (terminal_by_core_quiet p x Cancelled None "cancel" step Hwf) as (p1 & a & -> & _ & Hc); [done|].
  cbn [mbind outcome_bind]. destruct a; intros [= <- <-]; exact (calm_running _ _ Hc).
Qed.

(** What a request does to its task, and that it restarts nobody else. *)
Lemma request_cancel_effect p x step p' res :
  pool_wf p → pend_ok p → request_cancel_by_core p x step None = Done (p', res) →
  (∀ y, stopped p y → stopped p' y)
  ∧ (is_ok res = true → stopped p' x)
  ∧ (∀ r, tp_tasks p !! x = Some r → rec_status r ≠ Running →
       is_terminal_status (rec_status r) = false →
       res = Ok true ∧ x ∉ open_tasks (tp_tasks p')).
Proof.
  intros Hwf Hok Heq. pose proof (request_cancel_safe p x step None Hwf) as (p1 & a & Heq' & Hwf' & Hs).
  rewrite Heq in Heq'. injection Heq' as <- <-.
  revert Heq. unfold request_cancel_by_core.
  destruct (tp_pending_cancellations p !! x) as [c|] eqn:Hc.
  - intros [= <- <-]. destruct (Hok x) as (r & Hr & Hrun); [eauto|].
    split_and!; [done| |intros r0 Hr0 Hnr; congruence]. intros _ r0 Hr0. simplify_eq. right. split; [done|].
    unfold cancellation_requested. rewrite bool_decide_true; eauto.
  - unfold record_of. destruct (tp_tasks p !! x) as [r|] eqn:Hx; [|by intros [= <- <-]].
    case_decide as Hrun.
    + intros [= <- <-]. split_and!; [|intros _ r0 Hr0; simpl in Hr0; simplify_eq; right; split; [done|]
        |intros r0 Hr0 ? ?; congruence].
      * intros y Hy r0 Hr0. destruct (Hy r0 Hr0) as [|[? Hreq]]; [by left|right]. split; [done|].
        revert Hreq. unfold cancellation_requested. simpl. rewrite !bool_decide_eq_true, lookup_insert.
        case_decide; eauto.
      * unfold cancellation_requested. simpl. rewrite bool_decide_true; rewrite ?lookup_insert_eq; eauto.
    + unfold terminal_by_core. rewrite mutate_record_indexed_eq, Hx.
      destruct (is_terminal_status (rec_status r)) eqn:Ht; cbn [fst snd mbind outcome_bind].
      * intros [= <- <-]. split_and!; [|done|intros r0 Hr0 ? ?; congruence].
        intros y Hy r0. simpl. rewrite insert_id by done. apply Hy.
      * destruct (record_terminal_task _ x) as [p2|] eqn:Hrec; [|done]. cbn [mbind outcome_bind].
        intros [= <- <-]. pose proof (record_terminal_shrinks _ _ _ Hrec) as [Hsub _ Hkept].
        rewrite remove_waits_for_parent_eq in Hsub, Hkept.
        assert (∀ r0, tp_tasks p2 !! x = Some r0 → is_terminal_status (rec_status r0) = true) as Hterm.
        { intros r0 Hr0. eapply lookup_weaken in Hr0; [|exact Hsub]. simpl in Hr0.
          destruct (rec_lease r); simpl in Hr0; rewrite lookup_insert_eq in Hr0; by simplify_eq. }
        split_and!; [|intros _ r0 Hr0; left; by apply Hterm|].
        -- intros y. destruct (decide (y = x)) as [->|Hne]; [intros _ r0 Hr0; left; by apply Hterm|].
           intros Hy r0 Hr0. destruct (Hs y r0 Hr0) as (ry & Hry & Hstep).
           destruct (Hy ry Hry) as [Hty|[Hry1 Hreq]];
             [left; by rewrite (task_step_terminal ry r0 Hstep Hty)|].
           assert (r0 = ry) as ->.
           { eapply lookup_weaken in Hr0; [|exact Hsub].
             destruct (rec_lease r); simpl in Hr0; rewrite lookup_insert_ne in Hr0 by done; congruence. }
           right. split; [done|]. revert Hreq. unfold cancellation_requested. rewrite Hkept by eauto.
           destruct (rec_lease r); simpl; by rewrite lookup_delete_ne.
        -- intros r0 _ _ _. split; [done|]. rewrite elem_of_open. intros (r1 & Hr1 & Ht1).
           by rewrite (Hterm r1 Hr1) in Ht1.
Qed.

(** What a computation that succeeds establishes. *)
Definition gives {A} (m : M A) rt (Q : CoreRuntime → Prop) : Prop :=
  ∀ rt' a, m rt = Done (rt', Ok a) → Q rt'.

Lemma both_bind {A B} R `{!PreOrder R} (m : M A) (f : A → M B) rt Q :
  ok_at R m rt →
  (∀ a rt', m rt = Done (rt', Ok a) → rt_wf rt' → R rt rt' → ok_at R (f a) rt' ∧ gives (f a) rt' Q) →
  ok_at R (m ≫= f) rt ∧ gives (m ≫= f) rt Q.
Proof.
  intros Hm Hf. split; [apply ok_bind; [done|done|]; intros; by apply Hf|].
  revert Hm Hf. unfold ok_at, gives, mbind, M_bind. intros Hm Hf rt' b.
  destruct (m rt) as [[rt1 [a|e]]|]; [|done..]. destruct Hm as [Hwf HR]. by eapply Hf.
Qed.

Lemma both_later {A} R (m : M A) rt (Q : CoreRuntime → Prop) :
  ok_at R m rt → (∀ rt', R rt rt' → Q rt') → ok_at R m rt ∧ gives m rt Q.
Proof.
  intros Hm HQ. split; [done|]. intros rt' a Heq. unfold ok_at in Hm. rewrite Heq in Hm. by apply HQ, Hm.
Qed.

(** Every child of the loop is stopped in the end. *)
Lemma cancel_children (body : TaskAwait → M ()) awaits : ∀ rt,
  rt_wf rt →
  (∀ a rt', a ∈ awaits → rt_wf rt' → settling rt rt' →
     ok_at settling (body a) rt' ∧ gives (body a) rt' (λ rt2, stopped (cr_tasks rt2) (await_child a))) →
  ok_at settling (for_each awaits body) rt
  ∧ gives (for_each awaits body) rt (λ rt', ∀ a, a ∈ awaits → stopped (cr_tasks rt') (await_child a)).
Proof.
  induction awaits as [|a awaits IH]; intros rt Hwf Hbody; cbn [for_each].
  { split; [by apply holds_ret; [apply _|]|]. intros rt' [] [= <-] b Hb. by apply not_elem_of_nil in Hb. }
  destruct (Hbody a rt) as [Hok Hst]; [left|done|done|].
  assert (∀ rt1, rt_wf rt1 → settling rt rt1 →
    ok_at settling (for_each awaits body) rt1
    ∧ gives (for_each awaits body) rt1 (λ rt', ∀ b, b ∈ awaits → stopped (cr_tasks rt') (await_child b))) as Hrest.
  { intros rt1 Hwf1 Hs1. apply IH; [done|]. intros b rt' Hb Hwf' Hs'. apply Hbody; [by right|done|by etrans]. }
  apply both_bind; [apply _|done|]. intros [] rt1 Hrun Hwf1 Hs1. specialize (Hst rt1 tt Hrun).
  destruct (Hrest rt1 Hwf1 Hs1) as [Hok1 Hst1]. split; [done|]. intros rt' [] Hrun1.
  specialize (Hst1 rt' tt Hrun1). unfold ok_at in Hok1. rewrite Hrun1 in Hok1.
  intros b [-> | Hb]%elem_of_cons; [|by apply Hst1]. by apply (s_stopped _ _ (proj2 Hok1)).
Qed.

Lemma awaits_parent p x a :
  pool_wf p → a ∈ awaits_for_parent p x →
  ∃ r, tp_tasks p !! x = Some r ∧ rec_status r ≠ Running ∧ is_terminal_status (rec_status r) = false.
Proof.
  intros Hwf Ha. unfold awaits_for_parent in Ha.
  destruct (tp_waits_by_parent p !! x) as [l|] eqn:Hl; [|by apply not_elem_of_nil in Ha].
  destruct (wf_wait_parent _ _ _ _ _ Hwf x) as (r & Hr & [Hst|[]%not_elem_of_empty]); [eauto|].
  exists r. by rewrite Hst.
Qed.

Lemma request_cancel_ok x step rt :
  rt_wf rt → ok_at settling (tasks_do (λ p, request_cancel_by_core p x step None)) rt.
Proof.
  intros Hwf. destruct (request_cancel_safe (cr_tasks rt) x step None (rt_tasks _ Hwf)) as (p' & res & Heq & Hg).
  eapply tasks_do_settling; [done|exact Heq|done| | |].
  - eapply request_cancel_pend_ok; [apply Hwf|apply Hwf|done].
  - by eapply request_starts_none; [apply Hwf|].
  - by eapply request_cancel_effect; [apply Hwf|apply Hwf|].
Qed.

Lemma not_open_stopped p x : x ∉ open_tasks (tp_tasks p) → stopped p x.
Proof.
  intros Hx r Hr. left. destruct (is_terminal_status (rec_status r)) eqn:Ht; [done|].
  destruct Hx. apply elem_of_open. eauto.
Qed.

Lemma is_open_false rt x : is_open (task_status rt x) = false → stopped (cr_tasks rt) x.
Proof.
  unfold task_status, pool_get. intros Ho r Hr. rewrite Hr in Ho. simpl in Ho. left. by destruct (rec_status r).
Qed.

Lemma request_cancel_stops x step rt rt' finalized :
  rt_wf rt → tasks_do (λ p, request_cancel_by_core p x step None) rt = Done (rt', Ok finalized) →
  stopped (cr_tasks rt') x
  ∧ ∀ a, a ∈ awaits_for_parent (cr_tasks rt) x →
      (size (open_tasks (tp_tasks (cr_tasks rt'))) < size (open_tasks (tp_tasks (cr_tasks rt))))%nat.
Proof.
  intros Hwf. unfold tasks_do.
  destruct (request_cancel_safe (cr_tasks rt) x step None (rt_tasks _ Hwf)) as (p' & res & Heq & Hwf' & Hs).
  rewrite Heq. intros [= <- ->]. simpl.
  destruct (request_cancel_effect _ _ _ _ _ (rt_tasks _ Hwf) (rt_pending _ Hwf) Heq) as (_ & Hx & Hdone).
  split; [by apply Hx|]. intros a Ha. destruct (awaits_parent _ _ _ (rt_tasks _ Hwf) Ha) as (r & Hr & Hnr & Ht).
  destruct (Hdone r Hr Hnr Ht) as [_ Hout]. apply subset_size. split; [apply open_tasks_step, Hs|].
  intros Hsub. apply Hout, Hsub, elem_of_open. eauto.
Qed.

Lemma open_size tasks : (size (open_tasks tasks) ≤ size tasks)%nat.
Proof. rewrite <- size_dom. apply subseteq_size, dom_filter_subseteq. Qed.

Lemma cancel_cascade_ok fuel : ∀ x rt,
  rt_wf rt → (size (open_tasks (tp_tasks (cr_tasks rt))) < fuel)%nat →
  ok_at settling (cancel_cascade fuel x) rt
  ∧ gives (cancel_cascade fuel x) rt (λ rt',
      stopped (cr_tasks rt') x
      ∧ ∀ a, a ∈ awaits_for_parent (cr_tasks rt) x → stopped (cr_tasks rt') (await_child a)).
Proof.
  induction fuel as [|fuel IH]; intros x rt Hwf Hfuel; [lia|]. cbn [cancel_cascade].
  apply both_bind; [apply _|by apply holds_ask; [apply _|]|]. intros awaits rt0 [= <- <-] _ _.
  destruct (existsb _ _); [split; [by apply holds_throw; [apply _|]|by intros ? ?]|].
  apply both_bind; [apply _|by apply holds_ask; [apply _|]|]. intros step rt0 [= <- <-] _ _.
  apply both_bind; [apply _|by apply request_cancel_ok|]. intros finalized rt1 Hrun Hwf1 Hs1.
  destruct (request_cancel_stops _ _ _ _ _ Hwf Hrun) as (Hx & Hsmall).
  apply both_bind; [apply _|destruct finalized; [by apply event_settling|by apply holds_ret; [apply _|]]|].
  intros [] rt2 _ Hwf2 Hs2.
  destruct (cancel_children (λ task_await,
      let child := th_task_id (ta_child task_await) in
      status ← ask (λ rt, task_status rt child);
      if is_open status then cancel_cascade fuel child else mret tt)
      (awaits_for_parent (cr_tasks rt) x) rt2 Hwf2) as [Hloop Hkids].
  { intros a rt3 Ha Hwf3 Hs3. apply both_bind; [apply _|by apply holds_ask; [apply _|]|].
    intros status rt0 [= <- <-] _ _.
    destruct (is_open (task_status rt3 _)) eqn:Ho.
    - destruct (IH (th_task_id (ta_child a)) rt3 Hwf3) as [H1 H2]; [|split; [done|]].
      + pose proof (Hsmall a Ha). destruct Hs2 as [Ho2 _ _ _ _], Hs3 as [Ho3 _ _ _ _].
        apply subseteq_size in Ho2, Ho3. lia.
      + intros rt4 [] Hr. exact (proj1 (H2 rt4 tt Hr)).
    - apply both_later; [by apply holds_ret; [apply _|]|].
      intros rt4 Hs4. apply (s_stopped _ _ Hs4). by apply is_open_false. }
  pose proof Hloop as Hloop'. apply both_bind; [apply _|done|]. intros [] rt3 Hrun3 Hwf3 Hs3.
  specialize (Hkids rt3 tt Hrun3). apply both_later.
  - destruct finalized; [|by apply holds_ret; [apply _|]].
    refine ((_ : holds settling _) rt3 Hwf3). rt_step; [apply wake_waiting_settling|rt_step].
  - intros rt4 Hs4. split; [by apply (s_stopped _ _ Hs4), (s_stopped _ _ Hs3), (s_stopped _ _ Hs2)|].
    intros a Ha. by apply (s_stopped _ _ Hs4), Hkids.
Qed.

Lemma cancel_by_id_ok x rt :
  rt_wf rt → ok_at settling (cancel_task_by_id x) rt.
Proof.
  intros Hwf. unfold ok_at, cancel_task_by_id. apply (cancel_cascade_ok _ x rt Hwf).
  apply Nat.lt_succ_r, open_size.
Qed.

End cancel.
