(* ===== verification/RuntimeOps.v ===== *)
(** * RuntimeOps: every operation of the runtime keeps the invariant

    The kernel's tasks, claiming, ticking, deferring, the lifecycle, the resource calls
    and the reload paths, one lemma each, and the type of operations with the runtimes
    they reach. *)
From S2P Require Import Prelude Floats Contracts StateStore Resources Logs ResourceManager.
From S2P Require Import TaskIndexes TaskPool TaskClaiming TaskPoolInv TaskHistory TaskStates.
From S2P Require Import TaskPoolSafety TaskPoolSweep TaskCandidates TaskSelection TaskLeasing TaskPoolOps.
From S2P Require Import TaskPoolCalm ResourceInv Plugins Batches.
From S2P Require Import WorkBatches BatchTheorems Registry PlanChecks RegistryTheorems Runtime.
From S2P Require Import ResultRouting RunnerLoop Reload RuntimeInv RuntimeCancel.

Section ops.
Context {serde : Serde} {dec : Decode} {runners : RunnerTrait}.
Implicit Types (rt : CoreRuntime).

(** ** Weaker relations *)

Lemma holds_quiet {A} (m : M A) : holds routed m → holds quiet_rt m.
Proof. intros Hm rt Hwf. by apply routed_quiet, Hm. Qed.
Lemma holds_steady {A} (m : M A) : holds quiet_rt m → holds steady m.
Proof. intros Hm rt Hwf. by apply quiet_steady, Hm. Qed.

(** A scheduling pass. *)
#[local] Abbreviation schedules oversized := (holds (panics := scheduling_panics oversized) forward).

Lemma ok_scheduling {A} oversized R (m : M A) rt :
  ok_at R m rt → ok_at (panics := scheduling_panics oversized) R m rt.
Proof. unfold ok_at. destruct (m rt) as [[rt' res]|]; [done|]. by left. Qed.

Lemma holds_forward {A} oversized (m : M A) : holds steady m → schedules oversized m.
Proof. intros Hm rt Hwf. by apply steady_forward, ok_scheduling, Hm. Qed.

#[local] Hint Extern 2 (holds quiet_rt _) => apply holds_quiet; solve [eauto with runtime] : runtime.
#[local] Hint Extern 3 (holds steady _) => apply holds_steady; solve [eauto with runtime] : runtime.
#[local] Hint Extern 4 (schedules _ _) => apply holds_forward; solve [eauto with runtime] : runtime.

(** ** The kernel *)

Lemma decoded_quiet {A} code source (downcast : Any → option A) deserialize payload :
  holds quiet_rt (decoded code source (decode downcast deserialize payload)).
Proof.
  unfold decoded. rt_step; [|rt_walk]. intros rt Hwf. unfold ok_at, run_outcome, decode.
  destruct payload as [v|body]; cbn [as_value]; [by split|].
  destruct (downcast (lp_body body)); [by split|]. cbn [as_value].
  destruct ((try_materialize_json body).1); cbn [mbind outcome_bind]; [by split|]. by right.
Qed.
#[local] Hint Resolve decoded_quiet : runtime.

Lemma states_do_quiet {A} (f : StateStore → StateStore * RuntimeResult A) : holds quiet_rt (states_do f).
Proof.
  intros rt Hwf. unfold ok_at, states_do. destruct (f _) as [s res].
  split; [by eapply rt_wf_same|]. by split.
Qed.
#[local] Hint Resolve states_do_quiet : runtime.

Lemma kernel_task_quiet task : holds quiet_rt (dispatch_kernel_task task).
Proof. unfold dispatch_kernel_task, commit_state_delta, append_domain_event, rollback_state. rt_walk. Qed.
#[local] Hint Resolve kernel_task_quiet : runtime.

Lemma kernel_tasks_quiet tasks : holds quiet_rt (process_kernel_tasks tasks).
Proof. unfold process_kernel_tasks, fail_kernel_task. rt_walk. Qed.
#[local] Hint Resolve kernel_tasks_quiet : runtime.

(** ** Steps *)

(** An assignment that leaves the pool, the registries, the resources and the stop state
    alone. *)
Lemma modify_steady f :
  (∀ rt, cr_tasks (f rt) = cr_tasks rt ∧ cr_registry (f rt) = cr_registry rt ∧
     cr_draining_generations (f rt) = cr_draining_generations rt ∧ cr_resources (f rt) = cr_resources rt ∧
     cr_stop_state (f rt) = cr_stop_state rt) →
  holds steady (modify f).
Proof.
  intros Hf rt Hwf. destruct (Hf rt) as (Ht&?&?&?&Hs). split; [by eapply rt_wf_same|].
  by apply steady_same.
Qed.
#[local] Hint Extern 1 (holds steady (modify _)) => apply modify_steady; by intros : runtime.

Lemma resources_do_steady {A} (f : ResourceManager → ResourceManager * RuntimeResult A) :
  (∀ m, rm_wf m → rm_wf (f m).1) → holds steady (resources_do f).
Proof.
  intros Hf rt Hwf. unfold ok_at, resources_do, resources_run.
  pose proof (Hf _ (rt_resources _ Hwf)) as Hm. destruct (f (cr_resources rt)) as [m res].
  split; [destruct Hwf; by split|by apply steady_same].
Qed.

Lemma reclaim_leases_steady : holds steady reclaim_expired_leases.
Proof.
  unfold reclaim_expired_leases, reclaim_task_leases, reclaim_resource_leases.
  assert (∀ step, holds steady (resources_do (λ m,
    let '(m, l) := reclaim_expired_resource_leases m step in (m, Ok l)))) as Hr.
  { intros step. apply resources_do_steady. intros m Hm. pose proof (reclaim_wf m step Hm).
    by destruct (reclaim_expired_resource_leases m step). }
  rt_walk.
Qed.
#[local] Hint Resolve reclaim_leases_steady : runtime.

Lemma begin_step_steady target : holds steady (begin_step target).
Proof. unfold begin_step. rt_walk. Qed.
#[local] Hint Resolve begin_step_steady : runtime.

Lemma load_of_routed descriptor : holds routed (load_of descriptor).
Proof.
  intros rt Hwf. unfold ok_at, load_of.
  match goal with |- context [runner_load ?p ?d ?s ?g] =>
    pose proof (runner_load_cached p d s g (rt_tasks _ Hwf)) as Hc; destruct (runner_load p d s g) as [load p'] end.
  simpl in Hc. pose proof (cached_calm _ _ Hc) as Hcalm. split; [|by apply routed_set_tasks].
  apply rt_wf_set_tasks; [done|by eapply wf_cached; [apply Hwf|]|by eapply calm_pend_ok; [|apply Hwf]].
Qed.
#[local] Hint Resolve load_of_routed : runtime.

(** ** Claiming *)

Lemma decision_steady descriptor decision : holds steady (record_scheduler_decision descriptor decision).
Proof. unfold record_scheduler_decision. rt_walk. Qed.
#[local] Hint Resolve decision_steady : runtime.

Lemma take_target_steady runner_id : holds steady (take_target runner_id).
Proof.
  intros rt Hwf. unfold ok_at, take_target. destruct (async_handler _ _); [by split|].
  pose proof (take_runner_wf runner_id _ (rt_registry _ Hwf)) as Hr.
  destruct (take_runner _ _) as [r [runner|]]; (split; [destruct Hwf; by split|by apply steady_same]).
Qed.
#[local] Hint Resolve take_target_steady : runtime.

Lemma build_dispatch_steady descriptor executor_id leased :
  holds steady (build_runner_dispatch descriptor executor_id leased).
Proof. unfold build_runner_dispatch. rt_walk. Qed.
#[local] Hint Resolve build_dispatch_steady : runtime.

Lemma defer_all_routed leased : holds routed (defer_all leased).
Proof. unfold defer_all. rt_walk. Qed.
#[local] Hint Resolve defer_all_routed : runtime.

Lemma claim_forward oversized descriptor executor_id step gen limit budget expires :
  NoDup (rd_accepted_protocol_ids descriptor) → expiry_width expires →
  (selection_fits limit budget = false → oversized) →
  schedules oversized (tasks_run (λ p,
    claim_ready_for_executor_with_budget p descriptor executor_id step gen limit budget expires)).
Proof.
  intros Hnd Hw Hbig rt Hwf. unfold ok_at, tasks_run, tasks_do. destruct (selection_fits limit budget) eqn:Hfits.
  - destruct (claim_spec descriptor executor_id step gen expires (cr_tasks rt)
      limit budget (rt_tasks _ Hwf) Hnd Hw Hfits) as (p' & ids & Heq & _ & Hwf' & _).
    rewrite Heq. cbn [mbind outcome_bind]. split; [|by apply forward_same].
    apply rt_wf_set_tasks; [done|done|]. by eapply claim_pend_ok; [apply Hwf|apply Hwf|..].
  - rewrite (claim_overflow descriptor executor_id step gen expires (cr_tasks rt) limit budget (rt_tasks _ Hwf) Hnd Hfits).
    cbn [mbind outcome_bind]. right. auto.
Qed.

Lemma split_nonnil l : l ≠ [] → split_leased_tasks_by_resource_conflict l ≠ [].
Proof. intros Hl Hs. destruct (split_ok_all l) as [Hc _ _ _]. by rewrite Hs in Hc. Qed.

(** The decision asks for more tasks than a buffer can hold. *)
Definition oversized_decision (decision : ScheduleDecision) : Prop :=
  (isize_max < SIZE_OF_TASK_ID * sch_dispatch_limit decision)%N.

Lemma clamped_fits n m decision :
  let clamped := decision_clamp_batches m (decision_clamp_to n decision) in
  selection_fits (sch_dispatch_limit clamped) (Some (sch_budget clamped)) = false → oversized_decision decision.
Proof.
  cbv zeta. unfold selection_fits, oversized_decision, selection_limit.
  rewrite !orb_false_iff, (bool_decide_eq_false (_ ≤ _)%N). intros [_ Hle].
  enough (sch_dispatch_limit (decision_clamp_batches m (decision_clamp_to n decision))
    ≤ sch_dispatch_limit decision)%N by (unfold SIZE_OF_TASK_ID in *; lia).
  unfold decision_clamp_batches, decision_clamp_to. cbn [sch_dispatch_limit]. case_decide; lia.
Qed.

Lemma claim_work_forward oversized descriptor decision expires :
  NoDup (rd_accepted_protocol_ids descriptor) → expiry_width expires →
  (oversized_decision decision → oversized) →
  schedules oversized (claim_runner_work descriptor decision expires).
Proof.
  intros Hnd Hw Hbig. unfold claim_runner_work. rt_step; [rt_walk|]. cbv zeta. rt_step; [rt_walk|].
  rt_step; [rt_walk|]. rt_step; [rt_walk|]. rt_step; [rt_walk|].
  rt_step; [apply claim_forward; [done|done|]; intros ?%clamped_fits; auto|].
  destruct (is_empty _) eqn:He; [rt_walk|]. rt_step; [rt_walk|].
  destruct (split_leased_tasks_by_resource_conflict _) as [|group groups] eqn:Hs; [|rt_walk].
  apply split_nonnil in Hs; [done|]. by intros ->.
Qed.

(** ** Ticks *)

Lemma wrap_add_width a b : expiry_width (Some (wrap_add a b)).
Proof.
  intros e [= <-]. unfold wrap_add, u64_max.
  pose proof (N.mod_lt (a + b) u64_modulus ltac:(done)). unfold u64_modulus in *. lia.
Qed.

Lemma tick_runner_forward descriptor :
  NoDup (rd_accepted_protocol_ids descriptor) → schedules True (tick_runner descriptor).
Proof.
  intros Hnd. unfold tick_runner. rt_step; [rt_walk|]. rt_step; [rt_walk|]. cbv zeta. rt_step; [rt_walk|].
  rt_step; [apply claim_work_forward; [done|apply wrap_add_width|done]|]. rt_walk.
Qed.

Lemma registry_descriptors_ok rt d :
  rt_wf rt → d ∈ registry_descriptors (cr_registry rt) → NoDup (rd_accepted_protocol_ids d).
Proof. intros Hwf Hd. by eapply reg_wf_snapshot; [apply Hwf|]. Qed.

Lemma tick_runners_forward descriptors : ∀ report,
  Forall (λ d, NoDup (rd_accepted_protocol_ids d)) descriptors →
  schedules True (tick_runners descriptors report).
Proof.
  induction descriptors as [|d ds IH]; intros report Hds; simpl; [rt_step|].
  apply Forall_cons in Hds as [Hd Hds]. rt_step; [by apply tick_runner_forward|by apply IH].
Qed.

(** A computation that goes through the descriptors of the registry. *)
Lemma over_descriptors {A} oversized (f : list RunnerDescriptor → M A) :
  (∀ ds, Forall (λ d, NoDup (rd_accepted_protocol_ids d)) ds → schedules oversized (f ds)) →
  schedules oversized (ds ← ask (λ rt, registry_descriptors (cr_registry rt)); f ds).
Proof.
  intros Hf rt Hwf. apply ok_bind; [apply _|by apply holds_ask; [apply _|]|].
  intros ds rt' [= <- <-] _ _. apply Hf; [|done]. apply Forall_forall. intros d Hd.
  by eapply registry_descriptors_ok.
Qed.

Lemma tick_once_forward : schedules True tick_once.
Proof.
  unfold tick_once. rt_step; [rt_walk|]. rt_step; [rt_walk|]. rt_step; [rt_walk|].
  apply over_descriptors. intros ds Hds. by apply tick_runners_forward.
Qed.
#[local] Hint Resolve tick_once_forward : runtime.

Lemma run_until_idle_forward max_ticks : ∀ report, schedules True (run_until_idle max_ticks report).
Proof. induction max_ticks as [|n IH]; intros report; simpl; rt_walk. Qed.

(** What the schedule callback may answer; [s] is its state. *)
Definition oversized_schedule {S}
    (f : S → RunnerDescriptor → RunnerLoad → N → N → S * RuntimeResult ScheduleDecision) : Prop :=
  ∃ s descriptor load step generation decision,
    (f s descriptor load step generation).2 = Ok decision ∧ oversized_decision decision.

Lemma claim_runners_forward {S} (f : S → RunnerDescriptor → RunnerLoad → N → N → S * RuntimeResult ScheduleDecision)
    expires descriptors : ∀ s report dispatches,
  expiry_width expires → Forall (λ d, NoDup (rd_accepted_protocol_ids d)) descriptors →
  schedules (oversized_schedule f) (claim_runners f descriptors expires s report dispatches).
Proof.
  induction descriptors as [|d ds IH]; intros s report dispatches Hw Hds; simpl; [rt_step|].
  apply Forall_cons in Hds as [Hd Hds]. rt_step; [by apply IH|]. rt_step; [rt_walk|]. rt_step; [rt_walk|].
  rt_step. match goal with |- context [f ?s ?d ?l ?n ?g] => destruct (f s d l n g) as [s' decided] eqn:Hf end.
  intros rt Hwf. apply ok_bind; [apply _|by apply holds_check; [apply _|]|].
  intros decision rt' [= <- ->] _ _. revert rt Hwf.
  refine (_ : schedules _ _). rt_step; [apply claim_work_forward; [done|done|]|].
  { intros Hbig. unfold oversized_schedule. do 6 eexists. split; [|exact Hbig]. by rewrite Hf. }
  rt_step. by apply IH.
Qed.

Lemma claim_at_step_forward {S} (f : S → RunnerDescriptor → RunnerLoad → N → N → S * RuntimeResult ScheduleDecision)
    target s expires :
  expiry_width expires → schedules (oversized_schedule f) (claim_ready_dispatches_at_step f target s expires).
Proof.
  intros Hw. unfold claim_ready_dispatches_at_step. do 2 (rt_step; [rt_walk|]). rt_step; [rt_walk|].
  rt_step; [rt_walk|]. apply over_descriptors. intros ds Hds. by apply claim_runners_forward.
Qed.

Lemma claim_ready_forward {S} (f : S → RunnerDescriptor → RunnerLoad → N → N → S * RuntimeResult ScheduleDecision)
    s expires :
  expiry_width expires → schedules (oversized_schedule f) (claim_ready_dispatches f s expires).
Proof. intros Hw. unfold claim_ready_dispatches. rt_step; [rt_walk|]. by apply claim_at_step_forward. Qed.

Lemma defer_dispatch_routed dispatch : holds routed (defer_runner_dispatch dispatch).
Proof. unfold defer_runner_dispatch. rt_walk. Qed.

(** ** Lifecycle *)

Lemma modify_wf f :
  (∀ rt, rt_wf rt → rt_wf (f rt)) → (∀ rt, rt_wf rt → steady rt (f rt)) → holds steady (modify f).
Proof. intros Hf Hs rt Hwf. split; [by apply Hf|by apply Hs]. Qed.

Lemma set_stop_steady state rt :
  rt_wf rt → (stop_rank (cr_stop_state rt) ≤ stop_rank state)%nat →
  ok_at steady (modify (set_cr_stop_state state)) rt.
Proof. intros Hwf Hr. split; [by eapply rt_wf_same|]. split; [exact Hr|by intros y r']. Qed.

Lemma begin_drain_steady : holds steady begin_drain.
Proof.
  intros rt Hwf. unfold begin_drain. apply ok_bind; [apply _|by apply holds_ask; [apply _|]|].
  intros state rt0 [= <- <-] _ _. destruct (cr_stop_state rt) eqn:Hs.
  - apply ok_bind; [apply _|apply set_stop_steady; [done|rewrite Hs; simpl; lia]|].
    intros [] rt1 _ Hwf1 _. refine ((_ : holds steady _) rt1 Hwf1). rt_walk.
  - by apply holds_ret; [apply _|].
  - by apply holds_throw; [apply _|].
Qed.

Lemma abort_all_steady step failure : holds steady (tasks_run (λ p, abort_all p step failure)).
Proof.
  intros rt Hwf.
  destruct (abort_all_spec (cr_tasks rt) step failure (rt_tasks _ Hwf)) as (p' & Heq & Hwf' & Hsub & _).
  unfold ok_at, tasks_run, tasks_do. rewrite Heq. cbn [mbind outcome_bind]. split.
  - apply rt_wf_set_tasks; [done|done|]. by eapply abort_pend_ok; [apply Hwf|apply Hwf|].
  - split; [by apply forward_same|]. intros y r' Hr' Hrun. simpl in Hr'.
    pose proof (lookup_weaken _ _ _ _ Hr' Hsub) as (r & <- & Hr)%lookup_fmap_Some.
    unfold abort_one in *. case_decide; [done|]. exact Hr.
Qed.

Lemma abort_steady reason : holds steady (abort reason).
Proof.
  intros rt Hwf. unfold abort. apply ok_bind; [apply _|by apply holds_ask; [apply _|]|].
  intros state rt0 [= <- <-] _ _. case_decide; [by apply holds_ret; [apply _|]|].
  apply ok_bind; [apply _|apply set_stop_steady; [done|destruct (cr_stop_state rt); simpl; lia]|].
  intros [] rt1 _ Hwf1 _. refine ((_ : holds steady _) rt1 Hwf1). cbv zeta. rt_step; [rt_walk|].
  rt_step; [apply abort_all_steady|rt_walk].
Qed.

Lemma configure_retention_routed retention : holds routed (configure_task_history_retention retention).
Proof.
  apply tasks_run_holds. intros p Hp. destruct (configure_quiet p retention Hp) as (p' & -> & Hg & Hc).
  by exists p', tt.
Qed.

Lemma configure_steady capacity profile :
  holds steady (configure_event_capacity capacity) ∧ holds steady (configure_observability profile).
Proof. unfold configure_event_capacity, configure_observability. split; rt_walk. Qed.

(** ** Registries *)

Lemma registry_do_steady {A} (f : RunnerRegistry → RunnerRegistry * RuntimeResult A) :
  (∀ r, reg_wf r → reg_wf (f r).1) → holds steady (registry_do f).
Proof.
  intros Hf rt Hwf. unfold ok_at, registry_do. pose proof (Hf _ (rt_registry _ Hwf)) as Hr.
  destruct (f _) as [r res]. split; [destruct Hwf; by split|by apply steady_same].
Qed.
#[local] Hint Extern 1 (holds steady (registry_do (cancel_runner _ _))) =>
  apply registry_do_steady; intros; by apply cancel_runner_wf : runtime.
#[local] Hint Extern 1 (holds steady (registry_do dispose_all)) =>
  apply registry_do_steady; intros; by apply dispose_all_wf : runtime.

Lemma cancel_invocation_steady runner_id invocation_id : holds steady (cancel_invocation runner_id invocation_id).
Proof. unfold cancel_invocation. rt_walk. Qed.

Lemma settle_invocations_steady dispositions : holds steady (settle_invocations dispositions).
Proof. unfold settle_invocations. rt_walk. Qed.
#[local] Hint Resolve settle_invocations_steady : runtime.

Lemma dispose_plugins_steady : holds steady dispose_plugins.
Proof. unfold dispose_plugins, mark_generation_phase. rt_walk. Qed.

Lemma register_all_wf l : ∀ r r', reg_wf r → register_all l r = Ok r' → reg_wf r'.
Proof.
  induction l as [|x l IH]; intros r r' Hr; simpl; [by intros [= <-]|].
  pose proof (RegistryTheorems.register_reg_wf x r Hr). destruct (register x r) as [r1 [[]|]]; [|done]. by apply IH.
Qed.
Lemma register_handlers_wf l : ∀ r r', reg_wf r → register_all_handlers l r = Ok r' → reg_wf r'.
Proof.
  induction l as [|x l IH]; intros r r' Hr; simpl; [by intros [= <-]|].
  pose proof (register_async_wf x r Hr). destruct (register_async_handler x r) as [r1 [[]|]]; [|done]. by apply IH.
Qed.

Lemma build_registry_wf generation l handlers r : build_registry generation l handlers = Ok r → reg_wf r.
Proof.
  unfold build_registry. destruct (register_all _ _) as [r1|] eqn:H1; [|done].
  apply register_all_wf in H1; [|apply reg_wf_default].
  destruct (register_all_handlers _ _) as [r2|] eqn:H2; [|done]. apply register_handlers_wf in H2; [|done].
  destruct (validate_instance_counts r2); [|done]. intros [= <-]. by apply freeze_wf.
Qed.

Lemma candidate_runners_wf affected l : ∀ r r', reg_wf r → candidate_runners affected l r = Ok r' → reg_wf r'.
Proof.
  induction l as [|x l IH]; intros r r' Hr; simpl; [by intros [= <-]|]. case_decide.
  - pose proof (RegistryTheorems.register_reg_wf x r Hr). destruct (register x r) as [r1 [[]|]]; [|done]. by apply IH.
  - destruct ((runner_dispose x).2); [by apply IH|done].
Qed.
Lemma candidate_handlers_wf affected l : ∀ r r', reg_wf r → candidate_handlers affected l r = Ok r' → reg_wf r'.
Proof.
  induction l as [|x l IH]; intros r r' Hr; simpl; [by intros [= <-]|]. case_decide.
  - pose proof (register_async_wf x r Hr). destruct (register_async_handler x r) as [r1 [[]|]]; [|done]. by apply IH.
  - destruct (handler_dispose x) as [[|]|]; [by apply IH|done|by apply IH].
Qed.

Lemma candidate_wf affected l handlers r : candidate_registry affected l handlers = Ok r → reg_wf r.
Proof.
  unfold candidate_registry. destruct (candidate_runners _ _ _) as [r1|] eqn:H1; [|done].
  apply candidate_runners_wf in H1; [|apply reg_wf_default].
  destruct (candidate_handlers _ _ _) as [r2|] eqn:H2; [|done]. apply candidate_handlers_wf in H2; [|done].
  destruct (validate_instance_counts r2); [|done]. by intros [= <-].
Qed.

(** ** Reloads *)

Lemma with_checked {A B} (res : RuntimeResult A) (f : A → M B) :
  (∀ a, res = Ok a → holds steady (f a)) → holds steady (a ← check (λ _, res); f a).
Proof.
  intros Hf rt Hwf. apply ok_bind; [apply _|by apply holds_check; [apply _|]|].
  intros a rt' [= <- Ha] _ _. by apply Hf.
Qed.

Lemma with_taken_registry {A} (f : RunnerRegistry → M A) :
  (∀ r, reg_wf r → holds steady (f r)) → holds steady (r ← take_registry; f r).
Proof.
  intros Hf rt Hwf. unfold take_registry.
  assert (rt_wf (set_cr_registry RunnerRegistry_default rt)) as Hwf1
    by (destruct Hwf; split; solve [done|apply reg_wf_default]).
  pose proof (Hf _ (rt_registry _ Hwf) _ Hwf1) as Hok. revert Hok.
  unfold ok_at, mbind, M_bind, ask, modify, mret, M_ret.
  destruct (f _ _) as [[rt' res]|]; [|done]. by intros [? [? ?]].
Qed.

Lemma push_draining_steady d : reg_wf (dg_registry d) → holds steady (push_draining d).
Proof.
  intros Hd. apply modify_wf; [|intros; by apply steady_same]. intros rt []. split; try done. simpl.
  apply Forall_app. split; [done|]. by apply Forall_singleton.
Qed.

Lemma set_registry_steady r : reg_wf r → holds steady (modify (set_cr_registry r)).
Proof. intros Hr. apply modify_wf; [|intros; by apply steady_same]. intros rt []. by split. Qed.

Lemma apply_plan_steady plan : holds steady (apply_load_plan plan).
Proof.
  unfold apply_load_plan. rt_step; [|rt_walk]. intros rt Hwf. unfold ok_at, modify.
  match goal with |- context [rebind_ready_generation ?p ?g ?g'] =>
    destruct (rebind_quiet p g g' (rt_tasks _ Hwf)) as (p' & n & Heq & [Hp _] & Hc);
    destruct (rebind_ready_generation p g g') as [p1 n1] end. simplify_eq/=. split.
  - apply rt_wf_set_tasks; [done|done|by eapply calm_pend_ok; [|apply Hwf]].
  - split; [by apply forward_same|exact (calm_running _ _ Hc)].
Qed.
#[local] Hint Resolve apply_plan_steady : runtime.

Lemma settle_loop_wf p draining : ∀ remaining disposed marks remaining' disposed' marks',
  Forall (λ d, reg_wf (dg_registry d)) draining → Forall (λ d, reg_wf (dg_registry d)) remaining →
  settle_loop p draining remaining disposed marks = Ok (remaining', disposed', marks') →
  Forall (λ d, reg_wf (dg_registry d)) remaining'.
Proof.
  induction draining as [|d ds IH]; intros remaining disposed marks remaining' disposed' marks' Hd Hr; simpl;
    [by intros [= <- _ _]|].
  apply Forall_cons in Hd as [Hd Hds]. destruct (still_running p d).
  - apply IH; [done|]. apply Forall_app. split; [done|]. by apply Forall_singleton.
  - destruct ((dispose_all (dg_registry d)).2); [by apply IH|done].
Qed.

Lemma settle_draining_steady : holds steady settle_draining_generations.
Proof.
  intros rt Hwf. unfold settle_draining_generations.
  apply ok_bind; [apply _|by apply holds_ask; [apply _|]|]. intros draining rt0 [= <- <-] _ _.
  apply ok_bind; [apply _|apply modify_wf; [by intros ? []; split|intros; by apply steady_same|done]|].
  intros [] rt1 [= <-] Hwf1 _.
  apply ok_bind; [apply _|by apply holds_ask; [apply _|]|]. intros settled rt0 [= <- <-] _ _. simpl.
  destruct (settle_loop _ _ _ _ _) as [[[remaining disposed] marks]|] eqn:Hs; [|by apply holds_throw; [apply _|]].
  apply settle_loop_wf in Hs; [|apply Hwf|constructor]. revert Hwf1.
  generalize (set_cr_draining_generations [] rt). unfold mark_generation_phase_for_plugins.
  refine (_ : holds steady _). rt_step; [apply modify_wf; [intros ? []; by split|intros; by apply steady_same]|rt_walk].
Qed.
#[local] Hint Resolve settle_draining_steady : runtime.

Lemma reload_plan_steady plan : holds steady (reload_load_plan_only plan).
Proof. unfold reload_load_plan_only. rt_walk. Qed.

Lemma reload_steady plan l handlers : holds steady (reload_with_async_handlers plan l handlers).
Proof.
  unfold reload_with_async_handlers, add_shadow_states. cbv zeta. do 2 (rt_step; [rt_walk|]).
  apply with_checked. intros registry Hr%build_registry_wf. do 5 (rt_step; [rt_walk|]).
  apply with_taken_registry. intros old Hold. rt_step.
  { rt_step; [rt_step; [rt_walk|by apply push_draining_steady]|]. unfold mark_generation_phase. rt_walk. }
  unfold record_swap. do 2 (rt_step; [rt_walk|]). rt_step; [by apply set_registry_steady|].
  unfold set_active_generation_states. rt_walk.
Qed.

Lemma reload_targeted_steady plan l handlers affected :
  holds steady (reload_targeted_with_async_handlers plan l handlers affected).
Proof.
  unfold reload_targeted_with_async_handlers, add_shadow_states. cbv zeta.
  rt_step; [apply reload_plan_steady|]. rt_step; [rt_walk|].
  apply with_checked. intros candidate Hcand%candidate_wf. do 6 (rt_step; [rt_walk|]).
  apply with_taken_registry. intros old Hold.
  pose proof (partition_wf affected old Hold) as [Hretained Hretired].
  destruct (partition_by_plugins affected old) as [retained retired]. simpl in Hretained, Hretired.
  rt_step; [rt_walk|]. rt_step.
  { rt_step; [apply push_draining_steady, freeze_wf, Hretired|].
    unfold mark_generation_phase_for_plugins. rt_walk. }
  unfold record_swap. do 2 (rt_step; [rt_walk|]).
  rt_step; [by apply set_registry_steady, freeze_wf, absorb_wf|].
  unfold set_active_generation_states_for_plugins. rt_walk.
Qed.

(** ** Resources *)

Lemma resources_at {A} (f : ResourceManager → ResourceManager * RuntimeResult A) rt :
  rt_wf rt → rm_wf (f (cr_resources rt)).1 → ok_at steady (resources_do f) rt.
Proof.
  intros Hwf Hm. unfold ok_at, resources_do, resources_run. destruct (f (cr_resources rt)) as [m res].
  split; [destruct Hwf; by split|by apply steady_same].
Qed.

(** Checks that change nothing, then one call of the manager. *)
Lemma after_check {A B} (c : CoreRuntime → RuntimeResult A) (f : A → M B) rt :
  rt_wf rt → (∀ a, ok_at steady (f a) rt) → ok_at steady (a ← check c; f a) rt.
Proof.
  intros Hwf Hf. apply ok_bind; [apply _|by apply holds_check; [apply _|]|]. intros a rt' [= <- _] _ _. apply Hf.
Qed.
Lemma after_ask {A B} (c : CoreRuntime → A) (f : A → M B) rt :
  rt_wf rt → (∀ a, ok_at steady (f a) rt) → ok_at steady (a ← ask c; f a) rt.
Proof.
  intros Hwf Hf. apply ok_bind; [apply _|by apply holds_ask; [apply _|]|]. intros a rt' [= <- _] _ _. apply Hf.
Qed.

Lemma sync_receipt_steady receipt : holds steady (rt_sync_plan_receipt receipt).
Proof.
  unfold rt_sync_plan_receipt. do 3 (rt_step; [rt_walk|]). apply resources_do_steady. intros m. apply sync_receipt_wf.
Qed.

(** ** Operations *)

Inductive RuntimeOp : Type :=
| OpSubmitBatch (batch : TaskBatch)
| OpSubmitTask (task : Task)
| OpSubmitTargeted (task_id : TaskId) (binding_id : BindingId) (payload : Value)
| OpCancelTask (handle : TaskHandle)
| OpExpireTask (task_id : TaskId) (reason : string)
| OpDeadLetterTask (task_id : TaskId) (reason : string)
| OpWakeTask (handle : TaskHandle)
| OpBeginDrain
| OpAbort (reason : string)
| OpConfigureEventCapacity (capacity : N)
| OpConfigureObservability (profile : ObservabilityProfile)
| OpConfigureTaskHistory (retention : option TaskHistoryRetention)
| OpHeartbeat (runner_id : RunnerId) (executor_id : ExecutorId)
| OpCapability (runner_id : RunnerId) (protocol_ids : list ProtocolId) (capacity : N)
| OpCancelRunnerInvocation (runner_id : RunnerId) (invocation_id : string)
| OpTickOnce
| OpRunUntilIdle (max_ticks : nat)
| OpClaimAtStep (schedule : RunnerDescriptor → RunnerLoad → N → N → RuntimeResult ScheduleDecision)
    (target_step : N) (lease_expires_at : option N)
| OpCompleteDispatch (completion : RunnerCompletion)
| OpDeferDispatch (dispatch : RunnerDispatch)
| OpReloadPlanOnly (plan : RuntimeLoadPlan)
| OpReload (plan : RuntimeLoadPlan) (new_runners : list Runner) (handlers : list AsyncHandler)
| OpReloadTargeted (plan : RuntimeLoadPlan) (new_runners : list Runner) (handlers : list AsyncHandler)
    (affected : gset PluginId)
| OpCancelInvocation (runner_id : RunnerId) (invocation_id : string)
| OpDisposePlugins
| OpSettleDraining
| OpInvalidateDescriptors (provider_id : string) (invalidations : list ResourceDescriptorInvalidation)
| OpInvalidateLegacy (provider_id : string) (ref_ids : list string)
| OpOpenStream (stream_id schema provider_id endpoint : string)
| OpCloseStream (ref_id : RefId)
| OpRegisterDescriptor (descriptor : ResourceRef)
| OpUnregister (ref_id : RefId)
| OpSyncReceipt (receipt : PlanReceipt)
| OpSyncReceipts (receipts : list PlanReceipt)
| OpLockResource (ref_id : RefId) (owner : string) (expires_at_step : option N)
| OpReleaseWriteLease (lease : ExclusiveWriteLease)
| OpCreateCell (cell_id resource_kind owner_plugin_id schema reload_policy : string)
| OpAcquireLease (cell_id borrower_task_id borrower_executor_id mode : string) (expires_at_step : option N)
| OpReleaseLease (lease : ResourceLease)
| OpReclaimLeases
| OpRegisterOccupancy (handle : SurfaceOccupancyHandle)
| OpReleaseOccupancy (handle_id : string).

Definition drop_answer {A} (m : M A) : M () := _ ← m; mret tt.

(** The schedule callback may keep a state of its own; what it decides is arbitrary, so an
    answer per call is enough here. *)
Definition claim_with (schedule : RunnerDescriptor → RunnerLoad → N → N → RuntimeResult ScheduleDecision)
    (target_step : N) (lease_expires_at : option N) : M (() * RunnerLoopReport * list RunnerDispatch) :=
  claim_ready_dispatches_at_step (λ _ descriptor load step generation,
    (tt, schedule descriptor load step generation)) target_step tt lease_expires_at.

Definition runtime_op (op : RuntimeOp) : M () :=
  match op with
  | OpSubmitBatch batch => drop_answer (submit_batch batch)
  | OpSubmitTask task => drop_answer (submit_task task)
  | OpSubmitTargeted task_id binding_id payload => drop_answer (submit_targeted_task task_id binding_id payload)
  | OpCancelTask handle => cancel_task_handle handle
  | OpExpireTask task_id reason => expire_task task_id reason
  | OpDeadLetterTask task_id reason => dead_letter_task task_id reason
  | OpWakeTask handle => wake_task_handle handle
  | OpBeginDrain => drop_answer begin_drain
  | OpAbort reason => drop_answer (abort reason)
  | OpConfigureEventCapacity capacity => configure_event_capacity capacity
  | OpConfigureObservability profile => configure_observability profile
  | OpConfigureTaskHistory retention => configure_task_history_retention retention
  | OpHeartbeat runner_id executor_id => drop_answer (runner_heartbeat runner_id executor_id)
  | OpCapability runner_id protocol_ids capacity => drop_answer (runner_capability runner_id protocol_ids capacity)
  | OpCancelRunnerInvocation runner_id invocation_id => cancel_runner_invocation runner_id invocation_id
  | OpTickOnce => drop_answer tick_once
  | OpRunUntilIdle max_ticks => drop_answer (run_until_idle max_ticks empty_runner_loop_report)
  | OpClaimAtStep schedule target_step expires => drop_answer (claim_with schedule target_step expires)
  | OpCompleteDispatch completion => drop_answer (complete_runner_dispatch completion)
  | OpDeferDispatch dispatch => drop_answer (defer_runner_dispatch dispatch)
  | OpReloadPlanOnly plan => drop_answer (reload_load_plan_only plan)
  | OpReload plan new_runners handlers => drop_answer (reload_with_async_handlers plan new_runners handlers)
  | OpReloadTargeted plan new_runners handlers affected =>
      drop_answer (reload_targeted_with_async_handlers plan new_runners handlers affected)
  | OpCancelInvocation runner_id invocation_id => drop_answer (cancel_invocation runner_id invocation_id)
  | OpDisposePlugins => drop_answer dispose_plugins
  | OpSettleDraining => drop_answer settle_draining_generations
  | OpInvalidateDescriptors provider_id l => rt_invalidate_resource_descriptors provider_id l
  | OpInvalidateLegacy provider_id l => rt_invalidate_legacy_receipt_removals provider_id l
  | OpOpenStream stream_id schema provider_id endpoint =>
      drop_answer (open_stream stream_id schema provider_id endpoint)
  | OpCloseStream ref_id => close_stream ref_id
  | OpRegisterDescriptor descriptor => drop_answer (rt_register_resource_descriptor descriptor)
  | OpUnregister ref_id => rt_unregister_resource ref_id
  | OpSyncReceipt receipt => drop_answer (rt_sync_plan_receipt receipt)
  | OpSyncReceipts receipts => drop_answer (sync_plan_receipts receipts)
  | OpLockResource ref_id owner expires => drop_answer (lock_resource ref_id owner expires)
  | OpReleaseWriteLease lease => rt_release_write_lease lease
  | OpCreateCell cell_id kind owner schema policy =>
      drop_answer (rt_create_resource_cell cell_id kind owner schema policy)
  | OpAcquireLease cell_id task_id executor_id mode expires =>
      drop_answer (rt_acquire_resource_lease cell_id task_id executor_id mode expires)
  | OpReleaseLease lease => rt_release_resource_lease lease
  | OpReclaimLeases => drop_answer rt_reclaim_expired_resource_leases
  | OpRegisterOccupancy handle => rt_register_surface_occupancy handle
  | OpReleaseOccupancy handle_id => drop_answer (rt_release_surface_occupancy handle_id)
  end.

(** The arguments fit their 64 bits. *)
Definition op_fits (op : RuntimeOp) : Prop :=
  match op with OpClaimAtStep _ _ expires => expiry_width expires | _ => True end.

Inductive rt_reachable : CoreRuntime → Prop :=
| rt_booted layout plan new_runners handlers rt :
    boot_with_async_handlers layout plan new_runners handlers = Done (Ok rt) → rt_reachable rt
| rt_stepped rt op rt' res :
    rt_reachable rt → op_fits op → ids_left (cr_resources rt) →
    runtime_op op rt = Done (rt', res) → rt_reachable rt'.

Lemma drop_steady {A} (m : M A) rt : rt_wf rt → ok_at steady m rt → ok_at steady (drop_answer m) rt.
Proof.
  intros Hwf Hm. apply ok_bind; [apply _|done|]. intros a rt' _ Hwf' _. by apply holds_ret; [apply _|].
Qed.

(** The answers are dropped; the call remains. *)
Ltac drop_answers := try lazymatch goal with |- ok_at _ (drop_answer _) _ => apply drop_steady end.

Lemma cancel_steady x : holds steady (cancel_task_by_id x).
Proof. intros rt Hwf. eapply ok_weaken; [|by apply cancel_by_id_ok]. by intros r r' []. Qed.

Lemma heartbeat_steady runner_id executor_id : holds steady (runner_heartbeat runner_id executor_id).
Proof.
  unfold runner_heartbeat. rt_step; [rt_walk|]. apply registry_do_steady. intros r Hr. unfold heartbeat.
  destruct (negb _); [done|]. destruct Hr. by split.
Qed.
Lemma capability_steady runner_id protocol_ids capacity :
  holds steady (runner_capability runner_id protocol_ids capacity).
Proof.
  apply registry_do_steady. intros r Hr. unfold declare_capability.
  destruct (_ !! _); [|done]. destruct (existsb _ _); [done|]. destruct Hr. by split.
Qed.

Lemma resource_call {A} (f : ResourceManager → ResourceManager * RuntimeResult A) :
  (∀ m, rm_wf m → ids_left m → rm_wf (f m).1) →
  ∀ rt, rt_wf rt → ids_left (cr_resources rt) → ok_at steady (resources_do f) rt.
Proof. intros Hf rt Hwf Hids. apply resources_at; [done|]. apply Hf; [apply Hwf|done]. Qed.

#[local] Hint Resolve invalidate_wf invalidate_legacy_wf unregister_wf ResourceInv.register_wf release_wf
  release_write_wf register_occupancy_wf acquire_wf acquire_write_wf release_occupancy_wf : runtime.

#[local] Hint Resolve cancel_steady heartbeat_steady capability_steady begin_drain_steady abort_steady
  cancel_invocation_steady dispose_plugins_steady reload_plan_steady reload_steady reload_targeted_steady
  sync_receipt_steady defer_dispatch_routed configure_retention_routed : runtime.

Lemma close_stream_steady ref_id : holds steady (close_stream ref_id).
Proof.
  unfold close_stream. rt_step; [|rt_step]. intros rt Hwf. unfold ok_at, resources_run.
  destruct (close_stream_wf (cr_resources rt) ref_id (rt_resources _ Hwf)) as (m & res & -> & Hm).
  split; [destruct Hwf; by split|by apply steady_same].
Qed.

Lemma resource_calls_steady op rt :
  rt_wf rt → ids_left (cr_resources rt) →
  match op with
  | OpInvalidateDescriptors _ _ | OpInvalidateLegacy _ _ | OpOpenStream _ _ _ _ | OpCloseStream _
  | OpRegisterDescriptor _ | OpUnregister _ | OpSyncReceipt _ | OpSyncReceipts _ | OpLockResource _ _ _
  | OpReleaseWriteLease _ | OpCreateCell _ _ _ _ _ | OpAcquireLease _ _ _ _ _ | OpReleaseLease _
  | OpReclaimLeases | OpRegisterOccupancy _ | OpReleaseOccupancy _ => ok_at steady (runtime_op op) rt
  | _ => True
  end.
Proof.
  intros Hwf Hids. destruct op; try exact I; cbn [runtime_op]; drop_answers; try exact Hwf.
  - apply resource_call; [|done..]. intros m ? ?. by apply invalidate_wf.
  - apply resource_call; [|done..]. intros m ? ?. by apply invalidate_legacy_wf.
  - unfold open_stream. do 2 (apply after_check; [done|intros _]). apply resource_call; [|done..]. intros m Hm Hi.
    pose proof (create_stream_wf m stream_id schema provider_id endpoint Hm Hi).
    by destruct (create_stream_resource _ _ _ _ _).
  - by apply close_stream_steady.
  - apply after_check; [done|intros _]. apply resource_call; [|done..]. intros m ? ?. by apply ResourceInv.register_wf.
  - apply resource_call; [|done..]. intros m ? ?. by apply unregister_wf.
  - by apply sync_receipt_steady.
  - refine ((_ : holds steady _) rt Hwf). unfold sync_plan_receipts. rt_walk.
  - apply resource_call; [|done..]. intros m. apply acquire_write_wf.
  - apply after_ask; [done|intros step]. apply resource_call; [|done..]. intros m ? ?. by apply release_write_wf.
  - apply after_check; [done|intros _]. apply resource_call; [|done..]. intros m ? ?. by apply create_cell_wf.
  - apply resource_call; [|done..]. intros m. apply acquire_wf.
  - apply after_ask; [done|intros step]. apply resource_call; [|done..]. intros m ? ?. by apply release_wf.
  - apply after_ask; [done|intros step]. apply resource_call; [|done..]. intros m Hm _.
    pose proof (reclaim_wf m step Hm). by destruct (reclaim_expired_resource_leases m step).
  - apply after_check; [done|intros _]. apply resource_call; [|done..]. intros m ? ?. by apply register_occupancy_wf.
  - apply resource_call; [|done..]. intros m ? ?. by apply release_occupancy_wf.
Qed.

(** The operations that claim ready tasks. *)
Definition claims (op : RuntimeOp) : bool :=
  match op with OpTickOnce | OpRunUntilIdle _ | OpClaimAtStep _ _ _ => true | _ => false end.

Lemma runtime_op_steady op rt :
  rt_wf rt → ids_left (cr_resources rt) → claims op = false → ok_at steady (runtime_op op) rt.
Proof.
  intros Hwf Hids Hcl. pose proof (resource_calls_steady op rt Hwf Hids) as Hres.
  destruct op; try exact Hres; try discriminate Hcl; clear Hres Hcl; cbn [runtime_op]; drop_answers; try exact Hwf.
  all: match goal with
       | |- ok_at _ (configure_event_capacity _) _ => by apply (configure_steady capacity ObservabilityProfile_default)
       | |- ok_at _ (configure_observability _) _ => by apply (configure_steady 0 profile)
       | |- ok_at _ (cancel_task_handle _) _ => by apply cancel_steady
       | |- ok_at _ (wake_task_handle _) _ => by apply holds_steady, holds_quiet; [apply wake_task_routed|]
       | |- ok_at _ (cancel_runner_invocation _ _) _ =>
           apply registry_do_steady; [intros; by apply cancel_runner_wf|done]
       | |- ok_at _ ?m _ => refine ((_ : holds steady m) rt Hwf); solve [eauto with runtime]
       end.
Qed.

Lemma drop_forward {A} oversized (m : M A) rt :
  rt_wf rt → ok_at (panics := scheduling_panics oversized) forward m rt →
  ok_at (panics := scheduling_panics oversized) forward (drop_answer m) rt.
Proof.
  intros Hwf Hm. apply ok_bind; [apply _|done|]. intros a rt' _ Hwf' _. by apply holds_ret; [apply _|].
Qed.

(** The operations whose buffer may be too large: a scheduling pass whose callback asks for
    more than [isize::MAX] bytes of ids, and a tick, which asks for all that is queued. *)
Definition oversized_op (op : RuntimeOp) : Prop :=
  match op with
  | OpTickOnce | OpRunUntilIdle _ => True
  | OpClaimAtStep schedule _ _ =>
      ∃ descriptor load step generation decision,
        schedule descriptor load step generation = Ok decision ∧ oversized_decision decision
  | _ => False
  end.

Lemma runtime_op_ok op rt :
  rt_wf rt → op_fits op → ids_left (cr_resources rt) →
  ok_at (panics := scheduling_panics (oversized_op op)) forward (runtime_op op) rt.
Proof.
  intros Hwf Hfit Hids. destruct (claims op) eqn:Hcl; [|by apply steady_forward, ok_scheduling, runtime_op_steady].
  destruct op; try discriminate Hcl; cbn [runtime_op]; (apply drop_forward; [done|]).
  - by apply tick_once_forward.
  - by apply run_until_idle_forward.
  - assert (∀ P Q : Prop, (P → Q) → ∀ A (m : M A), ok_at (panics := scheduling_panics P) forward m rt →
      ok_at (panics := scheduling_panics Q) forward m rt) as Hweak.
    { intros P Q HPQ A m. unfold ok_at. destruct (m rt) as [[]|]; [done|]. intros [?|[? ?]]; [by left|by right; auto]. }
    eapply Hweak; [|by apply claim_at_step_forward].
    intros (s & d & l & n & g & decision & Hd & Hbig). by exists d, l, n, g, decision.
Qed.

(** After an abort nothing is claimed. *)
Lemma aborted_refuses op rt :
  claims op = true → cr_stop_state rt = StopAborted →
  op ≠ OpRunUntilIdle 0 →
  runtime_op op rt = Done (rt, Err (runtime_failure ERR_RUNTIME_ABORTED "runtime.lifecycle" "runtime.execute.aborted")).
Proof.
  intros Hcl Hs H0. assert (tick_once rt = Done (rt, Err (runtime_failure ERR_RUNTIME_ABORTED
    "runtime.lifecycle" "runtime.execute.aborted"))) as Htick.
  { unfold tick_once, mbind, M_bind, check, ensure_not_aborted. by rewrite Hs. }
  destruct op; try discriminate Hcl; cbn [runtime_op]; unfold drop_answer, mbind at 1, M_bind at 1.
  - by rewrite Htick.
  - destruct max_ticks; [done|]. cbn [run_until_idle]. unfold mbind at 1, M_bind at 1. by rewrite Htick.
  - unfold claim_with, claim_ready_dispatches_at_step, mbind, M_bind, check, ensure_not_aborted. by rewrite Hs.
Qed.

Lemma boot_wf layout plan new_runners handlers rt :
  boot_with_async_handlers layout plan new_runners handlers = Done (Ok rt) → rt_wf rt.
Proof.
  unfold boot_with_async_handlers. destruct (validate_runtime_descriptors _ _); [|done].
  destruct (build_registry _ _ _) as [r|] eqn:Hr; [|done]. cbv zeta.
  destruct (event_log_with_profile _ _) as [events|]; [|done]. cbn [mbind outcome_bind].
  destruct (trace_log_with_profile _ _) as [traces|]; [|done]. cbn [mbind outcome_bind].
  intros [= <-]. split; simpl.
  - apply pool_wf_default.
  - intros y. simpl. rewrite lookup_empty. by intros [].
  - by eapply build_registry_wf.
  - constructor.
  - by split; intros x y; simpl; rewrite lookup_empty.
Qed.

Lemma rt_reachable_wf rt : rt_reachable rt → rt_wf rt.
Proof.
  induction 1 as [layout plan new_runners handlers rt Hb|rt op rt' res _ IH Hfit Hids Hrun]; [by eapply boot_wf|].
  pose proof (runtime_op_ok op rt IH Hfit Hids) as Hok. unfold ok_at in Hok. rewrite Hrun in Hok. apply Hok.
Qed.

End ops.
