(* ===== verification/RuntimeSamples.v ===== *)
(** * RuntimeSamples: concrete runtimes

    Encoders, runners with small scripts and load plans; the theorems about reachable
    runtimes are applied to the runtimes built here. *)
From S2P Require Import Prelude Floats Contracts StateStore Resources Logs ResourceManager.
From S2P Require Import TaskIndexes TaskPool TaskClaiming ResourceInv Plugins Batches WorkBatches.
From S2P Require Import Registry PlanChecks Runtime ResultRouting RunnerLoop Reload.
From S2P Require Import TaskLeasing TaskPoolSamples RuntimeInv RuntimeOps.

(** ** Parameters *)

(** A local body is a delta, an event, a rollback or something else that does not
    serialize. *)
Inductive Body : Type :=
| BodyDelta (target : string) (version : N) (patch : string) (policy : ConflictPolicy)
| BodyEvent (id kind payload : string)
| BodyRollback (target : string) (version : N)
| BodyOpaque.

Definition body_json (b : Body) : result string string :=
  match b with
  | BodyDelta target _ _ _ => Ok target
  | BodyEvent id _ _ => Ok id
  | BodyRollback target _ => Ok target
  | BodyOpaque => Err "opaque"
  end.

Definition rt_serde : Serde :=
  {| Value := string; Value_eq_dec := _; Value_null := "null"; Any := Body;
     value_to_writer := λ v, Ok [N.of_nat (String.length v)];
     any_to_writer := λ b, match body_json b with
                           | Ok v => Ok [N.of_nat (String.length v)]
                           | Err e => Err e
                           end;
     any_to_json := body_json |}.
#[export] Existing Instance rt_serde.

Definition rt_decode : Decode :=
  {| deserialize_task := λ _, Err "no task";
     local_delta := λ d, BodyDelta (sd_target_ref d) (sd_expected_version d) (sd_patch d) (sd_conflict_policy d);
     downcast_delta := λ b, match b with
                            | BodyDelta t v p c => Some (mkStateDelta t v p c)
                            | _ => None
                            end;
     deserialize_delta := λ _, Err "no delta";
     local_event := λ e, BodyEvent (de_event_id e) (de_kind e) (de_payload e);
     downcast_event := λ b, match b with BodyEvent i k p => Some (mkDomainEvent i k p) | _ => None end;
     deserialize_event := λ _, Err "no event";
     downcast_rollback := λ b, match b with BodyRollback t v => Some (mkStateRollback t v) | _ => None end;
     deserialize_rollback := λ _, Err "no rollback";
     effect_to_value := er_effect_id;
     value_to_string := λ v, v |}.
#[export] Existing Instance rt_decode.

(** A runner completes every entry with a state delta of its own; the one called
    [runner-x] does not let itself be disposed of. *)
Definition completion_of (entry : BatchEntry) : EntryCompletion :=
  mkEntryCompletion (be_entry_id entry) (be_task_id entry)
    (Some (mkRunnerResult (be_task_id entry) (Some "done") [mkStateDelta "counter" 0 "one" Merge]
             [] [] [] [] [] None StatusCompleted)) None.

Definition rt_runners : RunnerTrait :=
  {| Runner := RunnerDescriptor; runner_descriptor := λ d, d;
     runner_run_batch := λ d _ batch,
       (d, Ok (CompletionBatch_from_results batch (completion_of <$> wb_entries batch)));
     runner_cancel := λ d _, (d, Ok tt);
     runner_dispose := λ d,
       (d, if decide (rd_runner_id d = "runner-x")
           then Err (runtime_failure "runner.stuck" "sample" "dispose") else Ok tt);
     AsyncHandler := RunnerDescriptor; handler_descriptor := λ d, d; handler_dispose := λ _, None |}.
#[export] Existing Instance rt_runners.

(** ** Plans *)

Definition demo_runner (id plugin : string) (generation : N) (protocols : list ProtocolId)
    (purity : RunnerPurity) (class : ExecutionClass) : RunnerDescriptor :=
  {| rd_runner_id := id; rd_plugin_id := plugin; rd_plugin_generation := generation;
     rd_accepted_protocol_ids := protocols; rd_purity := purity; rd_execution_class := class;
     rd_invocation_mode := SyncExclusive; rd_concurrency := Exclusive; rd_input_schema := "null";
     rd_output_schema := "null"; rd_batch := RunnerBatchCapability_default;
     rd_payload := RunnerPayloadCapability_default;
     rd_resources := RunnerResourceCapability_default;
     rd_ordering := RunnerOrderingCapability_default;
     rd_control := RunnerControlCapability_default; rd_metadata := ∅;
     rd_contract_surfaces := [] |}.

Definition demo_manifest (plugin : string) (runners : list RunnerDescriptor)
    (classes : gmap ProtocolId ProtocolClass) : PluginManifest :=
  {| pm_plugin_id := plugin; pm_version := "1"; pm_api_version := "1";
     pm_artifact := mkPluginArtifact ArtNative plugin "" [];
     pm_provides :=
       {| pv_capabilities := []; pv_services := []; pv_extensions := []; pv_runners := runners;
          pv_protocols := []; pv_protocol_classes := classes; pv_handler_bindings := [];
          pv_resource_schemas := []; pv_resource_providers := []; pv_resource_types := []; pv_effects := [];
          pv_streams := []; pv_subscriptions := []; pv_timers := []; pv_state_schemas := [];
          pv_host_extensions := []; pv_plugin_backends := []; pv_codecs := []; pv_bridges := [];
          pv_scheduler_policies := []; pv_workflows := [] |};
     pm_requires := []; pm_permissions := mkPermissionGrant [] [];
     pm_lifecycle := mkLifecyclePolicy "drain" 0 true true false; pm_metadata := ∅ |}.

Definition demo_plan (generation : N) (plugins : list PluginManifest) : RuntimeLoadPlan :=
  {| plan_lock_version := 1; plan_core_api_version := "1"; plan_profile_id := "p"; plan_profile_hash := "h";
     plan_registry_generation := generation; plan_plugins := plugins; plan_load_order := [];
     plan_runner_bindings := ∅; plan_plugin_deployments := ∅;
     plan_observability := ObservabilityProfile_default;
     plan_capability_graph := mkRuntimeCapabilityGraph FullDev [] [] [] [] [] [] [] [] [] [] [] [] [];
     plan_contract_surfaces := [] |}.

Definition kernel_runner : RunnerDescriptor :=
  demo_runner "core.kernel" "core" 1 ["core.commit"; "core.event.append"; "core.state.rollback"] Committer ExecControl.
Definition kernel_manifest : PluginManifest :=
  demo_manifest "core" [kernel_runner]
    {["core.commit" := ClassCore; "core.event.append" := ClassCore; "core.state.rollback" := ClassCore]}.

Definition echo_runner (generation : N) : RunnerDescriptor :=
  demo_runner "runner-a" "alpha" generation ["echo"] Pure Cpu.
Definition echo_manifest (generation : N) : PluginManifest :=
  demo_manifest "alpha" [echo_runner generation] {["echo" := ClassDomain]}.
Definition mail_runner (generation : N) : RunnerDescriptor :=
  demo_runner "runner-b" "beta" generation ["mail"] Pure Cpu.
Definition mail_manifest (generation : N) : PluginManifest :=
  demo_manifest "beta" [mail_runner generation] {["mail" := ClassDomain]}.

Definition demo_runtime_plan (generation : N) : RuntimeLoadPlan :=
  demo_plan generation [kernel_manifest; echo_manifest generation; mail_manifest generation].
Definition demo_instances (generation : N) : list Runner :=
  [kernel_runner; echo_runner generation; mail_runner generation].

(** ** Histories *)

Definition empty_runtime : CoreRuntime :=
  {| cr_load_plan := demo_plan 0 []; cr_handler_bindings := from_load_plan (demo_plan 0 []); cr_surfaces := [];
     cr_protocol_classes := ∅; cr_registry := RunnerRegistry_default; cr_draining_generations := [];
     cr_generation_states := []; cr_tasks := TaskPool_default; cr_resources := ResourceManager_new;
     cr_states := with_profile (ob_state_history ObservabilityProfile_default);
     cr_events := mkEventLog (empty_log (ob_events ObservabilityProfile_default));
     cr_traces := mkTraceLog (empty_log (ob_traces ObservabilityProfile_default));
     cr_scheduler_decisions := 0; cr_current_step := 0; cr_stop_state := StopRunning |}.

Definition demo_layout : Layout := mkLayout 256 192.

Definition booted : CoreRuntime :=
  match boot demo_layout (demo_runtime_plan 1) (demo_instances 1) with
  | Done (Ok rt) => rt
  | _ => empty_runtime
  end.

Lemma booted_reachable : rt_reachable booted.
Proof.
  assert (match boot demo_layout (demo_runtime_plan 1) (demo_instances 1) with
          | Done (Ok _) => true | _ => false end = true) as Hok by (vm_compute; reflexivity).
  unfold booted. destruct (boot demo_layout (demo_runtime_plan 1) (demo_instances 1)) as [[rt|e]|] eqn:Hb; [|done..].
  by eapply rt_booted.
Qed.

(** The runtime after the operations; it stops at the first panic. *)
Fixpoint after_ops (ops : list RuntimeOp) (rt : CoreRuntime) : CoreRuntime :=
  match ops with
  | [] => rt
  | op :: ops => match runtime_op op rt with Done (rt, _) => after_ops ops rt | Panic _ => rt end
  end.

Definition fitsb (op : RuntimeOp) : bool :=
  match op with OpClaimAtStep _ _ (Some e) => bool_decide (e ≤ u64_max)%N | _ => true end.
Definition ids_leftb (rt : CoreRuntime) : bool :=
  bool_decide (ids_next (rm_id_source (cr_resources rt)) < u64_max)%N.

(** The history and the conditions of its steps. *)
Fixpoint fits_all (ops : list RuntimeOp) (rt : CoreRuntime) : bool :=
  match ops with
  | [] => true
  | op :: ops =>
      fitsb op && ids_leftb rt
      && match runtime_op op rt with Done (rt, _) => fits_all ops rt | Panic _ => true end
  end.

Lemma fits_reachable ops : ∀ rt, rt_reachable rt → fits_all ops rt = true → rt_reachable (after_ops ops rt).
Proof.
  induction ops as [|op ops IH]; intros rt Hrt; cbn [fits_all after_ops]; [done|].
  rewrite !andb_true_iff. intros [[Hfit Hids] Hrest].
  destruct (runtime_op op rt) as [[rt' res]|] eqn:Hrun; [|done]. apply IH; [|done].
  eapply rt_stepped; [done| |by apply bool_decide_eq_true in Hids|done].
  destruct op; try exact I. intros e ->. by apply bool_decide_eq_true in Hfit.
Qed.

(** A reachable runtime: [after_ops] with its conditions evaluated. *)
Ltac reached := apply fits_reachable; [apply booted_reachable|vm_compute; reflexivity].

Definition demo_task (id protocol : string) : Task := Task_new id protocol (PayloadJson "payload").

(** Whatever is queued may be dispatched, for ten steps. *)
Definition take_queued (descriptor : RunnerDescriptor) (load : RunnerLoad) (step generation : N)
    : RuntimeResult ScheduleDecision :=
  Ok (ScheduleDecision_new "demo" (rl_queued_count load) "queued").

(** [t1] and [t2] for runner [a], which takes one task at a time, [m1] for runner [b]. *)
Definition claimed_runtime : CoreRuntime :=
  after_ops [ OpSubmitTask (demo_task "t1" "echo"); OpSubmitTask (demo_task "t2" "echo");
              OpSubmitTask (demo_task "m1" "mail"); OpClaimAtStep take_queued 1 (Some 11%N) ] booted.

Lemma claimed_reachable : rt_reachable claimed_runtime.
Proof. reached. Qed.

Definition task_statuses (rt : CoreRuntime) (ids : list TaskId) : list (option TaskStatus) :=
  task_status rt <$> ids.

Definition lease_of (rt : CoreRuntime) (id : TaskId) : list TaskLease :=
  match tp_tasks (cr_tasks rt) !! id with
  | Some r => match rec_lease r with Some lease => [lease] | None => [] end
  | None => []
  end.

Lemma claimed_statuses :
  task_statuses claimed_runtime ["t1"; "t2"; "m1"] = [Some Running; Some Ready; Some Running].
Proof. vm_compute. reflexivity. Qed.

(** [t1] hands a child [c1] in and waits for it. *)
Definition demo_await : TaskAwait :=
  mkTaskAwait "t1" (mkTaskHandle "c1" "echo" None Cascade None None) (ta_continuation sample_await) Cascade.

Definition entry_of (id : TaskId) : BatchEntry :=
  mkBatchEntry ("entry-" +:+ id) id None None 0 [] None None 0 Normal OrderingNone.

(** A completion of the lease of [id] by the runner, with one result. *)
Definition completion_with (rt : CoreRuntime) (id : TaskId) (runner : option Runner) (r : RunnerResult)
    : RunnerCompletion :=
  mkRunnerCompletion runner (lease_of rt id) "batch" [entry_of id]
    (Ok (mkCompletionBatch "batch" "tick" [mkEntryCompletion ("entry-" +:+ id) id (Some r) None] [])).

Definition waiting_result : RunnerResult :=
  mkRunnerResult "t1" None [] [] [demo_task "c1" "echo"] [] [] [] (Some demo_await) StatusWaiting.

Definition awaiting_runtime : CoreRuntime :=
  after_ops [OpCompleteDispatch (completion_with claimed_runtime "t1" (Some (echo_runner 1)) waiting_result)]
    claimed_runtime.

Lemma awaiting_reachable : rt_reachable awaiting_runtime.
Proof. apply fits_reachable; [apply claimed_reachable|vm_compute; reflexivity]. Qed.

Lemma awaiting_statuses :
  task_statuses awaiting_runtime ["t1"; "t2"; "m1"; "c1"] = [Some Waiting; Some Ready; Some Running; Some Ready].
Proof. vm_compute. reflexivity. Qed.
