(* ===== verification/CompletionTheorems.v ===== *)
(** * CompletionTheorems: a completed dispatch lets go of its tasks

    [live rt lease] says that the lease is the active, unexpired lease of its running
    task.  After [complete_runner_dispatch] succeeds, no lease the results speak about is
    live, except those whose runner asked to continue. *)
From S2P Require Import Prelude Floats Contracts StateStore Resources Logs ResourceManager.
From S2P Require Import TaskIndexes TaskPool TaskClaiming TaskPoolInv TaskHistory TaskStates.
From S2P Require Import TaskPoolSafety TaskPoolOps TaskPoolCalm ResourceInv Plugins Batches WorkBatches.
From S2P Require Import Registry PlanChecks RegistryTheorems Runtime ResultRouting RunnerLoop.
From S2P Require Import Reload RuntimeInv RuntimeCancel RuntimeOps RuntimeSamples.

Section completions.
Context {serde : Serde} {dec : Decode} {runners : RunnerTrait}.
Implicit Types (rt : CoreRuntime) (p : TaskPool) (lease : TaskLease).

(** ** Live leases *)

Definition live rt lease : Prop :=
  is_ok (ensure_active_lease (cr_tasks rt) (tl_task_id lease) lease (cr_current_step rt) "route") = true.

Lemma validate_ok_any r lease step action action' :
  is_ok (validate_record_lease r lease step action) = is_ok (validate_record_lease r lease step action').
Proof. unfold validate_record_lease. by destruct (_ && _). Qed.

Lemma live_record rt lease :
  live rt lease ↔ ∃ r, tp_tasks (cr_tasks rt) !! tl_task_id lease = Some r
    ∧ is_ok (validate_record_lease r lease (cr_current_step rt) "route") = true.
Proof.
  unfold live, ensure_active_lease, record_of. destruct (tp_tasks (cr_tasks rt) !! _) as [r|].
  - split; [eauto|]. by intros (? & [= <-] & ?).
  - split; [done|]. by intros (? & ? & _).
Qed.

Lemma valid_running r lease step action :
  is_ok (validate_record_lease r lease step action) = true → rec_status r = Running.
Proof.
  unfold validate_record_lease. destruct (_ && _) eqn:Hc; [|done]. intros _.
  rewrite !andb_true_iff in Hc. by destruct Hc as [[[H%bool_decide_eq_true _] _] _].
Qed.

Lemma live_back rt rt' lease : routed rt rt' → live rt' lease → live rt lease.
Proof.
  intros [[[Hrun _] Hstep _ _ _ _] _] (r & Hr & Hv)%live_record. apply live_record.
  exists r. rewrite <- Hstep. split; [|done]. apply Hrun; [done|]. by eapply valid_running.
Qed.

(** ** Ending an attempt *)

(** The task of the lease does not run in the pool. *)
Definition idle p lease : Prop := ∀ r, tp_tasks p !! tl_task_id lease = Some r → rec_status r ≠ Running.

Lemma idle_not_live rt lease : idle (cr_tasks rt) lease → ¬ live rt lease.
Proof. intros Hi (r & Hr & Hv)%live_record. eapply Hi; [done|]. by eapply valid_running. Qed.

Lemma idle_put p lease r :
  tp_tasks p !! tl_task_id lease = Some r → rec_status r ≠ Running → idle p lease.
Proof. intros Hr Hst r' Hr'. congruence. Qed.

Lemma idle_shrinks p p' lease : shrinks p p' → idle p lease → idle p' lease.
Proof. intros [Hsub _ _] Hi r Hr. apply Hi. by eapply lookup_weaken. Qed.

(** Goes through an operation on a valid lease and looks at the new record. *)
Ltac attempt_ended :=
  match goal with
  | |- context [mutate_record_indexed ?p _ (validated ?lease ?step ?action ?f)] =>
      destruct (mutate_validated_cases p lease step action f)
        as [[_ ->]|[(r & e & Hx & _ & ->)|(r & Hx & Hv & ->)]]; [by intros [=]|by intros [=]|]
  end;
  try match goal with
  | |- context [record_terminal_task ?q ?x] =>
      destruct (record_terminal_task q x) as [p2|] eqn:Hrec; [|done]; cbn [mbind outcome_bind];
      apply record_terminal_shrinks in Hrec
  end;
  intros [= <-];
  try (eapply idle_shrinks; [eassumption|]; rewrite ?remove_waits_for_parent_eq);
  eapply idle_put; [apply lookup_insert_eq|done].

Lemma complete_idle p lease step output p' :
  complete p lease step output = Done (p', Ok tt) → idle p' lease.
Proof. unfold complete. attempt_ended. Qed.
Lemma fail_idle p lease step failure p' : fail p lease step failure = Done (p', Ok tt) → idle p' lease.
Proof. unfold fail. attempt_ended. Qed.
Lemma cancel_idle p lease step p' : cancel_task p lease step = Done (p', Ok tt) → idle p' lease.
Proof. unfold cancel_task. attempt_ended. Qed.
Lemma wait_idle p lease step ready p' : wait p lease step ready = (p', Ok tt) → idle p' lease.
Proof. unfold wait. attempt_ended. Qed.
Lemma block_idle p lease step p' : block p lease step = (p', Ok tt) → idle p' lease.
Proof. unfold block. attempt_ended. Qed.
Lemma wait_on_idle p lease step task_await p' :
  wait_on_task p lease step task_await = (p', Ok tt) → idle p' lease.
Proof.
  unfold wait_on_task. case_decide; [done|]. destruct (record_of p _); [|done].
  destruct (validate_record_lease _ _ _ _); [|done]. destruct (record_of p _); [|done].
  destruct (validate_task_await_child _ _ _); [|done]. attempt_ended.
Qed.

(** ** Failing a dispatch *)

(** The lease is not live after the computation, if it succeeds. *)
Definition lets_go {A} (m : M A) lease rt : Prop :=
  ok_at routed m rt ∧ gives m rt (λ rt', ¬ live rt' lease).

Lemma lets_go_bind {A B} (m : M A) (f : A → M B) lease rt :
  ok_at routed m rt →
  (∀ a rt', m rt = Done (rt', Ok a) → rt_wf rt' → lets_go (f a) lease rt') → lets_go (m ≫= f) lease rt.
Proof. intros Hm Hf. apply both_bind; [apply _|done|]. intros a rt' Hrun Hwf' _. by apply Hf. Qed.

Lemma already_gone {A} (m : M A) lease rt : holds routed m → rt_wf rt → ¬ live rt lease → lets_go m lease rt.
Proof.
  intros Hm Hwf Hno. apply both_later; [by apply Hm|]. intros rt' Hr Hl. by eapply Hno, live_back.
Qed.

(** A call of the pool after which the task is idle. *)
Lemma ended {A} (f : TaskPool → outcome (TaskPool * RuntimeResult A)) (m : A → M N) lease rt :
  rt_wf rt → ok_at routed (tasks_do f) rt →
  (∀ p' a, f (cr_tasks rt) = Done (p', Ok a) → idle p' lease) → (∀ a, holds routed (m a)) →
  lets_go (a ← tasks_do f; m a) lease rt.
Proof.
  intros Hwf Hf Hidle Hm. apply lets_go_bind; [done|]. intros a rt' Hrun Hwf'.
  apply already_gone; [done..|]. apply idle_not_live. revert Hrun. unfold tasks_do.
  destruct (f (cr_tasks rt)) as [[p' res]|] eqn:He; [|done]. intros [= <- ->]. by eapply Hidle.
Qed.

Lemma bind_ok {A B} (m : M A) (f : A → M B) rt rt' b :
  (m ≫= f) rt = Done (rt', Ok b) → ∃ a rt1, m rt = Done (rt1, Ok a) ∧ f a rt1 = Done (rt', Ok b).
Proof. unfold mbind, M_bind. destruct (m rt) as [[rt1 [a|]]|]; [eauto|done..]. Qed.

Lemma finalize_idle p lease step p' c :
  finalize_requested_cancellation p lease step = Done (p', Ok (Some c)) → idle p' lease.
Proof.
  unfold finalize_requested_cancellation. destruct (tp_pending_cancellations p !! _); [|done].
  rewrite mutate_record_indexed_eq. destruct (tp_tasks p !! _) as [r|]; [|done].
  destruct (_ && _ && _); cbn [fst snd]; [|done].
  match goal with |- context [record_terminal_task ?q ?x] =>
    destruct (record_terminal_task q x) as [p2|] eqn:Hrec; [|done] end. cbn [mbind outcome_bind].
  intros [= <- _]. eapply idle_shrinks; [by eapply record_terminal_shrinks|].
  rewrite remove_waits_for_parent_eq. eapply idle_put; [apply lookup_insert_eq|done].
Qed.

Lemma finalize_lets_go lease rt rt' n :
  rt_wf rt → finalize_cancellation lease rt = Done (rt', Ok (Some n)) → ¬ live rt' lease.
Proof.
  intros Hwf. unfold finalize_cancellation. intros (step & rt0 & [= <- <-] & Hrun)%bind_ok.
  apply bind_ok in Hrun as (pending & rt1 & Hp & Hrest). destruct pending as [c|]; [|done].
  assert (holds routed (tasks_do (λ p, finalize_requested_cancellation p lease (cr_current_step rt)))) as Hf
    by auto with runtime.
  specialize (Hf rt Hwf). unfold ok_at in Hf. rewrite Hp in Hf.
  destruct Hf as [Hwf1 _]. eapply already_gone in Hwf1 as [_ Hg]; [by eapply Hg|rt_walk|].
  apply idle_not_live. revert Hp. unfold tasks_do.
  destruct (finalize_requested_cancellation _ _ _) as [[p' res]|] eqn:He; [|done]. intros [= <- ->].
  by eapply finalize_idle.
Qed.

(** Nothing pending: the rest runs in the same runtime. *)
Lemma after_finalize (m : M N) lease rt :
  rt_wf rt → lets_go m lease rt →
  lets_go (cancelled ← finalize_cancellation lease;
           match cancelled with Some completed => mret completed | None => m end) lease rt.
Proof.
  intros Hwf Hm. apply lets_go_bind; [by apply finalize_routed|]. intros [n|] rt' Hrun Hwf'.
  - apply already_gone; [by apply holds_ret; apply _|done|]. exact (finalize_lets_go lease rt rt' n Hwf Hrun).
  - by apply finalize_none in Hrun as [-> _].
Qed.

Lemma fail_lets_go lease failure rt : rt_wf rt → lets_go (fail_runner_dispatch lease failure) lease rt.
Proof.
  intros Hwf. unfold fail_runner_dispatch. apply after_finalize; [done|].
  apply lets_go_bind; [by apply holds_ask; [apply _|]|]. intros step rt0 [= <- <-] _.
  apply lets_go_bind; [by apply holds_attempt; [rt_walk|]|]. intros res rt1 Hrun Hwf1.
  apply already_gone; [rt_walk|done|]. revert Hrun. unfold attempt, tasks_do.
  destruct (fail _ _ _ _) as [[p' [[]|e]]|] eqn:Hf; [| |done]; intros [= <- <-].
  - apply idle_not_live. by eapply fail_idle.
  - revert Hf. unfold fail.
    match goal with |- context [mutate_record_indexed ?p _ (validated ?lease ?step ?action ?f)] =>
      destruct (mutate_validated_cases p lease step action f)
        as [[Hx ->]|[(r & e' & Hx & Hv & ->)|(r & Hx & Hv & ->)]] end.
    + intros [= <- _]. intros (r & Hr & _)%live_record. simpl in Hr. congruence.
    + intros [= <- _]. intros (r' & Hr & Hok)%live_record. simpl in Hr, Hok. rewrite lookup_insert_eq in Hr.
      simplify_eq. rewrite (validate_ok_any _ _ _ _ "fail"), Hv in Hok. done.
    + destruct (record_terminal_task _ _); [|done]. by intros [=].
Qed.

Lemma fail_all_lets_go leases failure lease : ∀ rt,
  rt_wf rt → lease ∈ leases → lets_go (fail_runner_dispatches leases failure) lease rt.
Proof.
  unfold fail_runner_dispatches. induction leases as [|l ls IH]; intros rt Hwf Hin;
    [by apply not_elem_of_nil in Hin|]. cbn [sum_each].
  apply elem_of_cons in Hin as [<-|Hin].
  - destruct (fail_lets_go lease failure rt Hwf) as [Hok Hg]. apply lets_go_bind; [done|].
    intros n rt1 Hrun Hwf1. apply already_gone; [rt_walk|done|by eapply Hg].
  - apply lets_go_bind; [by apply fail_dispatch_routed|]. intros n rt1 _ Hwf1.
    destruct (IH rt1 Hwf1 Hin) as [Hok Hg]. apply lets_go_bind; [done|]. intros total rt2 Hrun Hwf2.
    apply already_gone; [rt_walk|done|by eapply Hg].
Qed.

(** ** Errors that are not a stale result

    Only the lease check at the start of [route_result] reports a stale completion; an
    error of any later part is of another kind. *)

Definition frank {A} (m : M A) : Prop :=
  ∀ rt rt' e, m rt = Done (rt', Err e) → is_stale_completion_conflict e = false.

Lemma frank_ret {A} (a : A) : frank (mret a).
Proof. by intros rt rt' e [=]. Qed.
Lemma frank_throw {A} e : is_stale_completion_conflict e = false → frank (throw e : M A).
Proof. by intros He rt rt' e' [= <- <-]. Qed.
Lemma frank_ask {A} (f : CoreRuntime → A) : frank (ask f).
Proof. by intros rt rt' e [=]. Qed.
Lemma frank_event kind name subject attrs error : frank (record_event kind name subject attrs error).
Proof. by intros rt rt' e [=]. Qed.
Lemma frank_attempt {A} (m : M A) : frank (attempt m).
Proof. intros rt rt' e. unfold attempt. by destruct (m rt) as [[]|]. Qed.
Lemma frank_check {A} (f : CoreRuntime → RuntimeResult A) :
  (∀ rt e, f rt = Err e → is_stale_completion_conflict e = false) → frank (check f).
Proof. intros Hf rt rt' e [= _ He]. by eapply Hf. Qed.
Lemma frank_bind {A B} (m : M A) (f : A → M B) : frank m → (∀ a, frank (f a)) → frank (m ≫= f).
Proof.
  intros Hm Hf rt rt' e. unfold mbind, M_bind. destruct (m rt) as [[rt1 [a|e']]|] eqn:Hrun; [|intros [= _ <-]|done].
  - apply Hf.
  - by eapply Hm.
Qed.
Lemma frank_for_each {A} (l : list A) body : (∀ x, frank (body x)) → frank (for_each l body).
Proof. intros Hb. induction l; simpl; [apply frank_ret|by apply frank_bind]. Qed.
Lemma frank_sum_each {A} (l : list A) body : (∀ x, frank (body x)) → frank (sum_each l body).
Proof.
  intros Hb. induction l; simpl; [apply frank_ret|]. repeat (apply frank_bind; [done|intros ?]). apply frank_ret.
Qed.
Lemma frank_tasks {A} (f : TaskPool → outcome (TaskPool * RuntimeResult A)) :
  (∀ p p' e, f p = Done (p', Err e) → is_stale_completion_conflict e = false) → frank (tasks_do f).
Proof.
  intros Hf rt rt' e. unfold tasks_do. destruct (f (cr_tasks rt)) as [[p' res]|] eqn:Hp; [|done].
  intros [= _ ->]. by eapply Hf.
Qed.

Lemma frank_run {A} (f : TaskPool → outcome (TaskPool * A)) : frank (tasks_run f).
Proof. apply frank_tasks. intros p p' e. destruct (f p) as [[]|]; [by intros [=]|done]. Qed.

Ltac frank_step :=
  lazymatch goal with
  | |- frank (mret _) => apply frank_ret
  | |- frank (throw _) => apply frank_throw; reflexivity
  | |- frank (ask _) => apply frank_ask
  | |- frank (record_event _ _ _ _ _) => apply frank_event
  | |- frank (attempt _) => apply frank_attempt
  | |- frank (tasks_run _) => apply frank_run
  | |- frank (for_each _ _) => apply frank_for_each; intros ?
  | |- frank (sum_each _ _) => apply frank_sum_each; intros ?
  | |- frank (mbind _ _) => apply frank_bind; [|intros ?]
  | |- frank (match ?x with _ => _ end) => destruct x
  | |- frank (let _ := _ in _) => cbv zeta
  end.

Lemma lease_error_frank r lease step action e :
  validate_record_lease r lease step action = Err e → String.prefix "task.route." ("task." +:+ action +:+ "." +:+ tl_task_id lease) = false →
  is_stale_completion_conflict e = false.
Proof.
  unfold validate_record_lease, is_stale_completion_conflict. destruct (_ && negb _); [done|].
  intros [= <-] Hp. apply andb_false_iff. right.
  destruct (rec_lease r), (task_lease_expired lease step); simpl; exact Hp.
Qed.

(** An error of a transition under a lease. *)
Ltac leased_frank :=
  match goal with
  | |- context [mutate_record_indexed ?p _ (validated ?lease ?step ?action ?f)] =>
      destruct (mutate_validated_cases p lease step action f)
        as [[_ ->]|[(r & e' & Hx & Hv & ->)|(r & Hx & Hv & ->)]];
      [by intros [= _ <-]|intros [= _ <-]; by eapply lease_error_frank|]
  end;
  first [by intros [=]|match goal with |- context [record_terminal_task ?q ?x] =>
      destruct (record_terminal_task q x); [by intros [=]|done] end].

Lemma frank_complete lease step output : frank (tasks_do (λ p, complete p lease step output)).
Proof. apply frank_tasks. intros p p' e. unfold complete. leased_frank. Qed.
Lemma frank_fail lease step failure : frank (tasks_do (λ p, fail p lease step failure)).
Proof. apply frank_tasks. intros p p' e. unfold fail. leased_frank. Qed.
Lemma frank_cancel lease step : frank (tasks_do (λ p, cancel_task p lease step)).
Proof. apply frank_tasks. intros p p' e. unfold cancel_task. leased_frank. Qed.
Lemma frank_wait lease step ready : frank (tasks_do (λ p, Done (wait p lease step ready))).
Proof. apply frank_tasks. intros p p' e. unfold wait. leased_frank. Qed.
Lemma frank_block lease step : frank (tasks_do (λ p, Done (block p lease step))).
Proof. apply frank_tasks. intros p p' e. unfold block. leased_frank. Qed.

Lemma await_child_frank parent child task_await e :
  validate_task_await_child parent child task_await = Err e → is_stale_completion_conflict e = false.
Proof.
  unfold validate_task_await_child. destruct (is_terminal_status _); [by intros [= <-]|].
  destruct (_ && _); [done|]. by intros [= <-].
Qed.

Lemma frank_wait_on lease step task_await : frank (tasks_do (λ p, Done (wait_on_task p lease step task_await))).
Proof.
  apply frank_tasks. intros p p' e. unfold wait_on_task. case_decide; [by intros [= _ <-]|].
  unfold record_of. destruct (tp_tasks p !! tl_task_id lease) as [pr|]; [|by intros [= _ <-]].
  destruct (validate_record_lease _ _ _ _) as [[]|e1] eqn:Hl; [|intros [= _ <-]; by eapply lease_error_frank].
  destruct (tp_tasks p !! th_task_id _) as [cr|]; [|by intros [= _ <-]].
  destruct (validate_task_await_child _ _ _) as [[]|e1] eqn:Hc; [|intros [= _ <-]; by eapply await_child_frank].
  leased_frank.
Qed.

Lemma frank_wake x step : frank (tasks_do (λ p, Done (wake p x step))).
Proof.
  apply frank_tasks. intros p p' e. unfold wake. rewrite mutate_record_indexed_eq.
  destruct (tp_tasks p !! x) as [r|]; [|by intros [= _ <-]].
  case_decide; simpl; [by intros [=]|by intros [= _ <-]].
Qed.

Lemma frank_settle x name error : frank (settle x name error).
Proof.
  unfold settle, record_task_terminal_event, wake_tasks_waiting_on. repeat (frank_step || apply frank_wake).
Qed.

Lemma frank_commit runner lease r : frank (commit_result_status runner lease r).
Proof.
  unfold commit_result_status, record_progress.
  repeat first [apply frank_complete|apply frank_fail|apply frank_cancel|apply frank_wait|apply frank_block
    |apply frank_wait_on|apply frank_settle|frank_step].
Qed.

Lemma frank_enqueue task : frank (enqueue_task task).
Proof.
  unfold enqueue_task. frank_step.
  { apply frank_check. intros rt e. unfold ensure_not_aborted. case_decide; [by intros [= <-]|done]. }
  repeat frank_step.
  all: apply frank_tasks; intros p p' e; case_decide; [done|]; unfold enqueue_at.
  all: match goal with |- context [contains_task_id ?p ?x] => destruct (contains_task_id p x) end;
    [by intros [= _ <-]|]; destruct (try_wire_len _); [by intros [=]|by intros [= _ <-]].
Qed.

Lemma frank_outputs runner r : frank (route_result_outputs runner r).
Proof.
  unfold route_result_outputs. repeat first [apply frank_enqueue|frank_step].
  apply frank_check. intros rt e. unfold ensure_output_task_ids_available.
  destruct (find_duplicate _ _ _); [by intros [= <-]|done].
Qed.

Lemma child_task_frank parent_id parent task_await child e :
  validate_await_child_task parent_id parent task_await child = Err e → is_stale_completion_conflict e = false.
Proof. unfold validate_await_child_task. destruct (_ && _); [done|]. by intros [= <-]. Qed.

Lemma frank_waiting x status task_await tasks : frank (check (validate_waiting_result x status task_await tasks)).
Proof.
  apply frank_check. intros rt e. unfold validate_waiting_result. destruct task_await as [w|]; [|done].
  case_decide; [by intros [= <-]|]. unfold ensure_task_can_suspend. case_decide; [|by intros [= <-]].
  case_decide; [by intros [= <-]|]. unfold validate_await_child_descriptor.
  destruct (pool_get _ x); [|by intros [= <-]]. destruct (find _ _); [apply child_task_frank|].
  destruct (pool_get _ _); [|by intros [= <-]]. destruct (is_terminal_status _); [by intros [= <-]|].
  apply child_task_frank.
Qed.

Lemma frank_status_outputs r : frank (check (λ _, validate_status_outputs r)).
Proof.
  apply frank_check. intros _ e. unfold validate_status_outputs. destruct (_ && _); [by intros [= <-]|].
  case_decide; [done|]. destruct (_ && _); [done|]. by intros [= <-].
Qed.

(** ** Routing one entry *)

Lemma commit_lets_go runner lease r rt :
  rt_wf rt → tp_pending_cancellations (cr_tasks rt) !! tl_task_id lease = None →
  rr_status r ≠ StatusContinue → lets_go (commit_result_status runner lease r) lease rt.
Proof.
  intros Hwf Hnone Hst. unfold commit_result_status, record_progress.
  apply lets_go_bind; [by apply holds_ask; [apply _|]|]. intros step rt0 [= <- <-] _.
  destruct (rr_status r); [| | |done| |].
  - apply ended; [done|by refine ((_ : holds routed _) rt Hwf); rt_walk| |intros; rt_walk]. intros p' [] He. by eapply complete_idle.
  - destruct (rr_task_await r) as [w|].
    + apply ended; [done| | |intros; rt_walk].
      * apply tasks_do_routed; [done|]. by apply wait_on_task_quiet; [apply Hwf|].
      * intros p' [] [= He]. by eapply wait_on_idle.
    + apply ended; [done|by refine ((_ : holds routed _) rt Hwf); rt_walk| |intros; rt_walk]. intros p' [] [= He]. by eapply wait_idle.
  - apply ended; [done|by refine ((_ : holds routed _) rt Hwf); rt_walk| |intros; rt_walk]. intros p' [] [= He]. by eapply block_idle.
  - apply ended; [done|by refine ((_ : holds routed _) rt Hwf); rt_walk| |intros; rt_walk]. intros p' [] He. by eapply fail_idle.
  - apply ended; [done|by refine ((_ : holds routed _) rt Hwf); rt_walk| |intros; rt_walk]. intros p' [] He. by eapply cancel_idle.
Qed.

Lemma route_result_lets_go runner lease r rt :
  rt_wf rt → tp_pending_cancellations (cr_tasks rt) !! tl_task_id lease = None →
  rr_status r ≠ StatusContinue → lets_go (route_result runner lease r) lease rt.
Proof.
  intros Hwf Hnone Hst. unfold route_result.
  do 3 (apply lets_go_bind; [by apply holds_check; [apply _|]|]; intros ? ? [= <- _] _).
  pose proof (route_outputs_routed runner r rt Hwf) as Hout.
  apply lets_go_bind; [done|]. intros [] rt' Hrun Hwf'. apply commit_lets_go; [done| |done].
  unfold ok_at in Hout. rewrite Hrun in Hout. destruct Hout as [_ [[Hc _ _ _ _ _] _]]. by eapply calm_no_request.
Qed.

Lemma route_result_stale runner lease r rt rt' e :
  rr_task_id r = tl_task_id lease → route_result runner lease r rt = Done (rt', Err e) →
  is_stale_completion_conflict e = true → rt' = rt ∧ ¬ live rt lease.
Proof.
  intros Hid Hrun Hstale.
  assert (frank (_ ← check (validate_waiting_result (rr_task_id r) (rr_status r) (rr_task_await r) (rr_tasks r));
                 _ ← check (λ _, validate_status_outputs r);
                 _ ← route_result_outputs runner r; commit_result_status runner lease r)) as Hfrank.
  { apply frank_bind; [apply frank_waiting|intros _].
    apply frank_bind; [apply frank_status_outputs|intros _].
    apply frank_bind; [apply frank_outputs|intros _]. apply frank_commit. }
  unfold route_result in Hrun. unfold mbind at 1, M_bind at 1, check at 1 in Hrun. rewrite Hid in Hrun at 1.
  destruct (ensure_active_lease (cr_tasks rt) (tl_task_id lease) lease (cr_current_step rt) "route")
    as [[]|e1] eqn:Hl.
  - apply Hfrank in Hrun. congruence.
  - injection Hrun as <- _. split; [done|]. unfold live. by rewrite Hl.
Qed.

(** The runner of the entry asks to keep it. *)
Definition continues (completion : EntryCompletion) : bool :=
  match ec_error completion, ec_result completion with
  | None, Some r => bool_decide (rr_status r = StatusContinue)
  | _, _ => false
  end.

Lemma route_entry_lets_go descriptor lease completion rt :
  rt_wf rt → continues completion = false →
  lets_go (route_entry_completion descriptor lease completion) lease rt.
Proof.
  intros Hwf Hcont. unfold route_entry_completion. apply lets_go_bind; [by apply finalize_routed|].
  intros [n|] rt' Hrun Hwf'.
  { apply already_gone; [by apply holds_ret; apply _|done|]. exact (finalize_lets_go lease rt rt' n Hwf Hrun). }
  apply finalize_none in Hrun as [-> Hnone]. unfold continues in Hcont.
  destruct (ec_error completion); [by apply fail_lets_go|].
  destruct (ec_result completion) as [r|]; [|by apply fail_lets_go].
  apply bool_decide_eq_false in Hcont.
  destruct (_ || _) eqn:Hid; [by apply fail_lets_go|].
  apply orb_false_iff in Hid as [Hid _]. apply bool_decide_eq_false, dec_stable in Hid.
  destruct (route_result_lets_go descriptor lease r rt Hwf Hnone Hcont) as [Hok Hg].
  apply lets_go_bind; [by apply ok_attempt|]. intros res rt1 Hrun Hwf1. revert Hrun. unfold attempt.
  destruct (route_result descriptor lease r rt) as [[rt2 res2]|] eqn:Hr; [|done]. intros [= -> ->].
  destruct res as [count|e].
  - apply already_gone; [by apply holds_ret; apply _|done|by eapply Hg].
  - destruct (is_stale_completion_conflict e) eqn:Hs.
    + destruct (route_result_stale _ _ _ _ _ _ Hid Hr Hs) as [-> Hno]. by apply already_gone; [rt_walk|..].
    + split; [by apply holds_throw; [apply _|]|]. by intros ? ? [=].
Qed.

(** ** Matching completions with entries *)

Lemma index_entries_lookup leases_by_task entries : ∀ i by_id m eid idx,
  index_entries leases_by_task i entries by_id = Ok m → m !! eid = Some idx →
  by_id !! eid = Some idx
  ∨ ∃ k entry, entries !! k = Some entry ∧ be_entry_id entry = eid ∧ idx = (i + k)%nat.
Proof.
  induction entries as [|entry entries IH]; intros i by_id m eid idx; simpl; [intros [= <-]; by left|].
  destruct (_ || _); [done|]. intros Hm Hl. destruct (IH _ _ _ _ _ Hm Hl) as [H|(k & e & Hk & He & ->)].
  - apply lookup_insert_Some in H as [[<- <-]|[_ H]]; [|by left]. right. exists O, entry. split_and!; [done..|lia].
  - right. exists (S k), e. split_and!; [done..|lia].
Qed.

Lemma place_completions_lookup leases_by_task by_id expected completions : ∀ placed placed',
  place_completions leases_by_task by_id expected completions placed = Ok placed' →
  length placed' = length placed
  ∧ ∀ i c, placed' !! i = Some (Some c) →
      placed !! i = Some (Some c) ∨ (c ∈ completions ∧ by_id !! ec_entry_id c = Some i).
Proof.
  induction completions as [|c cs IH]; intros placed placed'; simpl; [intros [= <-]; auto|].
  destruct (by_id !! ec_entry_id c) as [idx|] eqn:Hid; [|done]. destruct (expected !! idx); [|done].
  destruct (_ || _); [done|]. intros Hrest.
  assert (place_completions leases_by_task by_id expected cs (<[idx:=Some c]> placed) = Ok placed') as Hr
    by (by destruct (placed !! idx) as [[]|]).
  destruct (IH _ _ Hr) as [Hlen Hl]. split; [by rewrite Hlen, length_insert|].
  intros i c' Hc. destruct (Hl i c' Hc) as [H|[H1 H2]]; [|right; split; [by right|done]].
  apply list_lookup_insert_Some in H as [(-> & [= ->] & _)|[_ H]]; [right; split; [by left|done]|by left].
Qed.

Lemma map_by_elem {A} (key : A → string) l x a : map_by key l !! x = Some a → a ∈ l ∧ key a = x.
Proof.
  unfold map_by. assert (∀ m : gmap string A, foldl (λ m y, <[key y:=y]> m) m l !! x = Some a →
    (a ∈ l ∧ key a = x) ∨ m !! x = Some a) as H.
  { induction l as [|y l IH]; intros m; simpl; [by right|]. intros [[? ?]|Hm]%IH; [left; split; [by right|done]|].
    apply lookup_insert_Some in Hm as [[<- <-]|[_ Hm]]; [left; split; [by left|done]|by right]. }
  intros [?|Hm]%H; [done|]. by rewrite lookup_empty in Hm.
Qed.

Lemma route_entries_lets_go descriptor leases leases_by_task entries lease : ∀ completed rt,
  rt_wf rt → lease ∈ leases →
  (∃ entry c, (entry, c) ∈ entries ∧ leases_by_task !! be_task_id entry = Some lease
     ∧ match c with Some c => continues c = false | None => True end) →
  lets_go (route_entries descriptor leases leases_by_task entries completed) lease rt.
Proof.
  induction entries as [|[entry c] entries IH]; intros completed rt Hwf Hin (e & c' & He & Hl & Hc);
    [by apply not_elem_of_nil in He|]. cbn [route_entries].
  destruct (leases_by_task !! be_task_id entry) as [l|] eqn:Hl0; [|by apply fail_all_lets_go].
  set (m := match c with None => _ | Some _ => _ end).
  assert (holds routed m) as Hm by (subst m; destruct c; rt_walk).
  apply elem_of_cons in He as [[= -> ->]|He].
  - assert (lets_go m lease rt) as [Hok Hg].
    { simplify_eq. subst m. destruct c; [by apply route_entry_lets_go|by apply fail_lets_go]. }
    apply lets_go_bind; [done|]. intros n rt1 Hrun Hwf1. apply already_gone; [rt_walk|done|by eapply Hg].
  - apply lets_go_bind; [by apply Hm|]. intros n rt1 _ Hwf1. apply IH; [done..|]. eauto.
Qed.

(** The lease is one the results speak about: all leases of a dispatch that failed or was
    answered for another batch, else those of an entry that is not to be continued. *)
Definition answered (completion : RunnerCompletion) (lease : TaskLease) : Prop :=
  match rcp_result completion with
  | Err _ => lease ∈ rcp_task_leases completion
  | Ok batch =>
      if decide (cb_batch_id batch ≠ rcp_batch_id completion) then lease ∈ rcp_task_leases completion
      else ∃ entry, entry ∈ rcp_expected_entries completion
             ∧ map_by tl_task_id (rcp_task_leases completion) !! be_task_id entry = Some lease
             ∧ ∀ c, c ∈ cb_results batch → ec_entry_id c = be_entry_id entry → continues c = false
  end.

Lemma route_batch_lets_go descriptor leases expected batch lease rt entry :
  rt_wf rt → entry ∈ expected → map_by tl_task_id leases !! be_task_id entry = Some lease →
  (∀ c, c ∈ cb_results batch → ec_entry_id c = be_entry_id entry → continues c = false) →
  lets_go (route_completion_batch descriptor leases expected batch) lease rt.
Proof.
  intros Hwf He Hl Hc. assert (lease ∈ leases) as Hin by (by apply map_by_elem in Hl as [? _]).
  unfold route_completion_batch.
  destruct (index_entries _ _ _ _) as [by_id|eid] eqn:Hidx; [|by apply fail_all_lets_go].
  destruct (place_completions _ _ _ _ _) as [placed|eid] eqn:Hpl; [|by apply fail_all_lets_go].
  apply place_completions_lookup in Hpl as [Hlen Hpl]. rewrite length_replicate in Hlen.
  apply list_elem_of_lookup in He as [i Hi].
  destruct (lookup_lt_is_Some_2 placed i) as [c Hci]; [rewrite Hlen; by eapply lookup_lt_Some|].
  apply route_entries_lets_go; [done..|]. exists entry, c. split_and!; [|done|].
  - apply (list_elem_of_lookup_2 _ i). by rewrite lookup_zip_with, Hi, Hci.
  - destruct c as [c|]; [|done]. destruct (Hpl i c Hci) as [H|[Hin' Hby]].
    + by apply lookup_replicate in H as [[=] _].
    + apply Hc; [done|]. destruct (index_entries_lookup _ _ _ _ _ _ _ Hidx Hby) as [H|(k & e & Hk & He & ->)].
      * by rewrite lookup_empty in H.
      * simpl in Hi. congruence.
Qed.

Lemma complete_lets_go completion lease rt :
  rt_wf rt → answered completion lease → lets_go (complete_runner_dispatch completion) lease rt.
Proof.
  intros Hwf Hans. unfold complete_runner_dispatch.
  destruct (completion_runner_id completion) as [id|]; [|split; [by apply holds_throw; [apply _|]|by intros ? ? [=]]].
  apply lets_go_bind; [by apply holds_ask; [apply _|]|]. intros ds rt0 [= <- <-] _.
  destruct (find _ _) as [d|]; [|split; [by apply holds_throw; [apply _|]|by intros ? ? [=]]].
  apply lets_go_bind; [refine ((_ : holds routed _) rt Hwf); rt_walk|]. intros [] rt1 _ Hwf1.
  match goal with |- lets_go (completed ← ?m; _) _ _ => assert (lets_go m lease rt1) as [Hok Hg] end.
  { unfold answered in Hans. destruct (rcp_result completion) as [batch|failure]; [|by apply fail_all_lets_go].
    case_decide; [by apply fail_all_lets_go|]. destruct Hans as (entry & He & Hl & Hc).
    by eapply route_batch_lets_go. }
  apply lets_go_bind; [done|]. intros n rt2 Hrun Hwf2. apply already_gone; [rt_walk|done|by eapply Hg].
Qed.

(** C3: a completed dispatch lets go of its tasks.  When accepting a completion succeeds,
    the task of every lease it answers is no longer running under that lease (or the lease
    has already run out): results that fail, that belong to another batch, that name the
    wrong entry or the wrong task, that are missing or come twice, all end the attempt;
    only an entry whose runner asks to continue keeps running. *)
Theorem completed_dispatch_releases_its_leases rt completion rt' report lease :
  rt_reachable rt → complete_runner_dispatch completion rt = Done (rt', Ok report) →
  answered completion lease → ¬ live rt' lease.
Proof. intros Hwf%rt_reachable_wf Hrun Hans. by eapply complete_lets_go. Qed.

End completions.

(** ** Witness *)

(** The lease [t1] holds after the first claim. *)
Definition t1_lease : TaskLease :=
  {| tl_lease_id := "task-lease-1-t1-1"; tl_task_id := "t1"; tl_attempt_generation := 1;
     tl_runner_id := "runner-a"; tl_executor_id := "executor:runner-a"; tl_registry_generation := 1;
     tl_acquired_at_step := 1; tl_expires_at_step := Some 11%N |}.

Lemma t1_leased : lease_of claimed_runtime "t1" = [t1_lease].
Proof. vm_compute. reflexivity. Qed.

Lemma completed_dispatch_releases_its_leases_witness :
  live claimed_runtime t1_lease
  ∧ ∃ rt' report,
      complete_runner_dispatch
        (completion_with claimed_runtime "t1" (Some (echo_runner 1)) waiting_result) claimed_runtime
      = Done (rt', Ok report) ∧ ¬ live rt' t1_lease.
Proof.
  split; [vm_compute; reflexivity|].
  set (c := completion_with claimed_runtime "t1" (Some (echo_runner 1)) waiting_result).
  assert (match complete_runner_dispatch c claimed_runtime with Done (_, Ok _) => true | _ => false end = true)
    as Hok by (vm_compute; reflexivity).
  destruct (complete_runner_dispatch c claimed_runtime) as [[rt' [report|e]]|] eqn:Hrun; [|discriminate Hok..].
  exists rt', report. split; [reflexivity|].
  apply (completed_dispatch_releases_its_leases claimed_runtime c rt' report t1_lease claimed_reachable Hrun).
  subst c. unfold answered, completion_with. cbn [rcp_result rcp_batch_id rcp_task_leases rcp_expected_entries cb_batch_id cb_results].
  rewrite decide_False; [|intros H; apply H; reflexivity]. rewrite t1_leased.
  exists (entry_of "t1"). split; [apply list_elem_of_here|]. split; [reflexivity|].
  intros c Hc _. apply list_elem_of_singleton in Hc. subst c. reflexivity.
Defined.
