(* ===== verification/ClaimTheorems.v ===== *)
(** * ClaimTheorems: what a claim hands to a runner

    [claim_runner_work] claims tasks in the pool, puts back those that conflict on a
    resource or exceed the capacity, and cuts the rest into dispatches. *)
From S2P Require Import Prelude Floats Contracts StateStore Resources Logs ResourceManager.
From S2P Require Import TaskIndexes TaskPool TaskClaiming TaskPoolInv TaskHistory TaskStates.
From S2P Require Import TaskPoolSafety TaskPoolSweep TaskCandidates TaskSelection TaskLeasing TaskPoolOps.
From S2P Require Import TaskPoolCalm ResourceInv Plugins Batches WorkBatches BatchTheorems Registry.
From S2P Require Import PlanChecks RegistryTheorems Runtime ResultRouting RunnerLoop Reload RuntimeInv.
From S2P Require Import RuntimeCancel RuntimeOps RuntimeSamples CompletionTheorems.

(** ** Chunks *)

Lemma chunks_concat {A} n fuel : ∀ l : list A,
  (0 < n)%N → (length l ≤ fuel)%nat → concat (chunks fuel n l) = l.
Proof.
  induction fuel as [|fuel IH]; intros l Hn Hl; [by destruct l; [|simpl in Hl; lia]|].
  destruct l as [|x l]; [done|]. cbn [chunks concat].
  set (size := N.to_nat _). rewrite IH; [by rewrite take_drop|done|].
  rewrite length_drop. assert (0 < size)%nat by (subst size; cbn [length]; lia). cbn [length] in *. lia.
Qed.

Lemma chunks_size {A} n fuel : ∀ l : list A,
  (0 < n)%N →
  Forall (λ c, c ≠ [] ∧ (N.of_nat (length c) ≤ n)%N) (chunks fuel n l).
Proof.
  induction fuel as [|fuel IH]; intros l Hn; [constructor|].
  destruct l as [|x l]; [constructor|]. cbn [chunks]. set (size := N.to_nat _).
  assert (0 < size)%nat by (subst size; cbn [length]; lia).
  constructor; [|by apply IH]. split; [by destruct size; [lia|]|].
  rewrite length_take. subst size. lia.
Qed.

Lemma chunks_count {A} n fuel : ∀ (l : list A) k,
  (0 < n)%N → (N.of_nat (length l) ≤ n * k)%N → (N.of_nat (length (chunks fuel n l)) ≤ k)%N.
Proof.
  induction fuel as [|fuel IH]; intros l k Hn Hl; [simpl; lia|].
  destruct l as [|x l]; [simpl; lia|]. cbn [chunks]. set (size := N.to_nat _).
  destruct (N.eq_0_gt_0_cases k) as [->|Hk]; [cbn [length] in Hl; lia|].
  assert (N.of_nat (length (chunks fuel n (drop size (x :: l)))) ≤ N.pred k)%N; [|cbn [length]; lia].
  apply IH; [done|]. rewrite length_drop.
  destruct (N.le_ge_cases (N.of_nat (length (x :: l))) n) as [H|H].
  - replace size with (length (x :: l)) by (subst size; lia). rewrite Nat.sub_diag. apply N.le_0_l.
  - replace size with (N.to_nat n) by (subst size; lia). nia.
Qed.

Section claims.
Context {serde : Serde} {dec : Decode} {runners : RunnerTrait}.
Implicit Types (rt : CoreRuntime) (p : TaskPool).

(** ** Steps that leave the pool alone *)

Definition keeps_tasks {A} (m : M A) : Prop :=
  ∀ rt rt' a, m rt = Done (rt', Ok a) →
    cr_tasks rt' = cr_tasks rt ∧ cr_current_step rt' = cr_current_step rt.

Lemma keeps_bind {A B} (m : M A) (f : A → M B) :
  keeps_tasks m → (∀ a, keeps_tasks (f a)) → keeps_tasks (m ≫= f).
Proof.
  intros Hm Hf rt rt' b (a & rt1 & H1 & H2)%bind_ok.
  destruct (Hf _ _ _ _ H2) as [-> ->]. by eapply Hm.
Qed.
Lemma keeps_ret {A} (a : A) : keeps_tasks (mret a).
Proof. by intros rt rt' b [= <-]. Qed.
Lemma keeps_ask {A} (f : CoreRuntime → A) : keeps_tasks (ask f).
Proof. by intros rt rt' b [= <-]. Qed.
Lemma keeps_event kind name subject attrs error : keeps_tasks (record_event kind name subject attrs error).
Proof. by intros rt rt' b [= <-]. Qed.
Lemma keeps_span trace_id name attrs : keeps_tasks (record_span trace_id name attrs).
Proof. intros rt rt' b. unfold record_span. destruct (trace_record _ _ _ _ _ _). by intros [= <-]. Qed.
Lemma keeps_for_each {A} (l : list A) body : (∀ x, keeps_tasks (body x)) → keeps_tasks (for_each l body).
Proof. intros Hb. induction l; simpl; [apply keeps_ret|by apply keeps_bind]. Qed.
Lemma keeps_target runner_id : keeps_tasks (take_target runner_id).
Proof.
  intros rt rt' b. unfold take_target. destruct (async_handler _ _); [by intros [= <-]|].
  destruct (take_runner _ _) as [r [runner|]]; by intros [= <-].
Qed.
Lemma keeps_modify f :
  (∀ rt, cr_tasks (f rt) = cr_tasks rt ∧ cr_current_step (f rt) = cr_current_step rt) → keeps_tasks (modify f).
Proof. intros Hf rt rt' b [= <-]. apply Hf. Qed.

Ltac keeps :=
  repeat first [apply keeps_ret|apply keeps_ask|apply keeps_event|apply keeps_span|apply keeps_target
    |by apply keeps_modify|apply keeps_for_each; intros ?|apply keeps_bind; [|intros ?]
    |match goal with |- keeps_tasks (match ?x with _ => _ end) => destruct x end].

Lemma keeps_decision descriptor decision : keeps_tasks (record_scheduler_decision descriptor decision).
Proof. unfold record_scheduler_decision. cbv zeta. keeps. Qed.

Lemma plan_decision descriptor decision rt rt' a :
  record_scheduler_decision descriptor decision rt = Done (rt', Ok a) → cr_load_plan rt' = cr_load_plan rt.
Proof.
  unfold record_scheduler_decision. cbv zeta. intros ([] & rt1 & [= <-] & H)%bind_ok.
  do 3 (apply bind_ok in H as (? & ? & [= <- <-] & H)). destruct (_ || _); [by injection H as <-|].
  apply bind_ok in H as (attrs & ? & [= <- <-] & H). apply bind_ok in H as (span & rt2 & Hspan & H).
  assert (cr_load_plan rt2 = cr_load_plan rt) as Hrt2.
  { revert Hspan. destruct (will_retain_next _); [|by intros [= <-]]. unfold record_span.
    destruct (trace_record _ _ _ _ _ _). by intros [= <-]. }
  destruct (log_is_enabled _); by injection H as <-.
Qed.

Lemma clamped_le m n decision :
  let clamped := decision_clamp_batches m (decision_clamp_to n decision) in
  (sch_dispatch_limit clamped ≤ sch_dispatch_limit decision)%N
  ∧ (db_max_entries (sch_budget clamped) ≤ db_max_entries (sch_budget decision))%N.
Proof.
  unfold decision_clamp_batches, decision_clamp_to, clamp_batches, clamp_to.
  cbn [sch_dispatch_limit sch_budget db_max_entries db_max_batches].
  split; repeat (case_decide; try lia).
Qed.

Lemma keeps_dispatch descriptor executor_id leased : keeps_tasks (build_runner_dispatch descriptor executor_id leased).
Proof. unfold build_runner_dispatch. cbv zeta. keeps. Qed.

Lemma dispatch_leases descriptor executor_id leased rt rt' d :
  build_runner_dispatch descriptor executor_id leased rt = Done (rt', Ok d) →
  rdp_task_leases d = leased.*1
  ∧ ∃ batch_id, rdp_batch d = build_work_batch (cr_current_step rt) batch_id descriptor leased.
Proof.
  unfold build_runner_dispatch. cbv zeta. intros (step & rt0 & [= <- <-] & H)%bind_ok.
  apply bind_ok in H as (plan & rt1 & _ & H). apply bind_ok in H as (traced & rt2 & _ & H).
  apply bind_ok in H as (span & rt3 & _ & H). apply bind_ok in H as (target & rt4 & _ & H).
  apply bind_ok in H as ([] & rt5 & _ & H). apply bind_ok in H as (enabled & rt6 & _ & H).
  apply bind_ok in H as ([] & rt7 & _ & [= <- <-]). split; [done|]. by eexists.
Qed.

Lemma map_each_results {A B} (f : A → M B) l : ∀ rt rt' bs,
  (∀ x, keeps_tasks (f x)) → map_each l f rt = Done (rt', Ok bs) →
  cr_tasks rt' = cr_tasks rt
  ∧ Forall2 (λ x b, ∃ r r', f x r = Done (r', Ok b) ∧ cr_current_step r = cr_current_step rt) l bs.
Proof.
  induction l as [|x l IH]; intros rt rt' bs Hf; cbn [map_each]; [by intros [= <- <-]|].
  intros (b & rt1 & H1 & H)%bind_ok. apply bind_ok in H as (bs' & rt2 & H2 & [= <- <-]).
  destruct (IH _ _ _ Hf H2) as [Ht Hall]. destruct (Hf x _ _ _ H1) as [Ht1 Hs1].
  split; [congruence|]. constructor; [by eauto|]. by rewrite <- Hs1.
Qed.

(** ** Putting tasks back *)

(** The record of a running task that is deferred at [step]. *)
Definition back (step : N) (r : TaskRecord) : TaskRecord :=
  clear_record_owner (release_record_lease (set_rec_ready_since_step step (set_rec_status Ready r))).

Lemma defer_effect p lease step p' :
  defer_leased p lease step = (p', Ok tt) →
  ∀ x, tp_tasks p' !! x
    = if decide (x = tl_task_id lease) then back step <$> tp_tasks p !! x else tp_tasks p !! x.
Proof.
  unfold defer_leased.
  match goal with |- context [mutate_record_indexed ?p _ (validated ?lease ?step ?action ?f)] =>
    destruct (mutate_validated_cases p lease step action f)
      as [[_ ->]|[(r & e & Hx & _ & ->)|(r & Hx & Hv & ->)]]; [by intros [=]|by intros [=]|] end.
  intros [= <-] x. simpl. rewrite lookup_insert. destruct (decide (x = tl_task_id lease)) as [->|Hne].
  - by rewrite decide_True, Hx by done.
  - by rewrite decide_False by done.
Qed.

Definition ids_of (leased : list (TaskLease * Task)) : list TaskId := tl_task_id <$> leased.*1.

(** The tasks of [leased] are back in the queue, the others keep their records. *)
Definition put_back (step : N) (leased : list (TaskLease * Task)) p p' : Prop :=
  ∀ x, tp_tasks p' !! x
    = if decide (x ∈ ids_of leased) then back step <$> tp_tasks p !! x else tp_tasks p !! x.

Lemma put_back_nil step p : put_back step [] p p.
Proof. intros x. by rewrite decide_False by apply not_elem_of_nil. Qed.

Lemma put_back_app step l1 l2 p p1 p2 :
  put_back step l1 p p1 → put_back step l2 p1 p2 → put_back step (l1 ++ l2) p p2.
Proof.
  unfold put_back, ids_of. intros H1 H2 x. rewrite H2, H1, !fmap_app.
  destruct (decide (x ∈ tl_task_id <$> l1.*1)), (decide (x ∈ tl_task_id <$> l2.*1));
    [rewrite decide_True by set_solver|rewrite decide_True by set_solver
    |rewrite decide_True by set_solver|rewrite decide_False by set_solver]; try done.
  by destruct (tp_tasks p !! x).
Qed.

Lemma defer_list_effect step l : ∀ rt rt',
  for_each l (λ '(lease, _), tasks_do (λ p, Done (defer_leased p lease step))) rt = Done (rt', Ok tt) →
  put_back step l (cr_tasks rt) (cr_tasks rt') ∧ cr_current_step rt' = cr_current_step rt.
Proof.
  induction l as [|[lease task] l IH]; intros rt rt'; cbn [for_each].
  { intros [= <-]. split; [apply put_back_nil|done]. }
  intros ([] & rt1 & H1 & H2)%bind_ok. apply IH in H2 as [H2 Hs].
  revert H1. unfold tasks_do. destruct (defer_leased _ _ _) as [p' res] eqn:Hd. intros [= <- ->].
  split; [|by rewrite Hs]. eapply (put_back_app step [(lease, task)]); [|exact H2].
  intros x. cbn [cr_tasks set_cr_tasks]. rewrite (defer_effect _ _ _ _ Hd x). unfold ids_of. csimpl.
  destruct (decide (x = tl_task_id lease)); [rewrite decide_True by set_solver|rewrite decide_False by set_solver];
    done.
Qed.

Lemma defer_all_effect l rt rt' :
  defer_all l rt = Done (rt', Ok tt) →
  put_back (cr_current_step rt) l (cr_tasks rt) (cr_tasks rt') ∧ cr_current_step rt' = cr_current_step rt.
Proof. unfold defer_all. intros (step & rt0 & [= <- <-] & H)%bind_ok. by apply defer_list_effect. Qed.

Lemma defer_groups_effect groups : ∀ rt rt',
  for_each groups defer_all rt = Done (rt', Ok tt) →
  put_back (cr_current_step rt) (concat groups) (cr_tasks rt) (cr_tasks rt')
  ∧ cr_current_step rt' = cr_current_step rt.
Proof.
  induction groups as [|g gs IH]; intros rt rt'; cbn [for_each concat].
  { intros [= <-]. split; [apply put_back_nil|done]. }
  intros ([] & rt1 & [H1 Hs1]%defer_all_effect & [H2 Hs2]%IH)%bind_ok. rewrite Hs1 in *.
  split; [by eapply put_back_app|congruence].
Qed.

(** ** The claim *)

(** What the pool hands out, and what becomes of the records; [claim] is what a claim makes
    of the record of a ready task. *)
Record handed (ready : TaskRecord → Prop) (claim : TaskRecord → TaskRecord)
    (leased : list (TaskLease * Task)) p p' : Prop := {
  h_nodup : NoDup (ids_of leased);
  h_running : ∀ lease task, (lease, task) ∈ leased →
    ∃ r, tp_tasks p !! tl_task_id lease = Some r ∧ ready r
      ∧ tp_tasks p' !! tl_task_id lease = Some (claim r)
      ∧ rec_lease (claim r) = Some lease ∧ rec_task (claim r) = task;
  h_others : ∀ x, x ∉ ids_of leased → tp_tasks p' !! x = tp_tasks p !! x;
}.

Lemma omap_ids p (ids : list TaskId) :
  pool_wf p → (∀ x, x ∈ ids → is_Some (tp_tasks p !! x)) →
  record_id <$> omap (λ x, tp_tasks p !! x) ids = ids.
Proof.
  intros Hwf. induction ids as [|x ids IH]; intros Hin; [done|]. csimpl.
  destruct (Hin x) as [r Hr]; [by left|]. rewrite Hr. csimpl. f_equal; [|apply IH; intros y Hy; apply Hin; by right].
  by apply (wf_rec_id _ _ (wf_records _ _ _ _ _ Hwf x r Hr)).
Qed.

Lemma claim_handed runner executor_id step gen expires p limit budget p' leased :
  pool_wf p → NoDup (rd_accepted_protocol_ids runner) → expiry_width expires →
  claim_ready_for_executor_with_budget p runner executor_id step gen limit budget expires = Done (p', leased) →
  handed (eligible runner step gen) (claimed runner executor_id step gen expires) leased p p'
  ∧ (N.of_nat (length leased) ≤ limit)%N
  ∧ ∀ b, budget = Some b → (N.of_nat (length leased) ≤ db_max_entries b)%N.
Proof.
  intros Hwf Hnd Hw Heq.
  destruct (claim_returned runner executor_id step gen expires p limit budget p' leased Hwf Hnd Hw Heq)
    as (ids & -> & _ & _ & Hsel & Ht).
  destruct Hsel as [Hids Hel Hlim Hent _ _].
  assert (∀ x, x ∈ ids → is_Some (tp_tasks p !! x)) as Hpres by (intros x (r & ? & _)%Hel; eauto).
  assert (ids_of (handout runner executor_id step gen expires <$> omap (λ x, tp_tasks p !! x) ids) = ids) as Hof.
  { unfold ids_of. rewrite <- !list_fmap_compose. rewrite <- (omap_ids p ids Hwf Hpres) at 2. done. }
  assert (length (handout runner executor_id step gen expires <$> omap (λ x, tp_tasks p !! x) ids) = length ids)
    as Hlen by (rewrite <- Hof at 2; unfold ids_of; by rewrite !length_fmap).
  split; [|rewrite Hlen; auto]. split; rewrite ?Hof; [done| |].
  - intros lease task (r & [= -> ->] & (x & Hx & Hr)%list_elem_of_omap)%list_elem_of_fmap.
    assert (record_id r = x) as Hid by (by apply (wf_rec_id _ _ (wf_records _ _ _ _ _ Hwf x r Hr))).
    change (tl_task_id (new_lease runner executor_id step gen expires r)) with (record_id r). rewrite Hid.
    destruct (Hel x Hx) as (r1 & Hr1 & ?). rewrite Hr in Hr1. injection Hr1 as <-.
    exists r. split_and!; [done|done| |done|done].
    by rewrite Ht, lookup_claimed_tasks, decide_True, Hr by done.
  - intros x Hx. by rewrite Ht, lookup_claimed_tasks, decide_False.
Qed.

Lemma chunk_leases {A} (chunks : list (list (TaskLease * A))) ds :
  Forall2 (λ c d, rdp_task_leases d = c.*1) chunks ds →
  concat (rdp_task_leases <$> ds) = (concat chunks).*1.
Proof. induction 1 as [|c d cs ds Hd _ IH]; [done|]. csimpl. by rewrite Hd, IH, fmap_app. Qed.

Definition capacity_of (descriptor : RunnerDescriptor) (decision : ScheduleDecision) rt : N :=
  N.min (N.min (db_max_batches (sch_budget decision)) (max_inflight_batches (rd_concurrency descriptor)))
    (available_dispatch_instances (cr_registry rt) (rd_runner_id descriptor)).

Definition is_kernel (descriptor : RunnerDescriptor) : bool :=
  bool_decide (rd_purity descriptor = Committer) && bool_decide (rd_runner_id descriptor = "core.kernel").

Definition dispatched_leases (dispatches : list RunnerDispatch) : list TaskLease :=
  concat (rdp_task_leases <$> dispatches).

(** The leases with the stored tasks they are for. *)
Definition with_tasks p (leases : list TaskLease) : list (TaskLease * Task) :=
  omap (λ lease, r ← tp_tasks p !! tl_task_id lease; Some (lease, rec_task r)) leases.

(** What a claim at [step] leaves of a task it took and put back: ready again since [step],
    without a lease, one attempt later. *)
Definition returned (step : N) (r : TaskRecord) : TaskRecord :=
  set_rec_attempt_generation (sat_add (rec_attempt_generation r) 1) (back step r).

(** The dispatches of a claim, as a property of the runtime before and after. *)
Record claim_ok (descriptor : RunnerDescriptor) (decision : ScheduleDecision) (capacity : N) rt rt'
    (report : RunnerLoopReport) (dispatches : list RunnerDispatch) : Prop := {
  co_count : (N.of_nat (length dispatches) ≤ capacity)%N;
  co_limit : (N.of_nat (length (dispatched_leases dispatches))
    ≤ N.min (sch_dispatch_limit decision) (db_max_entries (sch_budget decision)))%N;
  co_entries : ∀ d, d ∈ dispatches → rdp_task_leases d ≠ []
    ∧ (N.of_nat (length (rdp_task_leases d)) ≤ N.max (rbc_max_batch_entries (rd_batch descriptor)) 1)%N
    ∧ ∃ batch_id, rdp_batch d = build_work_batch (cr_current_step rt) batch_id descriptor
                                  (with_tasks (cr_tasks rt') (rdp_task_leases d));
  co_free : conflict_free (with_tasks (cr_tasks rt') (dispatched_leases dispatches));
  co_report : rep_claimed_tasks report = N.of_nat (length (dispatched_leases dispatches));
  co_distinct : NoDup (tl_task_id <$> dispatched_leases dispatches);
  co_running : ∀ lease, lease ∈ dispatched_leases dispatches →
    ∃ r r', tp_tasks (cr_tasks rt) !! tl_task_id lease = Some r
      ∧ eligible descriptor (cr_current_step rt) (plan_registry_generation (cr_load_plan rt)) r
      ∧ tp_tasks (cr_tasks rt') !! tl_task_id lease = Some r' ∧ rec_status r' = Running
      ∧ rec_lease r' = Some lease;
  co_complete : ∀ x, x ∉ tl_task_id <$> dispatched_leases dispatches →
    tp_tasks (cr_tasks rt') !! x = tp_tasks (cr_tasks rt) !! x
    ∨ ∃ r, tp_tasks (cr_tasks rt) !! x = Some r ∧ rec_status r = Ready
        ∧ tp_tasks (cr_tasks rt') !! x = Some (returned (cr_current_step rt) r);
}.

Lemma claim_ok_nothing descriptor decision capacity rt rt' :
  tp_tasks (cr_tasks rt') = tp_tasks (cr_tasks rt) →
  claim_ok descriptor decision capacity rt rt' empty_runner_loop_report [].
Proof.
  intros Ht. split; simpl.
  - lia.
  - lia.
  - intros d Hd. by apply not_elem_of_nil in Hd.
  - by intros i j x y _ Hx.
  - done.
  - constructor.
  - intros d Hd. by apply not_elem_of_nil in Hd.
  - intros x _. rewrite Ht. by left.
Qed.

Lemma conflict_free_take n group : conflict_free group → conflict_free (take n group).
Proof.
  intros Hg i j x y Hij [Hx _]%lookup_take_Some [Hy _]%lookup_take_Some. by eapply Hg.
Qed.

Lemma with_tasks_pairs p (l : list (TaskLease * Task)) :
  (∀ lease task, (lease, task) ∈ l → ∃ r, tp_tasks p !! tl_task_id lease = Some r ∧ rec_task r = task) →
  with_tasks p l.*1 = l.
Proof.
  induction l as [|[lease task] l IH]; intros Hl; [done|]. unfold with_tasks in *. csimpl.
  destruct (Hl lease task) as (r & Hr & Ht); [by left|]. rewrite Hr. csimpl. rewrite Ht. f_equal.
  apply IH. intros ? ? Hin. apply Hl. by right.
Qed.

Lemma elem_of_chunk {A} n fuel (l c : list A) x :
  (0 < n)%N → (length l ≤ fuel)%nat → c ∈ chunks fuel n l → x ∈ c → x ∈ l.
Proof.
  intros Hn Hl Hc Hx. rewrite <- (chunks_concat n fuel l Hn Hl).
  apply list_elem_of_In, in_concat. exists c. by rewrite <- !list_elem_of_In.
Qed.

(** The leased tasks [out] that are dispatched, those put back, and where they stand. *)
Section dispatched.
Context (descriptor : RunnerDescriptor) (executor_id : ExecutorId) (expires : option N) (rt0 rt : CoreRuntime)
  (leased out kept : list (TaskLease * Task)) (p' : TaskPool).
#[local] Abbreviation step := (cr_current_step rt0).
#[local] Abbreviation gen := (plan_registry_generation (cr_load_plan rt0)).
#[local] Abbreviation claim := (claimed descriptor executor_id step gen expires).
Hypothesis (Hhand : handed (eligible descriptor step gen) claim leased (cr_tasks rt0) (cr_tasks rt))
  (Hperm : leased ≡ₚ out ++ kept) (Hback : put_back step kept (cr_tasks rt) p').

Lemma out_distinct : NoDup (ids_of out) ∧ ∀ x, x ∈ ids_of out → x ∉ ids_of kept.
Proof using Hhand Hperm.
  pose proof (h_nodup _ _ _ _ _ Hhand) as Hnd. unfold ids_of in *. rewrite Hperm, !fmap_app in Hnd.
  by apply NoDup_app in Hnd as (? & ? & _).
Qed.

Lemma out_running lease task :
  (lease, task) ∈ out →
  ∃ r, tp_tasks (cr_tasks rt0) !! tl_task_id lease = Some r ∧ eligible descriptor step gen r
    ∧ tp_tasks p' !! tl_task_id lease = Some (claim r) ∧ rec_lease (claim r) = Some lease
    ∧ rec_task (claim r) = task.
Proof using Hhand Hperm Hback.
  intros Hin. destruct (h_running _ _ _ _ _ Hhand lease task) as (r & ? & ? & Hr & ? & ?).
  { rewrite Hperm. apply elem_of_app. by left. }
  exists r. split_and!; [done|done| |done|done]. rewrite Hback, decide_False; [done|].
  apply out_distinct. unfold ids_of. apply list_elem_of_fmap. exists lease. split; [done|].
  apply list_elem_of_fmap. by exists (lease, task).
Qed.

Lemma kept_returned x :
  x ∉ ids_of out →
  tp_tasks p' !! x = tp_tasks (cr_tasks rt0) !! x
  ∨ ∃ r, tp_tasks (cr_tasks rt0) !! x = Some r ∧ rec_status r = Ready
      ∧ tp_tasks p' !! x = Some (returned step r).
Proof using Hhand Hperm Hback.
  intros Hout. rewrite Hback. case_decide as Hin.
  - right. apply list_elem_of_fmap in Hin as (lease0 & -> & ([lease task] & -> & Hin)%list_elem_of_fmap).
    cbn [fst]. destruct (h_running _ _ _ _ _ Hhand lease task) as (r & Hr & [Hst _] & -> & _).
    { rewrite Hperm. apply elem_of_app. by right. }
    exists r. done.
  - left. apply (h_others _ _ _ _ _ Hhand). unfold ids_of in *. rewrite Hperm, !fmap_app. by apply not_elem_of_app.
Qed.
End dispatched.

(** Cutting the first group into dispatches and putting everything else back. *)
Lemma dispatched_ok descriptor decision executor_id expires max_batches leased group groups rt0 rt rt1 rt2 rt' ds :
  let step := cr_current_step rt0 in
  let gen := plan_registry_generation (cr_load_plan rt0) in
  let chunk_size := N.max (rbc_max_batch_entries (rd_batch descriptor)) 1 in
  let dispatched := N.min (N.of_nat (length group)) (sat_mul chunk_size max_batches) in
  handed (eligible descriptor step gen) (claimed descriptor executor_id step gen expires) leased
    (cr_tasks rt0) (cr_tasks rt) →
  cr_current_step rt = step →
  (N.of_nat (length leased) ≤ N.min (sch_dispatch_limit decision) (db_max_entries (sch_budget decision)))%N →
  split_ok leased (group :: groups) →
  for_each groups defer_all rt = Done (rt1, Ok tt) →
  defer_all (drop (N.to_nat dispatched) group) rt1 = Done (rt2, Ok tt) →
  map_each (chunks (length group) chunk_size (take (N.to_nat dispatched) group))
    (build_runner_dispatch descriptor executor_id) rt2 = Done (rt', Ok ds) →
  claim_ok descriptor decision max_batches rt0 rt' (mkRunnerLoopReport dispatched 0) ds.
Proof.
  intros step gen chunk_size dispatched Hhand Hstep Hlim [Hcat _ Hfree _] [H1 Hs1]%defer_groups_effect
    [H2 Hs2]%defer_all_effect Hmap.
  assert (0 < chunk_size)%N as Hpos by (subst chunk_size; lia).
  apply map_each_results in Hmap as [Ht Hall]; [|apply keeps_dispatch].
  set (out := take (N.to_nat dispatched) group) in *. set (kept := drop (N.to_nat dispatched) group) in *.
  assert (length out ≤ length group)%nat as Hout by (subst out; rewrite length_take; lia).
  assert (dispatched_leases ds = out.*1) as Hconcat.
  { rewrite <- (chunks_concat chunk_size (length group) out Hpos Hout).
    apply chunk_leases. eapply Forall2_impl; [exact Hall|]. by intros c d (r & r' & [? _]%dispatch_leases & _). }
  assert (leased ≡ₚ out ++ (concat groups ++ kept)) as Hperm.
  { rewrite <- Hcat. simpl. rewrite <- (take_drop (N.to_nat dispatched) group). fold out kept.
    rewrite <- app_assoc. apply Permutation_app_head, Permutation_app_comm. }
  rewrite Hs1, Hstep in H2. rewrite Hstep in H1. pose proof (put_back_app _ _ _ _ _ _ H1 H2) as Hback.
  rewrite <- Ht in Hback.
  pose proof (out_running descriptor executor_id expires rt0 rt leased out _ _ Hhand Hperm Hback) as Hrun.
  assert (length out = N.to_nat dispatched) as Hlen by (subst out; rewrite length_take; subst dispatched; lia).
  split; rewrite ?Hconcat.
  - rewrite <- (Forall2_length _ _ _ Hall). apply chunks_count; [done|]. rewrite Hlen.
    subst dispatched. unfold sat_mul. lia.
  - rewrite length_fmap. apply Permutation_length in Hperm. rewrite length_app in Hperm. lia.
  - intros d (i & Hd)%list_elem_of_lookup.
    destruct (Forall2_lookup_r _ _ _ _ _ Hall Hd) as (c & Hc & r & r' & [Hl [batch_id Hb]]%dispatch_leases & Hsr).
    pose proof (chunks_size chunk_size (length group) out Hpos) as Hsz.
    destruct (Forall_lookup_1 _ _ _ _ Hsz Hc) as [Hne Hle].
    rewrite Hl, length_fmap. split_and!; [by intros ?%fmap_nil_inv|done|]. exists batch_id.
    rewrite Hb, with_tasks_pairs; [by rewrite Hsr, Hs2, Hs1, Hstep|]. intros lease task Hin.
    destruct (Hrun lease task) as (r0 & _ & _ & ? & _ & ?); [|eauto].
    eapply elem_of_chunk; [exact Hpos|exact Hout|by eapply list_elem_of_lookup_2|done].
  - rewrite with_tasks_pairs; [apply Forall_cons in Hfree as [Hg _]; by apply conflict_free_take|].
    intros lease task Hin. destruct (Hrun lease task Hin) as (r0 & _ & _ & ? & _ & ?). eauto.
  - simpl. rewrite length_fmap, Hlen. lia.
  - by eapply out_distinct.
  - intros lease0 ([lease task] & -> & Hin)%list_elem_of_fmap.
    cbn [fst]. destruct (Hrun _ task Hin) as (r & ? & ? & ? & ? & _). by exists r, (claimed descriptor executor_id step gen expires r).
  - by apply (kept_returned descriptor executor_id expires rt0 rt leased out _ _ Hhand Hperm Hback).
Qed.

(** C4: a claim is accounted for.  The dispatches a runner gets are no more than its
    schedule decision, its concurrency and its free instances allow, together they have no
    more entries than the decision and its budget allow, none is empty or larger than the
    runner's batches, and the batch of each is built from the stored tasks of its leases.
    The stored tasks of all dispatches write no resource twice, and each task was eligible,
    is named once and runs under exactly the lease that is handed out.  Every other task is
    as it was, or was taken and is ready again, without a lease. *)
Theorem claims_are_accounted_for rt descriptor decision expires rt' report dispatches :
  rt_reachable rt → descriptor ∈ registry_descriptors (cr_registry rt) → expiry_width expires →
  is_kernel descriptor = false →
  claim_runner_work descriptor decision expires rt = Done (rt', Ok (report, dispatches)) →
  claim_ok descriptor decision (capacity_of descriptor decision rt) rt rt' report dispatches.
Proof.
  intros Hwf%rt_reachable_wf Hd Hw Hker. pose proof (registry_descriptors_ok rt descriptor Hwf Hd) as Hnd.
  unfold claim_runner_work. intros (available & rt0 & [= <- <-] & H)%bind_ok. fold (capacity_of descriptor decision rt) in H.
  cbv zeta in H. set (max_batches := capacity_of descriptor decision rt) in *.
  set (clamped := decision_clamp_batches _ _) in H.
  apply bind_ok in H as ([] & rt1 & Hdec & H). pose proof (keeps_decision _ _ _ _ _ Hdec) as [Ht1 Hs1].
  pose proof (plan_decision _ _ _ _ _ Hdec) as Hp1.
  case_decide; [injection H as <- <- <-; apply claim_ok_nothing; by rewrite Ht1|].
  apply bind_ok in H as (step & rt2 & [= <- <-] & H). apply bind_ok in H as (gen & rt2 & [= <- <-] & H).
  apply bind_ok in H as (leased & rt2 & Hclaim & H). revert Hclaim. unfold tasks_run, tasks_do.
  destruct (claim_ready_for_executor_with_budget _ _ _ _ _ _ _ _) as [[p' l]|] eqn:Hc; [|done].
  cbn [mbind outcome_bind]. intros [= <- ->]. rewrite Ht1, Hs1, Hp1 in Hc.
  apply claim_handed in Hc as (Hc & Hlim & Hent); [|apply Hwf|done|done]. specialize (Hent _ eq_refl).
  assert (N.of_nat (length leased) ≤ N.min (sch_dispatch_limit decision) (db_max_entries (sch_budget decision)))%N
    as Hle by (pose proof (clamped_le max_batches
      (sat_mul (rbc_max_batch_entries (rd_batch descriptor)) max_batches) decision) as Hcl;
      cbv zeta in Hcl; subst clamped; lia).
  destruct (is_empty leased) eqn:He.
  { injection H as <- <- <-. destruct leased; [|done]. apply claim_ok_nothing. simpl. apply map_eq. intros x.
    apply (h_others _ _ _ _ _ Hc). apply not_elem_of_nil. }
  unfold is_kernel in Hker. rewrite Hker in H.
  pose proof (split_ok_all leased) as Hsplit.
  destruct (split_leased_tasks_by_resource_conflict leased) as [|group groups]; [done|].
  apply bind_ok in H as ([] & rt3 & Hg & H). apply bind_ok in H as ([] & rt4 & Hb & H).
  apply bind_ok in H as (ds & rt5 & Hm & [= <- <- <-]).
  by apply (dispatched_ok _ _ _ _ _ leased group groups rt (set_cr_tasks p' rt1) rt3 rt4 rt5 ds Hc).
Qed.

End claims.

(** ** Witness *)

Definition queued_runtime : CoreRuntime :=
  after_ops [OpSubmitTask (demo_task "t1" "echo"); OpSubmitTask (demo_task "t2" "echo")] booted.

Lemma queued_reachable : rt_reachable queued_runtime.
Proof. reached. Qed.

(** Two tasks are queued, the runner has one instance and takes one at a time. *)
Lemma claims_are_accounted_for_witness :
  ∃ rt' report dispatches,
    claim_runner_work (echo_runner 1) (ScheduleDecision_new "demo" 2 "queued") (Some 11%N) queued_runtime
    = Done (rt', Ok (report, dispatches))
    ∧ (N.of_nat (length dispatches) ≤ 1)%N
    ∧ (∀ x, x ∉ tl_task_id <$> dispatched_leases dispatches →
         tp_tasks (cr_tasks rt') !! x = tp_tasks (cr_tasks queued_runtime) !! x
         ∨ ∃ r, tp_tasks (cr_tasks queued_runtime) !! x = Some r ∧ rec_status r = Ready
             ∧ tp_tasks (cr_tasks rt') !! x = Some (returned (cr_current_step queued_runtime) r))
    ∧ task_statuses rt' ["t1"; "t2"] = [Some Running; Some Ready].
Proof.
  set (decision := ScheduleDecision_new "demo" 2 "queued").
  assert (match claim_runner_work (echo_runner 1) decision (Some 11%N) queued_runtime with
          | Done (rt', Ok _) => task_statuses rt' ["t1"; "t2"]
          | _ => []
          end = [Some Running; Some Ready]) as Hst by (vm_compute; reflexivity).
  assert (capacity_of (echo_runner 1) decision queued_runtime = 1%N) as Hcap by (vm_compute; reflexivity).
  assert (registry_descriptors (cr_registry queued_runtime) = [kernel_runner; echo_runner 1; mail_runner 1]) as Hds
    by (vm_compute; reflexivity).
  destruct (claim_runner_work (echo_runner 1) decision (Some 11%N) queued_runtime)
    as [[rt' [[report ds]|e]]|] eqn:Hrun; [|discriminate Hst..].
  destruct (claims_are_accounted_for queued_runtime (echo_runner 1) decision (Some 11%N) rt' report ds
    queued_reachable) as [Hcount _ _ _ _ _ _ Hall].
  - rewrite Hds. apply list_elem_of_further, list_elem_of_here.
  - intros e [= <-]. vm_compute. discriminate.
  - reflexivity.
  - exact Hrun.
  - exists rt', report, ds. split; [reflexivity|]. split; [rewrite Hcap in Hcount; exact Hcount|].
    split; [exact Hall|exact Hst].
Defined.
