(* ===== verification/ReloadTheorems.v ===== *)
(** * ReloadTheorems: what a reload leaves behind

    A reload that succeeds has switched everything to the new generation; one that is
    refused has changed nothing.  Past that point an error is not undone: the last section
    shows what is lost then. *)
From S2P Require Import Prelude Floats Contracts StateStore Resources Logs ResourceManager.
From S2P Require Import TaskIndexes TaskPool TaskClaiming TaskPoolInv TaskHistory TaskStates.
From S2P Require Import TaskPoolSafety TaskPoolSamples Plugins Batches WorkBatches.
From S2P Require Import Registry PlanChecks Runtime ResultRouting RunnerLoop Reload RuntimeInv.
From S2P Require Import RuntimeCancel RuntimeOps RuntimeSamples CompletionTheorems.

Section reloads.
Context {serde : Serde} {dec : Decode} {runners : RunnerTrait}.
Implicit Types (rt : CoreRuntime) (plan : RuntimeLoadPlan).

(** The checks before anything is changed. *)
Definition preflight plan (l : list Runner) (handlers : list AsyncHandler) rt
    : RuntimeResult (ReloadDecision * RunnerRegistry) :=
  match validate_runtime_descriptors plan ((runner_descriptor <$> l) ++ (handler_descriptor <$> handlers)) with
  | Err e => Err e
  | Ok _ =>
      match decide_reload plan rt with
      | Err e => Err e
      | Ok decision =>
          match build_registry (plan_registry_generation plan) l handlers with
          | Err e => Err e
          | Ok registry => Ok (decision, registry)
          end
      end
  end.

(** ** Before the switch *)

(** Running tasks may have been put back in the queue at [step]; the others are as before. *)
Definition requeued (step : N) (p p' : TaskPool) : Prop :=
  ∀ x, tp_tasks p' !! x = tp_tasks p !! x
    ∨ ∃ r, tp_tasks p !! x = Some r ∧ rec_status r = Running ∧ tp_tasks p' !! x = Some (make_ready step r).

Lemma requeued_trans step p1 p2 p3 : requeued step p1 p2 → requeued step p2 p3 → requeued step p1 p3.
Proof.
  intros H12 H23 x. destruct (H23 x) as [->|(r & Hr & Hrun & Hx)]; [done|].
  destruct (H12 x) as [Heq|(r1 & _ & _ & Hx1)]; [right; exists r; by rewrite <- Heq|].
  rewrite Hr in Hx1. by injection Hx1 as ->.
Qed.

Lemma cancel_invocation_effect p runner_id invocation_id step p' n :
  pool_wf p → cancel_running_invocation p runner_id invocation_id step = Done (p', n) →
  pool_wf p' ∧ requeued step p p'.
Proof.
  intros Hwf Hrun. split.
  { destruct (cancel_running_invocation_safe p runner_id invocation_id step Hwf) as (q & m & Hq & Hwf' & _).
    congruence. }
  revert Hrun. unfold cancel_running_invocation.
  destruct (find_invocation p runner_id invocation_id) as [x|] eqn:Hf; [|intros [= <- _]; by left].
  apply find_invocation_Some in Hf as (r & lease & Hx & Hrun & _ & Hl & _); [|done].
  rewrite mutate_record_indexed_eq, Hx. simpl. rewrite Hl. intros [= <- _] y. simpl.
  rewrite lookup_insert. case_decide as Hy; [subst; right; eauto|by left].
Qed.

(** What the steps before the switch leave alone: the plan and the clock; the tasks but for
    running ones that are put back; a generation that starts to drain is the active one. *)
Record held rt rt' : Prop := {
  he_plan : cr_load_plan rt' = cr_load_plan rt;
  he_step : cr_current_step rt' = cr_current_step rt;
  he_wf : pool_wf (cr_tasks rt');
  he_tasks : requeued (cr_current_step rt) (cr_tasks rt) (cr_tasks rt');
  he_draining : ∀ d, d ∈ cr_draining_generations rt' → d ∈ cr_draining_generations rt
    ∨ dg_registry_generation d = plan_registry_generation (cr_load_plan rt);
}.

Definition holding {A} (m : M A) : Prop :=
  ∀ rt rt' a, pool_wf (cr_tasks rt) → m rt = Done (rt', Ok a) → held rt rt'.

Lemma held_refl rt rt' :
  pool_wf (cr_tasks rt) → cr_load_plan rt' = cr_load_plan rt → cr_current_step rt' = cr_current_step rt →
  cr_tasks rt' = cr_tasks rt → cr_draining_generations rt' = cr_draining_generations rt → held rt rt'.
Proof.
  intros Hwf Hp Hs Ht Hd. split; [done|done|by rewrite Ht|intros x; left; by rewrite Ht|].
  rewrite Hd. by left.
Qed.

Lemma held_trans rt1 rt2 rt3 : held rt1 rt2 → held rt2 rt3 → held rt1 rt3.
Proof.
  intros [Hp Hs Hw Ht Hd] [Hp' Hs' Hw' Ht' Hd']. split; [congruence|congruence|done| |].
  - rewrite Hs in Ht'. by eapply requeued_trans.
  - intros d [Hin|Hg]%Hd'; [by apply Hd|right; congruence].
Qed.

Lemma holding_bind {A B} (m : M A) (f : A → M B) : holding m → (∀ a, holding (f a)) → holding (m ≫= f).
Proof.
  intros Hm Hf rt rt' b Hwf (a & rt1 & H1 & H2)%bind_ok. pose proof (Hm _ _ _ Hwf H1) as Hh.
  eapply held_trans; [exact Hh|]. eapply Hf; [apply Hh|exact H2].
Qed.
Lemma holding_ret {A} (a : A) : holding (mret a).
Proof. intros rt rt' b Hwf [= <-]. by apply held_refl. Qed.
Lemma holding_ask {A} (f : CoreRuntime → A) : holding (ask f).
Proof. intros rt rt' b Hwf [= <-]. by apply held_refl. Qed.
Lemma holding_check {A} (f : CoreRuntime → RuntimeResult A) : holding (check f).
Proof. intros rt rt' b Hwf [= <- _]. by apply held_refl. Qed.
Lemma holding_event kind name subject attrs error : holding (record_event kind name subject attrs error).
Proof. intros rt rt' b Hwf [= <-]. by apply held_refl. Qed.
Lemma holding_registry {A} (f : RunnerRegistry → RunnerRegistry * RuntimeResult A) : holding (registry_do f).
Proof. intros rt rt' b Hwf. unfold registry_do. destruct (f _). intros [= <-]. by apply held_refl. Qed.
Lemma holding_modify f :
  (∀ rt, cr_load_plan (f rt) = cr_load_plan rt ∧ cr_current_step (f rt) = cr_current_step rt ∧
     cr_tasks (f rt) = cr_tasks rt ∧ cr_draining_generations (f rt) = cr_draining_generations rt) →
  holding (modify f).
Proof. intros Hf rt rt' b Hwf [= <-]. destruct (Hf rt) as (?&?&?&?). by apply held_refl. Qed.
Lemma holding_for_each {A} (l : list A) body : (∀ x, holding (body x)) → holding (for_each l body).
Proof. intros Hb. induction l; simpl; [apply holding_ret|by apply holding_bind]. Qed.

Ltac hold :=
  repeat first [apply holding_ret|apply holding_ask|apply holding_event|apply holding_registry
    |apply holding_check|by apply holding_modify|apply holding_for_each; intros ?|apply holding_bind; [|intros ?]
    |match goal with |- holding (match ?x with _ => _ end) => destruct x end].

Lemma holding_cancel {A} runner_id invocation_id (k : N → M A) :
  (∀ n, holding (k n)) →
  holding (step ← ask cr_current_step;
           n ← tasks_run (λ p, cancel_running_invocation p runner_id invocation_id step); k n).
Proof.
  intros Hk rt rt' b Hwf (step & rt0 & [= <- <-] & H)%bind_ok. apply bind_ok in H as (n & rt1 & H1 & H2).
  revert H1. unfold tasks_run, tasks_do.
  destruct (cancel_running_invocation _ _ _ _) as [[p' m]|] eqn:Hc; [|done]. intros [= <- ->].
  apply cancel_invocation_effect in Hc as [Hwf' Hreq]; [|done].
  eapply held_trans; [|by eapply Hk; [|exact H2]]. split; simpl; [done|done|done|done|by left].
Qed.

Lemma holding_settle dispositions : holding (settle_invocations dispositions).
Proof.
  unfold settle_invocations. apply holding_for_each. intros d. destruct (must_drain d); [apply holding_event|].
  apply holding_bind; [apply holding_registry|intros _]. apply holding_cancel. intros n. apply holding_event.
Qed.

Lemma holding_take : holding take_registry.
Proof. unfold take_registry. hold. Qed.

(** The old registry starts to drain, or is disposed of at once. *)
Lemma retire_held (drain : bool) ids old_registry rt rt' :
  pool_wf (cr_tasks rt) →
  (if drain then
     plugin_ids ← ask (λ rt, list_to_set (pm_plugin_id <$> plan_plugins (cr_load_plan rt)));
     push_draining (mkDrainingGeneration (plan_registry_generation (cr_load_plan rt)) ids plugin_ids old_registry)
   else
     _ ← check (λ _, (dispose_all old_registry).2);
     mark_generation_phase (plan_registry_generation (cr_load_plan rt)) PhaseDisposed) rt = Done (rt', Ok tt) →
  held rt rt'.
Proof.
  intros Hwf. destruct drain.
  - intros (plugin_ids & rt0 & [= <- <-] & [= <-])%bind_ok. split; simpl; [done|done|done|by left|].
    intros d [?| ->%list_elem_of_singleton]%elem_of_app; [by left|by right].
  - assert (holding (_ ← check (λ _ : CoreRuntime, (dispose_all old_registry).2);
      mark_generation_phase (plan_registry_generation (cr_load_plan rt)) PhaseDisposed)) as Hh
      by (unfold mark_generation_phase; hold).
    by apply Hh.
Qed.

(** ** Settling draining generations *)

(** What settling may change: the draining list, and the phase of states of the generations
    that were draining, to disposed. *)
Definition only_disposes (generations : list N) (s s' : PluginGenerationState) : Prop :=
  gs_plugin_id s' = gs_plugin_id s ∧ gs_generation s' = gs_generation s
  ∧ (gs_phase s' = gs_phase s ∨ (gs_phase s' = PhaseDisposed ∧ gs_generation s ∈ generations)).

(** Everything but the states and the draining list is as it was. *)
Record settled (generations : list N) rt rt' : Prop := {
  se_same : rt' = set_cr_draining_generations (cr_draining_generations rt')
                    (set_cr_generation_states (cr_generation_states rt') rt);
  se_states : Forall2 (only_disposes generations) (cr_generation_states rt) (cr_generation_states rt');
}.

Lemma only_disposes_refl gens l : Forall2 (only_disposes gens) l l.
Proof. induction l; constructor; [|done]. split_and!; [done|done|by left]. Qed.

Lemma only_disposes_trans gens l1 l2 l3 :
  Forall2 (only_disposes gens) l1 l2 → Forall2 (only_disposes gens) l2 l3 → Forall2 (only_disposes gens) l1 l3.
Proof.
  intros H12. revert l3. induction H12 as [|s1 s2 l1 l2 (H1 & H2 & H3) _ IH]; intros l3 H23; inversion H23
    as [|? s3 ? l3' (H4 & H5 & H6)]; subst; constructor; [|by apply IH].
  split_and!; [congruence|congruence|]. destruct H6 as [->|[? ?]]; [done|right]. by rewrite <- H2.
Qed.

Lemma settled_refl gens rt : settled gens rt rt.
Proof. split; [by destruct rt|apply only_disposes_refl]. Qed.

Lemma settled_trans gens rt1 rt2 rt3 : settled gens rt1 rt2 → settled gens rt2 rt3 → settled gens rt1 rt3.
Proof.
  intros [-> H12] [-> H23]. split; [done|]. simpl in *. by eapply only_disposes_trans.
Qed.

Lemma mark_disposed gens generation plugin_ids rt rt' :
  generation ∈ gens →
  mark_generation_phase_for_plugins generation plugin_ids PhaseDisposed rt = Done (rt', Ok tt) → settled gens rt rt'.
Proof.
  intros Hg [= <-]. split; [by destruct rt|]. simpl. apply Forall2_fmap_r, Forall_Forall2_diag, Forall_true.
  intros s. unfold compose, only_disposes. case_decide as Hs; simpl; [|auto]. destruct Hs as [-> _]. auto.
Qed.

Lemma marks_disposed gens (marks : list (N * gset PluginId)) : ∀ rt rt',
  (∀ m, m ∈ marks → m.1 ∈ gens) →
  for_each marks (λ '(generation, plugin_ids),
    mark_generation_phase_for_plugins generation plugin_ids PhaseDisposed) rt = Done (rt', Ok tt) →
  settled gens rt rt'.
Proof.
  induction marks as [|[g ids] marks IH]; intros rt rt' Hm; cbn [for_each]; [intros [= <-]; apply settled_refl|].
  intros ([] & rt1 & H1%(mark_disposed gens) & H2%IH)%bind_ok; [by eapply settled_trans|..].
  - intros m Hin. apply Hm. by right.
  - apply (Hm (g, ids)). by left.
Qed.

Lemma settle_loop_marks p draining : ∀ remaining disposed marks res,
  settle_loop p draining remaining disposed marks = Ok res →
  ∀ m, m ∈ res.2 → m ∈ marks ∨ m.1 ∈ dg_registry_generation <$> draining.
Proof.
  induction draining as [|d draining IH]; intros remaining disposed marks res; simpl; [intros [= <-]; by left|].
  destruct (still_running p d).
  - intros H m [?|?]%(IH _ _ _ _ H); [by left|right; by right].
  - destruct (dispose_all _).2; [|done]. intros H m [[?| ->%list_elem_of_singleton]%elem_of_app|?]%(IH _ _ _ _ H);
      [by left|right; by left|right; by right].
Qed.

Lemma settle_settled rt rt' bag :
  settle_draining_generations rt = Done (rt', Ok bag) →
  settled (dg_registry_generation <$> cr_draining_generations rt) rt rt'.
Proof.
  unfold settle_draining_generations. intros (draining & rt0 & [= <- <-] & H)%bind_ok.
  apply bind_ok in H as ([] & rt1 & [= <-] & H). apply bind_ok in H as (settled_ & rt1 & [= <- <-] & H).
  simpl in H. destruct (settle_loop _ _ _ _ _) as [[[remaining disposed] marks]|] eqn:Hl; [|done].
  apply bind_ok in H as ([] & rt1 & [= <-] & H). apply bind_ok in H as ([] & rt2 & Hm & [= <- <-]).
  apply (marks_disposed (dg_registry_generation <$> cr_draining_generations rt)) in Hm as [Hs Hst].
  - split; [rewrite Hs; by destruct rt|exact Hst].
  - intros m Hin. by destruct (settle_loop_marks _ _ _ _ _ _ Hl m Hin) as [?%not_elem_of_nil|].
Qed.

(** ** Switching *)

(** The number of the new generation is not that of the active or of a draining one. *)
Definition fresh_generation plan rt : Prop :=
  plan_registry_generation plan ≠ plan_registry_generation (cr_load_plan rt)
  ∧ ∀ d, d ∈ cr_draining_generations rt → dg_registry_generation d ≠ plan_registry_generation plan.

Record switched plan registry rt rt' : Prop := {
  sw_plan : cr_load_plan rt' = plan;
  sw_registry : cr_registry rt' = registry ∧ reg_generation registry = plan_registry_generation plan;
  sw_surfaces : cr_surfaces rt' = plan_contract_surfaces plan;
  sw_bindings : cr_handler_bindings rt' = from_load_plan plan;
  sw_classes : cr_protocol_classes rt' = protocol_classes_for_plan plan;
  sw_tasks : ∀ x,
    let rebind := rebind_record (plan_registry_generation (cr_load_plan rt)) (plan_registry_generation plan) in
    tp_tasks (cr_tasks rt') !! x = rebind <$> tp_tasks (cr_tasks rt) !! x
    ∨ ∃ r, tp_tasks (cr_tasks rt) !! x = Some r ∧ rec_status r = Running
        ∧ tp_tasks (cr_tasks rt') !! x = Some (rebind (make_ready (cr_current_step rt) r));
  sw_active : ∀ s, s ∈ cr_generation_states rt' → gs_phase s = PhaseActive →
    gs_generation s = plan_registry_generation plan;
  sw_activated : fresh_generation plan rt → ∀ s, s ∈ cr_generation_states rt' →
    gs_generation s = plan_registry_generation plan → gs_phase s = PhaseActive;
  sw_present : ∀ plugin, plugin ∈ plan_plugins plan → ∃ s, s ∈ cr_generation_states rt'
    ∧ gs_plugin_id s = pm_plugin_id plugin ∧ gs_generation s = plan_registry_generation plan;
}.

Lemma add_states_elem new : ∀ states s,
  s ∈ add_states new states → s ∈ states ∨ s ∈ new.
Proof.
  unfold add_states. induction new as [|n new IH]; intros states s; simpl; [by left|].
  intros [H|H]%IH; [|by right; right]. destruct (existsb _ _); [by left|].
  apply elem_of_app in H as [H|H%list_elem_of_singleton]; [by left|]. subst. right. by left.
Qed.

Lemma add_states_old new : ∀ states s, s ∈ states → s ∈ add_states new states.
Proof.
  unfold add_states. induction new as [|n new IH]; intros states s Hs; simpl; [done|].
  apply IH. destruct (existsb _ _); [done|]. apply elem_of_app. by left.
Qed.

Lemma add_states_covers new : ∀ states s, s ∈ new →
  ∃ s', s' ∈ add_states new states ∧ gs_plugin_id s' = gs_plugin_id s ∧ gs_generation s' = gs_generation s.
Proof.
  induction new as [|n new IH]; intros states s; [by intros ?%not_elem_of_nil|].
  intros [-> | Hs]%elem_of_cons; [|apply IH; done].
  unfold add_states. simpl. fold (add_states new). destruct (existsb _ states) eqn:He.
  - apply existsb_exists in He as (s' & Hin & Hsame). apply list_elem_of_In in Hin. exists s'.
    unfold same_generation in Hsame. rewrite andb_true_iff, !bool_decide_eq_true in Hsame.
    split; [by apply add_states_old|done].
  - exists n. split; [|done]. apply add_states_old, elem_of_app. right. by left.
Qed.

Lemma active_states rt rt' :
  set_active_generation_states rt = Done (rt', Ok tt) →
  (∀ s, s ∈ cr_generation_states rt' →
     gs_phase s = PhaseActive ↔ gs_generation s = plan_registry_generation (cr_load_plan rt))
  ∧ (∀ plugin, plugin ∈ plan_plugins (cr_load_plan rt) → ∃ s, s ∈ cr_generation_states rt'
       ∧ gs_plugin_id s = pm_plugin_id plugin
       ∧ gs_generation s = plan_registry_generation (cr_load_plan rt)).
Proof.
  intros [= <-]. cbn [cr_generation_states set_cr_generation_states]. split.
  - intros s [(s0 & -> & _)%list_elem_of_fmap|(plugin & -> & _)%list_elem_of_fmap]%add_states_elem; [|done].
    unfold activate. case_decide; [done|]. case_decide; simpl; [done|]. split; congruence.
  - intros plugin Hp. apply (add_states_covers _ _
      (mkPluginGenerationState (pm_plugin_id plugin) (plan_registry_generation (cr_load_plan rt)) PhaseActive)).
    apply list_elem_of_fmap. eauto.
Qed.

Lemma build_registry_generation generation l handlers r :
  build_registry generation l handlers = Ok r → reg_generation r = generation.
Proof.
  unfold build_registry. destruct (register_all _ _); [|done]. destruct (register_all_handlers _ _); [|done].
  destruct (validate_instance_counts _); [|done]. by intros [= <-].
Qed.

(** The assignments of [apply_load_plan]. *)
Lemma apply_plan_effect plan rt rt' :
  apply_load_plan plan rt = Done (rt', Ok tt) →
  cr_load_plan rt' = plan ∧ cr_surfaces rt' = plan_contract_surfaces plan
  ∧ cr_handler_bindings rt' = from_load_plan plan ∧ cr_protocol_classes rt' = protocol_classes_for_plan plan
  ∧ cr_draining_generations rt' = cr_draining_generations rt
  ∧ tp_tasks (cr_tasks rt')
    = rebind_record (plan_registry_generation (cr_load_plan rt)) (plan_registry_generation plan)
        <$> tp_tasks (cr_tasks rt).
Proof.
  unfold apply_load_plan. intros ([] & rt1 & [= <-] & H)%bind_ok.
  do 4 (apply bind_ok in H as ([] & ? & [= <-] & H)). by injection H as <-.
Qed.

Lemma activated_same rt rt' :
  set_active_generation_states rt = Done (rt', Ok tt) →
  rt' = set_cr_generation_states (cr_generation_states rt') rt.
Proof. by intros [= <-]. Qed.

Lemma check_bind {A B} (f : CoreRuntime → RuntimeResult A) (k : A → M B) rt :
  (check f ≫= k) rt = match f rt with Ok a => k a rt | Err e => Done (rt, Err e) end.
Proof. unfold mbind, M_bind, check. by destruct (f rt). Qed.

(** From the state the checks leave to the one a successful reload returns in. *)
Lemma switch_switched plan registry old ids dispositions (decision decision' : ReloadDecision) rt rt1 rt' :
  reg_generation registry = plan_registry_generation plan → held rt rt1 →
  old = plan_registry_generation (cr_load_plan rt) →
  (_ ← settle_invocations dispositions;
   old_registry ← take_registry;
   _ ← (if existsb must_drain dispositions then
          plugin_ids ← ask (λ rt, list_to_set (pm_plugin_id <$> plan_plugins (cr_load_plan rt)));
          push_draining (mkDrainingGeneration old ids plugin_ids old_registry)
        else
          _ ← check (λ _, (dispose_all old_registry).2);
          mark_generation_phase old PhaseDisposed);
   _ ← record_swap plan;
   _ ← apply_load_plan plan;
   _ ← modify (set_cr_registry registry);
   _ ← set_active_generation_states;
   _ ← settle_draining_generations;
   mret decision) rt1 = Done (rt', Ok decision') →
  decision' = decision ∧ switched plan registry rt rt'.
Proof.
  intros Hreg Hh Hold ([] & rt2 & H2 & H)%bind_ok.
  apply holding_settle in H2; [|apply Hh]. pose proof (held_trans _ _ _ Hh H2) as Hh2.
  apply bind_ok in H as (old_registry & rt3 & H3 & H). apply holding_take in H3; [|apply Hh2].
  pose proof (held_trans _ _ _ Hh2 H3) as Hh3.
  apply bind_ok in H as ([] & rt4 & H4 & H). rewrite Hold, <- (he_plan _ _ Hh3) in H4.
  apply retire_held in H4; [|apply Hh3]. pose proof (held_trans _ _ _ Hh3 H4) as Hh4.
  apply bind_ok in H as ([] & rt5 & H5 & H). apply holding_event in H5; [|apply Hh4].
  destruct (held_trans _ _ _ Hh4 H5) as [Hp Hs _ Ht Hd].
  apply bind_ok in H as ([] & rt6 & (A1 & A2 & A3 & A4 & A5 & A6)%apply_plan_effect & H).
  apply bind_ok in H as ([] & rt7 & [= <-] & H). apply bind_ok in H as ([] & rt8 & Hact & H).
  apply bind_ok in H as (bag & rt9 & [Heq Hst]%settle_settled & [= <- <-]). split; [done|].
  rewrite Heq in *. clear Heq. pose proof (active_states _ _ Hact) as [Ha1 Ha2].
  apply activated_same in Hact. rewrite Hact in *. simpl in *. rewrite A1 in *. rewrite A5 in Hst.
  split; simpl; [done|done|done|done|done| | | |].
  - intros x. rewrite A6, Hp, lookup_fmap.
    destruct (Ht x) as [->|(r & Hr & Hrun & ->)]; [by left|right]. by exists r.
  - intros s (i & Hi)%list_elem_of_lookup Hph.
    destruct (Forall2_lookup_r _ _ _ _ _ Hst Hi) as (s0 & Hs0 & _ & Hgen & Hph').
    rewrite Hgen. apply Ha1; [by eapply list_elem_of_lookup_2|]. destruct Hph' as [<-|[? _]]; [done|congruence].
  - intros [Hf1 Hf2] s (i & Hi)%list_elem_of_lookup Hg.
    destruct (Forall2_lookup_r _ _ _ _ _ Hst Hi) as (s0 & Hs0 & _ & Hgen & [->|[_ Hin]]).
    + apply Ha1; [by eapply list_elem_of_lookup_2|congruence].
    + apply list_elem_of_fmap in Hin as (d & Hd0 & Hin). exfalso.
      destruct (Hd d Hin) as [Hdr|Hdr]; [apply (Hf2 d Hdr)|apply Hf1]; congruence.
  - intros plugin Hpl. destruct (Ha2 plugin Hpl) as (s & (i & Hi)%list_elem_of_lookup & Hid & Hgen).
    destruct (Forall2_lookup_l _ _ _ _ _ Hst Hi) as (s' & Hs' & Hid' & Hgen' & _).
    exists s'. split_and!; [by eapply list_elem_of_lookup_2|congruence|congruence].
Qed.

(** C7: a reload switches or is refused.  When one of the checks fails (the plan, the
    compatibility of its surfaces, the new instances), the error comes back and nothing has
    changed.  When the reload succeeds, no change was breaking; the plan, the surfaces, the
    handler bindings and the protocol classes are those of the new plan and the registry is
    the one built from the new instances; every task that was ready in the old generation is
    ready in the new one, running tasks run on or are put back in the queue, and no other
    task changed; every plugin of the plan has a state at the new generation, no state of
    another generation is active, and if the number of the generation is new, all states of
    it are. *)
Theorem reload_switches_or_is_refused rt plan l handlers :
  rt_reachable rt →
  match preflight plan l handlers rt with
  | Err e => reload_with_async_handlers plan l handlers rt = Done (rt, Err e)
  | Ok (decision, registry) =>
      rld_blocked decision = false
      ∧ ∀ rt' decision', reload_with_async_handlers plan l handlers rt = Done (rt', Ok decision') →
          decision' = decision ∧ switched plan registry rt rt'
  end.
Proof.
  intros Hrt%rt_reachable_wf. unfold preflight, reload_with_async_handlers. cbv zeta. rewrite check_bind.
  destruct (validate_runtime_descriptors _ _) as [[]|e]; [|done]. rewrite check_bind.
  destruct (decide_reload plan rt) as [decision|e] eqn:Hdec; [|done]. rewrite check_bind.
  destruct (build_registry _ l handlers) as [registry|e] eqn:Hreg; [|done].
  apply build_registry_generation in Hreg. split.
  { revert Hdec. unfold decide_reload. destruct (compare_surfaces _ _ _) as [d|]; [|done].
    destruct (rld_blocked d) eqn:Hb; [done|]. by intros [= <-]. }
  intros rt' decision' ([] & rt1 & H1 & H)%bind_ok.
  assert (held rt rt1) as Hh by (injection H1 as <-; apply held_refl; try done; apply Hrt).
  apply bind_ok in H as (old & rt2 & [= <- Hold] & H). apply bind_ok in H as (ds & rt2 & [= <- _] & H).
  apply bind_ok in H as (ids & rt2 & [= <- _] & H).
  eapply switch_switched; [exact Hreg|exact Hh| |exact H].
  by rewrite <- Hold, (he_plan _ _ Hh).
Qed.

End reloads.

(** ** A reload of the sample runtime *)

Lemma reload_switches_or_is_refused_witness :
  ∃ rt' decision, reload_with_async_handlers (demo_runtime_plan 2) (demo_instances 2) [] booted
    = Done (rt', Ok decision)
    ∧ (∃ registry, switched (demo_runtime_plan 2) registry booted rt')
    ∧ fresh_generation (demo_runtime_plan 2) booted.
Proof.
  pose proof (reload_switches_or_is_refused booted (demo_runtime_plan 2) (demo_instances 2) [] booted_reachable) as H.
  assert (is_ok (preflight (demo_runtime_plan 2) (demo_instances 2) [] booted) = true) as Hok
    by (vm_compute; reflexivity).
  destruct (preflight _ _ _ _) as [[decision registry]|e]; [|discriminate Hok]. destruct H as [_ H].
  assert (match reload_with_async_handlers (demo_runtime_plan 2) (demo_instances 2) [] booted with
          | Done (_, Ok _) => true | _ => false end = true) as Hrun by (vm_compute; reflexivity).
  destruct (reload_with_async_handlers _ _ _ booted) as [[rt' [decision'|e]]|]; [|discriminate Hrun..].
  exists rt', decision'. split; [reflexivity|].
  split; [exists registry; exact (proj2 (H rt' decision' eq_refl))|]. split; [vm_compute; discriminate|].
  assert (cr_draining_generations booted = []) as Hd by (vm_compute; reflexivity).
  intros d Hin. rewrite Hd in Hin. destruct (not_elem_of_nil _ Hin).
Defined.

(** ** Errors after the checks are not undone *)

(** [m1] runs on the only instance of plugin [beta]. *)
Definition mail_running : CoreRuntime :=
  after_ops [OpSubmitTask (demo_task "m1" "mail"); OpClaimAtStep take_queued 1 (Some 11%N)] booted.

(** The registry after a call, and the code of its error. *)
Definition registry_after (o : outcome (CoreRuntime * RuntimeResult ReloadDecision))
    : option (string * list RunnerId * N) :=
  match o with
  | Done (rt, Err e) => Some (err_route e, runner_ids (cr_registry rt), reg_generation (cr_registry rt))
  | _ => None
  end.

(** A targeted reload of plugin [alpha] takes the registry out of the runtime, finds that
    the instance of the unaffected plugin [beta] is lent out to a running dispatch, and
    returns early: the runtime is left with an empty registry. *)
Lemma targeted_reload_loses_the_registry :
  runner_ids (cr_registry mail_running) = ["core.kernel"; "runner-a"; "runner-b"]
  ∧ registry_after (reload_targeted_with_async_handlers
      (demo_plan 2 [kernel_manifest; echo_manifest 2; mail_manifest 2]) [echo_runner 2] [] {["alpha"]} mail_running)
    = Some ("runner.runner-b.instances.0.expected.1", [], 0%N).
Proof. split; vm_compute; reflexivity. Qed.

(** A reload while a clean invocation runs on a lent instance asks the registry to cancel
    on an instance it does not hold: the reload fails, and the shadow states of the new
    generation stay. *)
Lemma reload_cannot_cancel_a_lent_instance :
  registry_after (reload_with_runners (demo_runtime_plan 2) (demo_instances 2) mail_running)
    = Some ("runner.cancel.runner-b", ["core.kernel"; "runner-a"; "runner-b"], 1%N)
  ∧ match reload_with_runners (demo_runtime_plan 2) (demo_instances 2) mail_running with
    | Done (rt, _) => gs_phase <$> cr_generation_states rt
    | Panic _ => []
    end = [PhaseActive; PhaseActive; PhaseActive; ShadowStarting; ShadowStarting; ShadowStarting].
Proof. split; vm_compute; reflexivity. Qed.

(** [settle_draining_generations] empties the list before it disposes: when one of the
    drained generations cannot be disposed of, those still running are dropped too. *)
Definition stuck_generation : DrainingGeneration :=
  mkDrainingGeneration 8 ["runner-x"] {["gamma"]}
    (freeze 8 (register (demo_runner "runner-x" "gamma" 8 ["echo"] Pure Cpu) RunnerRegistry_default).1).
Definition running_generation : DrainingGeneration :=
  mkDrainingGeneration 9 ["runner-b"] {["beta"]} RunnerRegistry_default.

Lemma failed_dispose_drops_running_generations :
  let rt := set_cr_draining_generations [stuck_generation; running_generation] mail_running in
  still_running (cr_tasks rt) running_generation = true
  ∧ match settle_draining_generations rt with
    | Done (rt', Err e) => Some (err_code e, length (cr_draining_generations rt'))
    | _ => None
    end = Some ("runner.stuck", 0%nat).
Proof. split; vm_compute; reflexivity. Qed.

(** ** A finished kernel task wakes nobody *)

Definition commit_child : Task :=
  Task_new "c1" "core.commit" (PayloadLocal (mkLocalPayload (BodyDelta "counter" 0 "one" Merge) None)).
Definition commit_await : TaskAwait :=
  mkTaskAwait "m1" (mkTaskHandle "c1" "core.commit" None Cascade None None) (ta_continuation sample_await) Cascade.

(** [m1] waits for a commit it handed in. *)
Definition waiting_for_commit : CoreRuntime :=
  after_ops [OpCompleteDispatch (completion_with mail_running "m1" (Some (mail_runner 1))
    (mkRunnerResult "m1" None [] [] [commit_child] [] [] [] (Some commit_await) StatusWaiting))] mail_running.

(** The commit completes, but [process_kernel_tasks] does not call
    [wake_tasks_waiting_on] on success: the parent waits for ever. *)
Lemma kernel_success_does_not_wake :
  task_statuses waiting_for_commit ["m1"; "c1"] = [Some Waiting; Some Ready]
  ∧ task_statuses (after_ops [OpTickOnce; OpTickOnce; OpTickOnce] waiting_for_commit) ["m1"; "c1"]
    = [Some Waiting; Some Completed].
Proof. split; vm_compute; reflexivity. Qed.

(** ** A deferred dispatch forgets its cancellation *)

Definition mail_dispatch : list RunnerDispatch :=
  match claim_with take_queued 1 (Some 11%N) (after_ops [OpSubmitTask (demo_task "m1" "mail")] booted) with
  | Done (_, Ok (_, _, dispatches)) => dispatches
  | _ => []
  end.

(** The task was asked to cancel while it ran; giving the dispatch back makes it ready
    again and drops the request. *)
Lemma deferring_forgets_the_cancellation :
  let cancel := OpCancelTask (mkTaskHandle "m1" "mail" None Cascade None None) in
  let rt := after_ops [cancel] mail_running in
  let rt' := after_ops (OpDeferDispatch <$> mail_dispatch) rt in
  cancellation_requested (cr_tasks rt) "m1" = true
  ∧ task_statuses rt' ["m1"] = [Some Ready]
  ∧ cancellation_requested (cr_tasks rt') "m1" = false.
Proof. repeat split; vm_compute; reflexivity. Qed.
