(* ===== verification/CancelTargets.v ===== *)
(** * CancelTargets: who must be told about a cancellation

    [task_cancellation_targets] walks the wait links with an explicit work list.  The walk
    ends, and it finds the tasks the links reach. *)
From S2P Require Import Prelude Floats Contracts StateStore Resources Logs ResourceManager.
From S2P Require Import TaskIndexes TaskPool TaskClaiming TaskPoolInv Plugins Batches WorkBatches.
From S2P Require Import Registry PlanChecks Runtime ResultRouting RunnerLoop Reload RuntimeInv.
From S2P Require Import RuntimeOps RuntimeSamples.

Section targets.
Context {serde : Serde} {dec : Decode} {runners : RunnerTrait}.
Implicit Types (p : TaskPool) (x y : TaskId) (visited : gset TaskId).

(** [y] is a task [x] waits for and whose cancellation follows its own. *)
Definition cascades p x y : Prop :=
  ∃ a, a ∈ awaits_for_parent p x ∧ ta_cancel_policy a = Cascade ∧ th_task_id (ta_child a) = y.

Definition owner_of p x : option RunnerId := record ← pool_get p x; rec_owner_runner record.

Definition children_of p x : list TaskId :=
  (λ task_await, th_task_id (ta_child task_await))
    <$> filter (λ task_await, ta_cancel_policy task_await = Cascade) (awaits_for_parent p x).

Lemma elem_of_children p x y : y ∈ children_of p x ↔ cascades p x y.
Proof.
  unfold children_of, cascades. rewrite list_elem_of_fmap. split.
  - intros (a & -> & [? ?]%list_elem_of_filter). eauto.
  - intros (a & ? & ? & <-). exists a. split; [done|]. by apply list_elem_of_filter.
Qed.

(** ** The links left to follow *)

Definition links (m : gmap TaskId (list TaskAwait)) : nat := length (concat (map_to_list m).*2).

Definition unseen p visited : gmap TaskId (list TaskAwait) :=
  filter (λ kv, kv.1 ∉ visited) (tp_waits_by_parent p).

Lemma links_insert m x l : m !! x = None → links (<[x := l]> m) = (length l + links m)%nat.
Proof.
  intros Hx. unfold links. rewrite (map_to_list_insert m x l Hx). simpl. by rewrite length_app.
Qed.

Lemma unseen_step p x visited :
  x ∉ visited →
  links (unseen p visited) = (length (awaits_for_parent p x) + links (unseen p ({[x]} ∪ visited)))%nat.
Proof.
  intros Hx. unfold awaits_for_parent. destruct (tp_waits_by_parent p !! x) as [l|] eqn:Hl; simpl.
  - rewrite <- links_insert with (x := x).
    + f_equal. unfold unseen. apply map_eq. intros y. rewrite lookup_insert. case_decide as Hy; [subst y|].
      * by apply map_lookup_filter_Some.
      * rewrite !map_lookup_filter. destruct (tp_waits_by_parent p !! y); [|done]. simpl.
        repeat case_guard; set_solver.
    + apply map_lookup_filter_None. right. simpl. set_solver.
  - f_equal. unfold unseen. apply map_filter_ext. intros y l Hy. simpl.
    assert (y ≠ x) by congruence. set_solver.
Qed.

Lemma links_all p : links (unseen p ∅) = length (concat (map_to_list (tp_waits_by_parent p)).*2).
Proof. unfold unseen, links. rewrite map_filter_id; [done|]. intros y l _. simpl. set_solver. Qed.

(** ** The walk *)

Record walked p (root : TaskId) (pending : list TaskId) visited (targets : list (TaskId * RunnerId))
    : Prop := {
  w_pending : ∀ x, x ∈ pending → rtc (cascades p) root x;
  w_visited : ∀ x, x ∈ visited → rtc (cascades p) root x;
  w_root : root ∈ visited ∨ root ∈ pending;
  w_closed : ∀ x y, x ∈ visited → cascades p x y → y ∈ visited ∨ y ∈ pending;
  w_targets : ∀ x runner_id, (x, runner_id) ∈ targets ↔ x ∈ visited ∧ owner_of p x = Some runner_id;
  w_nodup : NoDup targets;
}.

Lemma walked_skip p root pending visited targets x :
  walked p root (pending ++ [x]) visited targets → x ∈ visited → walked p root pending visited targets.
Proof.
  intros [Hp Hv Hr Hc Ht Hn] Hx. split; [|done| | |done|done].
  - intros y Hy. apply Hp, elem_of_app. by left.
  - rewrite elem_of_app, list_elem_of_singleton in Hr. naive_solver.
  - intros y z Hy Hyz. specialize (Hc y z Hy Hyz). rewrite elem_of_app, list_elem_of_singleton in Hc. naive_solver.
Qed.

Definition add_target p x (targets : list (TaskId * RunnerId)) : list (TaskId * RunnerId) :=
  match owner_of p x with Some runner_id => targets ++ [(x, runner_id)] | None => targets end.

Lemma walked_visit p root pending visited targets x :
  walked p root (pending ++ [x]) visited targets → x ∉ visited →
  walked p root (pending ++ children_of p x) ({[x]} ∪ visited) (add_target p x targets).
Proof.
  intros [Hp Hv Hr Hc Ht Hn] Hx.
  assert (rtc (cascades p) root x) as Hrx by (apply Hp, elem_of_app; right; by left).
  assert (∀ y, y ∈ pending ++ [x] ↔ y ∈ pending ∨ y = x) as Hlast
    by (intros y; by rewrite elem_of_app, list_elem_of_singleton).
  split.
  - intros y [Hy|Hy%elem_of_children]%elem_of_app; [apply Hp, Hlast; by left|by eapply rtc_r].
  - intros y [->%elem_of_singleton|Hy]%elem_of_union; [done|by apply Hv].
  - rewrite Hlast in Hr. rewrite elem_of_app. set_solver.
  - intros y z [->%elem_of_singleton|Hy]%elem_of_union Hyz.
    + right. apply elem_of_app. right. by apply elem_of_children.
    + specialize (Hc y z Hy Hyz). rewrite Hlast in Hc. rewrite elem_of_app. set_solver.
  - intros y rid. rewrite elem_of_union, elem_of_singleton. unfold add_target.
    destruct (owner_of p x) as [r|] eqn:Ho; [rewrite elem_of_app, list_elem_of_singleton|]; rewrite Ht; naive_solver.
  - unfold add_target. destruct (owner_of p x) as [r|]; [|done]. apply NoDup_app. split_and!; [done| |apply NoDup_singleton].
    intros [y rid] [Hy _]%Ht [= -> ->]%list_elem_of_singleton. done.
Qed.

Lemma targets_loop_walked p root fuel : ∀ pending visited targets,
  walked p root pending visited targets → (length pending + links (unseen p visited) ≤ fuel)%nat →
  ∃ visited' targets', targets_loop fuel p pending visited targets = Done targets'
    ∧ walked p root [] visited' targets'.
Proof.
  induction fuel as [|fuel IH]; intros pending visited targets Hw Hfuel.
  { destruct pending; [|simpl in Hfuel; lia]. by exists visited, targets. }
  destruct (last pending) as [x|] eqn:Hlast.
  - apply last_Some in Hlast as [l ->]. cbn [targets_loop]. rewrite last_snoc, removelast_last.
    rewrite length_app in Hfuel. simpl in Hfuel. case_decide as Hx.
    + apply IH; [by eapply walked_skip|lia].
    + fold (owner_of p x). fold (children_of p x). apply IH; [by apply walked_visit|].
      rewrite (unseen_step p x visited Hx) in Hfuel. rewrite length_app.
      assert (length (children_of p x) ≤ length (awaits_for_parent p x))%nat; [|lia].
      unfold children_of. rewrite length_fmap. apply length_filter.
  - apply last_None in Hlast as ->. cbn [targets_loop last]. by exists visited, targets.
Qed.

#[local] Instance pair_order_total : TotalCmp pair_order.
Proof. apply cmp_then_total; [apply (cmp_on_total fst)|apply (cmp_on_total snd)]; apply _. Qed.

(** C29: the targets of a cancellation.  The walk over the wait links ends, also when tasks
    wait for each other, and it lists exactly the owned tasks that the task reaches over
    links with the cascade policy, the task itself included, each once with its runner and
    in order of their ids. *)
Theorem cancellation_targets_are_exact rt handle :
  ∃ targets, task_cancellation_targets handle rt = Done targets
    ∧ NoDup targets
    ∧ StronglySorted (cmp_le pair_order) targets
    ∧ ∀ x runner_id, (x, runner_id) ∈ targets ↔
        rtc (cascades (cr_tasks rt)) (th_task_id handle) x
        ∧ owner_of (cr_tasks rt) x = Some runner_id.
Proof.
  set (p := cr_tasks rt). set (root := th_task_id handle).
  destruct (targets_loop_walked p root (targets_fuel p) [root] ∅ []) as (visited & l & Hrun & [_ Hv Hr Hc Ht Hn]).
  - split; [| |right; by left| | |constructor].
    + by intros x ->%list_elem_of_singleton.
    + set_solver.
    + set_solver.
    + intros x rid. split; [by intros ?%not_elem_of_nil|set_solver].
  - unfold targets_fuel. rewrite links_all. simpl. lia.
  - exists (sort_by pair_order l). unfold task_cancellation_targets. fold p root. rewrite Hrun.
    cbn [mbind outcome_bind]. split; [done|]. split; [by rewrite sort_by_Permutation|].
    split; [apply sort_by_sorted; apply _|]. intros x rid. rewrite sort_by_Permutation, Ht.
    assert (x ∈ visited ↔ rtc (cascades p) root x) as ->; [|done]. split; [apply Hv|].
    intros Hreach. eapply (rtc_ind_r (λ y, y ∈ visited)); [|clear Hreach|exact Hreach].
    + by destruct Hr as [|Hr%not_elem_of_nil].
    + intros y z _ Hyz Hy. by destruct (Hc y z Hy Hyz) as [|Hz%not_elem_of_nil].
Qed.

End targets.

(** [t1] waits for [c1]; nobody owns them yet, [m1] runs on its own. *)
Lemma cancellation_targets_example :
  task_cancellation_targets (mkTaskHandle "m1" "mail" None Cascade None None) awaiting_runtime
  = Done [("m1", "runner-b")].
Proof. vm_compute. reflexivity. Qed.
