(* ===== verification/RuntimeTheorems.v ===== *)
(** * RuntimeTheorems: what the composed runtime guarantees

    Stated for every runtime reached from a boot by the operations of [RuntimeOps]. *)
From S2P Require Import Prelude Floats Contracts StateStore Resources Logs ResourceManager.
From S2P Require Import TaskIndexes TaskPool TaskClaiming TaskPoolInv TaskHistory TaskStates.
From S2P Require Import TaskPoolSafety TaskPoolSweep TaskCandidates TaskSelection TaskLeasing TaskPoolOps.
From S2P Require Import TaskPoolCalm ResourceInv Plugins Batches WorkBatches Registry PlanChecks.
From S2P Require Import RegistryTheorems Runtime ResultRouting RunnerLoop Reload RuntimeInv RuntimeCancel.
From S2P Require Import RuntimeOps RuntimeSamples CompletionTheorems ReloadTheorems.

Section theorems.
Context {serde : Serde} {dec : Decode} {runners : RunnerTrait}.
Implicit Types (rt : CoreRuntime).

(** C1: no operation corrupts the runtime.  Whatever sequence of calls led to it, with
    whatever answers of the runners and the scheduler, a call returns a runtime whose task
    pool, registries (active and draining) and resource manager satisfy their invariants
    and whose pending cancellations all belong to running tasks; the only panics are the
    task map being full, the JSON of a local payload that does not serialize, and, in a
    scheduling pass, a buffer of more than [isize::MAX] bytes for the selected ids, which
    takes a schedule decision for more than 3.8e17 entries (a tick asks for what is
    queued). *)
Theorem runtime_is_never_corrupted rt op :
  rt_reachable rt → op_fits op → ids_left (cr_resources rt) →
  match runtime_op op rt with
  | Done (rt', _) =>
      pool_wf (cr_tasks rt')
      ∧ (∀ y, is_Some (tp_pending_cancellations (cr_tasks rt') !! y) →
           ∃ r, tp_tasks (cr_tasks rt') !! y = Some r ∧ rec_status r = Running)
      ∧ reg_wf (cr_registry rt')
      ∧ Forall (λ d, reg_wf (dg_registry d)) (cr_draining_generations rt')
      ∧ rm_wf (cr_resources rt')
  | Panic message =>
      message = CAPACITY_OVERFLOW ∨ message = UNSERIALIZABLE
      ∨ (message = VEC_CAPACITY_OVERFLOW ∧ oversized_op op)
  end.
Proof.
  intros Hrt Hfit Hids. pose proof (runtime_op_ok op rt (rt_reachable_wf _ Hrt) Hfit Hids) as Hok.
  unfold ok_at in Hok. destruct (runtime_op op rt) as [[rt' res]|message]; [by destruct Hok as [[] _]|].
  destruct Hok as [[?|?]|[? ?]]; auto.
Qed.

(** C6: cancelling a task ends.  The recursion over wait links returns whatever the links
    look like, also when tasks wait for each other; it changes no committed state, opens
    no task that was closed, and when it succeeds the task and every task it waited for
    is terminal, gone, or runs with a cancellation request its runner must honour. *)
Theorem cancellation_cascade_terminates rt handle :
  rt_reachable rt →
  ∃ rt' res, cancel_task_handle handle rt = Done (rt', res)
    ∧ cr_states rt' = cr_states rt
    ∧ open_tasks (tp_tasks (cr_tasks rt')) ⊆ open_tasks (tp_tasks (cr_tasks rt))
    ∧ (is_ok res = true →
         stopped (cr_tasks rt') (th_task_id handle)
         ∧ ∀ a, a ∈ awaits_for_parent (cr_tasks rt) (th_task_id handle) →
             stopped (cr_tasks rt') (await_child a)).
Proof.
  intros Hwf%rt_reachable_wf. set (x := th_task_id handle).
  destruct (cancel_cascade_ok (panics := λ _, False) (S (size (tp_tasks (cr_tasks rt)))) x rt Hwf)
    as [Hok Hgives]; [apply Nat.lt_succ_r, open_size|].
  unfold ok_at in Hok. change (cancel_task_handle handle rt)
    with (cancel_cascade (S (size (tp_tasks (cr_tasks rt)))) x rt).
  destruct (cancel_cascade _ x rt) as [[rt' res]|] eqn:Hrun; [|done]. destruct Hok as [Hwf' [Ho _ Hst _]].
  exists rt', res. split_and!; [done..|]. destruct res as [[]|]; [|done]. intros _. by apply (Hgives rt' tt).
Qed.

(** C13: runners do not write state.  Accepting the results of a dispatch, whatever they
    are, leaves every committed state, resource, the plan and the clock as they were and
    starts no task: each task that runs afterwards ran before, under the same lease.
    State deltas are only queued, as tasks for the kernel. *)
Theorem completions_commit_nothing rt completion rt' res :
  rt_reachable rt → complete_runner_dispatch completion rt = Done (rt', res) →
  cr_states rt' = cr_states rt ∧ cr_resources rt' = cr_resources rt
  ∧ cr_load_plan rt' = cr_load_plan rt ∧ cr_current_step rt' = cr_current_step rt
  ∧ ∀ x r, tp_tasks (cr_tasks rt') !! x = Some r → rec_status r = Running →
      tp_tasks (cr_tasks rt) !! x = Some r.
Proof.
  intros Hwf%rt_reachable_wf Hrun. pose proof (complete_dispatch_routed completion rt Hwf) as Hok.
  unfold ok_at in Hok. rewrite Hrun in Hok. destruct Hok as [_ [[Hc ? ? ? ? ?] ?]].
  split_and!; [done..|apply Hc].
Qed.

(** C12: the way to a stop is one way.  No operation takes the runtime from draining back
    to running or out of the aborted state, and once it is aborted no operation starts a
    task: whatever runs afterwards ran before, under the same lease. *)
Theorem lifecycle_is_one_way rt op rt' res :
  rt_reachable rt → op_fits op → ids_left (cr_resources rt) → runtime_op op rt = Done (rt', res) →
  (stop_rank (cr_stop_state rt) ≤ stop_rank (cr_stop_state rt'))%nat
  ∧ (cr_stop_state rt = StopAborted →
       ∀ x r, tp_tasks (cr_tasks rt') !! x = Some r → rec_status r = Running →
         tp_tasks (cr_tasks rt) !! x = Some r).
Proof.
  intros Hwf%rt_reachable_wf Hfit Hids Hrun. split.
  - pose proof (runtime_op_ok op rt Hwf Hfit Hids) as Hok. unfold ok_at in Hok. rewrite Hrun in Hok. apply Hok.
  - intros Hab. destruct (claims op) eqn:Hcl.
    + enough (rt' = rt) as -> by done. destruct op; try discriminate Hcl.
      2: destruct max_ticks as [|n]; [by injection Hrun|].
      all: rewrite (aborted_refuses _ rt Hcl Hab) in Hrun; [by injection Hrun|done].
    + pose proof (runtime_op_steady op rt Hwf Hids Hcl) as Hok. unfold ok_at in Hok. rewrite Hrun in Hok.
      apply Hok.
Qed.

Lemma status_count_zero status tasks :
  status_count status tasks = 0%nat ↔ ∀ x r, tasks !! x = Some r → rec_status r ≠ status.
Proof.
  unfold status_count. rewrite map_size_empty_iff, map_empty_filter. done.
Qed.

(** C30: [is_drained] is exact.  It answers yes for a draining runtime precisely when no
    task is ready, running, waiting or blocked, and such a runtime refuses every new
    submission without changing. *)
Theorem is_drained_is_exact rt :
  rt_reachable rt →
  (is_drained rt = true ↔ cr_stop_state rt = StopDraining ∧ open_tasks (tp_tasks (cr_tasks rt)) = ∅)
  ∧ (is_drained rt = true → ∀ batch,
       submit_batch batch rt
       = Done (rt, Err (runtime_failure ERR_RUNTIME_NOT_ACCEPTING "runtime.lifecycle" "runtime.submit"))).
Proof.
  intros Hwf%rt_reachable_wf. pose proof (rt_tasks _ Hwf) as Hp.
  assert (∀ status, status ≠ Created → status_counter status (tp_statistics (cr_tasks rt)) = 0%N ↔
    ∀ x r, tp_tasks (cr_tasks rt) !! x = Some r → rec_status r ≠ status) as Hz.
  { intros status Hc. rewrite (wf_stats _ _ _ _ _ Hp status Hc), <- status_count_zero. lia. }
  pose proof (Hz Ready ltac:(done)) as H1. pose proof (Hz Running ltac:(done)) as H2.
  pose proof (Hz Waiting ltac:(done)) as H3. pose proof (Hz Blocked ltac:(done)) as H4. simpl in H1, H2, H3, H4.
  unfold is_drained. rewrite !andb_true_iff, !bool_decide_eq_true, H1, H2, H3, H4. split.
  - split.
    + intros [[[[Hs Ha] Hb] Hc] Hd]. split; [done|]. apply set_eq. intros x. rewrite elem_of_open.
      split; [|set_solver]. intros (r & Hr & Ht). exfalso.
      pose proof (wf_rec_created _ _ (wf_records _ _ _ _ _ Hp x r Hr)).
      destruct (rec_status r) eqn:E; try done; [eapply Ha|eapply Hb|eapply Hc|eapply Hd]; done.
    + intros [Hs Hempty]. assert (∀ x r, tp_tasks (cr_tasks rt) !! x = Some r →
        is_terminal_status (rec_status r) = true) as Hall.
      { intros x r Hr. destruct (is_terminal_status (rec_status r)) eqn:Ht; [done|].
        assert (x ∈ open_tasks (tp_tasks (cr_tasks rt))) by (apply elem_of_open; eauto). set_solver. }
      split_and!; [done|..]; intros x r Hr E; specialize (Hall x r Hr); by rewrite E in Hall.
  - intros [[[[Hs _] _] _] _] batch. unfold submit_batch, mbind, M_bind, check, ensure_accepting_external_tasks.
    by rewrite Hs.
Qed.

(** ** Submitting *)

Lemma find_duplicate_none p tasks : ∀ seen,
  find_duplicate p tasks seen = None →
  NoDup (t_task_id <$> tasks)
  ∧ ∀ task, task ∈ tasks → (t_task_id task ∉ seen) ∧ contains_task_id p (t_task_id task) = false.
Proof.
  induction tasks as [|t tasks IH]; intros seen; simpl; [split; [constructor|by intros ? ?%not_elem_of_nil]|].
  destruct (bool_decide (_ ∈ _) || _) eqn:Hd; [done|]. apply orb_false_iff in Hd as [Hs%bool_decide_eq_false Hc].
  intros [Hnd Hall]%IH. split.
  - csimpl. constructor; [|done]. intros (t' & Heq & Ht')%list_elem_of_fmap.
    destruct (Hall t' Ht') as [Hn _]. apply Hn. rewrite <- Heq. set_solver.
  - intros t' [-> | Ht']%elem_of_cons; [done|]. destruct (Hall t' Ht') as [Hn ?]. split; [set_solver|done].
Qed.

Lemma find_duplicate_some p tasks : ∀ seen id,
  find_duplicate p tasks seen = Some id →
  ¬ (NoDup (t_task_id <$> tasks)
     ∧ ∀ task, task ∈ tasks → (t_task_id task ∉ seen) ∧ contains_task_id p (t_task_id task) = false).
Proof.
  induction tasks as [|t tasks IH]; intros seen id; cbn [find_duplicate]; [done|].
  destruct (bool_decide (_ ∈ _) || _) eqn:Hd.
  - intros _ [_ Hall]. destruct (Hall t) as [Hs Hc]; [by left|].
    apply orb_true_iff in Hd as [?%bool_decide_eq_true|]; [done|congruence].
  - intros Hf%IH [[Hn Hnd]%NoDup_cons Hall]. apply Hf. split; [done|]. intros t' Ht'.
    destruct (Hall t') as [Hs Hc]; [by right|]. split; [|done].
    intros [Heq%elem_of_singleton|?]%elem_of_union; [|done]. apply Hn. rewrite <- Heq. by apply list_elem_of_fmap_2.
Qed.

Lemma enqueue_task_id task rt rt' id : enqueue_task task rt = Done (rt', Ok id) → id = t_task_id task.
Proof.
  unfold enqueue_task. intros ([] & rt1 & _ & H)%bind_ok. apply bind_ok in H as (gen & rt2 & _ & H).
  cbv zeta in H. apply bind_ok in H as (dep & rt3 & _ & H). apply bind_ok in H as (step & rt4 & _ & H).
  apply bind_ok in H as (id' & rt5 & Hq & H). apply bind_ok in H as ([] & rt6 & _ & H).
  apply bind_ok in H as ([] & rt7 & _ & H). apply bind_ok in H as ([] & rt8 & _ & Hend).
  injection Hend as _ <-. revert Hq. unfold tasks_do. case_decide; [done|].
  match goal with |- context [enqueue_at ?p ?t ?s] => destruct (enqueue_at p t s) as [p' res] eqn:He end.
  intros [= _ ->]. revert He. unfold enqueue_at. destruct (contains_task_id _ _); [done|].
  destruct (try_wire_len _); [|done]. intros [= _ <-]. by case_decide.
Qed.

Lemma map_each_Forall2 {A B} (f : A → M B) l : ∀ rt rt' bs,
  map_each l f rt = Done (rt', Ok bs) → Forall2 (λ x b, ∃ r r', f x r = Done (r', Ok b)) l bs.
Proof.
  induction l as [|x l IH]; intros rt rt' bs; cbn [map_each]; [by intros [= _ <-]|].
  intros (b & rt1 & H1 & H)%bind_ok. apply bind_ok in H as (bs' & rt2 & H2 & Hend).
  injection Hend as _ <-. constructor; eauto.
Qed.

(** Reading handles changes nothing. *)
Lemma handles_read ids : ∀ rt rt' handles,
  map_each ids (λ id, check (task_handle_for_id id)) rt = Done (rt', Ok handles) →
  rt' = rt ∧ th_task_id <$> handles = (λ id, default id (t_task_id ∘ rec_task <$> tp_tasks (cr_tasks rt) !! id)) <$> ids
  ∧ ∀ id, id ∈ ids → is_Some (tp_tasks (cr_tasks rt) !! id).
Proof.
  induction ids as [|id ids IH]; intros rt rt' handles; cbn [map_each].
  { intros [= <- <-]. split_and!; [done|done|by intros ? ?%not_elem_of_nil]. }
  intros (h & rt1 & [= <- Hh] & H)%bind_ok. apply bind_ok in H as (hs & rt2 & (-> & Hs & Hall)%IH & Hend).
  injection Hend as <- <-. revert Hh. unfold task_handle_for_id, pool_get.
  destruct (tp_tasks (cr_tasks rt) !! id) as [r|] eqn:Hr; [|done]. intros [= <-].
  split_and!; [done|csimpl; rewrite Hr; simpl; by f_equal|].
  intros x [-> | Hx]%elem_of_cons; [by rewrite Hr|by apply Hall].
Qed.

Lemma submit_stores batch rt rt' handles :
  rt_wf rt → submit_batch batch rt = Done (rt', Ok handles) →
  th_task_id <$> handles = t_task_id <$> tb_tasks batch
  ∧ ∀ task, task ∈ tb_tasks batch → is_Some (tp_tasks (cr_tasks rt') !! t_task_id task).
Proof.
  intros Hwf Hrun. pose proof (submit_batch_routed batch rt Hwf) as Hok. unfold ok_at in Hok. rewrite Hrun in Hok.
  destruct Hok as [Hwf' _]. revert Hrun. unfold submit_batch. intros ([] & rt1 & _ & H)%bind_ok.
  apply bind_ok in H as (dup & rt2 & _ & H). destruct dup; [done|].
  apply bind_ok in H as (ids & rt3 & Hq%map_each_Forall2 & (-> & Hh & Hall)%handles_read).
  assert (ids = t_task_id <$> tb_tasks batch) as ->.
  { clear Hh Hall. induction Hq as [|t id ts ids (r & r' & Heq) _ IH]; csimpl; [done|].
    f_equal; [by eapply enqueue_task_id|done]. }
  split; [|intros task Ht; by apply Hall, list_elem_of_fmap_2].
  rewrite Hh. clear Hh. apply list_eq. intros i. rewrite !list_lookup_fmap.
  destruct (tb_tasks batch !! i) as [task|] eqn:Ht; [|done]. simpl. f_equal.
  destruct (Hall (t_task_id task)) as [r Hr]; [by eapply list_elem_of_fmap_2, list_elem_of_lookup_2|].
  rewrite Hr. simpl. by apply (wf_rec_id _ _ (wf_records _ _ _ _ _ (rt_tasks _ Hwf') _ _ Hr)).
Qed.

(** C14: a batch is refused untouched or stored whole.  A runtime that is stopping, or that
    already knows one of the ids (stored or remembered as evicted) or sees one twice in the
    batch, returns the error and has not changed.  When the submission succeeds, all ids
    were new and distinct, every task of the batch is stored afterwards, and the handles
    name the tasks in the order of the batch. *)
Theorem batches_are_refused_or_stored rt batch :
  rt_reachable rt →
  match ensure_accepting_external_tasks rt, find_duplicate (cr_tasks rt) (tb_tasks batch) ∅ with
  | Err e, _ => submit_batch batch rt = Done (rt, Err e)
  | Ok _, Some id =>
      ¬ (NoDup (t_task_id <$> tb_tasks batch)
         ∧ ∀ task, task ∈ tb_tasks batch → contains_task_id (cr_tasks rt) (t_task_id task) = false)
      ∧ submit_batch batch rt
        = Done (rt, Err (runtime_failure ERR_TASK_DUPLICATE "runtime.task"
                           ("task.batch." +:+ tb_batch_id batch +:+ "." +:+ id)))
  | Ok _, None =>
      NoDup (t_task_id <$> tb_tasks batch)
      ∧ (∀ task, task ∈ tb_tasks batch → contains_task_id (cr_tasks rt) (t_task_id task) = false)
      ∧ ∀ rt' handles, submit_batch batch rt = Done (rt', Ok handles) →
          th_task_id <$> handles = t_task_id <$> tb_tasks batch
          ∧ ∀ task, task ∈ tb_tasks batch → is_Some (tp_tasks (cr_tasks rt') !! t_task_id task)
  end.
Proof.
  intros Hwf%rt_reachable_wf. pose proof (submit_stores batch rt) as Hstores.
  destruct (ensure_accepting_external_tasks rt) as [[]|e] eqn:Ha.
  - destruct (find_duplicate (cr_tasks rt) (tb_tasks batch) ∅) as [id|] eqn:Hd.
    + split; [|unfold submit_batch; rewrite check_bind, Ha; unfold mbind, M_bind, ask; by rewrite Hd].
      intros [Hnd Hall]. apply (find_duplicate_some _ _ _ _ Hd). split; [done|].
      intros task Ht. split; [set_solver|by apply Hall].
    + apply find_duplicate_none in Hd as [Hnd Hall]. split_and!; [done|by intros task [_ ?]%Hall|].
      intros rt' handles H. by apply Hstores.
  - unfold submit_batch. by rewrite check_bind, Ha.
Qed.

End theorems.

(** ** Witnesses *)

Definition is_done {A} (o : outcome A) : bool := match o with Done _ => true | Panic _ => false end.

Lemma runtime_is_never_corrupted_witness :
  match runtime_op OpTickOnce claimed_runtime with
  | Done (rt', _) => pool_wf (cr_tasks rt') ∧ reg_wf (cr_registry rt')
  | Panic _ => False
  end.
Proof.
  pose proof (runtime_is_never_corrupted claimed_runtime OpTickOnce claimed_reachable I) as H.
  assert (ids_left (cr_resources claimed_runtime)) as Hids by (vm_compute; reflexivity). specialize (H Hids).
  assert (is_done (runtime_op OpTickOnce claimed_runtime) = true) as Hd by (vm_compute; reflexivity).
  destruct (runtime_op OpTickOnce claimed_runtime) as [[rt' res]|]; [|discriminate Hd].
  destruct H as (H1 & _ & H2 & _). split; [exact H1|exact H2].
Defined.

Lemma cancellation_cascade_terminates_witness :
  ∃ rt', cancel_task_handle (mkTaskHandle "t1" "echo" None Cascade None None) awaiting_runtime
         = Done (rt', Ok tt)
    ∧ stopped (cr_tasks rt') "t1" ∧ stopped (cr_tasks rt') "c1"
    ∧ task_statuses rt' ["t1"; "t2"; "m1"; "c1"]
      = [Some Cancelled; Some Ready; Some Running; Some Cancelled].
Proof.
  set (h := mkTaskHandle "t1" "echo" None Cascade None None).
  destruct (cancellation_cascade_terminates awaiting_runtime h awaiting_reachable)
    as (rt' & res & Hrun & _ & _ & Hstop).
  assert (match cancel_task_handle h awaiting_runtime with
          | Done (rt', Ok _) => task_statuses rt' ["t1"; "t2"; "m1"; "c1"]
          | _ => []
          end = [Some Cancelled; Some Ready; Some Running; Some Cancelled]) as Hst by (vm_compute; reflexivity).
  rewrite Hrun in Hst. destruct res as [[]|]; [|discriminate Hst]. exists rt'. split; [exact Hrun|].
  destruct (Hstop eq_refl) as [H1 H2]. split; [exact H1|]. split; [|exact Hst].
  assert (awaits_for_parent (cr_tasks awaiting_runtime) (th_task_id h) = [demo_await]) as Ha
    by (vm_compute; reflexivity).
  apply (H2 demo_await). rewrite Ha. apply list_elem_of_here.
Defined.

Lemma completions_commit_nothing_witness :
  cr_states awaiting_runtime = cr_states claimed_runtime
  ∧ tp_tasks (cr_tasks awaiting_runtime) !! "m1" = tp_tasks (cr_tasks claimed_runtime) !! "m1".
Proof.
  set (c := completion_with claimed_runtime "t1" (Some (echo_runner 1)) waiting_result).
  assert (is_done (complete_runner_dispatch c claimed_runtime) = true) as Hok by (vm_compute; reflexivity).
  destruct (complete_runner_dispatch c claimed_runtime) as [[rt' res]|] eqn:Hrun; [|discriminate Hok].
  assert (awaiting_runtime = rt') as ->.
  { unfold awaiting_runtime. fold c. cbn [after_ops runtime_op]. unfold drop_answer, mbind, M_bind.
    rewrite Hrun. destruct res; reflexivity. }
  destruct (completions_commit_nothing claimed_runtime c rt' res claimed_reachable Hrun) as (Hst & _ & _ & _ & Hr).
  split; [exact Hst|].
  assert (match complete_runner_dispatch c claimed_runtime with
          | Done (rt', _) => rec_status <$> tp_tasks (cr_tasks rt') !! "m1" | _ => None end = Some Running) as Hm
    by (vm_compute; reflexivity).
  rewrite Hrun in Hm. destruct (tp_tasks (cr_tasks rt') !! "m1") as [r|] eqn:Hx; [|discriminate Hm].
  symmetry. apply Hr; [exact Hx|]. injection Hm as Hm. exact Hm.
Defined.

(** A drain is requested, then an abort. *)
Definition aborted_runtime : CoreRuntime := after_ops [OpBeginDrain; OpAbort "stop"] claimed_runtime.

Lemma aborted_reachable : rt_reachable aborted_runtime.
Proof. apply fits_reachable; [apply claimed_reachable|vm_compute; reflexivity]. Qed.

Lemma lifecycle_is_one_way_witness :
  ∃ rt' res, runtime_op OpSettleDraining aborted_runtime = Done (rt', res)
    ∧ cr_stop_state rt' = StopAborted
    ∧ (task_status rt' "t1" = Some Running →
         tp_tasks (cr_tasks rt') !! "t1" = tp_tasks (cr_tasks aborted_runtime) !! "t1").
Proof.
  assert (is_done (runtime_op OpSettleDraining aborted_runtime) = true) as Hd by (vm_compute; reflexivity).
  assert (ids_left (cr_resources aborted_runtime)) as Hids by (vm_compute; reflexivity).
  assert (cr_stop_state aborted_runtime = StopAborted) as Hab by (vm_compute; reflexivity).
  destruct (runtime_op OpSettleDraining aborted_runtime) as [[rt' res]|] eqn:Hrun; [|discriminate Hd].
  destruct (lifecycle_is_one_way aborted_runtime OpSettleDraining rt' res aborted_reachable I Hids Hrun) as [Hle Hr].
  exists rt', res. split; [reflexivity|]. split.
  - rewrite Hab in Hle. destruct (cr_stop_state rt'); [simpl in Hle; lia|simpl in Hle; lia|reflexivity].
  - unfold task_status, pool_get. destruct (tp_tasks (cr_tasks rt') !! "t1") as [r|] eqn:Hx; [|discriminate 1].
    intros [= Hst]. symmetry. exact (Hr Hab "t1" r Hx Hst).
Defined.

(** Nothing was submitted before the drain. *)
Definition drained_runtime : CoreRuntime := after_ops [OpBeginDrain] booted.

Lemma drained_reachable : rt_reachable drained_runtime.
Proof. reached. Qed.

Lemma is_drained_is_exact_witness :
  open_tasks (tp_tasks (cr_tasks drained_runtime)) = ∅
  ∧ submit_batch (TaskBatch_one "b" (demo_task "t" "echo")) drained_runtime
    = Done (drained_runtime,
            Err (runtime_failure ERR_RUNTIME_NOT_ACCEPTING "runtime.lifecycle" "runtime.submit")).
Proof.
  assert (is_drained drained_runtime = true) as Hd by (vm_compute; reflexivity).
  destruct (is_drained_is_exact drained_runtime drained_reachable) as [H1 H2].
  split; [exact (proj2 (proj1 H1 Hd))|exact (H2 Hd _)].
Defined.

Lemma batches_are_refused_or_stored_witness :
  submit_batch (mkTaskBatch "b" None [demo_task "t9" "echo"; demo_task "t1" "echo"] None) claimed_runtime
  = Done (claimed_runtime,
          Err (runtime_failure ERR_TASK_DUPLICATE "runtime.task" "task.batch.b.t1"))
  ∧ ∃ rt' handles,
      submit_batch (mkTaskBatch "b" None [demo_task "t9" "echo"; demo_task "t8" "mail"] None) claimed_runtime
      = Done (rt', Ok handles) ∧ th_task_id <$> handles = ["t9"; "t8"].
Proof.
  assert (ensure_accepting_external_tasks claimed_runtime = Ok tt) as Ha by (vm_compute; reflexivity). split.
  - set (batch := mkTaskBatch "b" None [demo_task "t9" "echo"; demo_task "t1" "echo"] None).
    assert (find_duplicate (cr_tasks claimed_runtime) (tb_tasks batch) ∅ = Some "t1") as Hd by (vm_compute; reflexivity).
    pose proof (batches_are_refused_or_stored claimed_runtime batch claimed_reachable) as H.
    rewrite Ha, Hd in H. exact (proj2 H).
  - set (batch := mkTaskBatch "b" None [demo_task "t9" "echo"; demo_task "t8" "mail"] None).
    assert (find_duplicate (cr_tasks claimed_runtime) (tb_tasks batch) ∅ = None) as Hd by (vm_compute; reflexivity).
    pose proof (batches_are_refused_or_stored claimed_runtime batch claimed_reachable) as H.
    rewrite Ha, Hd in H. destruct H as (_ & _ & H).
    assert (match submit_batch batch claimed_runtime with Done (_, Ok _) => true | _ => false end = true) as Hok
      by (vm_compute; reflexivity).
    destruct (submit_batch batch claimed_runtime) as [[rt' [handles|e]]|]; [|discriminate Hok..].
    exists rt', handles. split; [reflexivity|]. exact (proj1 (H rt' handles eq_refl)).
Defined.
